(** * xv6 file system core (kernel/fs.c): a shallow embedding and its properties

    The embedding follows fs.c function by function.  Kernel state (the disk
    seen through the buffer layer, the inode cache, the current directory of
    the running process) is threaded explicitly through a small state and
    error monad; [panic] is a result of its own, and so is going to sleep on
    a busy inode, which in this sequential model never ends.

    Machine integers are [Z] with the wrap-around written out; disk blocks
    and C buffers are lists of bytes; [struct inode *] is the index of a slot
    of [icache.inode]. *)

From Stdlib Require Import ZArith Lia String List.
From stdpp Require Import base list gmap strings.
Open Scope Z_scope.

(** ** Machine integers *)

Definition u32 (x : Z) : Z := x mod 2 ^ 32.
Definition u16 (x : Z) : Z := x mod 2 ^ 16.
Definition u8 (x : Z) : Z := x mod 2 ^ 8.
(** [int] and [short] read back from their two's complement bit pattern. *)
Definition s32 (x : Z) : Z := (x + 2 ^ 31) mod 2 ^ 32 - 2 ^ 31.
Definition s16 (x : Z) : Z := (x + 2 ^ 15) mod 2 ^ 16 - 2 ^ 15.

(** ** In-memory inodes (struct inode of file.h, fields as fs.c uses them) *)

Record inode : Type := mkInode {
  i_dev : Z;          (* uint dev *)
  i_inum : Z;         (* uint inum *)
  i_ref : Z;          (* int ref *)
  i_flags : Z;        (* int flags *)
  i_type : Z;         (* short type *)
  i_major : Z;
  i_minor : Z;
  i_nlink : Z;
  i_size : Z;         (* uint size *)
  i_addrs : list Z    (* uint addrs[NDIRECT+1] *)
}.

(** ** Constants of the missing headers

    fs.c includes param.h, fs.h, file.h and stat.h, none of which is part of
    the sources.  Their constants are parameters of the development; what the
    proofs need of them is collected in [params_ok] below.  The device switch
    table [devsw] is an external collaborator: an entry maps the inode and the
    byte count to the returned value (and the bytes produced). *)

Class Params : Type := {
  BSIZE : Z;        (* bytes per block *)
  NDIRECT : Z;      (* direct addresses per inode *)
  NINDIRECT : Z;    (* addresses per indirect block *)
  MAXFILE : Z;      (* largest file, in blocks *)
  DIRSIZ : Z;       (* width of a directory entry's name *)
  BPB : Z;          (* bitmap bits per block *)
  IPB : Z;          (* inodes per block *)
  NINODE : Z;       (* slots of the inode cache *)
  NDEV : Z;         (* entries of devsw *)
  ROOTDEV : Z;
  ROOTINO : Z;
  T_DIR : Z;
  T_DEV : Z;
  I_BUSY : Z;
  I_VALID : Z;
  devsw_read : Z -> option (inode -> Z -> Z * list Z);
  devsw_write : Z -> option (inode -> list Z -> Z -> Z)
}.

(** ** C strings and buffers *)

(** A [char *] is modelled by the bytes from the pointer on; the byte after
    the last stored one reads as the terminating NUL. *)
Definition deref (p : list Z) : Z := hd 0 p.

Definition slash : Z := 47.

(** [memmove(dst, src, n)] for a source that holds at least [n] bytes. *)
Definition memmove (dst src : list Z) (n : nat) : list Z :=
  take n src ++ drop n dst.

Definition bytes_of_string (s : string) : list Z :=
  map (fun c => Z.of_N (Ascii.N_of_ascii c)) (list_ascii_of_string s).

(** ** Paths: skipelem *)

(** [while( *path == '/') path++;] *)
Fixpoint skip_slashes (path : list Z) : list Z :=
  match path with
  | c :: rest => if c =? slash then skip_slashes rest else path
  | [] => []
  end.

(** [while( *path != '/' && *path != 0) path++;] *)
Fixpoint elem_end (path : list Z) : list Z :=
  match path with
  | c :: rest => if (c =? slash) || (c =? 0) then path else elem_end rest
  | [] => []
  end.

(** [len = path - s] after the second loop of skipelem started at [s]. *)
Definition elem_len (s : list Z) : Z :=
  Z.of_nat (length s) - Z.of_nat (length (elem_end s)).

Section Skipelem.
Context `{Params}.

(** [skipelem(path, name)]: [None] is the null pointer; otherwise the
    returned path and the contents of the buffer [name]. *)
Definition skipelem (path name : list Z) : option (list Z * list Z) :=
  let path := skip_slashes path in
  if deref path =? 0 then None
  else
    let s := path in
    let path := elem_end path in
    let len := elem_len s in
    let name :=
      if len >=? DIRSIZ then memmove name s (Z.to_nat DIRSIZ)
      else <[Z.to_nat len := 0]> (memmove name s (Z.to_nat len)) in
    Some (skip_slashes path, name).

End Skipelem.

(** ** Kernel state and the monad of fs.c *)

(** The calls whose order and number the specification speaks about: the
    spin lock of the cache, [wakeup], and the entries of [itrunc], [iupdate]
    (with the type it stores) and of the decrement [ip->ref--]. *)
Inductive event : Type :=
| EvAcquire
| EvRelease
| EvWakeup (ip : nat)
| EvItrunc (ip : nat)
| EvIupdate (ip : nat) (type : Z)
| EvRefDec (ip : nat).

Record state : Type := mkState {
  disk : gmap (Z * Z) (list Z);  (* (dev, block number) to block contents *)
  icache : list inode;           (* icache.inode[NINODE] *)
  cwd : nat;                     (* proc->cwd *)
  trace : list event
}.

Inductive result (A : Type) : Type :=
| Ok (a : A) (s : state)
| Panic (msg : string) (s : state)
| Sleeps (chan : nat) (s : state)
| OutOfFuel.
Arguments Ok {A} a s.
Arguments Panic {A} msg s.
Arguments Sleeps {A} chan s.
Arguments OutOfFuel {A}.

Definition M (A : Type) : Type := state -> result A.

Definition ret {A} (a : A) : M A := fun s => Ok a s.

Definition bind {A B} (c : M A) (k : A -> M B) : M B :=
  fun s =>
    match c s with
    | Ok a s' => k a s'
    | Panic msg s' => Panic msg s'
    | Sleeps ch s' => Sleeps ch s'
    | OutOfFuel => OutOfFuel
    end.

Notation "x <- c1 ;; c2" := (bind c1 (fun x => c2))
  (at level 100, c1 at next level, right associativity).
Notation "c1 ;;; c2" := (bind c1 (fun _ => c2))
  (at level 100, right associativity).

Definition panic {A} (msg : string) : M A := fun s => Panic msg s.
Definition get_state : M state := fun s => Ok s s.
Definition add_event (e : event) (s : state) : state :=
  mkState (disk s) (icache s) (cwd s) (trace s ++ [e]).
Definition log (e : event) : M unit := fun s => Ok tt (add_event e s).

Definition set_disk (d : gmap (Z * Z) (list Z)) (s : state) : state :=
  mkState d (icache s) (cwd s) (trace s).
Definition set_icache (c : list inode) (s : state) : state :=
  mkState (disk s) c (cwd s) (trace s).

(** *** Inode slots *)

Definition inode0 : inode := mkInode 0 0 0 0 0 0 0 0 0 [].

(** [*ip] in state [s]. *)
Definition iget_slot (s : state) (ip : nat) : inode :=
  default inode0 (icache s !! ip).

Definition set_slot (ip : nat) (i : inode) (s : state) : state :=
  set_icache (<[ip := i]> (icache s)) s.

Definition modify_inode (ip : nat) (f : inode -> inode) : M unit :=
  fun s => Ok tt (set_slot ip (f (iget_slot s ip)) s).

Definition rd {A} (ip : nat) (f : inode -> A) : M A :=
  fun s => Ok (f (iget_slot s ip)) s.

Definition with_dev (v : Z) (i : inode) : inode :=
  mkInode v (i_inum i) (i_ref i) (i_flags i) (i_type i) (i_major i) (i_minor i)
    (i_nlink i) (i_size i) (i_addrs i).
Definition with_inum (v : Z) (i : inode) : inode :=
  mkInode (i_dev i) v (i_ref i) (i_flags i) (i_type i) (i_major i) (i_minor i)
    (i_nlink i) (i_size i) (i_addrs i).
Definition with_ref (v : Z) (i : inode) : inode :=
  mkInode (i_dev i) (i_inum i) v (i_flags i) (i_type i) (i_major i) (i_minor i)
    (i_nlink i) (i_size i) (i_addrs i).
Definition with_flags (v : Z) (i : inode) : inode :=
  mkInode (i_dev i) (i_inum i) (i_ref i) v (i_type i) (i_major i) (i_minor i)
    (i_nlink i) (i_size i) (i_addrs i).
Definition with_type (v : Z) (i : inode) : inode :=
  mkInode (i_dev i) (i_inum i) (i_ref i) (i_flags i) v (i_major i) (i_minor i)
    (i_nlink i) (i_size i) (i_addrs i).
Definition with_size (v : Z) (i : inode) : inode :=
  mkInode (i_dev i) (i_inum i) (i_ref i) (i_flags i) (i_type i) (i_major i)
    (i_minor i) (i_nlink i) v (i_addrs i).
Definition with_addrs (v : list Z) (i : inode) : inode :=
  mkInode (i_dev i) (i_inum i) (i_ref i) (i_flags i) (i_type i) (i_major i)
    (i_minor i) (i_nlink i) (i_size i) v.

(** *** Bytes, little-endian fields *)

(** [data[i]] of a byte array; out of the array reads 0. *)
Definition byte_at (data : list Z) (i : Z) : Z :=
  default 0 (data !! Z.to_nat i).

Definition set_byte (data : list Z) (i : Z) (v : Z) : list Z :=
  <[Z.to_nat i := v]> data.

Definition get_u16 (data : list Z) (off : Z) : Z :=
  byte_at data off + 2 ^ 8 * byte_at data (off + 1).

Definition get_u32 (data : list Z) (off : Z) : Z :=
  byte_at data off + 2 ^ 8 * byte_at data (off + 1)
  + 2 ^ 16 * byte_at data (off + 2) + 2 ^ 24 * byte_at data (off + 3).

Definition put_u16 (data : list Z) (off v : Z) : list Z :=
  set_byte (set_byte data off (v mod 2 ^ 8)) (off + 1) (v / 2 ^ 8 mod 2 ^ 8).

Definition put_u32 (data : list Z) (off v : Z) : list Z :=
  set_byte (set_byte (set_byte (set_byte data off (v mod 2 ^ 8))
    (off + 1) (v / 2 ^ 8 mod 2 ^ 8))
    (off + 2) (v / 2 ^ 16 mod 2 ^ 8))
    (off + 3) (v / 2 ^ 24 mod 2 ^ 8).

(** Bytes [off .. off+n) of a byte array (zeros past its end). *)
Definition sub_bytes (data : list Z) (off : Z) (n : Z) : list Z :=
  resize (Z.to_nat n) 0 (drop (Z.to_nat off) data).

(** [memmove(buf + off, bytes, |bytes|)] inside the array [buf]. *)
Definition buf_write (buf : list Z) (off : Z) (bytes : list Z) : list Z :=
  take (Z.to_nat off) buf ++ bytes
    ++ drop (Z.to_nat off + length bytes)%nat buf.

(** [for] loops over a fixed range with a body that neither breaks nor
    returns. *)
Fixpoint forM_ (l : list Z) (body : Z -> M unit) : M unit :=
  match l with
  | [] => ret tt
  | i :: rest => body i ;;; forM_ rest body
  end.

Section Fs.
Context `{Params}.

(** ** On-disk layout

    Modelled from the spec: fs.h, which declares struct superblock, struct
    dinode, struct dirent and the macros IBLOCK and BBLOCK, is not part of the
    sources.  The spec's section 6 gives the layout: block 0 unused, block 1
    the superblock, then the inode blocks (records packed per block), then the
    bitmap blocks; an inode record holds type, major, minor, link count, size
    and NDIRECT+1 addresses; a directory entry holds an inode number and a
    name of fixed width.  Fields are little-endian, [short] fields 2 bytes,
    [uint] fields 4 bytes. *)

Record superblock : Type := mkSb {
  sb_size : Z;      (* uint size: blocks of the file system image *)
  sb_nblocks : Z;   (* uint nblocks *)
  sb_ninodes : Z    (* uint ninodes *)
}.

Definition IBLOCK (i : Z) : Z := i / IPB + 2.
Definition BBLOCK (b ninodes : Z) : Z := b / BPB + ninodes / IPB + 3.

(** sizeof(struct dinode) and the byte offset of inode [inum] in its block. *)
Definition dinode_size : Z := 12 + 4 * (NDIRECT + 1).
Definition dinode_off (inum : Z) : Z := (inum mod IPB) * dinode_size.

(** sizeof(struct dirent). *)
Definition dirent_size : Z := 2 + DIRSIZ.

(** [addrs[i]]. *)
Definition addr_at (addrs : list Z) (i : Z) : Z :=
  default 0 (addrs !! Z.to_nat i).

(** ** The buffer layer (external collaborator): bread, bwrite, brelse *)

(** The [BSIZE] bytes of block [bno] of device [dev]. *)
Definition block_of (d : gmap (Z * Z) (list Z)) (dev bno : Z) : list Z :=
  resize (Z.to_nat BSIZE) 0 (default [] (d !! (dev, bno))).
Definition block (s : state) (dev bno : Z) : list Z :=
  block_of (disk s) dev bno.

Definition bread (dev bno : Z) : M (list Z) :=
  fun s => Ok (block s dev bno) s.

Definition bwrite (dev bno : Z) (data : list Z) : M unit :=
  fun s => Ok tt (set_disk (<[(dev, bno) := data]> (disk s)) s).

Definition brelse : M unit := ret tt.

(** ** Blocks *)

Definition readsb (dev : Z) : M superblock :=
  data <- bread dev 1 ;;
  brelse ;;;
  ret (mkSb (get_u32 data 0) (get_u32 data 4) (get_u32 data 8)).

Definition bzero (dev bno : Z) : M unit :=
  data <- bread dev bno ;;
  bwrite dev bno (replicate (Z.to_nat BSIZE) 0) ;;;
  brelse.

(** The inner loop of balloc: the first [bi] of [bis] whose bit is clear. *)
Fixpoint balloc_scan (data : list Z) (bis : list Z) : option Z :=
  match bis with
  | [] => None
  | bi :: rest =>
      let m := Z.shiftl 1 (bi mod 8) in
      if Z.land (byte_at data (bi / 8)) m =? 0 then Some bi
      else balloc_scan data rest
  end.

(** The outer loop of balloc, from [b] on.  [b] and [bi] are C ints that stay
    below [sb.size + BPB]: they are kept as integers, which is what the code
    computes as long as [sb.size + BPB <= 2^31] (the int does not wrap and
    compares with [sb.size] as it stands); the theorems about balloc state
    that bound.  The stores to [bp->data] keep a byte a byte. *)
Fixpoint balloc_loop (fuel : nat) (dev : Z) (sb : superblock) (b : Z) : M Z :=
  match fuel with
  | O => fun _ => OutOfFuel
  | S fuel' =>
      if b <? sb_size sb then
        data <- bread dev (BBLOCK b (sb_ninodes sb)) ;;
        match balloc_scan data (seqZ 0 BPB) with
        | Some bi =>
            let m := Z.shiftl 1 (bi mod 8) in
            bwrite dev (BBLOCK b (sb_ninodes sb))
              (set_byte data (bi / 8) (Z.lor (byte_at data (bi / 8)) m)) ;;;
            brelse ;;;
            ret (b + bi)
        | None =>
            brelse ;;;
            balloc_loop fuel' dev sb (b + BPB)
        end
      else panic "balloc: out of blocks"
  end.

Definition balloc (dev : Z) : M Z :=
  sb <- readsb dev ;;
  balloc_loop (S (Z.to_nat (sb_size sb / BPB + 1))) dev sb 0.

Definition bfree (dev b : Z) : M unit :=
  bzero dev b ;;;
  sb <- readsb dev ;;
  data <- bread dev (BBLOCK b (sb_ninodes sb)) ;;
  let bi := b mod BPB in
  let m := Z.shiftl 1 (bi mod 8) in
  if Z.land (byte_at data (bi / 8)) m =? 0 then panic "freeing free block"
  else
    bwrite dev (BBLOCK b (sb_ninodes sb))
      (set_byte data (bi / 8) (Z.land (byte_at data (bi / 8)) (Z.lnot m))) ;;;
    brelse.

(** ** Inodes *)

(** [memmove(dip->addrs, ip->addrs, sizeof(ip->addrs))]. *)
Definition put_addrs (data : list Z) (off : Z) (addrs : list Z) : list Z :=
  fold_left (fun d i => put_u32 d (off + 4 * i) (addr_at addrs i))
    (seqZ 0 (NDIRECT + 1)) data.

(** [memmove(ip->addrs, dip->addrs, sizeof(ip->addrs))]. *)
Definition get_addrs (data : list Z) (off : Z) : list Z :=
  map (fun i => get_u32 data (off + 4 * i)) (seqZ 0 (NDIRECT + 1)).

(** The stores of iupdate through [dip] into the inode block [data]. *)
Definition store_dinode (data : list Z) (i : inode) : list Z :=
  let o := dinode_off (i_inum i) in
  let data := put_u16 data o (i_type i) in
  let data := put_u16 data (o + 2) (i_major i) in
  let data := put_u16 data (o + 4) (i_minor i) in
  let data := put_u16 data (o + 6) (i_nlink i) in
  let data := put_u32 data (o + 8) (i_size i) in
  put_addrs data (o + 12) (i_addrs i).

Definition iupdate (ip : nat) : M unit :=
  i <- rd ip id ;;
  log (EvIupdate ip (i_type i)) ;;;
  data <- bread (i_dev i) (IBLOCK (i_inum i)) ;;
  bwrite (i_dev i) (IBLOCK (i_inum i)) (store_dinode data i) ;;;
  brelse.

(** The scan of iget over the slots from index [idx] on: the slot that
    already caches (dev, inum), or else the first empty slot seen. *)
Fixpoint iget_scan (slots : list inode) (idx : nat) (dev inum : Z)
    (empty : option nat) : option nat * option nat :=
  match slots with
  | [] => (None, empty)
  | i :: rest =>
      if (i_ref i >? 0) && (i_dev i =? dev) && (i_inum i =? inum)
      then (Some idx, empty)
      else
        let empty :=
          match empty with
          | None => if i_ref i =? 0 then Some idx else None
          | Some e => Some e
          end in
        iget_scan rest (S idx) dev inum empty
  end.

(** [iget(dev, inum)].  The field [ref] is a C int; it is kept as an integer,
    and [ip->ref++] is the increment of the code as long as the count is
    below [2^31 - 1]; the theorem about iget states that bound. *)
Definition iget (dev inum : Z) : M nat :=
  log EvAcquire ;;;
  s <- get_state ;;
  match iget_scan (icache s) 0 dev inum None with
  | (Some ip, _) =>
      modify_inode ip (fun i => with_ref (i_ref i + 1) i) ;;;
      log EvRelease ;;;
      ret ip
  | (None, None) => panic "iget: no inodes"
  | (None, Some ip) =>
      modify_inode ip (fun i =>
        with_flags 0 (with_ref 1 (with_inum inum (with_dev dev i)))) ;;;
      log EvRelease ;;;
      ret ip
  end.

Definition idup (ip : nat) : M nat :=
  log EvAcquire ;;;
  modify_inode ip (fun i => with_ref (i_ref i + 1) i) ;;;
  log EvRelease ;;;
  ret ip.

(** The fields ilock copies from the on-disk record. *)
Definition load_dinode (data : list Z) (i : inode) : inode :=
  let o := dinode_off (i_inum i) in
  mkInode (i_dev i) (i_inum i) (i_ref i) (i_flags i)
    (s16 (get_u16 data o)) (s16 (get_u16 data (o + 2)))
    (s16 (get_u16 data (o + 4))) (s16 (get_u16 data (o + 6)))
    (get_u32 data (o + 8)) (get_addrs data (o + 12)).

(** [ip] is a slot, so never the null pointer.  A busy inode puts the caller
    to sleep; with a single thread of control nobody wakes it up. *)
Definition ilock (ip : nat) : M unit :=
  r <- rd ip i_ref ;;
  if r <? 1 then panic "ilock"
  else
    log EvAcquire ;;;
    fl <- rd ip i_flags ;;
    if negb (Z.land fl I_BUSY =? 0) then (fun s => Sleeps ip s)
    else
      modify_inode ip (fun i => with_flags (Z.lor (i_flags i) I_BUSY) i) ;;;
      log EvRelease ;;;
      fl <- rd ip i_flags ;;
      if Z.land fl I_VALID =? 0 then
        i <- rd ip id ;;
        data <- bread (i_dev i) (IBLOCK (i_inum i)) ;;
        modify_inode ip (load_dinode data) ;;;
        brelse ;;;
        modify_inode ip (fun i => with_flags (Z.lor (i_flags i) I_VALID) i) ;;;
        t <- rd ip i_type ;;
        if t =? 0 then panic "ilock: no type" else ret tt
      else ret tt.

Definition iunlock (ip : nat) : M unit :=
  i <- rd ip id ;;
  if (Z.land (i_flags i) I_BUSY =? 0) || (i_ref i <? 1) then panic "iunlock"
  else
    log EvAcquire ;;;
    modify_inode ip (fun i => with_flags (Z.land (i_flags i) (Z.lnot I_BUSY)) i) ;;;
    log (EvWakeup ip) ;;;
    log EvRelease.

(** ** Inode contents *)

Definition bmap (ip : nat) (bn : Z) : M Z :=
  if bn <? NDIRECT then
    i <- rd ip id ;;
    let addr := addr_at (i_addrs i) bn in
    if addr =? 0 then
      addr <- balloc (i_dev i) ;;
      modify_inode ip
        (fun i => with_addrs (<[Z.to_nat bn := addr]> (i_addrs i)) i) ;;;
      ret addr
    else ret addr
  else
    let bn := u32 (bn - NDIRECT) in
    if bn <? NINDIRECT then
      i <- rd ip id ;;
      let addr := addr_at (i_addrs i) NDIRECT in
      addr <- (if addr =? 0 then
                 addr <- balloc (i_dev i) ;;
                 modify_inode ip
                   (fun i =>
                      with_addrs (<[Z.to_nat NDIRECT := addr]> (i_addrs i)) i) ;;;
                 ret addr
               else ret addr) ;;
      data <- bread (i_dev i) addr ;;
      let a := get_u32 data (4 * bn) in
      if a =? 0 then
        a <- balloc (i_dev i) ;;
        bwrite (i_dev i) addr (put_u32 data (4 * bn) a) ;;;
        brelse ;;;
        ret a
      else
        brelse ;;;
        ret a
    else panic "bmap: out of range".

Definition itrunc (ip : nat) : M unit :=
  log (EvItrunc ip) ;;;
  forM_ (seqZ 0 NDIRECT) (fun k =>
    i <- rd ip id ;;
    let a := addr_at (i_addrs i) k in
    if a =? 0 then ret tt
    else
      bfree (i_dev i) a ;;;
      modify_inode ip
        (fun i => with_addrs (<[Z.to_nat k := 0]> (i_addrs i)) i)) ;;;
  i <- rd ip id ;;
  let ind := addr_at (i_addrs i) NDIRECT in
  (if ind =? 0 then ret tt
   else
     data <- bread (i_dev i) ind ;;
     forM_ (seqZ 0 NINDIRECT) (fun j =>
       let a := get_u32 data (4 * j) in
       if a =? 0 then ret tt else bfree (i_dev i) a) ;;;
     brelse ;;;
     bfree (i_dev i) ind ;;;
     modify_inode ip
       (fun i => with_addrs (<[Z.to_nat NDIRECT := 0]> (i_addrs i)) i)) ;;;
  modify_inode ip (with_size 0) ;;;
  iupdate ip.

Definition iput (ip : nat) : M unit :=
  log EvAcquire ;;;
  i <- rd ip id ;;
  (if (i_ref i =? 1) && negb (Z.land (i_flags i) I_VALID =? 0)
      && (i_nlink i =? 0)
   then
     (if negb (Z.land (i_flags i) I_BUSY =? 0) then panic "iput busy"
      else
        modify_inode ip (fun i => with_flags (Z.lor (i_flags i) I_BUSY) i) ;;;
        log EvRelease ;;;
        itrunc ip ;;;
        modify_inode ip (with_type 0) ;;;
        iupdate ip ;;;
        log EvAcquire ;;;
        modify_inode ip (with_flags 0) ;;;
        log (EvWakeup ip))
   else ret tt) ;;;
  log (EvRefDec ip) ;;;
  modify_inode ip (fun i => with_ref (i_ref i - 1) i) ;;;
  log EvRelease.

Definition iunlockput (ip : nat) : M unit :=
  iunlock ip ;;;
  iput ip.

(** The loop of readi; [dst] is the destination buffer, written at [tot]. *)
Fixpoint readi_loop (fuel : nat) (ip : nat) (dst : list Z) (off n tot : Z)
    : M (list Z) :=
  match fuel with
  | O => fun _ => OutOfFuel
  | S fuel' =>
      if tot <? n then
        dev <- rd ip i_dev ;;
        addr <- bmap ip (off / BSIZE) ;;
        data <- bread dev addr ;;
        let m := Z.min (u32 (n - tot)) (u32 (BSIZE - off mod BSIZE)) in
        let dst := buf_write dst tot (sub_bytes data (off mod BSIZE) m) in
        brelse ;;;
        readi_loop fuel' ip dst (u32 (off + m)) n (u32 (tot + m))
      else ret dst
  end.

(** [readi(ip, dst, off, n)]: the returned int and the buffer [dst]. *)
Definition readi (ip : nat) (dst : list Z) (off n : Z) : M (Z * list Z) :=
  i <- rd ip id ;;
  if i_type i =? T_DEV then
    if (i_major i <? 0) || (i_major i >=? NDEV) then ret (-1, dst)
    else
      match devsw_read (i_major i) with
      | None => ret (-1, dst)
      | Some f => ret (fst (f i n), buf_write dst 0 (snd (f i n)))
      end
  else if (off >? i_size i) || (u32 (off + n) <? off) then ret (-1, dst)
  else
    let n := if u32 (off + n) >? i_size i then u32 (i_size i - off) else n in
    dst <- readi_loop (S (Z.to_nat n)) ip dst off n 0 ;;
    ret (s32 n, dst).

(** The loop of writei; returns [off] as the loop leaves it. *)
Fixpoint writei_loop (fuel : nat) (ip : nat) (src : list Z) (off n tot : Z)
    : M Z :=
  match fuel with
  | O => fun _ => OutOfFuel
  | S fuel' =>
      if tot <? n then
        dev <- rd ip i_dev ;;
        addr <- bmap ip (off / BSIZE) ;;
        data <- bread dev addr ;;
        let m := Z.min (u32 (n - tot)) (u32 (BSIZE - off mod BSIZE)) in
        bwrite dev addr (buf_write data (off mod BSIZE) (sub_bytes src tot m)) ;;;
        brelse ;;;
        writei_loop fuel' ip src (u32 (off + m)) n (u32 (tot + m))
      else ret off
  end.

Definition writei (ip : nat) (src : list Z) (off n : Z) : M Z :=
  i <- rd ip id ;;
  if i_type i =? T_DEV then
    if (i_major i <? 0) || (i_major i >=? NDEV) then ret (-1)
    else
      match devsw_write (i_major i) with
      | None => ret (-1)
      | Some f => ret (f i src n)
      end
  else if (off >? i_size i) || (u32 (off + n) <? off) then ret (-1)
  else
    let n := if u32 (off + n) >? u32 (MAXFILE * BSIZE)
             then u32 (MAXFILE * BSIZE - off) else n in
    off <- writei_loop (S (Z.to_nat n)) ip src off n 0 ;;
    sz <- rd ip i_size ;;
    (if (n >? 0) && (off >? sz) then
       modify_inode ip (with_size off) ;;;
       iupdate ip
     else ret tt) ;;;
    ret (s32 n).

(** ** Directories *)

(** strncmp and strncpy of the kernel's string.c, which is not part of the
    sources; they follow the C library's contract. *)
Fixpoint strncmp (p q : list Z) (n : nat) : Z :=
  match n with
  | O => 0
  | S n' =>
      if negb (deref p =? 0) && (deref p =? deref q)
      then strncmp (tl p) (tl q) n'
      else u8 (deref p) - u8 (deref q)
  end.

Fixpoint strncpy (t : list Z) (n : nat) : list Z :=
  match n with
  | O => []
  | S n' =>
      if deref t =? 0 then replicate n 0
      else deref t :: strncpy (tl t) n'
  end.

Definition namecmp (s t : list Z) : Z := strncmp s t (Z.to_nat DIRSIZ).

(** The byte offsets of the entries [de] with [de < bp->data + BSIZE]. *)
Definition dirent_offsets : list Z :=
  map (fun k => k * dirent_size) (seqZ 0 ((BSIZE + dirent_size - 1) / dirent_size)).

(** The inner loop of dirlookup over one block: offset in the block and
    inode number of the first entry in use whose name matches. *)
Fixpoint dirlookup_block (data name : list Z) (offs : list Z)
    : option (Z * Z) :=
  match offs with
  | [] => None
  | o :: rest =>
      let inum := get_u16 data o in
      if inum =? 0 then dirlookup_block data name rest
      else if namecmp name (sub_bytes data (o + 2) DIRSIZ) =? 0
      then Some (o, inum)
      else dirlookup_block data name rest
  end.

Fixpoint dirlookup_loop (fuel : nat) (dp : nat) (name : list Z) (off : Z)
    : M (option (nat * Z)) :=
  match fuel with
  | O => fun _ => OutOfFuel
  | S fuel' =>
      sz <- rd dp i_size ;;
      if off <? sz then
        dev <- rd dp i_dev ;;
        addr <- bmap dp (off / BSIZE) ;;
        data <- bread dev addr ;;
        match dirlookup_block data name dirent_offsets with
        | Some (o, inum) =>
            brelse ;;;
            ip <- iget dev inum ;;
            ret (Some (ip, u32 (off + o)))
        | None =>
            brelse ;;;
            dirlookup_loop fuel' dp name (u32 (off + BSIZE))
        end
      else ret None
  end.

(** [dirlookup(dp, name, poff)]: [None] is the null pointer; otherwise the
    inode and the byte offset stored through [poff] when [poff] is given. *)
Definition dirlookup (dp : nat) (name : list Z) : M (option (nat * Z)) :=
  i <- rd dp id ;;
  if negb (i_type i =? T_DIR) then panic "dirlookup not DIR"
  else dirlookup_loop (S (Z.to_nat (i_size i / BSIZE + 1))) dp name 0.

(** The loop of dirlink that looks for an empty dirent; returns [off] and
    the entry [de] as the loop leaves them. *)
Fixpoint dirlink_scan (fuel : nat) (dp : nat) (de : list Z) (off : Z)
    : M (Z * list Z) :=
  match fuel with
  | O => fun _ => OutOfFuel
  | S fuel' =>
      sz <- rd dp i_size ;;
      if u32 off <? sz then
        r <- readi dp de (u32 off) dirent_size ;;
        if negb (fst r =? dirent_size) then panic "dirlink read"
        else if get_u16 (snd r) 0 =? 0 then ret (off, snd r)
        else dirlink_scan fuel' dp (snd r) (off + dirent_size)
      else ret (off, de)
  end.

Definition dirlink (dp : nat) (name : list Z) (inum : Z) : M Z :=
  r <- dirlookup dp name ;;
  match r with
  | Some (ip, _) =>
      iput ip ;;;
      ret (-1)
  | None =>
      sz <- rd dp i_size ;;
      r <- dirlink_scan (S (Z.to_nat (sz / dirent_size + 1))) dp
             (replicate (Z.to_nat dirent_size) 0) 0 ;;
      let off := fst r in
      let de := buf_write (snd r) 2 (strncpy name (Z.to_nat DIRSIZ)) in
      let de := put_u16 de 0 inum in
      n <- writei dp de (u32 off) dirent_size ;;
      if negb (n =? dirent_size) then panic "dirlink" else ret 0
  end.

(** ** Paths *)

(** The loop of namex together with the code after it.  The result is the
    returned pointer ([None] for 0) and the buffer [name]. *)
Fixpoint namex_loop (fuel : nat) (ip : nat) (path : list Z)
    (nameiparent : bool) (name : list Z) : M (option nat * list Z) :=
  match fuel with
  | O => fun _ => OutOfFuel
  | S fuel' =>
      match skipelem path name with
      | None =>
          if nameiparent then
            iput ip ;;;
            ret (None, name)
          else ret (Some ip, name)
      | Some (path, name) =>
          ilock ip ;;;
          t <- rd ip i_type ;;
          if negb (t =? T_DIR) then
            iunlockput ip ;;;
            ret (None, name)
          else if nameiparent && (deref path =? 0) then
            iunlock ip ;;;
            ret (Some ip, name)
          else
            r <- dirlookup ip name ;;
            match r with
            | None =>
                iunlockput ip ;;;
                ret (None, name)
            | Some (next, _) =>
                iunlockput ip ;;;
                namex_loop fuel' next path nameiparent name
            end
      end
  end.

Definition namex (path : list Z) (nameiparent : bool) (name : list Z)
    : M (option nat * list Z) :=
  ip <- (if deref path =? slash then iget ROOTDEV ROOTINO
         else s <- get_state ;; idup (cwd s)) ;;
  namex_loop (S (length path)) ip path nameiparent name.

Definition namei (path : list Z) : M (option nat) :=
  r <- namex path false (replicate (Z.to_nat DIRSIZ) 0) ;;
  ret (fst r).

Definition nameiparent (path name : list Z) : M (option nat * list Z) :=
  namex path true name.

End Fs.

(** ** More of fs.c and sysfile.c: ialloc, isdirempty, the tag searches,
       fdalloc *)

(** strlen of the kernel's string.c, which is not part of the sources; it
    follows the C library's contract. *)
Fixpoint strlen (s : list Z) : Z :=
  match s with
  | c :: rest => if c =? 0 then 0 else 1 + strlen rest
  | [] => 0
  end.

(** [fdalloc(f)] over [proc->ofile], the list of the NOFILE entries of the
    process ([None] for 0): the descriptor returned and the table. *)
Fixpoint fdalloc_loop {F : Type} (fds : list Z) (ofile : list (option F))
    (f : F) : Z * list (option F) :=
  match fds with
  | [] => (-1, ofile)
  | fd :: rest =>
      match ofile !! Z.to_nat fd with
      | Some None => (fd, <[Z.to_nat fd := Some f]> ofile)
      | _ => fdalloc_loop rest ofile f
      end
  end.

Definition fdalloc {F : Type} (NOFILE : Z) (ofile : list (option F)) (f : F)
    : Z * list (option F) :=
  fdalloc_loop (seqZ 0 NOFILE) ofile f.

Section Models.
Context `{Params}.

(** [memset(dip, 0, sizeof( *dip)); dip->type = type;] in the inode block
    [data]. *)
Definition fresh_dinode (data : list Z) (inum type : Z) : list Z :=
  put_u16
    (buf_write data (dinode_off inum) (replicate (Z.to_nat dinode_size) 0))
    (dinode_off inum) type.

(** The loop of ialloc; [inum < sb.ninodes] compares as unsigned. *)
Fixpoint ialloc_loop (fuel : nat) (dev type : Z) (sb : superblock) (inum : Z)
    : M nat :=
  match fuel with
  | O => fun _ => OutOfFuel
  | S fuel' =>
      if u32 inum <? sb_ninodes sb then
        data <- bread dev (IBLOCK inum) ;;
        if s16 (get_u16 data (dinode_off inum)) =? 0 then
          bwrite dev (IBLOCK inum) (fresh_dinode data inum type) ;;;
          brelse ;;;
          iget dev inum
        else
          brelse ;;;
          ialloc_loop fuel' dev type sb (inum + 1)
      else panic "ialloc: no inodes"
  end.

Definition ialloc (dev type : Z) : M nat :=
  sb <- readsb dev ;;
  ialloc_loop (S (Z.to_nat (sb_ninodes sb))) dev type sb 1.

(** The loop of isdirempty of sysfile.c; [de] is the local entry, which
    readi fills before it is looked at. *)
Fixpoint isdirempty_loop (fuel : nat) (dp : nat) (de : list Z) (off : Z)
    : M Z :=
  match fuel with
  | O => fun _ => OutOfFuel
  | S fuel' =>
      sz <- rd dp i_size ;;
      if u32 off <? sz then
        r <- readi dp de (u32 off) dirent_size ;;
        if negb (fst r =? dirent_size) then panic "isdirempty: readi"
        else if negb (get_u16 (snd r) 0 =? 0) then ret 0
        else isdirempty_loop fuel' dp (snd r) (off + dirent_size)
      else ret 1
  end.

Definition isdirempty (dp : nat) : M Z :=
  sz <- rd dp i_size ;;
  isdirempty_loop (S (Z.to_nat (sz / dirent_size + 1))) dp
    (replicate (Z.to_nat dirent_size) 0) (2 * dirent_size).

(** The inner loop of searchKey: [j] as the loop leaves it. *)
Fixpoint searchKey_match (fuel : nat) (key str : list Z) (i j : Z) : Z :=
  match fuel with
  | O => j
  | S fuel' =>
      if (j <? 10) && (i + j <? BSIZE) && negb (byte_at key j =? 0)
         && negb (byte_at str (i + j) =? 0)
         && (byte_at key j =? byte_at str (i + j))
      then searchKey_match fuel' key str i (j + 1)
      else j
  end.

(** [searchKey(key, str)]; [None] stands for running out of fuel. *)
Fixpoint searchKey_loop (fuel : nat) (key str : list Z) (i : Z) : option Z :=
  match fuel with
  | O => None
  | S fuel' =>
      if i <? BSIZE then
        let j := searchKey_match 10 key str i 0 in
        if (j =? strlen key) && (byte_at key j =? 0)
           && (byte_at str (i + j) =? 0)
        then Some (i + j - strlen key)
        else searchKey_loop fuel' key str (i + 32)
      else Some (-1)
  end.

Definition searchKey (key str : list Z) : option Z :=
  searchKey_loop (S (Z.to_nat (BSIZE / 32 + 1))) key str 0.

(** [searchEnd(str)]; [None] stands for running out of fuel. *)
Fixpoint searchEnd_loop (fuel : nat) (str : list Z) (i : Z) : option Z :=
  match fuel with
  | O => None
  | S fuel' =>
      if (i <? BSIZE) && negb (byte_at str i =? 0)
      then searchEnd_loop fuel' str (i + 32)
      else Some i
  end.

Definition searchEnd (str : list Z) : option Z :=
  match searchEnd_loop (S (Z.to_nat (BSIZE / 32 + 1))) str 0 with
  | Some i => Some (if i =? BSIZE then -1 else i)
  | None => None
  end.

End Models.

(** ** The constants of stock xv6, used for the concrete runs *)

#[local] Instance xv6 : Params := {|
  BSIZE := 512;
  NDIRECT := 12;
  NINDIRECT := 128;
  MAXFILE := 140;
  DIRSIZ := 14;
  BPB := 4096;
  IPB := 8;
  NINODE := 50;
  NDEV := 10;
  ROOTDEV := 1;
  ROOTINO := 1;
  T_DIR := 1;
  T_DEV := 3;
  I_BUSY := 1;
  I_VALID := 2;
  devsw_read := fun _ => None;
  devsw_write := fun _ => None
|}.

(** A small file system image for these constants: 64 blocks, 16 inodes
    (inode blocks 2 to 4, bitmap block 5, data from block 6).  Inode 1 is the
    root directory with the entries ".", ".." and "f" in block 6; inode 2 is
    the file "f", 5 bytes in block 7; inode 3 is an unlinked file (link count
    0) that still owns block 8.  Blocks 0 to 8 are marked in use. *)

Definition zero_block : list Z := replicate 512 0.

Definition sample_sb : list Z :=
  put_u32 (put_u32 (put_u32 zero_block 0 64) 4 58) 8 16.

Definition dirent_bytes (inum : Z) (name : string) : list Z :=
  put_u16 [0; 0] 0 inum ++ strncpy (bytes_of_string name) 14.

Definition sample_root_dir : list Z :=
  resize 512 0
    (dirent_bytes 1 "." ++ dirent_bytes 1 ".." ++ dirent_bytes 2 "f").

Definition sample_file : list Z := resize 512 0 (bytes_of_string "hello").

Definition root_inode : inode :=
  mkInode 1 1 1 0 1 0 0 1 48 (6 :: replicate 12 0).
Definition file_inode : inode :=
  mkInode 1 2 0 0 2 0 0 1 5 (7 :: replicate 12 0).
Definition orphan_inode : inode :=
  mkInode 1 3 1 2 2 0 0 0 512 (8 :: replicate 12 0).

Definition sample_inodes : list Z :=
  store_dinode (store_dinode (store_dinode zero_block root_inode) file_inode)
    orphan_inode.

Definition sample_bitmap : list Z := set_byte (set_byte zero_block 0 255) 1 1.

Definition sample_disk : gmap (Z * Z) (list Z) :=
  list_to_map
    [((1, 1), sample_sb); ((1, 2), sample_inodes); ((1, 5), sample_bitmap);
     ((1, 6), sample_root_dir); ((1, 7), sample_file)].

(** The cache holds the root directory in slot 0 (the current directory,
    not yet loaded) and the unlinked inode 3 in slot 1, loaded, with one
    reference left. *)
Definition sample_state : state :=
  mkState sample_disk
    (root_inode :: orphan_inode :: replicate 48 inode0) 0 [].

(** ** What the proofs assume of the constants *)

Section ParamsOk.
Context `{Params}.

Record params_ok : Prop := {
  BSIZE_pos : 0 < BSIZE;
  NDIRECT_nonneg : 0 <= NDIRECT;
  NINDIRECT_nonneg : 0 <= NINDIRECT;
  indirect_fits : 4 * NINDIRECT <= BSIZE;
  MAXFILE_sum : MAXFILE = NDIRECT + NINDIRECT;
  MAXFILE_bytes : MAXFILE * BSIZE < 2 ^ 31;
  IPB_pos : 0 < IPB;
  inodes_fit : IPB * dinode_size <= BSIZE;
  BPB_pos : 0 < BPB;
  BPB_fits : BPB <= 8 * BSIZE;
  DIRSIZ_pos : 0 < DIRSIZ;
  dirent_divides : BSIZE mod dirent_size = 0;
  T_DIR_not_T_DEV : T_DIR <> T_DEV;
  I_BUSY_bit : exists k, 0 <= k /\ I_BUSY = 2 ^ k;
  I_VALID_bit : exists k, 0 <= k /\ I_VALID = 2 ^ k;
  flags_differ : I_BUSY <> I_VALID
}.

(** ** Notions the statements use *)

(** The on-disk record of inode [inum] of device [dev], as ilock would load it
    into [i]. *)
Definition disk_inode (s : state) (dev inum : Z) : inode :=
  load_dinode (block s dev (IBLOCK inum)) (mkInode dev inum 0 0 0 0 0 0 0 []).

(** [ip] is the last reference to a loaded inode without links. *)
Definition last_ref_unlinked (i : inode) : Prop :=
  i_ref i = 1 /\ Z.land (i_flags i) I_VALID <> 0 /\ i_nlink i = 0.

Definition is_itrunc (e : event) : bool :=
  match e with EvItrunc _ => true | _ => false end.

(** [iupdate] storing type 0. *)
Definition is_type_reset (e : event) : bool :=
  match e with EvIupdate _ 0 => true | _ => false end.

Definition is_iupdate (e : event) : bool :=
  match e with EvIupdate _ _ => true | _ => false end.

Definition count_events (p : event -> bool) (t : list event) : nat :=
  length (List.filter p t).

(** The superblock of device [dev], as readsb reads it. *)
Definition sb_of (s : state) (dev : Z) : superblock :=
  let data := block s dev 1 in
  mkSb (get_u32 data 0) (get_u32 data 4) (get_u32 data 8).

(** Bit [bi] of the bitmap block [data] is set. *)
Definition bit_set_in (data : list Z) (bi : Z) : bool :=
  negb (Z.land (byte_at data (bi / 8)) (Z.shiftl 1 (bi mod 8)) =? 0).

(** The bitmap of device [dev] marks block [x] as in use. *)
Definition bit_in_use (s : state) (dev x : Z) : bool :=
  bit_set_in (block s dev (BBLOCK x (sb_ninodes (sb_of s dev)))) (x mod BPB).

(** [x] is one of the bitmap blocks that cover the blocks of the device. *)
Definition is_bitmap_block (s : state) (dev x : Z) : Prop :=
  exists b', 0 <= b' < sb_size (sb_of s dev) /\
             x = BBLOCK b' (sb_ninodes (sb_of s dev)).

(** The bitmap marks the superblock and the bitmap blocks themselves as in
    use, as mkfs leaves them. *)
Definition meta_in_use (s : state) (dev : Z) : Prop :=
  0 <= sb_ninodes (sb_of s dev) /\
  bit_in_use s dev 1 = true /\
  forall x, is_bitmap_block s dev x -> bit_in_use s dev x = true.

(** The only fatal halt of an in-range mapping: the allocator is exhausted. *)
Definition alloc_panic : string -> state -> Prop :=
  fun msg _ => msg = "balloc: out of blocks"%string.

(** From [s] to [s'] nothing changed in memory but the block addresses of
    slot [ip]. *)
Definition addrs_changed (ip : nat) (s s' : state) : Prop :=
  (exists addrs',
     icache s' = <[ip := with_addrs addrs' (iget_slot s ip)]> (icache s)) /\
  trace s' = trace s /\ cwd s' = cwd s.

(** The length writei settles on: clamped at the largest file size. *)
Definition writei_len (off n : Z) : Z :=
  if off + n >? MAXFILE * BSIZE then MAXFILE * BSIZE - off else n.

(** What a call of writei that passed its checks leaves behind: the clamped
    length as result; when at least one byte was written and the write ends
    past the old size, the new size in the cached inode and in the on-disk
    record, through the one iupdate of the call; otherwise the size as it was
    and no iupdate. *)
Definition writei_post (ip : nat) (off n : Z) (s : state)
    : Z -> state -> Prop :=
  fun r s' =>
    let i := iget_slot s ip in
    let n' := writei_len off n in
    r = n' /\
    if (0 <? n') && (i_size i <? off + n') then
      i_size (iget_slot s' ip) = off + n' /\
      i_size (disk_inode s' (i_dev i) (i_inum i)) = off + n' /\
      trace s' = trace s ++ [EvIupdate ip (i_type i)]
    else
      i_size (iget_slot s' ip) = i_size i /\ trace s' = trace s.

(** The disk block that holds block [bn] of the file of inode [i]; 0 when
    the file has no such block yet. *)
Definition block_addr (s : state) (i : inode) (bn : Z) : Z :=
  if bn <? NDIRECT then addr_at (i_addrs i) bn
  else if addr_at (i_addrs i) NDIRECT =? 0 then 0
  else get_u32 (block s (i_dev i) (addr_at (i_addrs i) NDIRECT))
         (4 * (bn - NDIRECT)).

(** Byte [o] of the content of the file, and [n] bytes from [off] on. *)
Definition file_byte (s : state) (i : inode) (o : Z) : Z :=
  byte_at (block s (i_dev i) (block_addr s i (o / BSIZE))) (o mod BSIZE).

Definition file_bytes (s : state) (i : inode) (off n : Z) : list Z :=
  map (file_byte s i) (seqZ off n).

(** Every block below the size of the file is there.  writei keeps files
    this way: it refuses to start a write past the current size. *)
Definition no_holes (s : state) (i : inode) : Prop :=
  forall bn, 0 <= bn -> bn * BSIZE < i_size i -> block_addr s i bn <> 0.

(** The path still has a component: it is not empty after its leading
    slashes. *)
Definition path_has_elem (path : list Z) : Prop :=
  deref (skip_slashes path) <> 0.

(** The only fatal halt of iget: the cache is full. *)
Definition iget_panic : string -> state -> Prop :=
  fun msg _ => msg = "iget: no inodes"%string.

(** *** Well-formed bitmaps and files *)

(** The bitmap of the device covers block numbers that fit 32 bits, marks
    block 0 and the bitmap blocks as in use, and every block it marks as free
    is zeroed (mkfs zeroes the image, bfree zeroes what it frees). *)
Definition alloc_wf (s : state) (dev : Z) : Prop :=
  0 <= sb_ninodes (sb_of s dev) /\
  sb_size (sb_of s dev) + BPB <= 2 ^ 32 /\
  bit_in_use s dev 0 = true /\
  (forall x, is_bitmap_block s dev x -> bit_in_use s dev x = true) /\
  (forall x, bit_in_use s dev x = false ->
             block s dev x = replicate (Z.to_nat BSIZE) 0).

(** The file of inode [i] is well formed: exactly the blocks below its size
    are there, each in a disk block of its own that the bitmap marks as in
    use and that is neither a bitmap block, nor the block of the inode record,
    nor the indirect block; the same holds of the indirect block. *)
Record file_wf (s : state) (i : inode) : Prop := {
  fw_addrs : length (i_addrs i) = Z.to_nat (NDIRECT + 1);
  fw_size : 0 <= i_size i <= MAXFILE * BSIZE;
  fw_mapped : forall k, 0 <= k < MAXFILE ->
      (block_addr s i k <> 0 <-> k * BSIZE < i_size i);
  fw_inj : forall j k, 0 <= j -> 0 <= k ->
      j * BSIZE < i_size i -> k * BSIZE < i_size i ->
      block_addr s i j = block_addr s i k -> j = k;
  fw_data : forall k, 0 <= k -> k * BSIZE < i_size i ->
      bit_in_use s (i_dev i) (block_addr s i k) = true /\
      ~ is_bitmap_block s (i_dev i) (block_addr s i k) /\
      block_addr s i k <> IBLOCK (i_inum i) /\
      block_addr s i k <> addr_at (i_addrs i) NDIRECT;
  fw_ind : addr_at (i_addrs i) NDIRECT <> 0 ->
      bit_in_use s (i_dev i) (addr_at (i_addrs i) NDIRECT) = true /\
      ~ is_bitmap_block s (i_dev i) (addr_at (i_addrs i) NDIRECT) /\
      addr_at (i_addrs i) NDIRECT <> IBLOCK (i_inum i);
  fw_iblock :
      bit_in_use s (i_dev i) (IBLOCK (i_inum i)) = true /\
      ~ is_bitmap_block s (i_dev i) (IBLOCK (i_inum i))
}.

(** What balloc leaves behind: the block [b] it returns was free and is now
    in use, blocks in use stay in use, and only a bitmap block changed. *)
Definition balloc_post (dev : Z) (s : state) : Z -> state -> Prop :=
  fun b s1 =>
    0 <= b < sb_size (sb_of s dev) + BPB /\
    bit_in_use s dev b = false /\ bit_in_use s1 dev b = true /\
    sb_of s1 dev = sb_of s dev /\
    (forall x, bit_in_use s dev x = true -> bit_in_use s1 dev x = true) /\
    (exists bm, is_bitmap_block s dev bm /\
                forall x, x <> bm -> block s1 dev x = block s dev x) /\
    icache s1 = icache s /\ trace s1 = trace s /\ cwd s1 = cwd s.

(** What bmap leaves behind when it had to allocate block [k] of the file of
    slot [ip]: the address [a] it returns was free, is not 0 and is not the
    indirect block; block [k] of the file is now [a] and the other blocks of
    the file are where they were; the indirect block is the old one or, when
    there was none, a block that was free; every block that was in use, is no
    bitmap block and is not the indirect block has its contents. *)
Definition bmap_fresh_post (ip : nat) (k : Z) (s : state) : Z -> state -> Prop :=
  fun a s1 =>
    let i := iget_slot s ip in
    let i1 := iget_slot s1 ip in
    let ind := addr_at (i_addrs i) NDIRECT in
    let ind1 := addr_at (i_addrs i1) NDIRECT in
    a <> 0 /\ bit_in_use s (i_dev i) a = false /\ ind1 <> a /\
    (exists addrs1, icache s1 = <[ip := with_addrs addrs1 i]> (icache s)) /\
    trace s1 = trace s /\ cwd s1 = cwd s /\
    (ind1 = ind \/
     (ind = 0 /\ bit_in_use s (i_dev i) ind1 = false /\ ind1 <> 0)) /\
    block_addr s1 i1 k = a /\
    (forall j, 0 <= j < MAXFILE -> j <> k ->
       block_addr s1 i1 j = block_addr s i j) /\
    (forall x, bit_in_use s (i_dev i) x = true ->
               ~ is_bitmap_block s (i_dev i) x -> x <> ind1 ->
               block s1 (i_dev i) x = block s (i_dev i) x).

(** *** Directories *)

(** Block [k] of the directory, the way dirlookup reads it. *)
Definition dir_block (s : state) (i : inode) (k : Z) : list Z :=
  block s (i_dev i) (block_addr s i k).

(** The inode number and the name of an entry of [dirent_size] bytes. *)
Definition dirent_inum (e : list Z) : Z := get_u16 e 0.
Definition dirent_name (e : list Z) : list Z := sub_bytes e 2 DIRSIZ.

(** The entry at byte offset [o] of the directory. *)
Definition dirent_at (s : state) (i : inode) (o : Z) : list Z :=
  file_bytes s i o dirent_size.

(** An entry with that name already exists: one of the blocks below the size
    of the directory holds, at one of the entry offsets dirlookup visits, an
    entry in use whose name compares equal. *)
Definition has_entry (s : state) (i : inode) (name : list Z) : Prop :=
  exists k o, 0 <= k /\ k * BSIZE < i_size i /\ In o dirent_offsets /\
    get_u16 (dir_block s i k) o <> 0 /\
    namecmp name (sub_bytes (dir_block s i k) (o + 2) DIRSIZ) = 0.

(** The slot at offset [o] lies below the size and its inode number is 0. *)
Definition free_slot (s : state) (i : inode) (o : Z) : Prop :=
  0 <= o < i_size i /\ o mod dirent_size = 0 /\
  dirent_inum (dirent_at s i o) = 0.

(** Where a new entry goes: the first slot whose inode number is 0, or the
    current end when no slot is free. *)
Definition link_offset (s : state) (i : inode) (o : Z) : Prop :=
  0 <= o /\ o mod dirent_size = 0 /\
  (forall o', 0 <= o' < o -> ~ free_slot s i o') /\
  (free_slot s i o \/ o = i_size i).

(** The search of dirlookup as a function of the blocks: byte offset and
    inode number of the first match from block [j] on. *)
Fixpoint dir_find (fuel : nat) (s : state) (i : inode) (name : list Z) (j : Z)
    : option (Z * Z) :=
  match fuel with
  | O => None
  | S fuel' =>
      if j * BSIZE <? i_size i then
        match dirlookup_block (dir_block s i j) name dirent_offsets with
        | Some (o, inum) => Some (j * BSIZE + o, inum)
        | None => dir_find fuel' s i name (j + 1)
        end
      else None
  end.

(** What bmap leaves behind for block [k] of a well-formed file, [k] being
    at most the number of blocks of the file: the address [a] of the block,
    which is neither the block of the inode record nor the indirect block;
    the other blocks of the file are where they were, away from [a], with
    their contents; and nothing changed at all when the block was there. *)
Definition bmap_entry_post (ip : nat) (k : Z) (s : state) : Z -> state -> Prop :=
  fun a s1 =>
    let i := iget_slot s ip in
    let i1 := iget_slot s1 ip in
    let ind1 := addr_at (i_addrs i1) NDIRECT in
    (ip < length (icache s1))%nat /\
    i_dev i1 = i_dev i /\ i_inum i1 = i_inum i /\ i_type i1 = i_type i /\
    i_size i1 = i_size i /\
    a <> 0 /\ a <> IBLOCK (i_inum i) /\ a <> ind1 /\
    (ind1 <> 0 -> ind1 <> IBLOCK (i_inum i)) /\
    block_addr s1 i1 k = a /\
    (forall j, 0 <= j -> j <> k -> j * BSIZE < i_size i ->
       block_addr s1 i1 j = block_addr s i j /\
       block_addr s i j <> a /\ block_addr s i j <> ind1 /\
       block_addr s i j <> IBLOCK (i_inum i) /\
       block s1 (i_dev i) (block_addr s i j)
       = block s (i_dev i) (block_addr s i j)) /\
    (k * BSIZE < i_size i -> s1 = s).

(** What writing the entry [de] at offset [o] leaves behind: the directory
    has no holes, its size covers the entry, the other blocks are as they
    were and block [o / BSIZE] is a block [X] with [de] written into it,
    [X] being the old block when there was one. *)
Definition entry_post (dp : nat) (o : Z) (de : list Z) (s : state)
    : state -> Prop :=
  fun s' =>
    let i := iget_slot s dp in
    let i' := iget_slot s' dp in
    (dp < length (icache s'))%nat /\
    i_type i' = i_type i /\ i_dev i' = i_dev i /\
    i_size i' = Z.max (i_size i) (o + dirent_size) /\
    no_holes s' i' /\
    (forall j, 0 <= j -> j <> o / BSIZE -> j * BSIZE < i_size i ->
       dir_block s' i' j = dir_block s i j) /\
    exists X, length X = Z.to_nat BSIZE /\
      dir_block s' i' (o / BSIZE) = buf_write X (o mod BSIZE) de /\
      (o / BSIZE * BSIZE < i_size i -> X = dir_block s i (o / BSIZE)).

End ParamsOk.
(** ** Further notions used by the statements about the rest of the code *)

Section Notions.
Context `{Params}.

(** The entry at offset [o] of block [k] of the directory is in use and its
    name compares equal to [name]. *)
Definition entry_match (s : state) (i : inode) (name : list Z) (k o : Z)
    : Prop :=
  0 <= k /\ k * BSIZE < i_size i /\ In o dirent_offsets /\
  get_u16 (dir_block s i k) o <> 0 /\
  namecmp name (sub_bytes (dir_block s i k) (o + 2) DIRSIZ) = 0.

End Notions.

(** Slot [i] of the cache holds inode [inum] of device [dev] and is
    referenced: the test of the scan of iget. *)
Definition caches (dev inum : Z) (i : inode) : bool :=
  (i_ref i >? 0) && (i_dev i =? dev) && (i_inum i =? inum).

Section Notions2.
Context `{Params}.

(** What writing the [n] bytes [src] at offset [o] of the file of slot [ip]
    leaves behind when they fit into one block: the file has no holes, its
    size covers the bytes, the other blocks of the file are as they were and
    block [o / BSIZE] is a block [X] with [src] written into it, [X] being
    the old block when there was one. *)
Definition chunk_post (ip : nat) (o n : Z) (src : list Z) (s : state)
    : state -> Prop :=
  fun s' =>
    let i := iget_slot s ip in
    let i' := iget_slot s' ip in
    (ip < length (icache s'))%nat /\
    i_type i' = i_type i /\ i_dev i' = i_dev i /\
    i_size i' = Z.max (i_size i) (o + n) /\
    no_holes s' i' /\
    (forall j, 0 <= j -> j <> o / BSIZE -> j * BSIZE < i_size i ->
       block s' (i_dev i') (block_addr s' i' j)
       = block s (i_dev i) (block_addr s i j)) /\
    exists X, length X = Z.to_nat BSIZE /\
      block s' (i_dev i') (block_addr s' i' (o / BSIZE))
      = buf_write X (o mod BSIZE) src /\
      (o / BSIZE * BSIZE < i_size i ->
       X = block s (i_dev i) (block_addr s i (o / BSIZE))).

End Notions2.

Section Notions3.
Context `{Params}.

(** The 32-byte tag record at offset [i] of the block [str] holds the key:
    the key has at most 10 bytes, the record starts with them and a NUL
    follows. *)
Definition record_has_key (key str : list Z) (i : Z) : Prop :=
  strlen key <= 10 /\
  (forall j, 0 <= j < strlen key -> byte_at str (i + j) = byte_at key j) /\
  byte_at str (i + strlen key) = 0.

End Notions3.

Section Notions4.
Context `{Params}.

(** [x] is one of the disk blocks of the file of inode [i]: a block of its
    content or its indirect block. *)
Definition file_block (s : state) (i : inode) (x : Z) : Prop :=
  (exists k, 0 <= k /\ k * BSIZE < i_size i /\ x = block_addr s i k) \/
  (x <> 0 /\ x = addr_at (i_addrs i) NDIRECT).

(** [x] is one of the blocks of the file below block number [m]. *)
Definition blocks_below (s : state) (i : inode) (m : Z) (x : Z) : Prop :=
  exists k, 0 <= k < m /\ x = block_addr s i k /\ x <> 0.

(** From [s] to [s'] the blocks of [F] of device [dev] were freed: the
    superblock is the same, the blocks of [F] are zeroed and their bits are
    clear, the bits of the other blocks of the device are as they were, and
    so are the contents of the other blocks that are no bitmap blocks. *)
Definition frees (dev : Z) (s : state) (F : Z -> Prop) (s' : state) : Prop :=
  sb_of s' dev = sb_of s dev /\
  (forall x, F x -> bit_in_use s' dev x = false /\
                    block s' dev x = replicate (Z.to_nat BSIZE) 0) /\
  (forall x, 0 <= x < sb_size (sb_of s dev) -> ~ F x ->
             bit_in_use s' dev x = bit_in_use s dev x) /\
  (forall y, ~ F y -> ~ is_bitmap_block s dev y ->
             block s' dev y = block s dev y).

End Notions4.

Section Notions5.
Context `{Params}.

(** The inode where the walk of namex over [path] starts is in slot [dp]:
    for a path that begins with a slash the root, in the first slot that
    caches it; otherwise the current directory. *)
Definition walk_start (path : list Z) (s : state) (dp : nat) : Prop :=
  if deref path =? slash then
    caches ROOTDEV ROOTINO (iget_slot s dp) = true /\
    forall jp, (jp < dp)%nat -> caches ROOTDEV ROOTINO (iget_slot s jp) = false
  else cwd s = dp.

End Notions5.

(** ** A weakest-precondition calculus for the monad

    [wpx P c Q s]: running [c] from [s] ends; if it returns, [Q] holds of the
    value and the state; if it panics, [P] holds of the message and the
    state.  Sleeping and running out of fuel are excluded. *)

Definition wpx {A} (P : string -> state -> Prop) (c : M A)
    (Q : A -> state -> Prop) (s : state) : Prop :=
  match c s with
  | Ok a s' => Q a s'
  | Panic msg s' => P msg s'
  | Sleeps _ _ => False
  | OutOfFuel => False
  end.

(** Any panic allowed, and no panic allowed. *)
Definition any_panic : string -> state -> Prop := fun _ _ => True.
Definition no_panic : string -> state -> Prop := fun _ _ => False.

(** A C string without a NUL inside. *)
Definition nonul (p : list Z) : Prop := Forall (fun c => c <> 0) p.

Section Posts.
Context `{Params}.

(** What itrunc leaves behind in memory: the slot with size 0 and its
    addresses zeroed, everything else in place, and the two events. *)
Definition itrunc_post (ip : nat) (s : state) : unit -> state -> Prop :=
  fun _ s' =>
    exists addrs',
      icache s' = <[ip := with_size 0 (with_addrs addrs' (iget_slot s ip))]>
                    (icache s) /\
      (forall k, 0 <= k <= NDIRECT -> addr_at addrs' k = 0) /\
      trace s' = trace s ++ [EvItrunc ip; EvIupdate ip (i_type (iget_slot s ip))] /\
      cwd s' = cwd s.

(** The state iupdate leaves behind: iupdate is straight-line code. *)
Definition iupdate_state (ip : nat) (s : state) : state :=
  set_disk
    (<[(i_dev (iget_slot s ip), IBLOCK (i_inum (iget_slot s ip)))
       := store_dinode
            (block s (i_dev (iget_slot s ip)) (IBLOCK (i_inum (iget_slot s ip))))
            (iget_slot s ip)]> (disk s))
    (add_event (EvIupdate ip (i_type (iget_slot s ip))) s).

(** What a release that reclaims the inode leaves behind. *)
Definition iput_reclaim_post (ip : nat) (s : state) : unit -> state -> Prop :=
  fun _ s' =>
    let i := iget_slot s ip in
    Z.land (i_flags i) I_BUSY = 0 /\
    (exists addrs',
       icache s' = <[ip := with_ref 0 (with_flags 0 (with_type 0
                      (with_size 0 (with_addrs addrs' i))))]> (icache s) /\
       forall k, 0 <= k <= NDIRECT -> addr_at addrs' k = 0) /\
    trace s' = trace s ++
      [EvAcquire; EvRelease; EvItrunc ip; EvIupdate ip (i_type i);
       EvIupdate ip 0; EvAcquire; EvWakeup ip; EvRefDec ip; EvRelease] /\
    i_type (disk_inode s' (i_dev i) (i_inum i)) = 0 /\
    i_size (disk_inode s' (i_dev i) (i_inum i)) = 0.

End Posts.

(** * Lemmas *)

(** ** Byte arrays and little-endian fields *)

Lemma u32_small (x : Z) : 0 <= x < 2 ^ 32 -> u32 x = x.
Proof. intros Hx. unfold u32. apply Z.mod_small. exact Hx. Qed.

Lemma length_set_byte (d : list Z) (i v : Z) :
  length (set_byte d i v) = length d.
Proof. unfold set_byte. apply length_insert. Qed.

Lemma length_put_u16 (d : list Z) (o v : Z) : length (put_u16 d o v) = length d.
Proof. unfold put_u16. now rewrite !length_set_byte. Qed.

Lemma length_put_u32 (d : list Z) (o v : Z) : length (put_u32 d o v) = length d.
Proof. unfold put_u32. now rewrite !length_set_byte. Qed.

Lemma byte_at_set_byte_eq (d : list Z) (i v : Z) :
  0 <= i < Z.of_nat (length d) -> byte_at (set_byte d i v) i = v.
Proof.
  intros Hi. unfold byte_at, set_byte.
  rewrite list_lookup_insert_eq by lia. reflexivity.
Qed.

Lemma byte_at_set_byte_ne (d : list Z) (i j v : Z) :
  0 <= i -> 0 <= j -> i <> j -> byte_at (set_byte d i v) j = byte_at d j.
Proof.
  intros Hi Hj Hne. unfold byte_at, set_byte.
  rewrite list_lookup_insert_ne by lia. reflexivity.
Qed.

Lemma byte_at_put_u16_ne (d : list Z) (o v j : Z) :
  0 <= o -> 0 <= j -> j < o \/ o + 2 <= j ->
  byte_at (put_u16 d o v) j = byte_at d j.
Proof.
  intros Ho Hj Hd. unfold put_u16.
  rewrite !byte_at_set_byte_ne by lia. reflexivity.
Qed.

Lemma byte_at_put_u32_ne (d : list Z) (o v j : Z) :
  0 <= o -> 0 <= j -> j < o \/ o + 4 <= j ->
  byte_at (put_u32 d o v) j = byte_at d j.
Proof.
  intros Ho Hj Hd. unfold put_u32.
  rewrite !byte_at_set_byte_ne by lia. reflexivity.
Qed.

Lemma get_u16_put_u16_eq (d : list Z) (o v : Z) :
  0 <= o -> o + 2 <= Z.of_nat (length d) ->
  get_u16 (put_u16 d o v) o = v mod 2 ^ 16.
Proof.
  intros Ho Hl. unfold get_u16, put_u16.
  rewrite byte_at_set_byte_ne by lia.
  rewrite !byte_at_set_byte_eq by (rewrite ?length_set_byte; lia).
  change (2 ^ 16) with (2 ^ 8 * 2 ^ 8).
  rewrite Z.rem_mul_r by lia. reflexivity.
Qed.

Lemma get_u32_put_u32_eq (d : list Z) (o v : Z) :
  0 <= o -> o + 4 <= Z.of_nat (length d) ->
  get_u32 (put_u32 d o v) o = v mod 2 ^ 32.
Proof.
  intros Ho Hl. unfold get_u32, put_u32.
  rewrite (byte_at_set_byte_eq _ (o + 3)) by (rewrite ?length_set_byte; lia).
  rewrite (byte_at_set_byte_ne _ (o + 3) (o + 2)) by lia.
  rewrite (byte_at_set_byte_eq _ (o + 2)) by (rewrite ?length_set_byte; lia).
  rewrite (byte_at_set_byte_ne _ (o + 3) (o + 1)) by lia.
  rewrite (byte_at_set_byte_ne _ (o + 2) (o + 1)) by lia.
  rewrite (byte_at_set_byte_eq _ (o + 1)) by (rewrite ?length_set_byte; lia).
  rewrite (byte_at_set_byte_ne _ (o + 3) o) by lia.
  rewrite (byte_at_set_byte_ne _ (o + 2) o) by lia.
  rewrite (byte_at_set_byte_ne _ (o + 1) o) by lia.
  rewrite (byte_at_set_byte_eq _ o) by lia.
  change (2 ^ 32) with (2 ^ 8 * (2 ^ 8 * (2 ^ 8 * 2 ^ 8))).
  rewrite !Z.rem_mul_r by lia.
  rewrite !Z.div_div by lia.
  change (2 ^ 8 * 2 ^ 8) with (2 ^ 16).
  change (2 ^ 16 * 2 ^ 8) with (2 ^ 24).
  change (2 ^ 8 * 2 ^ 16) with (2 ^ 24). lia.
Qed.

Lemma get_u16_put_u16_ne (d : list Z) (o o' v : Z) :
  0 <= o -> 0 <= o' -> o + 2 <= o' \/ o' + 2 <= o ->
  get_u16 (put_u16 d o' v) o = get_u16 d o.
Proof.
  intros Ho Ho' Hd. unfold get_u16.
  rewrite !byte_at_put_u16_ne by lia. reflexivity.
Qed.

Lemma get_u16_put_u32_ne (d : list Z) (o o' v : Z) :
  0 <= o -> 0 <= o' -> o + 2 <= o' \/ o' + 4 <= o ->
  get_u16 (put_u32 d o' v) o = get_u16 d o.
Proof.
  intros Ho Ho' Hd. unfold get_u16.
  rewrite !byte_at_put_u32_ne by lia. reflexivity.
Qed.

Lemma get_u32_put_u16_ne (d : list Z) (o o' v : Z) :
  0 <= o -> 0 <= o' -> o + 4 <= o' \/ o' + 2 <= o ->
  get_u32 (put_u16 d o' v) o = get_u32 d o.
Proof.
  intros Ho Ho' Hd. unfold get_u32.
  rewrite !byte_at_put_u16_ne by lia. reflexivity.
Qed.

Lemma get_u32_put_u32_ne (d : list Z) (o o' v : Z) :
  0 <= o -> 0 <= o' -> o + 4 <= o' \/ o' + 4 <= o ->
  get_u32 (put_u32 d o' v) o = get_u32 d o.
Proof.
  intros Ho Ho' Hd. unfold get_u32.
  rewrite !byte_at_put_u32_ne by lia. reflexivity.
Qed.

(** The constants of stock xv6 satisfy the assumptions. *)
Lemma xv6_ok : params_ok (H := xv6).
Proof.
  constructor; try (vm_compute; (reflexivity || discriminate || congruence)).
  - exists 0. split; [lia|reflexivity].
  - exists 1. split; [lia|reflexivity].
Qed.

(** ** Rules of the weakest-precondition calculus *)

Lemma wpx_bind {A B} P (c : M A) (k : A -> M B) Q s :
  wpx P c (fun a s' => wpx P (k a) Q s') s -> wpx P (bind c k) Q s.
Proof. unfold wpx, bind. destruct (c s); auto. Qed.

Lemma wpx_bind_assoc {A B C} P (c : M A) (k : A -> M B) (k2 : B -> M C) Q s :
  wpx P (bind c (fun a => bind (k a) k2)) Q s -> wpx P (bind (bind c k) k2) Q s.
Proof. unfold wpx, bind. destruct (c s); auto. Qed.

Lemma wpx_mono {A} P (c : M A) (Q Q' : A -> state -> Prop) s :
  wpx P c Q s -> (forall a s', Q a s' -> Q' a s') -> wpx P c Q' s.
Proof. unfold wpx. destruct (c s); auto. Qed.

Lemma wpx_weaken {A} (P P' : string -> state -> Prop) (c : M A) Q s :
  wpx P c Q s -> (forall m s', P m s' -> P' m s') -> wpx P' c Q s.
Proof. unfold wpx. destruct (c s); auto. Qed.

Lemma wpx_ok {A} P (c : M A) Q s a s' :
  c s = Ok a s' -> wpx P c Q s -> Q a s'.
Proof. unfold wpx. intros ->. auto. Qed.

Lemma wpx_eq {A} P (c : M A) Q s a s' :
  c s = Ok a s' -> Q a s' -> wpx P c Q s.
Proof. unfold wpx. intros ->. auto. Qed.

Lemma wpx_no_panic_ok {A} (c : M A) Q s :
  wpx no_panic c Q s -> exists a s', c s = Ok a s' /\ Q a s'.
Proof.
  unfold wpx, no_panic. destruct (c s); try contradiction. eauto.
Qed.

Lemma wpx_returns {A} P (c : M A) Q s :
  wpx P c Q s -> (forall msg s', c s <> Panic msg s') ->
  exists a s', c s = Ok a s' /\ Q a s'.
Proof.
  unfold wpx. intros Hw Hnp. destruct (c s) as [a s'|msg s'| |];
    try contradiction; [eauto|]. destruct (Hnp msg s' eq_refl).
Qed.

Lemma wpx_forM P (I : state -> Prop) (l : list Z) (body : Z -> M unit) s :
  I s ->
  (forall k s0, k ∈ l -> I s0 -> wpx P (body k) (fun _ s1 => I s1) s0) ->
  wpx P (forM_ l body) (fun _ s1 => I s1) s.
Proof.
  revert s. induction l as [|k l IH]; intros s HI Hbody; simpl.
  - exact HI.
  - apply wpx_bind. eapply wpx_mono.
    + apply Hbody; [left|exact HI].
    + intros u s1 HI1. cbv beta. apply IH; [exact HI1|].
      intros k' s0 Hk'. apply Hbody. right. exact Hk'.
Qed.

(** The primitive steps. *)

Section WpPrim.
Context `{Params}.
Context {B : Type} (P : string -> state -> Prop) (Q : B -> state -> Prop).

Lemma wpx_log e (k : unit -> M B) s :
  wpx P (k tt) Q (add_event e s) -> wpx P (bind (log e) k) Q s.
Proof. exact (fun h => h). Qed.

Lemma wpx_rd {A} ip (f : inode -> A) (k : A -> M B) s :
  wpx P (k (f (iget_slot s ip))) Q s -> wpx P (bind (rd ip f) k) Q s.
Proof. exact (fun h => h). Qed.

Lemma wpx_modify ip f (k : unit -> M B) s :
  wpx P (k tt) Q (set_slot ip (f (iget_slot s ip)) s) ->
  wpx P (bind (modify_inode ip f) k) Q s.
Proof. exact (fun h => h). Qed.

Lemma wpx_get_state (k : state -> M B) s :
  wpx P (k s) Q s -> wpx P (bind get_state k) Q s.
Proof. exact (fun h => h). Qed.

Lemma wpx_bread dev bno (k : list Z -> M B) s :
  wpx P (k (block s dev bno)) Q s -> wpx P (bind (bread dev bno) k) Q s.
Proof. exact (fun h => h). Qed.

Lemma wpx_bwrite dev bno data (k : unit -> M B) s :
  wpx P (k tt) Q (set_disk (<[(dev, bno) := data]> (disk s)) s) ->
  wpx P (bind (bwrite dev bno data) k) Q s.
Proof. exact (fun h => h). Qed.

Lemma wpx_brelse (k : unit -> M B) s :
  wpx P (k tt) Q s -> wpx P (bind brelse k) Q s.
Proof. exact (fun h => h). Qed.

Lemma wpx_ret_bind {A} (a : A) (k : A -> M B) s :
  wpx P (k a) Q s -> wpx P (bind (ret a) k) Q s.
Proof. exact (fun h => h). Qed.

Lemma wpx_ret (b : B) s : Q b s -> wpx P (ret b) Q s.
Proof. exact (fun h => h). Qed.

Lemma wpx_panic msg s : P msg s -> wpx P (panic msg) Q s.
Proof. exact (fun h => h). Qed.

Lemma wpx_log_end e (Q' : unit -> state -> Prop) s :
  Q' tt (add_event e s) -> wpx P (log e) Q' s.
Proof. exact (fun h => h). Qed.

Lemma wpx_modify_end ip f (Q' : unit -> state -> Prop) s :
  Q' tt (set_slot ip (f (iget_slot s ip)) s) -> wpx P (modify_inode ip f) Q' s.
Proof. exact (fun h => h). Qed.

Lemma wpx_brelse_end (Q' : unit -> state -> Prop) s :
  Q' tt s -> wpx P brelse Q' s.
Proof. exact (fun h => h). Qed.

End WpPrim.

Ltac wstep :=
  lazymatch goal with
  | |- wpx _ (bind (log _) _) _ _ => apply wpx_log
  | |- wpx _ (bind (rd _ _) _) _ _ => apply wpx_rd
  | |- wpx _ (bind (modify_inode _ _) _) _ _ => apply wpx_modify
  | |- wpx _ (bind get_state _) _ _ => apply wpx_get_state
  | |- wpx _ (bind (bread _ _) _) _ _ => apply wpx_bread
  | |- wpx _ (bind (bwrite _ _ _) _) _ _ => apply wpx_bwrite
  | |- wpx _ (bind brelse _) _ _ => apply wpx_brelse
  | |- wpx _ (bind (ret _) _) _ _ => apply wpx_ret_bind
  | |- wpx _ (bind (bind _ _) _) _ _ => apply wpx_bind_assoc
  end.
Ltac wsteps := repeat wstep.
Ltac wend :=
  lazymatch goal with
  | |- wpx _ (log _) _ _ => apply wpx_log_end
  | |- wpx _ (modify_inode _ _) _ _ => apply wpx_modify_end
  | |- wpx _ brelse _ _ => apply wpx_brelse_end
  | |- wpx _ (ret _) _ _ => apply wpx_ret
  | |- wpx _ (panic _) _ _ => apply wpx_panic
  end.

Lemma wpx_forM_idx P (I : nat -> state -> Prop) (l : list Z)
    (body : Z -> M unit) s :
  I 0%nat s ->
  (forall n k s0, l !! n = Some k -> I n s0 ->
     wpx P (body k) (fun _ s1 => I (S n) s1) s0) ->
  wpx P (forM_ l body) (fun _ s1 => I (length l) s1) s.
Proof.
  revert I s. induction l as [|k l IH]; intros I s HI Hbody; simpl.
  - exact HI.
  - apply wpx_bind. eapply wpx_mono.
    + apply (Hbody 0%nat k s); [reflexivity|exact HI].
    + intros u s1 HI1. cbv beta.
      apply (IH (fun n => I (S n))); [exact HI1|].
      intros n k' s0 Hk'. apply (Hbody (S n)). exact Hk'.
Qed.

(** Projections of the state updates. *)

Lemma icache_add_event e s : icache (add_event e s) = icache s.
Proof. reflexivity. Qed.
Lemma icache_set_slot ip x s : icache (set_slot ip x s) = <[ip := x]> (icache s).
Proof. reflexivity. Qed.
Lemma icache_set_disk d s : icache (set_disk d s) = icache s.
Proof. reflexivity. Qed.
Lemma trace_add_event e s : trace (add_event e s) = trace s ++ [e].
Proof. reflexivity. Qed.
Lemma trace_set_slot ip x s : trace (set_slot ip x s) = trace s.
Proof. reflexivity. Qed.
Lemma trace_set_disk d s : trace (set_disk d s) = trace s.
Proof. reflexivity. Qed.
Lemma disk_add_event e s : disk (add_event e s) = disk s.
Proof. reflexivity. Qed.
Lemma disk_set_slot ip x s : disk (set_slot ip x s) = disk s.
Proof. reflexivity. Qed.
Lemma disk_set_disk d s : disk (set_disk d s) = d.
Proof. reflexivity. Qed.
Lemma cwd_add_event e s : cwd (add_event e s) = cwd s.
Proof. reflexivity. Qed.
Lemma cwd_set_slot ip x s : cwd (set_slot ip x s) = cwd s.
Proof. reflexivity. Qed.
Lemma cwd_set_disk d s : cwd (set_disk d s) = cwd s.
Proof. reflexivity. Qed.
Lemma iget_slot_add_event e s ip : iget_slot (add_event e s) ip = iget_slot s ip.
Proof. reflexivity. Qed.
Lemma iget_slot_set_disk d s ip : iget_slot (set_disk d s) ip = iget_slot s ip.
Proof. reflexivity. Qed.
Lemma block_add_event `{Params} e s dev b : block (add_event e s) dev b = block s dev b.
Proof. reflexivity. Qed.
Lemma block_set_slot `{Params} ip x s dev b : block (set_slot ip x s) dev b = block s dev b.
Proof. reflexivity. Qed.

Create Rewrite HintDb st.
Hint Rewrite icache_add_event icache_set_slot icache_set_disk trace_add_event
  trace_set_slot trace_set_disk disk_add_event disk_set_slot disk_set_disk
  cwd_add_event cwd_set_slot cwd_set_disk iget_slot_add_event
  iget_slot_set_disk block_add_event block_set_slot : st.


(** * Properties *)

(** ** skipelem *)

Lemma elem_end_length (s : list Z) : (length (elem_end s) <= length s)%nat.
Proof.
  induction s as [|c s IH]; simpl; [lia|].
  destruct ((c =? slash) || (c =? 0)); simpl; lia.
Qed.

Lemma elem_len_range (s : list Z) : 0 <= elem_len s <= Z.of_nat (length s).
Proof. unfold elem_len. pose proof (elem_end_length s). lia. Qed.

Lemma elem_len_cons (c : Z) (s : list Z) :
  elem_len (c :: s) = if (c =? slash) || (c =? 0) then 0 else 1 + elem_len s.
Proof.
  unfold elem_len. simpl. destruct ((c =? slash) || (c =? 0)); simpl; lia.
Qed.

Lemma elem_end_split (s : list Z) :
  s = take (Z.to_nat (elem_len s)) s ++ elem_end s.
Proof.
  induction s as [|c s IH]; [reflexivity|].
  rewrite elem_len_cons. simpl.
  destruct ((c =? slash) || (c =? 0)) eqn:E; [reflexivity|].
  pose proof (elem_len_range s).
  replace (Z.to_nat (1 + elem_len s)) with (S (Z.to_nat (elem_len s))) by lia.
  simpl. congruence.
Qed.

Lemma elem_chars (s : list Z) :
  Forall (fun c => c <> slash /\ c <> 0) (take (Z.to_nat (elem_len s)) s).
Proof.
  induction s as [|c s IH]; [constructor|].
  rewrite elem_len_cons.
  destruct ((c =? slash) || (c =? 0)) eqn:E; [constructor|].
  pose proof (elem_len_range s).
  replace (Z.to_nat (1 + elem_len s)) with (S (Z.to_nat (elem_len s))) by lia.
  simpl. constructor; [|exact IH].
  apply orb_false_iff in E. lia.
Qed.

Lemma elem_end_stop (s : list Z) :
  deref (elem_end s) = slash \/ deref (elem_end s) = 0.
Proof.
  induction s as [|c s IH]; simpl; [now right|].
  destruct ((c =? slash) || (c =? 0)) eqn:E; [|exact IH].
  simpl. apply orb_true_iff in E. lia.
Qed.

Lemma skip_slashes_stop (p : list Z) : deref (skip_slashes p) <> slash.
Proof.
  induction p as [|c p IH]; simpl; [discriminate|].
  destruct (c =? slash) eqn:E; [exact IH|]. simpl. lia.
Qed.

Lemma elem_len_pos (s : list Z) :
  deref s <> 0 -> deref s <> slash -> 0 < elem_len s.
Proof.
  destruct s as [|c s]; simpl; [congruence|].
  intros H0 Hs. rewrite elem_len_cons.
  replace ((c =? slash) || (c =? 0)) with false by (symmetry; apply orb_false_iff; lia).
  pose proof (elem_len_range s). lia.
Qed.

(** C10.  When the path has a next component (the path is not empty after its
    leading slashes), [len] characters that are neither '/' nor NUL, skipelem
    returns the path after the component and its slashes and leaves in the
    buffer [name]: for [len >= DIRSIZ] exactly the first DIRSIZ bytes of the
    component in its first DIRSIZ places, none of them NUL, the rest of the
    buffer as it was (no terminator written, also when [len = DIRSIZ]); for
    [len < DIRSIZ] the [len] bytes of the component followed by a NUL at
    index [len], the rest of the buffer as it was. *)
Theorem skipelem_name_buffer `{Params} (path name : list Z) :
  (Z.to_nat DIRSIZ <= length name)%nat ->
  deref (skip_slashes path) <> 0 ->
  let s := skip_slashes path in
  let len := elem_len s in
  let comp := take (Z.to_nat len) s in
  s = comp ++ elem_end s /\
  Forall (fun c => c <> slash /\ c <> 0) comp /\
  Z.of_nat (length comp) = len /\ 0 < len /\
  (deref (elem_end s) = slash \/ deref (elem_end s) = 0) /\
  exists name',
    skipelem path name = Some (skip_slashes (elem_end s), name') /\
    length name' = length name /\
    (DIRSIZ <= len ->
       name' = take (Z.to_nat DIRSIZ) comp ++ drop (Z.to_nat DIRSIZ) name /\
       length (take (Z.to_nat DIRSIZ) comp) = Z.to_nat DIRSIZ /\
       Forall (fun c => c <> 0) (take (Z.to_nat DIRSIZ) name')) /\
    (len < DIRSIZ ->
       name' = comp ++ 0 :: drop (S (Z.to_nat len)) name).
Proof.
  intros Hname Hne s len comp.
  pose proof (elem_len_range s) as Hr.
  pose proof (elem_end_split s) as Hsplit.
  pose proof (elem_chars s) as Hchars.
  pose proof (skip_slashes_stop path) as Hns.
  pose proof (elem_len_pos s Hne Hns) as Hpos.
  assert (Hlc : Z.of_nat (length comp) = len).
  { unfold comp. rewrite length_take. fold len in Hr. lia. }
  split; [exact Hsplit|]. split; [exact Hchars|].
  split; [exact Hlc|]. split; [exact Hpos|].
  split; [apply elem_end_stop|].
  unfold skipelem. fold s.
  destruct (deref s =? 0) eqn:E0; [apply Z.eqb_eq in E0; destruct (Hne E0)|].
  fold len.
  destruct (len >=? DIRSIZ) eqn:Eg.
  - eexists. split; [reflexivity|].
    assert (Hd : DIRSIZ <= len) by lia.
    assert (Htk : take (Z.to_nat DIRSIZ) s = take (Z.to_nat DIRSIZ) comp).
    { unfold comp. rewrite take_take. f_equal. lia. }
    assert (Hlt : length (take (Z.to_nat DIRSIZ) comp) = Z.to_nat DIRSIZ).
    { rewrite length_take. lia. }
    split.
    { unfold memmove. rewrite length_app, length_take, length_drop.
      fold len in Hr. lia. }
    split; [|lia].
    intros _. unfold memmove. rewrite Htk. split; [reflexivity|].
    split; [exact Hlt|].
    rewrite take_app_length'; [|symmetry; exact Hlt].
    apply Forall_take. eapply Forall_impl; [exact Hchars|].
    simpl. intros c [_ Hc]. exact Hc.
  - assert (Hd : len < DIRSIZ) by lia.
    eexists. split; [reflexivity|].
    unfold memmove. fold comp.
    assert (Hlen' : length comp = Z.to_nat len) by lia.
    assert (Hins : <[Z.to_nat len := 0]> (comp ++ drop (Z.to_nat len) name)
                   = comp ++ 0 :: drop (S (Z.to_nat len)) name).
    { rewrite <- Hlen' at 1. rewrite insert_app_r_alt by lia.
      rewrite Nat.sub_diag.
      destruct (drop (Z.to_nat len) name) as [|x rest] eqn:Ed.
      - apply (f_equal length) in Ed. rewrite length_drop in Ed. simpl in Ed. lia.
      - assert (Hr2 : drop (S (Z.to_nat len)) name = rest).
        { replace (S (Z.to_nat len)) with (Z.to_nat len + 1)%nat by lia.
          rewrite <- drop_drop, Ed. reflexivity. }
        simpl. rewrite Hr2. reflexivity. }
    rewrite Hins. split.
    { rewrite length_app. simpl. rewrite length_drop. lia. }
    split; [lia|]. intros _. reflexivity.
Qed.

Lemma skipelem_name_buffer_witness :
  exists rest name',
    skipelem (H := xv6) (bytes_of_string "/abcdefghijklmn/x") (replicate 14 7)
      = Some (rest, name') /\
    name' = bytes_of_string "abcdefghijklmn".
Proof.
  destruct (skipelem_name_buffer (H := xv6)
              (bytes_of_string "/abcdefghijklmn/x") (replicate 14 7))
    as (_ & _ & _ & _ & _ & name' & Hs & _ & Hge & _).
  - vm_compute. lia.
  - vm_compute. discriminate.
  - exists (skip_slashes (elem_end (skip_slashes (bytes_of_string "/abcdefghijklmn/x")))), name'.
    split; [exact Hs|].
    destruct Hge as (-> & _); [vm_compute; discriminate|]. reflexivity.
Defined.

(** ** bmap beyond the capacity of an inode; dirlookup on a non-directory *)

Section Fatal.
Context `{Params}.

(** C2 (as amended).  For every inode and every logical block index [bn] (a
    uint) with [bn >= NDIRECT + NINDIRECT], bmap halts in
    panic("bmap: out of range"); it does so before touching the inode or the
    disk.  It does not return a failure result to its caller. *)
Theorem bmap_out_of_range_panics (ip : nat) (bn : Z) (s : state) :
  0 <= NDIRECT -> 0 <= NINDIRECT ->
  NDIRECT + NINDIRECT <= bn < 2 ^ 32 ->
  bmap ip bn s = Panic "bmap: out of range" s.
Proof.
  intros Hd Hi Hbn. unfold bmap.
  destruct (bn <? NDIRECT) eqn:E1; [lia|].
  rewrite u32_small by lia.
  destruct (bn - NDIRECT <? NINDIRECT) eqn:E2; [lia|].
  reflexivity.
Qed.

(** C9.  For every inode whose type is not T_DIR, dirlookup halts in
    panic("dirlookup not DIR"): it returns neither a null pointer nor an
    inode. *)
Theorem dirlookup_not_dir_panics (dp : nat) (name : list Z) (s : state) :
  i_type (iget_slot s dp) <> T_DIR ->
  dirlookup dp name s = Panic "dirlookup not DIR" s.
Proof.
  intros Ht. unfold dirlookup, bind, rd. simpl.
  destruct (i_type (iget_slot s dp) =? T_DIR) eqn:E; [lia|].
  reflexivity.
Qed.

End Fatal.

Lemma bmap_out_of_range_panics_witness :
  bmap (H := xv6) 0 140 sample_state = Panic "bmap: out of range" sample_state.
Proof.
  apply (bmap_out_of_range_panics (H := xv6)); vm_compute; intuition discriminate.
Defined.

(** C2, as stated, fails: for block index 140 = NDIRECT + NINDIRECT of stock
    xv6, bmap returns nothing to its caller, neither a failure value nor an
    address. *)
Lemma bmap_out_of_range_counterexample :
  ~ exists r s', bmap (H := xv6) 0 140 sample_state = Ok r s'.
Proof. intros (r & s' & Heq). vm_compute in Heq. discriminate. Qed.

Lemma dirlookup_not_dir_panics_witness :
  dirlookup (H := xv6) 1 (bytes_of_string "f") sample_state
  = Panic "dirlookup not DIR" sample_state.
Proof.
  apply (dirlookup_not_dir_panics (H := xv6)). vm_compute. discriminate.
Defined.

(** ** iput, itrunc, iupdate *)

Section Iput.
Context `{Params}.

Lemma with_addrs_id (i : inode) : with_addrs (i_addrs i) i = i.
Proof. destruct i; reflexivity. Qed.

Lemma iget_slot_insert (s : state) (c : list inode) (ip : nat) (x : inode) :
  icache s = <[ip := x]> c -> (ip < length c)%nat -> iget_slot s ip = x.
Proof.
  intros Hc Hlt. unfold iget_slot. rewrite Hc.
  rewrite list_lookup_insert_eq by exact Hlt. reflexivity.
Qed.

Lemma iget_slot_set_slot (s : state) (ip : nat) (x : inode) :
  (ip < length (icache s))%nat -> iget_slot (set_slot ip x s) ip = x.
Proof. intros Hlt. eapply iget_slot_insert; [reflexivity|exact Hlt]. Qed.

Lemma iget_slot_set_slot_ne (s : state) (ip jp : nat) (x : inode) :
  ip <> jp -> iget_slot (set_slot ip x s) jp = iget_slot s jp.
Proof.
  intros Hne. unfold iget_slot, set_slot. simpl.
  rewrite list_lookup_insert_ne by exact Hne. reflexivity.
Qed.

(** bfree touches the disk only. *)
Lemma bfree_frame (dev b : Z) (s : state) :
  wpx any_panic (bfree dev b)
    (fun _ s' => icache s' = icache s /\ trace s' = trace s /\ cwd s' = cwd s) s.
Proof.
  unfold bfree, bzero, readsb. wsteps.
  match goal with |- context [if ?c then _ else _] => destruct c end.
  - apply wpx_panic. exact I.
  - wsteps. apply wpx_ret. auto.
Qed.

Lemma length_block (s : state) (dev bno : Z) :
  length (block s dev bno) = Z.to_nat BSIZE.
Proof. unfold block, block_of. apply length_resize. Qed.

Lemma block_of_insert_eq (d : gmap (Z * Z) (list Z)) (dev bno : Z) (data : list Z) :
  length data = Z.to_nat BSIZE ->
  block_of (<[(dev, bno) := data]> d) dev bno = data.
Proof.
  intros Hl. unfold block_of. rewrite lookup_insert_eq. simpl.
  rewrite <- Hl. apply resize_all.
Qed.

Lemma block_of_insert_ne (d : gmap (Z * Z) (list Z)) (dev bno dev' bno' : Z)
    (data : list Z) :
  (dev, bno) <> (dev', bno') ->
  block_of (<[(dev, bno) := data]> d) dev' bno' = block_of d dev' bno'.
Proof.
  intros Hne. unfold block_of. rewrite lookup_insert_ne by exact Hne. reflexivity.
Qed.

Lemma block_set_disk (d : gmap (Z * Z) (list Z)) (s : state) (dev bno : Z) :
  block (set_disk d s) dev bno = block_of d dev bno.
Proof. reflexivity. Qed.

Lemma block_after_bwrite (s : state) (dev bno : Z) (data : list Z) :
  length data = Z.to_nat BSIZE ->
  block (set_disk (<[(dev, bno) := data]> (disk s)) s) dev bno = data.
Proof. intros Hl. rewrite block_set_disk. apply block_of_insert_eq. exact Hl. Qed.

Lemma addr_at_insert (addrs : list Z) (k j v : Z) :
  0 <= k -> 0 <= j ->
  addr_at (<[Z.to_nat k := v]> addrs) j =
    if (k =? j) && (j <? Z.of_nat (length addrs)) then v else addr_at addrs j.
Proof.
  intros Hk Hj. unfold addr_at.
  destruct (k =? j) eqn:E; simpl.
  - apply Z.eqb_eq in E. subst j.
    destruct (k <? Z.of_nat (length addrs)) eqn:E2.
    + rewrite list_lookup_insert_eq by lia. reflexivity.
    + rewrite list_insert_ge by lia. reflexivity.
  - rewrite list_lookup_insert_ne by lia. reflexivity.
Qed.

Lemma addr_at_insert_zero (addrs : list Z) (k j : Z) :
  0 <= k -> 0 <= j ->
  addr_at (<[Z.to_nat k := 0]> addrs) j = if k =? j then 0 else addr_at addrs j.
Proof.
  intros Hk Hj. rewrite addr_at_insert by assumption.
  destruct (k =? j) eqn:E; simpl; [|reflexivity].
  destruct (j <? Z.of_nat (length addrs)) eqn:E2; [reflexivity|].
  unfold addr_at. rewrite lookup_ge_None_2 by lia. reflexivity.
Qed.

Lemma itrunc_spec (ip : nat) (s : state) :
  0 <= NDIRECT ->
  (ip < length (icache s))%nat ->
  wpx any_panic (itrunc ip) (itrunc_post ip s) s.
Proof.
  intros Hnd Hlt. set (i := iget_slot s ip).
  unfold itrunc. wstep.
  (* the loop over the direct addresses *)
  apply wpx_bind.
  eapply wpx_mono.
  { apply (wpx_forM_idx any_panic
      (fun n s0 =>
         (exists addrs',
            icache s0 = <[ip := with_addrs addrs' i]> (icache s) /\
            forall k, 0 <= k < Z.of_nat n -> addr_at addrs' k = 0) /\
         trace s0 = trace s ++ [EvItrunc ip] /\ cwd s0 = cwd s)).
    - split; [|split; reflexivity].
      exists (i_addrs i). split; [|intros k Hk; lia].
      simpl. rewrite with_addrs_id. symmetry. apply list_insert_id.
      unfold i, iget_slot. destruct (icache s !! ip) eqn:E; [reflexivity|].
      apply lookup_ge_None in E. lia.
    - intros n k s0 Hk ((addrs' & Hc & Hz) & Ht & Hw).
      apply lookup_seqZ in Hk. destruct Hk as [Hk Hn].
      rewrite Z.add_0_l in Hk. subst k.
      assert (Hi0 : iget_slot s0 ip = with_addrs addrs' i)
        by (eapply iget_slot_insert; eauto).
      wstep. rewrite Hi0. simpl.
      destruct (addr_at addrs' (Z.of_nat n) =? 0) eqn:Ea.
      + apply wpx_ret. split; [|auto].
        exists addrs'. split; [exact Hc|]. intros k Hk.
        destruct (Z.eq_dec k (Z.of_nat n)) as [->|Hne]; [lia|apply Hz; lia].
      + apply wpx_bind. eapply wpx_mono; [apply bfree_frame|].
        intros u s1 (Hc1 & Ht1 & Hw1). cbv beta.
        unfold wpx, modify_inode. simpl.
        assert (Hi1 : iget_slot s1 ip = with_addrs addrs' i).
        { unfold iget_slot. rewrite Hc1. exact Hi0. }
        rewrite Hi1. simpl. split; [|split; congruence].
        exists (<[Z.to_nat (Z.of_nat n) := 0]> addrs'). split.
        * rewrite Hc1, Hc, list_insert_insert_eq. reflexivity.
        * intros k Hk. rewrite addr_at_insert_zero by lia.
          destruct (Z.of_nat n =? k) eqn:E; [reflexivity|].
          apply Hz. lia. }
  intros u s1 ((addrs1 & Hc1 & Hz1) & Ht1 & Hw1). cbv beta.
  rewrite length_seqZ in Hz1.
  assert (Hi1 : iget_slot s1 ip = with_addrs addrs1 i)
    by (eapply iget_slot_insert; eauto).
  wstep. rewrite Hi1. simpl.
  apply wpx_bind.
  apply (wpx_mono _ _
    (fun _ s2 =>
       (exists addrs',
          icache s2 = <[ip := with_addrs addrs' i]> (icache s) /\
          forall k, 0 <= k <= NDIRECT -> addr_at addrs' k = 0) /\
       trace s2 = trace s ++ [EvItrunc ip] /\ cwd s2 = cwd s)).
  { destruct (addr_at addrs1 NDIRECT =? 0) eqn:Ea.
    - apply wpx_ret. split; [|auto].
      exists addrs1. split; [exact Hc1|]. intros k Hk.
      destruct (Z.eq_dec k NDIRECT) as [->|Hne]; [lia|apply Hz1; lia].
    - wstep. apply wpx_bind.
      eapply wpx_mono.
      { apply (wpx_forM any_panic
          (fun s0 => icache s0 = icache s1 /\ trace s0 = trace s1
                     /\ cwd s0 = cwd s1)).
        - auto.
        - intros k s0 _ (Hc0 & Ht0 & Hw0).
          destruct (get_u32 (block s1 (i_dev i) (addr_at addrs1 NDIRECT)) (4 * k) =? 0).
          + apply wpx_ret. auto.
          + eapply wpx_mono; [apply bfree_frame|].
            intros u' s' (? & ? & ?). split; [|split]; congruence. }
      intros u' s2 (Hc2 & Ht2 & Hw2). cbv beta. wstep.
      apply wpx_bind. eapply wpx_mono; [apply bfree_frame|].
      intros u'' s3 (Hc3 & Ht3 & Hw3). cbv beta.
      unfold wpx, modify_inode. simpl.
      assert (Hi3 : iget_slot s3 ip = with_addrs addrs1 i).
      { unfold iget_slot. rewrite Hc3, Hc2. exact Hi1. }
      rewrite Hi3. simpl. split; [|split; congruence].
      exists (<[Z.to_nat NDIRECT := 0]> addrs1). split.
      + rewrite Hc3, Hc2, Hc1, list_insert_insert_eq. reflexivity.
      + intros k Hk. rewrite addr_at_insert_zero by lia.
        destruct (NDIRECT =? k) eqn:E; [reflexivity|].
        apply Hz1. lia. }
  intros u2 s2 ((addrs2 & Hc2 & Hz2) & Ht2 & Hw2). cbv beta.
  assert (Hi2 : iget_slot s2 ip = with_addrs addrs2 i)
    by (eapply iget_slot_insert; eauto).
  wstep. rewrite Hi2.
  unfold iupdate. wstep.
  rewrite iget_slot_set_slot by (rewrite Hc2, length_insert; exact Hlt).
  wsteps. apply wpx_ret.
  exists addrs2. simpl. split; [|split; [exact Hz2|split]].
  - rewrite Hc2, list_insert_insert_eq. reflexivity.
  - rewrite Ht2, <- app_assoc. reflexivity.
  - exact Hw2.
Qed.

(** The on-disk record after the stores of iupdate. *)

Lemma byte_at_put_addrs_below (data addrs : list Z) (off j : Z) :
  0 <= j < off -> byte_at (put_addrs data off addrs) j = byte_at data j.
Proof.
  intros Hj. unfold put_addrs.
  assert (Hpos : Forall (fun k => 0 <= k) (seqZ 0 (NDIRECT + 1))).
  { apply Forall_seqZ. intros; lia. }
  revert data Hpos. induction (seqZ 0 (NDIRECT + 1)) as [|k l IH];
    intros data Hpos; simpl; [reflexivity|].
  inversion Hpos; subst.
  rewrite IH by assumption.
  apply byte_at_put_u32_ne; lia.
Qed.

Lemma length_put_addrs (data addrs : list Z) (off : Z) :
  length (put_addrs data off addrs) = length data.
Proof.
  unfold put_addrs. revert data.
  induction (seqZ 0 (NDIRECT + 1)) as [|k l IH]; intros data; simpl;
    [reflexivity|].
  rewrite IH. apply length_put_u32.
Qed.

Lemma length_store_dinode (data : list Z) (i : inode) :
  length (store_dinode data i) = length data.
Proof.
  unfold store_dinode.
  now rewrite length_put_addrs, length_put_u32, !length_put_u16.
Qed.

Lemma dinode_off_range (inum : Z) :
  params_ok -> 0 <= dinode_off inum /\ dinode_off inum + dinode_size <= BSIZE.
Proof.
  intros Hok. destruct Hok. unfold dinode_off.
  pose proof (Z.mod_pos_bound inum IPB IPB_pos0) as Hm.
  assert (0 < dinode_size) by (unfold dinode_size; lia).
  split; [nia|]. unfold dinode_size in *. nia.
Qed.

Lemma get_u16_put_addrs_below (data addrs : list Z) (off o : Z) :
  0 <= o -> o + 2 <= off ->
  get_u16 (put_addrs data off addrs) o = get_u16 data o.
Proof.
  intros Ho Hoff. unfold get_u16.
  rewrite !byte_at_put_addrs_below by lia. reflexivity.
Qed.

Lemma get_u32_put_addrs_below (data addrs : list Z) (off o : Z) :
  0 <= o -> o + 4 <= off ->
  get_u32 (put_addrs data off addrs) o = get_u32 data o.
Proof.
  intros Ho Hoff. unfold get_u32.
  rewrite !byte_at_put_addrs_below by lia. reflexivity.
Qed.

Lemma stored_type (data : list Z) (i : inode) :
  params_ok -> length data = Z.to_nat BSIZE ->
  get_u16 (store_dinode data i) (dinode_off (i_inum i)) = i_type i mod 2 ^ 16.
Proof.
  intros Hok Hl. pose proof (dinode_off_range (i_inum i) Hok) as [Ho Hb].
  assert (12 < dinode_size) by (destruct Hok; unfold dinode_size; lia).
  unfold store_dinode.
  rewrite get_u16_put_addrs_below by lia.
  rewrite get_u16_put_u32_ne by lia.
  rewrite !get_u16_put_u16_ne by lia.
  apply get_u16_put_u16_eq; lia.
Qed.

Lemma stored_size (data : list Z) (i : inode) :
  params_ok -> length data = Z.to_nat BSIZE ->
  get_u32 (store_dinode data i) (dinode_off (i_inum i) + 8) = i_size i mod 2 ^ 32.
Proof.
  intros Hok Hl. pose proof (dinode_off_range (i_inum i) Hok) as [Ho Hb].
  assert (12 < dinode_size) by (destruct Hok; unfold dinode_size; lia).
  unfold store_dinode.
  rewrite get_u32_put_addrs_below by lia.
  apply get_u32_put_u32_eq; rewrite ?length_put_u16; lia.
Qed.

(** iupdate is straight-line code. *)
Lemma iupdate_eq (ip : nat) (s : state) :
  iupdate ip s = Ok tt (iupdate_state ip s).
Proof. reflexivity. Qed.

Lemma disk_inode_after_store (s : state) (i : inode) (data : list Z) :
  params_ok -> length data = Z.to_nat BSIZE ->
  let s' := set_disk (<[(i_dev i, IBLOCK (i_inum i)) := store_dinode data i]>
                        (disk s)) s in
  i_type (disk_inode s' (i_dev i) (i_inum i)) = s16 (i_type i mod 2 ^ 16) /\
  i_size (disk_inode s' (i_dev i) (i_inum i)) = i_size i mod 2 ^ 32.
Proof.
  intros Hok Hl s'. unfold disk_inode, load_dinode. simpl.
  unfold s'. rewrite block_after_bwrite by (rewrite length_store_dinode; exact Hl).
  rewrite stored_type, stored_size by assumption. auto.
Qed.

Lemma count_events_app (p : event -> bool) (t l : list event) :
  count_events p (t ++ l) = (count_events p t + count_events p l)%nat.
Proof. unfold count_events. rewrite List.filter_app, length_app. reflexivity. Qed.

Lemma last_ref_unlinked_test (i : inode) :
  ((i_ref i =? 1) && negb (Z.land (i_flags i) I_VALID =? 0) && (i_nlink i =? 0))
  = true <-> last_ref_unlinked i.
Proof.
  unfold last_ref_unlinked. rewrite !andb_true_iff, negb_true_iff.
  rewrite !Z.eqb_eq, Z.eqb_neq. tauto.
Qed.

Lemma iput_reclaim_spec (ip : nat) (s : state) :
  params_ok -> (ip < length (icache s))%nat ->
  last_ref_unlinked (iget_slot s ip) ->
  wpx any_panic (iput ip) (iput_reclaim_post ip s) s.
Proof.
  intros Hok Hlt Hlast. set (i := iget_slot s ip).
  pose proof (NDIRECT_nonneg Hok) as Hnd.
  unfold iput. wstep. wstep.
  change (iget_slot (add_event EvAcquire s) ip) with i. cbv beta. unfold id.
  rewrite (proj2 (last_ref_unlinked_test i) Hlast).
  apply wpx_bind.
  destruct (Z.land (i_flags i) I_BUSY =? 0) eqn:Eb; simpl;
    [|apply wpx_panic; exact I].
  apply Z.eqb_eq in Eb.
  wstep. change (iget_slot (add_event EvAcquire s) ip) with i.
  wstep.
  set (ib := with_flags (Z.lor (i_flags i) I_BUSY) i).
  set (s0 := add_event EvRelease (set_slot ip ib (add_event EvAcquire s))).
  assert (Hi0 : iget_slot s0 ip = ib) by (apply (iget_slot_set_slot s); exact Hlt).
  assert (Hc0 : icache s0 = <[ip := ib]> (icache s)) by reflexivity.
  assert (Ht0 : trace s0 = trace s ++ [EvAcquire; EvRelease])
    by (simpl; rewrite <- app_assoc; reflexivity).
  assert (Hlt0 : (ip < length (icache s0))%nat)
    by (rewrite Hc0, length_insert; exact Hlt).
  apply wpx_bind.
  eapply wpx_mono; [apply itrunc_spec; [exact Hnd|exact Hlt0]|].
  intros u s1 (addrs1 & Hc1 & Hz1 & Ht1 & Hw1). cbv beta.
  rewrite Hi0, Hc0, list_insert_insert_eq in Hc1. rewrite Hi0, Ht0 in Ht1.
  clearbody s0.
  assert (Hi1 : iget_slot s1 ip = with_size 0 (with_addrs addrs1 ib))
    by (eapply iget_slot_insert; [exact Hc1|exact Hlt]).
  assert (Hlen1 : (ip < length (icache s1))%nat)
    by (rewrite Hc1, length_insert; exact Hlt).
  wstep. rewrite Hi1.
  set (i2 := with_type 0 (with_size 0 (with_addrs addrs1 ib))).
  set (s2 := set_slot ip i2 s1).
  assert (Hi2 : iget_slot s2 ip = i2) by (apply iget_slot_set_slot; exact Hlen1).
  apply wpx_bind. eapply wpx_eq; [apply iupdate_eq|].
  unfold iupdate_state. rewrite Hi2.
  pose proof (disk_inode_after_store (add_event (EvIupdate ip (i_type i2)) s2)
                i2 (block s2 (i_dev i2) (IBLOCK (i_inum i2))) Hok
                (length_block _ _ _)) as [Hty Hsz].
  cbv zeta in Hty, Hsz.
  set (s3 := set_disk _ _) in *.
  assert (Hi3 : iget_slot s3 ip = i2) by exact Hi2.
  assert (Hc3 : icache s3 = <[ip := i2]> (icache s)).
  { change (icache s3) with (<[ip := i2]> (icache s1)).
    rewrite Hc1, list_insert_insert_eq. reflexivity. }
  assert (Ht3 : trace s3 = trace s ++
            [EvAcquire; EvRelease; EvItrunc ip; EvIupdate ip (i_type i);
             EvIupdate ip 0]).
  { change (trace s3) with (trace s1 ++ [EvIupdate ip 0]).
    rewrite Ht1, <- !app_assoc. reflexivity. }
  assert (Hd3 : forall e x, disk_inode (add_event e x) = disk_inode x)
    by reflexivity.
  assert (Hd3' : forall j x y, disk_inode (set_slot j x y) = disk_inode y)
    by reflexivity.
  clearbody s3. wsteps. wend.
  unfold iput_reclaim_post. fold i.
  split; [exact Eb|]. split; [|split; [|split]].
  - exists addrs1. split; [|exact Hz1].
    autorewrite with st.
    rewrite iget_slot_set_slot by (autorewrite with st; rewrite Hc3, length_insert; exact Hlt).
    rewrite Hc3, !list_insert_insert_eq, Hi3. f_equal.
    destruct Hlast as (Hr & _). fold i in Hr.
    unfold i2, ib, with_ref, with_flags, with_type, with_size, with_addrs.
    simpl. rewrite Hr. reflexivity.
  - autorewrite with st. rewrite Ht3, <- !app_assoc. reflexivity.
  - rewrite !Hd3, !Hd3', !Hd3, !Hd3', Hd3. exact Hty.
  - rewrite !Hd3, !Hd3', !Hd3, !Hd3', Hd3. exact Hsz.
Qed.

Lemma iput_plain_eq (ip : nat) (s : state) :
  ~ last_ref_unlinked (iget_slot s ip) ->
  iput ip s =
    Ok tt (add_event EvRelease
             (set_slot ip (with_ref (i_ref (iget_slot s ip) - 1) (iget_slot s ip))
                (add_event (EvRefDec ip) (add_event EvAcquire s)))).
Proof.
  intros Hn. unfold iput, bind, log, rd, id. simpl.
  destruct ((i_ref (iget_slot (add_event EvAcquire s) ip) =? 1)
            && negb (Z.land (i_flags (iget_slot (add_event EvAcquire s) ip)) I_VALID =? 0)
            && (i_nlink (iget_slot (add_event EvAcquire s) ip) =? 0)) eqn:E.
  - apply last_ref_unlinked_test in E. contradiction.
  - reflexivity.
Qed.

End Iput.

(** ** balloc and bfree *)

Lemma shiftl_1_pos (k : Z) : 0 <= k -> 0 < Z.shiftl 1 k.
Proof. intros Hk. rewrite Z.shiftl_1_l. apply Z.pow_pos_nonneg; lia. Qed.

Lemma land_lor_same (x m : Z) : Z.land x m = 0 -> Z.land (Z.lor x m) m = m.
Proof.
  intros Hx. rewrite Z.land_lor_distr_l, Hx, Z.land_diag. apply Z.lor_0_l.
Qed.

Lemma land_lor_lnot (x m : Z) :
  Z.land x m = 0 -> Z.land (Z.lor x m) (Z.lnot m) = x.
Proof.
  intros Hx. apply Z.bits_inj'. intros n Hn.
  rewrite Z.land_spec, Z.lor_spec, Z.lnot_spec by exact Hn.
  assert (Hb : Z.testbit (Z.land x m) n = false) by (rewrite Hx; apply Z.bits_0).
  rewrite Z.land_spec in Hb.
  destruct (Z.testbit x n), (Z.testbit m n); simpl in *; congruence.
Qed.

Lemma set_byte_same (data : list Z) (k : Z) :
  set_byte data k (byte_at data k) = data.
Proof.
  unfold set_byte, byte_at.
  destruct (data !! Z.to_nat k) eqn:E; simpl.
  - apply list_insert_id. exact E.
  - apply list_insert_ge. apply lookup_ge_None. exact E.
Qed.

Lemma set_byte_set_byte (data : list Z) (k x y : Z) :
  set_byte (set_byte data k x) k y = set_byte data k y.
Proof. unfold set_byte. apply list_insert_insert_eq. Qed.

Lemma same_bitmap_block (n b0 x : Z) :
  0 < n -> b0 mod n = 0 -> b0 <= x < b0 + n ->
  x / n = b0 / n /\ x mod n = x - b0.
Proof.
  intros Hn Hmod Hx.
  apply Z.div_exact in Hmod; [|lia].
  set (q := b0 / n) in *. clearbody q.
  assert (Hxe : x = n * q + (x - b0)) by lia.
  split.
  - symmetry. apply (Z.div_unique x n q (x - b0)); [lia|exact Hxe].
  - symmetry. apply (Z.mod_unique x n q (x - b0)); [lia|exact Hxe].
Qed.

Section Balloc.
Context `{Params}.

Lemma balloc_scan_some (data : list Z) (l : list Z) (bi : Z) :
  balloc_scan data l = Some bi ->
  exists l1 l2, l = l1 ++ bi :: l2 /\ bit_set_in data bi = false /\
                Forall (fun j => bit_set_in data j = true) l1.
Proof.
  induction l as [|j l IH]; simpl; [discriminate|].
  destruct (Z.land (byte_at data (j / 8)) (Z.shiftl 1 (j mod 8)) =? 0) eqn:E.
  - intros [= ->]. exists [], l. split; [reflexivity|].
    split; [unfold bit_set_in; rewrite E; reflexivity|constructor].
  - intros Hs. destruct (IH Hs) as (l1 & l2 & -> & Hc & Hall).
    exists (j :: l1), l2. split; [reflexivity|]. split; [exact Hc|].
    constructor; [|exact Hall]. unfold bit_set_in. rewrite E. reflexivity.
Qed.

Lemma balloc_scan_none (data : list Z) (l : list Z) :
  balloc_scan data l = None -> Forall (fun j => bit_set_in data j = true) l.
Proof.
  induction l as [|j l IH]; simpl; [constructor|].
  destruct (Z.land (byte_at data (j / 8)) (Z.shiftl 1 (j mod 8)) =? 0) eqn:E;
    [discriminate|].
  intros Hs. constructor; [|apply IH; exact Hs].
  unfold bit_set_in. rewrite E. reflexivity.
Qed.

Lemma seqZ_split_at (n : Z) (l1 l2 : list Z) (bi : Z) :
  seqZ 0 n = l1 ++ bi :: l2 ->
  0 <= bi < n /\ forall j, 0 <= j < bi -> j ∈ l1.
Proof.
  intros Hs.
  assert (Hl : seqZ 0 n !! length l1 = Some bi).
  { rewrite Hs. rewrite lookup_app_r by lia.
    rewrite Nat.sub_diag. reflexivity. }
  apply lookup_seqZ in Hl. destruct Hl as [Hbi Hlt].
  split; [lia|].
  intros j Hj.
  assert (Hj' : seqZ 0 n !! Z.to_nat j = Some j).
  { apply lookup_seqZ. lia. }
  rewrite Hs in Hj'. rewrite lookup_app_l in Hj' by lia.
  eapply list_elem_of_lookup_2. exact Hj'.
Qed.

Lemma balloc_loop_S (fuel : nat) (dev : Z) (sb : superblock) (b0 : Z) (s : state) :
  balloc_loop (S fuel) dev sb b0 s =
    if b0 <? sb_size sb then
      let data := block s dev (BBLOCK b0 (sb_ninodes sb)) in
      match balloc_scan data (seqZ 0 BPB) with
      | Some bi =>
          Ok (b0 + bi)
            (set_disk
               (<[(dev, BBLOCK b0 (sb_ninodes sb))
                  := set_byte data (bi / 8)
                       (Z.lor (byte_at data (bi / 8)) (Z.shiftl 1 (bi mod 8)))]>
                  (disk s)) s)
      | None => balloc_loop fuel dev sb (b0 + BPB) s
      end
    else Panic "balloc: out of blocks" s.
Proof.
  simpl. destruct (b0 <? sb_size sb); [|reflexivity].
  unfold bind at 1. unfold bread at 1. cbv zeta.
  destruct (balloc_scan _ _); reflexivity.
Qed.

(** What a successful run of the loop of balloc did. *)
Lemma balloc_loop_ok (fuel : nat) (dev : Z) (sb : superblock) :
  0 < BPB ->
  forall (b0 : Z) (s : state) (b : Z) (s1 : state),
    0 <= b0 -> b0 mod BPB = 0 ->
    balloc_loop fuel dev sb b0 s = Ok b s1 ->
    exists bk bi,
      b = bk + bi /\ b0 <= bk < sb_size sb /\ bk mod BPB = 0 /\ 0 <= bi < BPB /\
      bit_set_in (block s dev (BBLOCK bk (sb_ninodes sb))) bi = false /\
      s1 = set_disk
             (<[(dev, BBLOCK bk (sb_ninodes sb))
                := set_byte (block s dev (BBLOCK bk (sb_ninodes sb))) (bi / 8)
                     (Z.lor (byte_at (block s dev (BBLOCK bk (sb_ninodes sb)))
                               (bi / 8))
                            (Z.shiftl 1 (bi mod 8)))]> (disk s)) s /\
      forall x, b0 <= x < b ->
        bit_set_in (block s dev (BBLOCK x (sb_ninodes sb))) (x mod BPB) = true.
Proof.
  intros Hbpb. induction fuel as [|fuel IH]; intros b0 s b s1 Hb0 Hmod;
    [discriminate|].
  rewrite balloc_loop_S. cbv zeta.
  destruct (b0 <? sb_size sb) eqn:Elt; [|discriminate].
  destruct (balloc_scan (block s dev (BBLOCK b0 (sb_ninodes sb))) (seqZ 0 BPB))
    as [bi|] eqn:Es.
  - intros Heq. injection Heq as <- <-.
    destruct (balloc_scan_some _ _ _ Es) as (l1 & l2 & Hl & Hclear & Hall).
    destruct (seqZ_split_at _ _ _ _ Hl) as [Hbi Hbefore].
    exists b0, bi. split; [reflexivity|]. split; [lia|].
    split; [exact Hmod|]. split; [exact Hbi|]. split; [exact Hclear|].
    split; [reflexivity|].
    intros x Hx.
    assert (Hxr : b0 <= x < b0 + BPB) by lia.
    destruct (same_bitmap_block BPB b0 x Hbpb Hmod Hxr) as [Hxd Hxm].
    unfold BBLOCK. rewrite Hxd, Hxm.
    rewrite Forall_forall in Hall. apply Hall. apply Hbefore. lia.
  - intros Heq.
    assert (Hm' : (b0 + BPB) mod BPB = 0).
    { rewrite <- (Z.mul_1_l BPB) at 1. rewrite Z.mod_add by lia. exact Hmod. }
    assert (Hb0' : 0 <= b0 + BPB) by lia.
    destruct (IH (b0 + BPB) s b s1 Hb0' Hm' Heq)
      as (bk & bi & Hb & Hbk & Hbkm & Hbi & Hclear & Hs1 & Hbefore).
    exists bk, bi. split; [exact Hb|]. split; [lia|].
    split; [exact Hbkm|]. split; [exact Hbi|]. split; [exact Hclear|].
    split; [exact Hs1|].
    intros x Hx. destruct (Z.lt_ge_cases x (b0 + BPB)) as [Hlt|Hge];
      [|apply Hbefore; lia].
    pose proof (balloc_scan_none _ _ Es) as Hall.
    rewrite Forall_seqZ in Hall.
    assert (Hxr : b0 <= x < b0 + BPB) by lia.
    destruct (same_bitmap_block BPB b0 x Hbpb Hmod Hxr) as [Hxd Hxm].
    unfold BBLOCK. rewrite Hxd, Hxm. apply Hall. lia.
Qed.

(** The loop of balloc reads the bitmap blocks only. *)
Lemma balloc_loop_agree (fuel : nat) (dev : Z) (sb : superblock) (s' : state) :
  forall (b0 : Z) (s : state) (b : Z) (s1 : state),
    (forall b', b0 <= b' < sb_size sb ->
       block s' dev (BBLOCK b' (sb_ninodes sb))
       = block s dev (BBLOCK b' (sb_ninodes sb))) ->
    0 < BPB ->
    balloc_loop fuel dev sb b0 s = Ok b s1 ->
    exists s1', balloc_loop fuel dev sb b0 s' = Ok b s1'.
Proof.
  induction fuel as [|fuel IH]; intros b0 s b s1 Hag Hbpb;
    [discriminate|].
  rewrite !balloc_loop_S. cbv zeta.
  destruct (b0 <? sb_size sb) eqn:Elt; [|discriminate].
  rewrite (Hag b0) by lia.
  destruct (balloc_scan (block s dev (BBLOCK b0 (sb_ninodes sb))) (seqZ 0 BPB))
    as [bi|] eqn:Es.
  - intros Heq. injection Heq as <- <-. eexists. reflexivity.
  - intros Heq. eapply IH; [|exact Hbpb|exact Heq].
    intros b' Hb'. apply Hag. lia.
Qed.

Lemma bfree_eq (dev b : Z) (s : state) :
  bfree dev b s =
    let sa := set_disk (<[(dev, b) := replicate (Z.to_nat BSIZE) 0]> (disk s)) s in
    let bm := BBLOCK b (sb_ninodes (sb_of sa dev)) in
    let data := block sa dev bm in
    let bi := b mod BPB in
    let m := Z.shiftl 1 (bi mod 8) in
    if Z.land (byte_at data (bi / 8)) m =? 0 then Panic "freeing free block" sa
    else
      Ok tt (set_disk
               (<[(dev, bm)
                  := set_byte data (bi / 8)
                       (Z.land (byte_at data (bi / 8)) (Z.lnot m))]> (disk sa))
               sa).
Proof.
  cbv beta iota zeta delta
    [bfree bzero readsb bind bread bwrite brelse ret panic sb_of sb_ninodes].
  match goal with |- context [if ?c then _ else _] => destruct c end;
    reflexivity.
Qed.

Lemma balloc_eq (dev : Z) (s : state) :
  balloc dev s =
    balloc_loop (S (Z.to_nat (sb_size (sb_of s dev) / BPB + 1))) dev (sb_of s dev) 0 s.
Proof. reflexivity. Qed.

(** C7.  On a device whose bitmap marks the superblock and the bitmap blocks
    as in use, and whose size is within the range of the C types - size plus
    BPB at most 2^31, so that the int [b] of balloc does not wrap, and the
    sector numbers of the bitmap within 32 bits -, when balloc returns block
    [b]: [b] was the first block whose bit was clear (first fit); bfree of
    [b] then succeeds, leaves block [b] zeroed and every other block, the
    bitmap included, as it was before the allocation; and the next balloc
    returns [b] again. *)
Theorem balloc_bfree_balloc (dev : Z) (s s1 : state) (b : Z) :
  params_ok -> meta_in_use s dev ->
  sb_size (sb_of s dev) + BPB <= 2 ^ 31 ->
  BBLOCK (sb_size (sb_of s dev)) (sb_ninodes (sb_of s dev)) < 2 ^ 32 ->
  balloc dev s = Ok b s1 ->
  bit_in_use s dev b = false /\
  (forall x, 0 <= x < b -> bit_in_use s dev x = true) /\
  bit_in_use s1 dev b = true /\
  exists s2,
    bfree dev b s1 = Ok tt s2 /\
    block s2 dev b = replicate (Z.to_nat BSIZE) 0 /\
    (forall x, x <> b -> block s2 dev x = block s dev x) /\
    exists s3, balloc dev s2 = Ok b s3.
Proof.
  intros Hok (Hnin & Hsb1 & Hbm) Hint Hsec Hal.
  pose proof (BPB_pos Hok) as Hbpb. pose proof (BPB_fits Hok) as Hfit.
  pose proof (IPB_pos Hok) as Hipb. pose proof (BSIZE_pos Hok) as Hbs.
  rewrite balloc_eq in Hal.
  set (sb := sb_of s dev) in *. set (n := sb_ninodes sb) in *.
  assert (H00 : 0 <= 0) by lia.
  assert (H0m : 0 mod BPB = 0) by (apply Z.mod_0_l; lia).
  destruct (balloc_loop_ok _ dev sb Hbpb 0 s b s1 H00 H0m Hal)
    as (bk & bi & Hb & Hbk & Hbkm & Hbi & Hclear & Hs1 & Hbefore).
  fold n in Hclear, Hs1, Hbefore.
  set (bm := BBLOCK bk n) in *. set (data := block s dev bm) in *.
  set (m := Z.shiftl 1 (bi mod 8)) in *.
  assert (Hbr : bk <= b < bk + BPB) by lia.
  destruct (same_bitmap_block BPB bk b Hbpb Hbkm Hbr) as [Hbd Hbmod].
  assert (Hbi' : b mod BPB = bi) by lia.
  assert (Hbbm : BBLOCK b n = bm) by (unfold bm, BBLOCK; rewrite Hbd; reflexivity).
  assert (Hfree : bit_in_use s dev b = false).
  { unfold bit_in_use. fold sb. fold n. rewrite Hbbm, Hbi'. exact Hclear. }
  assert (Hb1 : b <> 1) by (intros ->; congruence).
  assert (Hisbm : is_bitmap_block s dev bm)
    by (exists bk; fold sb; fold n; split; [lia|reflexivity]).
  assert (Hbbm' : b <> bm) by (intros ->; rewrite (Hbm _ Hisbm) in Hfree; discriminate).
  assert (Hbm1 : bm <> 1).
  { unfold bm, BBLOCK. assert (0 <= bk) by lia.
    pose proof (Z.div_pos bk BPB ltac:(assumption) Hbpb).
    pose proof (Z.div_pos n IPB Hnin Hipb). lia. }
  assert (Hland : Z.land (byte_at data (bi / 8)) m = 0).
  { unfold bit_set_in in Hclear. fold m in Hclear.
    apply negb_false_iff, Z.eqb_eq in Hclear. exact Hclear. }
  assert (Hmpos : 0 < m) by (apply shiftl_1_pos; apply Z.mod_pos_bound; lia).
  assert (Hk : 0 <= bi / 8 < Z.of_nat (length data)).
  { unfold data. rewrite length_block. split; [apply Z.div_pos; lia|].
    apply Z.div_lt_upper_bound; lia. }
  set (data1 := set_byte data (bi / 8) (Z.lor (byte_at data (bi / 8)) m)) in *.
  assert (Hl1 : length data1 = Z.to_nat BSIZE)
    by (unfold data1; rewrite length_set_byte; apply length_block).
  set (zeros := replicate (Z.to_nat BSIZE) 0).
  assert (Hlz : length zeros = Z.to_nat BSIZE) by apply length_replicate.
  (* the state after bzero *)
  set (sa := set_disk (<[(dev, b) := zeros]> (disk s1)) s1).
  assert (Hsba : sb_of sa dev = sb).
  { unfold sb_of, sa. rewrite block_set_disk.
    rewrite block_of_insert_ne by congruence.
    rewrite Hs1. simpl disk.
    rewrite block_of_insert_ne by congruence. reflexivity. }
  assert (Hda : block sa dev bm = data1).
  { unfold sa. rewrite block_set_disk.
    rewrite block_of_insert_ne by congruence.
    rewrite Hs1. simpl disk. apply block_of_insert_eq. exact Hl1. }
  assert (Hbyte1 : byte_at data1 (bi / 8) = Z.lor (byte_at data (bi / 8)) m).
  { unfold data1. apply byte_at_set_byte_eq. exact Hk. }
  split; [exact Hfree|]. split.
  { intros x Hx. unfold bit_in_use. fold sb. fold n. apply Hbefore. lia. }
  split.
  { unfold bit_in_use.
    assert (Hsb1' : sb_of s1 dev = sb).
    { unfold sb_of. rewrite Hs1, block_set_disk.
      rewrite block_of_insert_ne by congruence. reflexivity. }
    rewrite Hsb1'. fold n. rewrite Hbbm, Hbi'.
    rewrite Hs1, block_set_disk, block_of_insert_eq by exact Hl1.
    unfold bit_set_in. fold m. rewrite Hbyte1, land_lor_same by exact Hland.
    apply negb_true_iff, Z.eqb_neq. lia. }
  rewrite bfree_eq. cbv zeta. fold zeros. fold sa.
  rewrite Hsba. fold n. rewrite Hbbm, Hbi', Hda. fold m.
  rewrite Hbyte1, land_lor_same by exact Hland.
  destruct (m =? 0) eqn:Em; [lia|].
  rewrite land_lor_lnot by exact Hland.
  unfold data1 at 1. rewrite set_byte_set_byte, set_byte_same.
  eexists. split; [reflexivity|].
  set (s2 := set_disk (<[(dev, bm) := data]> (disk sa)) sa).
  assert (Hblk : forall x, x <> b -> block s2 dev x = block s dev x).
  { intros x Hx. unfold s2. rewrite block_set_disk.
    destruct (Z.eq_dec x bm) as [->|Hxbm].
    - rewrite block_of_insert_eq by apply length_block. reflexivity.
    - rewrite block_of_insert_ne by congruence.
      unfold sa. simpl disk. rewrite block_of_insert_ne by congruence.
      rewrite Hs1. simpl disk. rewrite block_of_insert_ne by congruence.
      reflexivity. }
  split.
  { unfold s2. rewrite block_set_disk, block_of_insert_ne by congruence.
    unfold sa. simpl disk. apply block_of_insert_eq. exact Hlz. }
  split; [exact Hblk|].
  rewrite balloc_eq.
  assert (Hsb2 : sb_of s2 dev = sb).
  { unfold sb_of. rewrite (Hblk 1) by congruence. reflexivity. }
  rewrite Hsb2.
  apply (balloc_loop_agree _ dev sb s2 0 s b s1); [|exact Hbpb|exact Hal].
  intros b' Hb'. apply Hblk.
  intros Heq.
  assert (Hisb : is_bitmap_block s dev b).
  { exists b'. fold sb. split; [lia|]. rewrite <- Heq. reflexivity. }
  rewrite (Hbm _ Hisb) in Hfree. discriminate.
Qed.

End Balloc.

Lemma sample_meta_in_use : meta_in_use (H := xv6) sample_state 1.
Proof.
  split; [vm_compute; discriminate|]. split; [vm_compute; reflexivity|].
  intros x (b' & Hb' & ->).
  change (sb_size (sb_of (H := xv6) sample_state 1)) with 64 in Hb'.
  change (sb_ninodes (sb_of (H := xv6) sample_state 1)) with 16.
  unfold BBLOCK. change (@BPB xv6) with 4096. change (@IPB xv6) with 8.
  rewrite Z.div_small by lia. vm_compute. reflexivity.
Qed.

Lemma balloc_bfree_balloc_witness :
  exists s1 s2 s3,
    balloc (H := xv6) 1 sample_state = Ok 9 s1 /\
    bfree (H := xv6) 1 9 s1 = Ok tt s2 /\
    balloc (H := xv6) 1 s2 = Ok 9 s3.
Proof.
  set (s1 := match balloc (H := xv6) 1 sample_state with
             | Ok _ s => s
             | _ => sample_state
             end).
  assert (Hal : balloc (H := xv6) 1 sample_state = Ok 9 s1)
    by (vm_compute; reflexivity).
  assert (Hint : sb_size (sb_of (H := xv6) sample_state 1) + @BPB xv6 <= 2 ^ 31)
    by (vm_compute; discriminate).
  assert (Hsec : BBLOCK (H := xv6) (sb_size (sb_of (H := xv6) sample_state 1))
                   (sb_ninodes (sb_of (H := xv6) sample_state 1)) < 2 ^ 32)
    by (vm_compute; reflexivity).
  destruct (balloc_bfree_balloc (H := xv6) 1 sample_state s1 9 xv6_ok
              sample_meta_in_use Hint Hsec Hal)
    as (_ & _ & _ & s2 & Hfree & _ & _ & s3 & Hal2).
  exists s1, s2, s3. auto.
Defined.

(** ** bmap inside the capacity; writei *)

Lemma wpx_change {A} P (c c' : M A) Q s :
  c s = c' s -> wpx P c' Q s -> wpx P c Q s.
Proof. unfold wpx. intros ->. auto. Qed.

Lemma s32_small (x : Z) : 0 <= x < 2 ^ 31 -> s32 x = x.
Proof.
  intros Hx. unfold s32. rewrite Z.mod_small by lia. lia.
Qed.

Section Writei.
Context `{Params}.

Lemma balloc_loop_frame (dev : Z) (sb : superblock) (fuel : nat) :
  0 < BPB ->
  forall (b0 : Z) (s : state),
    (1 <= fuel)%nat -> sb_size sb - b0 <= (Z.of_nat fuel - 1) * BPB ->
    wpx alloc_panic (balloc_loop fuel dev sb b0)
      (fun _ s' => icache s' = icache s /\ trace s' = trace s /\ cwd s' = cwd s) s.
Proof.
  intros Hbpb. induction fuel as [|fuel IH]; intros b0 s Hf Hsz; [lia|].
  unfold wpx. rewrite balloc_loop_S. cbv zeta.
  destruct (b0 <? sb_size sb) eqn:Elt; [|reflexivity].
  destruct (balloc_scan _ _) as [bi|]; [simpl; auto|].
  apply IH; nia.
Qed.

Lemma balloc_frame (dev : Z) (s : state) :
  0 < BPB ->
  wpx alloc_panic (balloc dev)
    (fun _ s' => icache s' = icache s /\ trace s' = trace s /\ cwd s' = cwd s) s.
Proof.
  intros Hbpb. eapply wpx_change; [apply balloc_eq|].
  apply balloc_loop_frame; [exact Hbpb|lia|].
  set (sz := sb_size (sb_of s dev)).
  replace (Z.of_nat (S (Z.to_nat (sz / BPB + 1))) - 1)
    with (Z.of_nat (Z.to_nat (sz / BPB + 1))) by lia.
  destruct (Z.le_gt_cases 0 (sz / BPB + 1)) as [Hq|Hq].
  - rewrite Z2Nat.id by exact Hq.
    pose proof (Z.mul_succ_div_gt sz BPB Hbpb). lia.
  - replace (Z.to_nat (sz / BPB + 1)) with 0%nat by lia. simpl.
    assert (sz < 0); [|lia].
    destruct (Z.lt_ge_cases sz 0) as [|Hge]; [assumption|].
    pose proof (Z.div_pos sz BPB Hge Hbpb). lia.
Qed.

Lemma addrs_changed_refl (ip : nat) (s : state) : addrs_changed ip s s.
Proof.
  split; [|auto]. exists (i_addrs (iget_slot s ip)).
  rewrite with_addrs_id. unfold iget_slot.
  destruct (icache s !! ip) eqn:E; simpl.
  - symmetry. apply list_insert_id. exact E.
  - symmetry. apply list_insert_ge. apply lookup_ge_None. exact E.
Qed.

Lemma addrs_changed_slot (ip : nat) (s s' : state) :
  (ip < length (icache s))%nat -> addrs_changed ip s s' ->
  exists addrs', iget_slot s' ip = with_addrs addrs' (iget_slot s ip).
Proof.
  intros Hlt ((addrs' & Hc) & _). exists addrs'.
  eapply iget_slot_insert; eauto.
Qed.

Lemma addrs_changed_length (ip : nat) (s s' : state) :
  addrs_changed ip s s' -> length (icache s') = length (icache s).
Proof. intros ((addrs' & Hc) & _). rewrite Hc. apply length_insert. Qed.

Lemma addrs_changed_trans (ip : nat) (s s1 s2 : state) :
  (ip < length (icache s))%nat ->
  addrs_changed ip s s1 -> addrs_changed ip s1 s2 -> addrs_changed ip s s2.
Proof.
  intros Hlt H1 H2.
  destruct (addrs_changed_slot ip s s1 Hlt H1) as (a1 & Hi1).
  destruct H1 as ((a1' & Hc1) & Ht1 & Hw1).
  destruct H2 as ((a2 & Hc2) & Ht2 & Hw2).
  split; [|split; congruence].
  exists a2. rewrite Hc2, Hc1, Hi1, list_insert_insert_eq. reflexivity.
Qed.

Lemma addrs_changed_mem (ip : nat) (s s1 s2 : state) :
  addrs_changed ip s s1 ->
  icache s2 = icache s1 -> trace s2 = trace s1 -> cwd s2 = cwd s1 ->
  addrs_changed ip s s2.
Proof.
  intros ((a & Hc) & Ht & Hw) Hc2 Ht2 Hw2.
  split; [exists a; congruence|split; congruence].
Qed.

Lemma addrs_changed_set (ip : nat) (s s1 : state) (a : list Z) :
  (ip < length (icache s))%nat ->
  icache s1 = icache s -> trace s1 = trace s -> cwd s1 = cwd s ->
  addrs_changed ip s (set_slot ip (with_addrs a (iget_slot s1 ip)) s1).
Proof.
  intros Hlt Hc Ht Hw. split; [|autorewrite with st; auto].
  exists a. autorewrite with st.
  unfold iget_slot. rewrite Hc. reflexivity.
Qed.

(** bmap inside the capacity: it may allocate, which changes the disk and the
    addresses of the inode, and halts only when the allocator is exhausted. *)
Lemma bmap_spec (ip : nat) (bn : Z) (s : state) :
  params_ok -> (ip < length (icache s))%nat ->
  0 <= bn < NDIRECT + NINDIRECT ->
  wpx alloc_panic (bmap ip bn) (fun _ s' => addrs_changed ip s s') s.
Proof.
  intros Hok Hlt Hbn. pose proof (BPB_pos Hok) as Hbpb.
  pose proof (NDIRECT_nonneg Hok) as Hnd.
  unfold bmap. destruct (bn <? NDIRECT) eqn:E1.
  - wstep. unfold id.
    destruct (addr_at (i_addrs (iget_slot s ip)) bn =? 0).
    + apply wpx_bind. eapply wpx_mono; [apply balloc_frame; exact Hbpb|].
      intros a s1 (Hc & Ht & Hw). cbv beta. wstep. wend.
      apply addrs_changed_set; assumption.
    + wend. apply addrs_changed_refl.
  - assert (Hni31 : NINDIRECT < 2 ^ 31).
    { pose proof (MAXFILE_bytes Hok). pose proof (MAXFILE_sum Hok).
      pose proof (BSIZE_pos Hok). nia. }
    rewrite u32_small by lia.
    destruct (bn - NDIRECT <? NINDIRECT) eqn:E2; [|lia].
    wstep. unfold id. apply wpx_bind.
    apply (wpx_mono _ _ (fun _ s' => addrs_changed ip s s')).
    + destruct (addr_at (i_addrs (iget_slot s ip)) NDIRECT =? 0).
      * apply wpx_bind. eapply wpx_mono; [apply balloc_frame; exact Hbpb|].
        intros a s1 (Hc & Ht & Hw). cbv beta. wstep. wend.
        apply addrs_changed_set; assumption.
      * wend. apply addrs_changed_refl.
    + intros addr s1 Hch. cbv beta. wstep.
      destruct (get_u32 _ _ =? 0).
      * apply wpx_bind. eapply wpx_mono; [apply balloc_frame; exact Hbpb|].
        intros a s2 (Hc & Ht & Hw). cbv beta. wsteps. wend.
        eapply addrs_changed_mem; [exact Hch|exact Hc|exact Ht|exact Hw].
      * wstep. wend. exact Hch.
Qed.

(** The loop of writei: it ends with [off] advanced by the bytes that were
    left to write. *)
Lemma writei_loop_spec (ip : nat) (src : list Z) (n : Z) (fuel : nat) :
  params_ok -> n < 2 ^ 32 ->
  forall (off tot : Z) (s0 : state),
    (ip < length (icache s0))%nat ->
    0 <= tot <= n -> 0 <= off -> off + (n - tot) <= MAXFILE * BSIZE ->
    n - tot < Z.of_nat fuel ->
    wpx alloc_panic (writei_loop fuel ip src off n tot)
      (fun off' s' => off' = off + (n - tot) /\ addrs_changed ip s0 s') s0.
Proof.
  intros Hok Hn32. pose proof (BSIZE_pos Hok) as Hbs.
  pose proof (MAXFILE_bytes Hok) as Hmb. pose proof (MAXFILE_sum Hok) as Hms.
  pose proof (NDIRECT_nonneg Hok) as Hnd. pose proof (NINDIRECT_nonneg Hok) as Hni.
  induction fuel as [|fuel IH]; intros off tot s0 Hlt Htot Hoff Hmax Hfuel; [lia|].
  simpl. destruct (tot <? n) eqn:Et.
  - assert (Hmf : 1 <= MAXFILE) by nia.
    assert (Hbs31 : BSIZE < 2 ^ 31) by nia.
    pose proof (Z.mod_pos_bound off BSIZE Hbs) as Hmod.
    wstep. apply wpx_bind. eapply wpx_mono.
    { apply bmap_spec; [exact Hok|exact Hlt|].
      split; [apply Z.div_pos; lia|].
      apply Z.div_lt_upper_bound; [lia|]. nia. }
    intros addr s1 Hch. cbv beta. wsteps.
    rewrite (u32_small (n - tot)) by lia.
    rewrite (u32_small (BSIZE - off mod BSIZE)) by lia.
    set (m := Z.min (n - tot) (BSIZE - off mod BSIZE)).
    assert (Hm : 1 <= m <= n - tot) by (unfold m; lia).
    rewrite (u32_small (off + m)), (u32_small (tot + m)) by lia.
    eapply wpx_mono.
    { apply IH; try lia.
      autorewrite with st. rewrite (addrs_changed_length _ _ _ Hch). exact Hlt. }
    intros off' s' (-> & Hch'). split; [lia|].
    eapply addrs_changed_trans; [exact Hlt| |exact Hch'].
    eapply addrs_changed_mem; [exact Hch|reflexivity..].
  - wend. split; [lia|apply addrs_changed_refl].
Qed.

Lemma writei_len_range (off n : Z) :
  params_ok -> 0 <= off <= MAXFILE * BSIZE -> 0 <= n ->
  0 <= writei_len off n <= n /\ off + writei_len off n <= MAXFILE * BSIZE.
Proof.
  intros Hok Hoff Hn. unfold writei_len.
  destruct (off + n >? MAXFILE * BSIZE) eqn:E; lia.
Qed.

Lemma writei_fail (ip : nat) (src : list Z) (off n : Z) (s : state) :
  i_type (iget_slot s ip) <> T_DEV ->
  0 <= off < 2 ^ 32 -> 0 <= n < 2 ^ 32 ->
  off > i_size (iget_slot s ip) \/ 2 ^ 32 <= off + n ->
  writei ip src off n s = Ok (-1) s.
Proof.
  intros Ht Hoff Hn Hf. unfold writei, bind, rd, id, ret.
  destruct (i_type (iget_slot s ip) =? T_DEV) eqn:E; [lia|].
  assert (Hc : (off >? i_size (iget_slot s ip)) || (u32 (off + n) <? off) = true).
  { apply orb_true_iff. destruct Hf as [Hf|Hf]; [left; lia|right].
    unfold u32. apply Z.ltb_lt.
    replace (off + n) with (off + n - 2 ^ 32 + 1 * 2 ^ 32) by lia.
    rewrite Z.mod_add by lia. rewrite Z.mod_small by lia. lia. }
  rewrite Hc. reflexivity.
Qed.

Lemma writei_wp (ip : nat) (src : list Z) (off n : Z) (s : state) :
  params_ok -> (ip < length (icache s))%nat ->
  i_type (iget_slot s ip) <> T_DEV ->
  0 <= off <= i_size (iget_slot s ip) -> 0 <= n -> off + n < 2 ^ 32 ->
  i_size (iget_slot s ip) <= MAXFILE * BSIZE ->
  wpx alloc_panic (writei ip src off n) (writei_post ip off n s) s.
Proof.
  intros Hok Hlt Ht Hoff Hn Hov Hsz. set (i := iget_slot s ip) in *.
  pose proof (MAXFILE_bytes Hok) as Hmb.
  assert (Ho1 : 0 <= off <= MAXFILE * BSIZE) by lia.
  destruct (writei_len_range off n Hok Ho1 Hn) as [Hn' Hmax].
  unfold writei. wstep. unfold id. fold i.
  destruct (i_type i =? T_DEV) eqn:E; [lia|].
  rewrite (u32_small (off + n)) by lia.
  assert (Hc : (off >? i_size i) || (off + n <? off) = false)
    by (apply orb_false_iff; lia).
  rewrite Hc. rewrite (u32_small (MAXFILE * BSIZE)) by lia.
  assert (Hlen : (if off + n >? MAXFILE * BSIZE
                  then u32 (MAXFILE * BSIZE - off) else n) = writei_len off n).
  { unfold writei_len. destruct (off + n >? MAXFILE * BSIZE); [|reflexivity].
    apply u32_small. lia. }
  rewrite Hlen. set (n' := writei_len off n) in *.
  apply wpx_bind. eapply wpx_mono.
  { apply (writei_loop_spec ip src n' _ Hok); try lia; try exact Hlt. }
  intros off' s1 (-> & Hch). cbv beta.
  destruct (addrs_changed_slot ip s s1 Hlt Hch) as (a1 & Hi1). fold i in Hi1.
  pose proof (addrs_changed_length _ _ _ Hch) as Hl1.
  destruct Hch as (_ & Ht1 & _).
  wstep. rewrite Hi1. simpl i_size.
  replace (off + (n' - 0)) with (off + n') by lia.
  replace (n' >? 0) with (0 <? n') by (rewrite Z.gtb_ltb; reflexivity).
  replace (off + n' >? i_size i) with (i_size i <? off + n')
    by (rewrite Z.gtb_ltb; reflexivity).
  unfold writei_post. fold i. fold n'.
  rewrite s32_small by lia.
  destruct ((0 <? n') && (i_size i <? off + n')) eqn:Ec.
  - wstep. wstep. rewrite Hi1.
    set (i2 := with_size (off + n') (with_addrs a1 i)).
    set (s2 := set_slot ip i2 s1).
    assert (Hi2 : iget_slot s2 ip = i2)
      by (apply iget_slot_set_slot; rewrite Hl1; exact Hlt).
    apply wpx_bind. eapply wpx_eq; [apply iupdate_eq|].
    unfold iupdate_state. rewrite Hi2.
    pose proof (disk_inode_after_store (add_event (EvIupdate ip (i_type i2)) s2)
                  i2 (block s2 (i_dev i2) (IBLOCK (i_inum i2))) Hok
                  (length_block _ _ _)) as [_ Hsz2].
    cbv zeta in Hsz2.
    set (s3 := set_disk _ _) in *.
    wend. split; [reflexivity|]. split; [|split].
    + change (iget_slot s3 ip) with (iget_slot s2 ip). rewrite Hi2. reflexivity.
    + change (i_dev i) with (i_dev i2). change (i_inum i) with (i_inum i2).
      rewrite Hsz2. simpl i_size. apply Z.mod_small. lia.
    + change (trace s3) with (trace s1 ++ [EvIupdate ip (i_type i)]).
      rewrite Ht1. reflexivity.
  - wstep. wend. split; [reflexivity|]. rewrite Hi1. auto.
Qed.

(** C3.  For an inode that is not a device (of size at most MAXFILE blocks,
    as writei keeps it), writei returns -1 without touching anything when
    the offset exceeds the current size or offset+length overflows 32 bits.
    Otherwise the length is clamped so that offset+length stays within
    MAXFILE*BSIZE, and the call either halts because the block allocator is
    exhausted or returns the clamped count, which is not negative (a write
    cut at the largest file size is reported through the count); if the write
    wrote a byte and ends past the previous size, the new size offset+count is
    in the cached inode and, through iupdate, in the on-disk record. *)
Theorem writei_result (ip : nat) (src : list Z) (off n : Z) (s : state) :
  params_ok -> (ip < length (icache s))%nat ->
  let i := iget_slot s ip in
  i_type i <> T_DEV ->
  0 <= off < 2 ^ 32 -> 0 <= n < 2 ^ 32 -> 0 <= i_size i <= MAXFILE * BSIZE ->
  (off > i_size i \/ 2 ^ 32 <= off + n ->
     writei ip src off n s = Ok (-1) s) /\
  (~ (off > i_size i \/ 2 ^ 32 <= off + n) ->
     0 <= writei_len off n <= n /\
     off + writei_len off n <= MAXFILE * BSIZE /\
     wpx alloc_panic (writei ip src off n)
       (fun r s' =>
          r = writei_len off n /\
          (0 < r -> i_size i < off + r ->
             i_size (iget_slot s' ip) = off + r /\
             i_size (disk_inode s' (i_dev i) (i_inum i)) = off + r /\
             count_events is_iupdate (trace s')
             = S (count_events is_iupdate (trace s)))) s).
Proof.
  intros Hok Hlt i Ht Hoff Hn Hsz. split.
  - intros Hf. apply writei_fail; assumption.
  - intros Hnf.
    assert (Ho1 : 0 <= off <= MAXFILE * BSIZE) by lia.
    assert (Hn1 : 0 <= n) by lia.
    destruct (writei_len_range off n Hok Ho1 Hn1) as [Hn' Hmax].
    split; [exact Hn'|]. split; [exact Hmax|].
    eapply wpx_mono; [apply writei_wp; try assumption; unfold i in *; lia|].
    intros r s' (-> & Hpost). fold i in Hpost. split; [reflexivity|].
    intros Hr Hpast.
    replace ((0 <? writei_len off n) && (i_size i <? off + writei_len off n))
      with true in Hpost by (symmetry; apply andb_true_iff; lia).
    destruct Hpost as (H1 & H2 & H3). split; [exact H1|]. split; [exact H2|].
    rewrite H3, count_events_app. unfold count_events at 2. simpl. lia.
Qed.

(** C8.  For an inode that is not a device, a call of writei that passed its
    checks and whose bytes all lie within the current size (offset + clamped
    length <= size), or that wrote no byte, leaves the size of the inode as it
    was and does not call iupdate; conversely the size changes or iupdate is
    called only when at least one byte was written and the write ends past
    the previous size. *)
Theorem writei_within_size (ip : nat) (src : list Z) (off n : Z) (s : state) :
  params_ok -> (ip < length (icache s))%nat ->
  let i := iget_slot s ip in
  i_type i <> T_DEV ->
  0 <= off <= i_size i -> 0 <= n -> off + n < 2 ^ 32 ->
  i_size i <= MAXFILE * BSIZE ->
  wpx alloc_panic (writei ip src off n)
    (fun r s' =>
       r = writei_len off n /\
       (off + r <= i_size i \/ r = 0 ->
          i_size (iget_slot s' ip) = i_size i /\ trace s' = trace s) /\
       (i_size (iget_slot s' ip) <> i_size i \/
        count_events is_iupdate (trace s') <> count_events is_iupdate (trace s) ->
          0 < r /\ i_size i < off + r)) s.
Proof.
  intros Hok Hlt i Ht Hoff Hn Hov Hsz.
  assert (Ho1 : 0 <= off <= MAXFILE * BSIZE) by lia.
  destruct (writei_len_range off n Hok Ho1 Hn) as [Hn' Hmax].
  eapply wpx_mono; [apply writei_wp; try assumption; unfold i in *; lia|].
  intros r s' (-> & Hpost). fold i in Hpost. split; [reflexivity|].
  destruct ((0 <? writei_len off n) && (i_size i <? off + writei_len off n))
    eqn:Ec.
  - apply andb_true_iff in Ec. split; [intros [Hw|Hw]; lia|]. intros _. lia.
  - destruct Hpost as (H1 & H2). split; [intros _; auto|].
    rewrite H1, H2. intros [Hc|Hc]; congruence.
Qed.

End Writei.

(** ** readi *)

Lemma sub_bytes_eq (data : list Z) (o m : Z) :
  0 <= o -> 0 <= m -> o + m <= Z.of_nat (length data) ->
  sub_bytes data o m = map (byte_at data) (seqZ o m).
Proof.
  intros Ho Hm Hl. unfold sub_bytes.
  apply list_eq. intros k.
  destruct (Nat.lt_ge_cases k (Z.to_nat m)) as [Hk|Hk].
  - rewrite lookup_resize by (rewrite ?length_drop; lia).
    rewrite lookup_drop.
    change (map (byte_at data) (seqZ o m)) with (byte_at data <$> seqZ o m).
    rewrite list_lookup_fmap, lookup_seqZ_lt by lia. simpl.
    unfold byte_at.
    replace (Z.to_nat (o + Z.of_nat k)) with (Z.to_nat o + k)%nat by lia.
    destruct (data !! (Z.to_nat o + k)%nat) eqn:E; [reflexivity|].
    apply lookup_ge_None in E. lia.
  - rewrite lookup_ge_None_2 by (rewrite length_resize; lia).
    symmetry. apply lookup_ge_None_2. rewrite length_map, length_seqZ. lia.
Qed.

Lemma length_sub_bytes (data : list Z) (o m : Z) :
  length (sub_bytes data o m) = Z.to_nat m.
Proof. unfold sub_bytes. apply length_resize. Qed.

Lemma buf_write_app (dst a b : list Z) (t : Z) :
  0 <= t -> t + Z.of_nat (length a) <= Z.of_nat (length dst) ->
  buf_write (buf_write dst t a) (t + Z.of_nat (length a)) b
  = buf_write dst t (a ++ b).
Proof.
  intros Ht Hl. unfold buf_write.
  set (X := take (Z.to_nat t) dst ++ a).
  set (D := drop (Z.to_nat t + length a) dst).
  assert (HX : length X = (Z.to_nat t + length a)%nat)
    by (unfold X; rewrite length_app, length_take; lia).
  replace (Z.to_nat (t + Z.of_nat (length a))) with (length X) by lia.
  replace (take (Z.to_nat t) dst ++ a ++ D) with (X ++ D)
    by (unfold X; rewrite <- app_assoc; reflexivity).
  rewrite take_app_length.
  rewrite drop_app_ge by lia.
  replace (length X + length b - length X)%nat with (length b) by lia.
  unfold D. rewrite drop_drop. unfold X. rewrite <- !app_assoc.
  rewrite length_app, Nat.add_assoc. reflexivity.
Qed.

Lemma buf_write_app' (dst a b : list Z) (t m : Z) :
  0 <= t -> m = Z.of_nat (length a) -> t + m <= Z.of_nat (length dst) ->
  buf_write (buf_write dst t a) (t + m) b = buf_write dst t (a ++ b).
Proof. intros Ht -> Hl. apply buf_write_app; assumption. Qed.

Section Readi.
Context `{Params}.

Lemma bmap_mapped (ip : nat) (bn : Z) (s : state) :
  params_ok -> 0 <= bn < NDIRECT + NINDIRECT ->
  block_addr s (iget_slot s ip) bn <> 0 ->
  bmap ip bn s = Ok (block_addr s (iget_slot s ip) bn) s.
Proof.
  intros Hok Hbn Hne. unfold bmap, block_addr in *.
  pose proof (NDIRECT_nonneg Hok) as Hnd.
  destruct (bn <? NDIRECT) eqn:E1.
  - unfold bind, rd, id, ret.
    destruct (addr_at (i_addrs (iget_slot s ip)) bn =? 0) eqn:E; [lia|reflexivity].
  - assert (Hni31 : NINDIRECT < 2 ^ 31).
    { pose proof (MAXFILE_bytes Hok). pose proof (MAXFILE_sum Hok).
      pose proof (BSIZE_pos Hok). nia. }
    rewrite u32_small by lia.
    destruct (bn - NDIRECT <? NINDIRECT) eqn:E2; [|lia].
    unfold bind, rd, id, ret, bread, brelse.
    destruct (addr_at (i_addrs (iget_slot s ip)) NDIRECT =? 0) eqn:E;
      [congruence|].
    destruct (get_u32 _ _ =? 0) eqn:E3; [lia|reflexivity].
Qed.

Lemma file_bytes_chunk (s : state) (i : inode) (off m : Z) :
  0 < BSIZE -> 0 <= off -> 0 <= m -> off mod BSIZE + m <= BSIZE ->
  file_bytes s i off m
  = sub_bytes (block s (i_dev i) (block_addr s i (off / BSIZE)))
      (off mod BSIZE) m.
Proof.
  intros Hbs Hoff Hm Hfit.
  pose proof (Z.mod_pos_bound off BSIZE Hbs) as Hmod.
  rewrite sub_bytes_eq by (rewrite ?length_block; lia).
  unfold file_bytes.
  assert (E1 : seqZ off m = Z.add off <$> seqZ 0 m)
    by (rewrite fmap_add_seqZ, Z.add_0_r; reflexivity).
  assert (E2 : seqZ (off mod BSIZE) m = Z.add (off mod BSIZE) <$> seqZ 0 m)
    by (rewrite fmap_add_seqZ, Z.add_0_r; reflexivity).
  rewrite E1, E2.
  change (map ?f (?g <$> ?l)) with (f <$> (g <$> l)).
  rewrite <- !list_fmap_compose.
  apply list_fmap_ext. intros k x Hk. apply lookup_seqZ in Hk.
  destruct Hk as [-> Hk]. simpl. unfold file_byte.
  assert (Hxe : off + (0 + Z.of_nat k)
                = BSIZE * (off / BSIZE) + (off mod BSIZE + Z.of_nat k)).
  { pose proof (Z.div_mod off BSIZE). lia. }
  assert (Hd : (off + (0 + Z.of_nat k)) / BSIZE = off / BSIZE).
  { symmetry. apply (Z.div_unique _ BSIZE _ (off mod BSIZE + Z.of_nat k));
      [lia|exact Hxe]. }
  assert (Hmo : (off + (0 + Z.of_nat k)) mod BSIZE = off mod BSIZE + Z.of_nat k).
  { symmetry. apply (Z.mod_unique _ BSIZE (off / BSIZE)); [lia|exact Hxe]. }
  rewrite Hd, Hmo. f_equal; lia.
Qed.

Lemma file_bytes_app (s : state) (i : inode) (off m k : Z) :
  0 <= m -> 0 <= k ->
  file_bytes s i off (m + k) = file_bytes s i off m ++ file_bytes s i (off + m) k.
Proof.
  intros Hm Hk. unfold file_bytes. rewrite seqZ_app by lia. apply map_app.
Qed.

Lemma length_file_bytes (s : state) (i : inode) (off m : Z) :
  length (file_bytes s i off m) = Z.to_nat m.
Proof. unfold file_bytes. rewrite length_map. apply length_seqZ. Qed.

(** The loop of readi on a file without holes: the state stays as it is and
    the bytes of the file land in the buffer. *)
Lemma readi_loop_exact (ip : nat) (n : Z) (s : state) (fuel : nat) :
  params_ok ->
  let i := iget_slot s ip in
  no_holes s i -> i_size i <= MAXFILE * BSIZE -> n < 2 ^ 32 ->
  forall (dst : list Z) (off tot : Z),
    0 <= tot <= n -> 0 <= off -> off + (n - tot) <= i_size i ->
    n <= Z.of_nat (length dst) ->
    n - tot < Z.of_nat fuel ->
    readi_loop fuel ip dst off n tot s
    = Ok (buf_write dst tot (file_bytes s i off (n - tot))) s.
Proof.
  intros Hok i Hnh Hsz Hn32. pose proof (BSIZE_pos Hok) as Hbs.
  pose proof (MAXFILE_bytes Hok) as Hmb. pose proof (MAXFILE_sum Hok) as Hms.
  induction fuel as [|fuel IH]; intros dst off tot Htot Hoff Hend Hdst Hfuel;
    [lia|].
  simpl. destruct (tot <? n) eqn:Et.
  - pose proof (Z.mod_pos_bound off BSIZE Hbs) as Hmod.
    assert (Hbn : 0 <= off / BSIZE < NDIRECT + NINDIRECT).
    { split; [apply Z.div_pos; lia|].
      apply Z.div_lt_upper_bound; [lia|]. nia. }
    assert (Hmapped : block_addr s i (off / BSIZE) <> 0).
    { apply Hnh; [lia|].
      pose proof (Z.mul_div_le off BSIZE Hbs). lia. }
    unfold bind at 1. unfold rd at 1. unfold bind at 1.
    rewrite (bmap_mapped ip _ s Hok Hbn Hmapped). fold i.
    unfold bind at 1. unfold bread at 1. unfold bind at 1. unfold brelse, ret.
    assert (Hbs31 : BSIZE < 2 ^ 31) by nia.
    rewrite (u32_small (n - tot)) by lia.
    rewrite (u32_small (BSIZE - off mod BSIZE)) by lia.
    set (m := Z.min (n - tot) (BSIZE - off mod BSIZE)).
    assert (Hm : 1 <= m <= n - tot) by (unfold m; lia).
    rewrite (u32_small (off + m)), (u32_small (tot + m)) by lia.
    rewrite <- file_bytes_chunk by (unfold m; lia).
    rewrite IH; [|lia|lia|lia| |lia].
    + f_equal.
      rewrite buf_write_app' by (rewrite ?length_file_bytes; lia).
      rewrite <- file_bytes_app by lia.
      replace (m + (n - (tot + m))) with (n - tot) by lia. reflexivity.
    + unfold buf_write.
      rewrite !length_app, length_take, length_drop, length_file_bytes. lia.
  - unfold ret. f_equal.
    replace (n - tot) with 0 by lia. unfold file_bytes, buf_write. simpl.
    rewrite Nat.add_0_r. symmetry. apply take_drop.
Qed.

Lemma readi_cases (ip : nat) (dst : list Z) (off n : Z) (s : state) :
  params_ok ->
  let i := iget_slot s ip in
  i_type i <> T_DEV ->
  0 <= off < 2 ^ 32 -> 0 <= n < 2 ^ 32 ->
  0 <= i_size i <= MAXFILE * BSIZE -> no_holes s i ->
  n <= Z.of_nat (length dst) ->
  (off > i_size i \/ 2 ^ 32 <= off + n ->
     readi ip dst off n s = Ok (-1, dst) s) /\
  (~ (off > i_size i \/ 2 ^ 32 <= off + n) ->
     let n' := Z.min n (i_size i - off) in
     0 <= n' /\
     readi ip dst off n s
     = Ok (n', file_bytes s i off n' ++ drop (Z.to_nat n') dst) s).
Proof.
  intros Hok i Ht Hoff Hn Hsz Hnh Hdst.
  pose proof (MAXFILE_bytes Hok) as Hmb.
  destruct (i_type i =? T_DEV) eqn:E; [lia|].
  split.
  - intros Hf.
    unfold readi. unfold bind at 1. unfold rd at 1. unfold id. fold i.
    rewrite E.
    assert (Hc : (off >? i_size i) || (u32 (off + n) <? off) = true).
    { apply orb_true_iff. destruct Hf as [Hf|Hf]; [left; lia|right].
      unfold u32. apply Z.ltb_lt.
      replace (off + n) with (off + n - 2 ^ 32 + 1 * 2 ^ 32) by lia.
      rewrite Z.mod_add by lia. rewrite Z.mod_small by lia. lia. }
    rewrite Hc. reflexivity.
  - intros Hnf. cbv zeta. set (n' := Z.min n (i_size i - off)).
    split; [lia|].
    unfold readi. unfold bind at 1. unfold rd at 1. unfold id. fold i.
    rewrite E.
    rewrite (u32_small (off + n)) by lia.
    assert (Hc : (off >? i_size i) || (off + n <? off) = false)
      by (apply orb_false_iff; lia).
    rewrite Hc.
    assert (Hlen : (if off + n >? i_size i then u32 (i_size i - off) else n) = n').
    { unfold n'. destruct (off + n >? i_size i) eqn:E2.
      - rewrite u32_small by lia. lia.
      - lia. }
    rewrite Hlen. unfold bind.
    rewrite (readi_loop_exact ip n' s _ Hok Hnh) by (subst n'; subst i; lia).
    unfold ret. rewrite s32_small by lia. f_equal. f_equal.
    replace (n' - 0) with n' by lia.
    unfold buf_write. simpl. rewrite length_file_bytes. reflexivity.
Qed.

(** C4.  For an inode that is not a device, readi returns -1, with nothing
    read, exactly when the offset exceeds the current size or offset+length
    overflows 32 bits.  Otherwise, on a file without holes, it returns
    min(length, size - offset), leaves the state as it is, and the buffer
    starts with that many bytes of the file's content from the offset on. *)
Theorem readi_result (ip : nat) (dst : list Z) (off n : Z) (s : state) :
  params_ok ->
  let i := iget_slot s ip in
  i_type i <> T_DEV ->
  0 <= off < 2 ^ 32 -> 0 <= n < 2 ^ 32 ->
  0 <= i_size i <= MAXFILE * BSIZE -> no_holes s i ->
  n <= Z.of_nat (length dst) ->
  (off > i_size i \/ 2 ^ 32 <= off + n ->
     readi ip dst off n s = Ok (-1, dst) s) /\
  (~ (off > i_size i \/ 2 ^ 32 <= off + n) ->
     let n' := Z.min n (i_size i - off) in
     0 <= n' /\
     readi ip dst off n s
     = Ok (n', file_bytes s i off n' ++ drop (Z.to_nat n') dst) s).
Proof.
  intros Hok i Ht Hoff Hn Hsz Hnh Hdst.
  pose proof (MAXFILE_bytes Hok) as Hmb.
  destruct (i_type i =? T_DEV) eqn:E; [lia|].
  split.
  - intros Hf.
    unfold readi. unfold bind at 1. unfold rd at 1. unfold id. fold i.
    rewrite E.
    assert (Hc : (off >? i_size i) || (u32 (off + n) <? off) = true).
    { apply orb_true_iff. destruct Hf as [Hf|Hf]; [left; lia|right].
      unfold u32. apply Z.ltb_lt.
      replace (off + n) with (off + n - 2 ^ 32 + 1 * 2 ^ 32) by lia.
      rewrite Z.mod_add by lia. rewrite Z.mod_small by lia. lia. }
    rewrite Hc. reflexivity.
  - intros Hnf. cbv zeta. set (n' := Z.min n (i_size i - off)).
    split; [lia|].
    unfold readi. unfold bind at 1. unfold rd at 1. unfold id. fold i.
    rewrite E.
    rewrite (u32_small (off + n)) by lia.
    assert (Hc : (off >? i_size i) || (off + n <? off) = false)
      by (apply orb_false_iff; lia).
    rewrite Hc.
    assert (Hlen : (if off + n >? i_size i then u32 (i_size i - off) else n) = n').
    { unfold n'. destruct (off + n >? i_size i) eqn:E2.
      - rewrite u32_small by lia. lia.
      - lia. }
    rewrite Hlen. unfold bind.
    rewrite (readi_loop_exact ip n' s _ Hok Hnh) by (subst n'; subst i; lia).
    unfold ret. rewrite s32_small by lia. f_equal. f_equal.
    replace (n' - 0) with n' by lia.
    unfold buf_write. simpl. rewrite length_file_bytes. reflexivity.
Qed.


End Readi.

(** ** namex *)

Lemma skip_slashes_idem (p : list Z) :
  skip_slashes (skip_slashes p) = skip_slashes p.
Proof.
  induction p as [|c p IH]; simpl; [reflexivity|].
  destruct (c =? slash) eqn:E; [exact IH|]. simpl. rewrite E. reflexivity.
Qed.

Lemma skip_slashes_length (p : list Z) :
  (length (skip_slashes p) <= length p)%nat.
Proof.
  induction p as [|c p IH]; simpl; [lia|].
  destruct (c =? slash); simpl; lia.
Qed.

Lemma skip_slashes_nonul (p : list Z) : nonul p -> nonul (skip_slashes p).
Proof.
  unfold nonul. induction p as [|c p IH]; simpl; intros Hp; [constructor|].
  inversion Hp; subst. destruct (c =? slash); [apply IH; assumption|exact Hp].
Qed.

Lemma elem_end_nonul (p : list Z) : nonul p -> nonul (elem_end p).
Proof.
  unfold nonul. induction p as [|c p IH]; simpl; intros Hp; [constructor|].
  inversion Hp; subst.
  destruct ((c =? slash) || (c =? 0)); [exact Hp|apply IH; assumption].
Qed.

Lemma nonul_deref (p : list Z) : nonul p -> deref p = 0 -> p = [].
Proof.
  intros Hp Hd. destruct p as [|c p]; [reflexivity|].
  inversion Hp; subst. simpl in Hd. contradiction.
Qed.

Lemma skip_slashes_app_elem (q r : list Z) :
  skip_slashes q <> [] -> skip_slashes (q ++ r) = skip_slashes q ++ r.
Proof.
  induction q as [|c q IH]; simpl; [congruence|].
  destruct (c =? slash); [exact IH|reflexivity].
Qed.

Lemma skip_slashes_app_nil (q r : list Z) :
  skip_slashes q = [] -> skip_slashes (q ++ r) = skip_slashes r.
Proof.
  induction q as [|c q IH]; simpl; [reflexivity|].
  destruct (c =? slash); [exact IH|discriminate].
Qed.

Lemma elem_end_app (s r : list Z) :
  nonul s -> elem_end (s ++ slash :: r) = elem_end s ++ slash :: r.
Proof.
  unfold nonul. induction s as [|c s IH]; intros Hs; simpl; [reflexivity|].
  inversion Hs; subst.
  destruct ((c =? slash) || (c =? 0)); [reflexivity|apply IH; assumption].
Qed.

Lemma elem_len_app (s r : list Z) :
  nonul s -> elem_len (s ++ slash :: r) = elem_len s.
Proof.
  intros Hs. unfold elem_len. rewrite elem_end_app by exact Hs.
  rewrite !length_app. lia.
Qed.

Section Namex.
Context `{Params}.

(** skipelem looks at the path after its leading slashes only. *)
Lemma skipelem_skip_slashes (p name : list Z) :
  skipelem (skip_slashes p) name = skipelem p name.
Proof. unfold skipelem. rewrite skip_slashes_idem. reflexivity. Qed.

Lemma skipelem_none (p name : list Z) :
  skipelem p name = None <-> ~ path_has_elem p.
Proof.
  unfold skipelem, path_has_elem.
  destruct (deref (skip_slashes p) =? 0) eqn:E; split; intros Hx;
    try discriminate; try reflexivity; lia.
Qed.

(** Each component taken off makes the path shorter. *)
Lemma skipelem_shorter (p name p' name' : list Z) :
  skipelem p name = Some (p', name') -> (length p' < length p)%nat.
Proof.
  unfold skipelem. destruct (deref (skip_slashes p) =? 0) eqn:E; [discriminate|].
  intros [= <- _].
  pose proof (skip_slashes_stop p) as Hns.
  pose proof (elem_len_pos (skip_slashes p) ltac:(lia) Hns) as Hpos.
  unfold elem_len in Hpos.
  pose proof (skip_slashes_length (elem_end (skip_slashes p))).
  pose proof (skip_slashes_length p). lia.
Qed.

Lemma skipelem_nonul (p name p' name' : list Z) :
  nonul p -> skipelem p name = Some (p', name') -> nonul p'.
Proof.
  unfold skipelem. destruct (deref (skip_slashes p) =? 0); [discriminate|].
  intros Hp [= <- _].
  apply skip_slashes_nonul, elem_end_nonul, skip_slashes_nonul, Hp.
Qed.

(** The first component of a path does not depend on what follows it. *)
Lemma skipelem_app (q rest name q' name' : list Z) :
  nonul q -> skipelem q name = Some (q', name') ->
  skipelem (q ++ slash :: rest) name
  = Some (skip_slashes (q' ++ slash :: rest), name').
Proof.
  intros Hq. unfold skipelem.
  destruct (deref (skip_slashes q) =? 0) eqn:E; [discriminate|].
  intros [= <- <-].
  assert (Hne : skip_slashes q <> []) by (intros Hx; rewrite Hx in E; discriminate).
  rewrite skip_slashes_app_elem by exact Hne.
  set (s := skip_slashes q) in *.
  assert (Hs : nonul s) by (apply skip_slashes_nonul; exact Hq).
  assert (Hd : deref (s ++ slash :: rest) = deref s)
    by (destruct s; [congruence|reflexivity]).
  rewrite Hd, E. rewrite elem_len_app, elem_end_app by exact Hs.
  pose proof (elem_len_range s) as Hr.
  f_equal. f_equal.
  - set (e := elem_end s).
    destruct (skip_slashes e) as [|c t] eqn:Ee.
    + rewrite skip_slashes_app_nil by exact Ee. reflexivity.
    + rewrite skip_slashes_app_elem by (rewrite Ee; discriminate).
      rewrite Ee. symmetry.
      pose proof (skip_slashes_stop e) as Hst. rewrite Ee in Hst. simpl in Hst.
      simpl. destruct (c =? slash) eqn:Ec; [lia|reflexivity].
  - unfold memmove.
    destruct (elem_len s >=? DIRSIZ) eqn:Eg.
    + rewrite take_app_le by lia. reflexivity.
    + rewrite take_app_le by lia. reflexivity.
Qed.

Lemma namex_loop_skip_slashes (fuel : nat) (ip : nat) (p : list Z) (b : bool)
    (name : list Z) (s : state) :
  namex_loop fuel ip (skip_slashes p) b name s = namex_loop fuel ip p b name s.
Proof.
  destruct fuel as [|fuel]; [reflexivity|]. simpl.
  rewrite skipelem_skip_slashes. reflexivity.
Qed.

(** With enough fuel the walk does not depend on the fuel. *)
Lemma namex_loop_fuel (b : bool) (f1 : nat) :
  forall (f2 : nat) (ip : nat) (p name : list Z) (s : state),
    (length p < f1)%nat -> (length p < f2)%nat ->
    namex_loop f1 ip p b name s = namex_loop f2 ip p b name s.
Proof.
  induction f1 as [|f1 IH]; intros f2 ip p name s H1 H2; [lia|].
  destruct f2 as [|f2]; [lia|]. simpl.
  destruct (skipelem p name) as [[p' name']|] eqn:Es; [|reflexivity].
  pose proof (skipelem_shorter _ _ _ _ Es) as Hsh.
  unfold bind. destruct (ilock ip s) as [[] s1| | |]; try reflexivity.
  unfold rd.
  destruct (negb (i_type (iget_slot s1 ip) =? T_DIR)); [reflexivity|].
  destruct (b && (deref p' =? 0)); [reflexivity|].
  destruct (dirlookup ip name' s1) as [[[next off]|] s2| | |]; try reflexivity.
  destruct (iunlockput ip s2) as [[] s3| | |]; try reflexivity.
  apply IH; lia.
Qed.

Lemma namex_loop_S (f : nat) (ip : nat) (p : list Z) (b : bool) (nm : list Z) :
  namex_loop (S f) ip p b nm =
    match skipelem p nm with
    | None => if b then iput ip ;;; ret (None, nm) else ret (Some ip, nm)
    | Some (path, name) =>
        ilock ip ;;;
        t <- rd ip i_type ;;
        if negb (t =? T_DIR) then iunlockput ip ;;; ret (None, name)
        else if b && (deref path =? 0) then iunlock ip ;;; ret (Some ip, name)
        else
          r <- dirlookup ip name ;;
          match r with
          | None => iunlockput ip ;;; ret (None, name)
          | Some (next, _) =>
              iunlockput ip ;;; namex_loop f next path b name
          end
    end.
Proof. reflexivity. Qed.

Lemma path_has_elem_app (q rest : list Z) :
  nonul q -> path_has_elem rest ->
  deref (skip_slashes (q ++ slash :: rest)) <> 0.
Proof.
  intros Hq Hrest. destruct (skip_slashes q) as [|c t] eqn:Eq.
  - rewrite skip_slashes_app_nil by exact Eq.
    change (skip_slashes (slash :: rest)) with (skip_slashes rest). exact Hrest.
  - rewrite skip_slashes_app_elem by (rewrite Eq; discriminate).
    rewrite Eq. simpl.
    pose proof (skip_slashes_nonul q Hq) as Hn. rewrite Eq in Hn.
    inversion Hn; subst. assumption.
Qed.

(** The walk over [q/rest] goes through the walk over [q]: when [q] resolves
    to the inode [ipf], the walk over the longer path arrives at [ipf] with
    [/rest] left. *)
Lemma namex_loop_prefix (b : bool) (rest : list Z) :
  path_has_elem rest ->
  forall (fuel : nat) (q : list Z) (ip : nat) (nm : list Z) (s : state)
         (ipf : nat) (nm1 : list Z) (s1 : state),
    nonul q -> (length q < fuel)%nat ->
    namex_loop fuel ip q false nm s = Ok (Some ipf, nm1) s1 ->
    forall F, (length (q ++ slash :: rest) < F)%nat ->
      namex_loop F ip (q ++ slash :: rest) b nm s
      = namex_loop F ipf (slash :: rest) b nm1 s1.
Proof.
  intros Hrest.
  induction fuel as [|fuel IH];
    intros q ip nm s ipf nm1 s1 Hq Hf Hrun F HF; [lia|].
  destruct F as [|F]; [lia|].
  rewrite namex_loop_S in Hrun.
  destruct (skipelem q nm) as [[q' nm']|] eqn:Es.
  - pose proof (skipelem_app q rest nm q' nm' Hq Es) as Hsa.
    pose proof (skipelem_shorter _ _ _ _ Es) as Hsh.
    pose proof (skipelem_nonul _ _ _ _ Hq Es) as Hq'.
    rewrite (namex_loop_S F ip (q ++ slash :: rest)). rewrite Hsa.
    unfold bind in *.
    destruct (ilock ip s) as [[] sa| | |]; try discriminate.
    unfold rd in *.
    destruct (negb (i_type (iget_slot sa ip) =? T_DIR)).
    { destruct (iunlockput ip sa); discriminate. }
    assert (Hd : (deref (skip_slashes (q' ++ slash :: rest)) =? 0) = false).
    { apply Z.eqb_neq. apply path_has_elem_app; assumption. }
    rewrite Hd, andb_false_r. simpl in Hrun.
    destruct (dirlookup ip nm' sa) as [[[next o]|] sb| | |]; try discriminate.
    + destruct (iunlockput ip sb) as [[] sc| | |]; try discriminate.
      rewrite namex_loop_skip_slashes.
      rewrite length_app in HF. simpl in HF.
      rewrite (IH q' next nm' sc ipf nm1 s1 Hq' ltac:(lia) Hrun F)
        by (rewrite length_app; simpl; lia).
      apply namex_loop_fuel; simpl; lia.
    + destruct (iunlockput ip sb); discriminate.
  - unfold ret in Hrun. injection Hrun as <- <- <-.
    apply skipelem_none in Es. unfold path_has_elem in Es.
    assert (Hnil : skip_slashes q = []).
    { apply nonul_deref; [apply skip_slashes_nonul; exact Hq|].
      destruct (Z.eq_dec (deref (skip_slashes q)) 0); [assumption|contradiction]. }
    rewrite <- (namex_loop_skip_slashes _ _ (q ++ slash :: rest)).
    rewrite <- (namex_loop_skip_slashes _ _ (slash :: rest)).
    rewrite skip_slashes_app_nil by exact Hnil. reflexivity.
Qed.

(** The walk at an inode that is no directory, with a component left. *)
Lemma namex_loop_not_dir (f ip : nat) (p : list Z) (b : bool) (nm : list Z)
    (s s2 : state) :
  path_has_elem p ->
  ilock ip s = Ok tt s2 -> i_type (iget_slot s2 ip) <> T_DIR ->
  exists p2 nm2,
    skipelem p nm = Some (p2, nm2) /\
    namex_loop (S f) ip p b nm s = (iunlockput ip ;;; ret (None, nm2)) s2.
Proof.
  intros Hp Hlock Hty. rewrite namex_loop_S.
  destruct (skipelem p nm) as [[p2 nm2]|] eqn:Es.
  - exists p2, nm2. split; [reflexivity|].
    unfold bind at 1. rewrite Hlock. unfold bind at 1. unfold rd.
    replace (i_type (iget_slot s2 ip) =? T_DIR) with false
      by (symmetry; apply Z.eqb_neq; exact Hty).
    reflexivity.
  - apply skipelem_none in Es. contradiction.
Qed.

Lemma iput_any (ip : nat) (s : state) :
  params_ok -> wpx any_panic (iput ip) (fun _ _ => True) s.
Proof.
  intros Hok.
  destruct ((i_ref (iget_slot s ip) =? 1)
            && negb (Z.land (i_flags (iget_slot s ip)) I_VALID =? 0)
            && (i_nlink (iget_slot s ip) =? 0)) eqn:E.
  - apply last_ref_unlinked_test in E.
    assert (Hlt : (ip < length (icache s))%nat).
    { destruct E as (Hr & _). unfold iget_slot in Hr.
      destruct (icache s !! ip) eqn:El; [|discriminate].
      apply lookup_lt_Some in El. exact El. }
    eapply wpx_mono; [apply iput_reclaim_spec; assumption|]. auto.
  - assert (Hn : ~ last_ref_unlinked (iget_slot s ip)).
    { intros Hl. apply last_ref_unlinked_test in Hl. congruence. }
    eapply wpx_eq; [apply iput_plain_eq; exact Hn|exact I].
Qed.

Lemma iunlockput_any (ip : nat) (s : state) :
  params_ok -> wpx any_panic (iunlockput ip) (fun _ _ => True) s.
Proof.
  intros Hok. unfold iunlockput, iunlock. wstep. wstep. unfold id.
  destruct ((Z.land (i_flags (iget_slot s ip)) I_BUSY =? 0)
            || (i_ref (iget_slot s ip) <? 1)).
  - unfold wpx, bind, panic. exact I.
  - wsteps. apply iput_any. exact Hok.
Qed.

Lemma iget_scan_spec (dev inum : Z) (l : list inode) :
  forall (idx : nat) (e : option nat),
    match iget_scan l idx dev inum e with
    | (Some ip, _) =>
        exists i, l !! (ip - idx)%nat = Some i /\ (idx <= ip)%nat /\ 0 < i_ref i
                  /\ i_dev i = dev /\ i_inum i = inum
    | (None, Some ip) =>
        e = Some ip \/
        (e = None /\
         exists i, l !! (ip - idx)%nat = Some i /\ (idx <= ip)%nat /\ i_ref i = 0)
    | (None, None) => True
    end.
Proof.
  induction l as [|i l IH]; intros idx e; simpl.
  - destruct e; auto.
  - destruct ((i_ref i >? 0) && (i_dev i =? dev) && (i_inum i =? inum)) eqn:E.
    + exists i. rewrite Nat.sub_diag. split; [reflexivity|]. split; [lia|].
      apply andb_true_iff in E. destruct E as [E E3].
      apply andb_true_iff in E. lia.
    + match goal with |- context [iget_scan l (S idx) dev inum ?e'] =>
        specialize (IH (S idx) e'); destruct (iget_scan l (S idx) dev inum e')
          as [[ip|] [ip'|]] end.
      * destruct IH as (j & Hj & Hle & Hr). exists j.
        replace (ip - idx)%nat with (S (ip - S idx)) by lia. simpl.
        split; [exact Hj|]. split; [lia|exact Hr].
      * destruct IH as (j & Hj & Hle & Hr). exists j.
        replace (ip - idx)%nat with (S (ip - S idx)) by lia. simpl.
        split; [exact Hj|]. split; [lia|exact Hr].
      * destruct e as [e0|].
        -- destruct IH as [IH|(IH & _)]; [left; exact IH|discriminate].
        -- right. split; [reflexivity|].
           destruct (i_ref i =? 0) eqn:Er.
           ++ destruct IH as [IH|(IH & _)]; [|discriminate].
              injection IH as <-. exists i. rewrite Nat.sub_diag.
              split; [reflexivity|]. split; [lia|lia].
           ++ destruct IH as [IH|(_ & j & Hj & Hle & Hr)]; [discriminate|].
              exists j. replace (ip' - idx)%nat with (S (ip' - S idx)) by lia.
              simpl. auto with lia.
      * exact I.
Qed.

(** iget: the slot it returns either was in use, and has one reference more,
    or was empty, and now caches (dev, inum) with one reference and no
    flags. *)
Lemma iget_spec (dev inum : Z) (s : state) :
  wpx iget_panic (iget dev inum)
    (fun ip s' =>
       (ip < length (icache s))%nat /\ disk s' = disk s /\ cwd s' = cwd s /\
       trace s' = trace s ++ [EvAcquire; EvRelease] /\
       i_dev (iget_slot s' ip) = dev /\ i_inum (iget_slot s' ip) = inum /\
       ((0 < i_ref (iget_slot s ip) /\
         icache s' = <[ip := with_ref (i_ref (iget_slot s ip) + 1) (iget_slot s ip)]>
                       (icache s)) \/
        (i_ref (iget_slot s ip) = 0 /\
         icache s' = <[ip := with_flags 0 (with_ref 1 (with_inum inum
                          (with_dev dev (iget_slot s ip))))]> (icache s)))) s.
Proof.
  unfold iget. wstep. wstep.
  pose proof (iget_scan_spec dev inum (icache s) 0 None) as Hscan.
  change (icache (add_event EvAcquire s)) with (icache s).
  destruct (iget_scan (icache s) 0 dev inum None) as [[ip|] [ip'|]].
  - destruct Hscan as (i & Hi & _ & Hr & Hdv & Hin). rewrite Nat.sub_0_r in Hi.
    assert (Hs : iget_slot s ip = i) by (unfold iget_slot; rewrite Hi; reflexivity).
    assert (Hl : (ip < length (icache s))%nat) by (eapply lookup_lt_Some; exact Hi).
    wsteps. wend. autorewrite with st. rewrite Hs.
    rewrite iget_slot_set_slot by exact Hl.
    split; [exact Hl|].
    split; [reflexivity|]. split; [reflexivity|].
    split; [rewrite <- app_assoc; reflexivity|].
    split; [exact Hdv|]. split; [exact Hin|]. left. auto.
  - destruct Hscan as (i & Hi & _ & Hr & Hdv & Hin). rewrite Nat.sub_0_r in Hi.
    assert (Hs : iget_slot s ip = i) by (unfold iget_slot; rewrite Hi; reflexivity).
    assert (Hl : (ip < length (icache s))%nat) by (eapply lookup_lt_Some; exact Hi).
    wsteps. wend. autorewrite with st. rewrite Hs.
    rewrite iget_slot_set_slot by exact Hl.
    split; [exact Hl|].
    split; [reflexivity|]. split; [reflexivity|].
    split; [rewrite <- app_assoc; reflexivity|].
    split; [exact Hdv|]. split; [exact Hin|]. left. auto.
  - destruct Hscan as [Hx|(_ & i & Hi & _ & Hr)]; [discriminate|].
    rewrite Nat.sub_0_r in Hi.
    assert (Hs : iget_slot s ip' = i) by (unfold iget_slot; rewrite Hi; reflexivity).
    assert (Hl : (ip' < length (icache s))%nat) by (eapply lookup_lt_Some; exact Hi).
    wsteps. wend. autorewrite with st. rewrite Hs.
    rewrite iget_slot_set_slot by exact Hl.
    split; [exact Hl|].
    split; [reflexivity|]. split; [reflexivity|].
    split; [rewrite <- app_assoc; reflexivity|].
    split; [reflexivity|]. split; [reflexivity|]. right. auto.
  - wend. reflexivity.
Qed.

Lemma not_last_ref (i : inode) :
  i_ref i <> 1 \/ Z.land (i_flags i) I_VALID = 0 -> ~ last_ref_unlinked i.
Proof. intros Hx (Hr & Hv & _). destruct Hx; contradiction. Qed.

(** nameiparent on a path without components. *)
Lemma nameiparent_no_elem (path name : list Z) (s : state) :
  ~ path_has_elem path ->
  (deref path <> slash -> 1 <= i_ref (iget_slot s (cwd s))) ->
  wpx iget_panic (nameiparent path name)
    (fun r s' =>
       r = (None, name) /\ disk s' = disk s /\
       forall jp, i_ref (iget_slot s' jp) = i_ref (iget_slot s jp)) s.
Proof.
  intros Hne Hcwd. apply skipelem_none with (name := name) in Hne.
  unfold nameiparent, namex. apply wpx_bind.
  apply (wpx_mono _ _
    (fun ip s1 =>
       disk s1 = disk s /\
       exists y, icache s1 = <[ip := y]> (icache s) /\
                 (ip < length (icache s))%nat /\
                 i_ref y = i_ref (iget_slot s ip) + 1 /\
                 (i_ref y <> 1 \/ Z.land (i_flags y) I_VALID = 0))).
  - destruct (deref path =? slash) eqn:Ed.
    + eapply wpx_mono; [apply iget_spec|].
      intros ip s1 (Hlt & Hd & _ & _ & _ & _ & Hcase). split; [exact Hd|].
      destruct Hcase as [(Hr & Hc)|(Hr & Hc)]; eexists; (split; [exact Hc|]);
        (split; [exact Hlt|]); simpl; (split; [lia|]).
      * left. lia.
      * right. apply Z.land_0_l.
    + wstep. unfold idup. wsteps. wend. autorewrite with st.
      split; [reflexivity|]. eexists. split; [reflexivity|].
      assert (Hr : 1 <= i_ref (iget_slot s (cwd s))) by (apply Hcwd; lia).
      split.
      { unfold iget_slot in Hr. destruct (icache s !! cwd s) eqn:El.
        - eapply lookup_lt_Some; exact El.
        - simpl in Hr. lia. }
      simpl. split; [reflexivity|left; lia].
  - intros ip s1 (Hd & y & Hc & Hlt & Hry & Hnl). cbv beta.
    eapply wpx_change; [rewrite namex_loop_S, Hne; reflexivity|].
    assert (Hs1 : iget_slot s1 ip = y) by (eapply iget_slot_insert; eauto).
    apply wpx_bind. eapply wpx_eq.
    { apply iput_plain_eq. rewrite Hs1. apply not_last_ref. exact Hnl. }
    wend. split; [reflexivity|]. autorewrite with st.
    split; [exact Hd|]. intros jp. rewrite Hs1.
    autorewrite with st.
    destruct (Nat.eq_dec ip jp) as [<-|Hne'].
    + rewrite iget_slot_set_slot
        by (autorewrite with st; rewrite Hc, length_insert; exact Hlt).
      simpl. lia.
    + rewrite iget_slot_set_slot_ne by exact Hne'.
      autorewrite with st. unfold iget_slot. rewrite Hc.
      rewrite list_lookup_insert_ne by exact Hne'. reflexivity.
Qed.

(** C6.  (1) When a prefix [q] of the path resolves to an inode that, once
    locked, is not a directory, and the path goes on after it with a further
    component, namex on the whole path does, from the state in which that
    inode is locked, nothing but unlock and release it and return 0: no
    further component is looked up, and whenever the call returns it returns
    no inode.  (2) nameiparent on a path without any component returns no
    inode (unless iget finds the cache full); it changes neither the disk nor
    any reference count. *)
Theorem namex_no_result (q rest path name : list Z) (b : bool)
    (s s1 s2 : state) (ip : nat) (name1 : list Z) :
  params_ok ->
  (nonul q -> path_has_elem q -> path_has_elem rest ->
   namex q false name s = Ok (Some ip, name1) s1 ->
   ilock ip s1 = Ok tt s2 -> i_type (iget_slot s2 ip) <> T_DIR ->
   (exists name2,
      namex (q ++ slash :: rest) b name s
      = (iunlockput ip ;;; ret (None, name2)) s2) /\
   wpx any_panic (namex (q ++ slash :: rest) b name)
     (fun r _ => fst r = None) s) /\
  (~ path_has_elem path ->
   (deref path <> slash -> 1 <= i_ref (iget_slot s (cwd s))) ->
   wpx iget_panic (nameiparent path name)
     (fun r s' =>
        r = (None, name) /\ disk s' = disk s /\
        forall jp, i_ref (iget_slot s' jp) = i_ref (iget_slot s jp)) s).
Proof.
  intros Hok. split; [|apply nameiparent_no_elem].
  intros Hq Hqe Hrest Hrun Hlock Hty.
  assert (Heq : exists name2,
            namex (q ++ slash :: rest) b name s
            = (iunlockput ip ;;; ret (None, name2)) s2).
  { unfold namex in *.
    assert (Hd : deref (q ++ slash :: rest) = deref q).
    { destruct q as [|c q']; [|reflexivity].
      exfalso. apply Hqe. reflexivity. }
    rewrite Hd. unfold bind at 1. unfold bind at 1 in Hrun.
    destruct ((if deref q =? slash then iget ROOTDEV ROOTINO
               else s0 <- get_state;; idup (cwd s0)) s)
      as [ip0 s0| | |]; try discriminate.
    rewrite (namex_loop_prefix b rest Hrest _ q ip0 name s0 ip name1 s1 Hq
               (Nat.lt_succ_diag_r _) Hrun) by lia.
    destruct (namex_loop_not_dir (length (q ++ slash :: rest)) ip
                (slash :: rest) b name1 s1 s2) as (p2 & nm2 & _ & Hnd);
      [exact Hrest|exact Hlock|exact Hty|].
    exists nm2. exact Hnd. }
  split; [exact Heq|].
  destruct Heq as (name2 & Heq).
  eapply wpx_change; [exact Heq|].
  unfold wpx. unfold bind.
  pose proof (iunlockput_any ip s2 Hok) as Hany. unfold wpx in Hany.
  destruct (iunlockput ip s2); try contradiction; [reflexivity|exact I].
Qed.

End Namex.

(** ** Allocation seen from a file: what balloc and bmap keep in place *)

Lemma lor_nonzero_l (a b : Z) : a <> 0 -> Z.lor a b <> 0.
Proof. intros Ha Hl. apply Z.lor_eq_0_iff in Hl. tauto. Qed.

Section Alloc.
Context `{Params}.

Lemma bit_set_in_set (data : list Z) (bi : Z) :
  0 <= bi -> bi / 8 < Z.of_nat (length data) ->
  bit_set_in
    (set_byte data (bi / 8)
       (Z.lor (byte_at data (bi / 8)) (Z.shiftl 1 (bi mod 8)))) bi = true.
Proof.
  intros Hbi Hl. unfold bit_set_in.
  rewrite byte_at_set_byte_eq by (split; [apply Z.div_pos; lia|lia]).
  apply negb_true_iff, Z.eqb_neq.
  rewrite Z.land_lor_distr_l, Z.land_diag.
  rewrite Z.lor_comm. apply lor_nonzero_l.
  pose proof (shiftl_1_pos (bi mod 8) ltac:(apply Z.mod_pos_bound; lia)). lia.
Qed.

Lemma bit_set_in_mono (data : list Z) (bi j : Z) :
  0 <= bi -> 0 <= j ->
  bit_set_in data j = true ->
  bit_set_in
    (set_byte data (bi / 8)
       (Z.lor (byte_at data (bi / 8)) (Z.shiftl 1 (bi mod 8)))) j = true.
Proof.
  intros Hbi Hj. unfold bit_set_in.
  rewrite !negb_true_iff, !Z.eqb_neq. intros Hset.
  assert (Hbi8 : 0 <= bi / 8) by (apply Z.div_pos; lia).
  assert (Hj8 : 0 <= j / 8) by (apply Z.div_pos; lia).
  destruct (Z.eq_dec (bi / 8) (j / 8)) as [He|Hne].
  - rewrite <- He in *.
    destruct (Z.lt_ge_cases (bi / 8) (Z.of_nat (length data))) as [Hin|Hout].
    + rewrite byte_at_set_byte_eq by lia.
      rewrite Z.land_lor_distr_l. apply lor_nonzero_l. exact Hset.
    + unfold set_byte. rewrite list_insert_ge by lia. exact Hset.
  - rewrite byte_at_set_byte_ne by lia. exact Hset.
Qed.

(** What an allocation leaves in place. *)
Lemma balloc_strong (dev : Z) (s s1 : state) (b : Z) :
  params_ok -> 0 <= sb_ninodes (sb_of s dev) ->
  balloc dev s = Ok b s1 -> balloc_post dev s b s1.
Proof.
  intros Hok Hnin Hal. unfold balloc_post.
  pose proof (BPB_pos Hok) as Hbpb. pose proof (BPB_fits Hok) as Hfit.
  pose proof (IPB_pos Hok) as Hipb. pose proof (BSIZE_pos Hok) as Hbs.
  rewrite balloc_eq in Hal.
  set (sb := sb_of s dev) in *. set (n := sb_ninodes sb) in *.
  assert (H00 : 0 <= 0) by lia.
  assert (H0m : 0 mod BPB = 0) by (apply Z.mod_0_l; lia).
  destruct (balloc_loop_ok _ dev sb Hbpb 0 s b s1 H00 H0m Hal)
    as (bk & bi & Hb & Hbk & Hbkm & Hbi & Hclear & Hs1 & Hbefore).
  fold n in Hclear, Hs1, Hbefore.
  set (bm := BBLOCK bk n) in *. set (data := block s dev bm) in *.
  assert (Hbr : bk <= b < bk + BPB) by lia.
  destruct (same_bitmap_block BPB bk b Hbpb Hbkm Hbr) as [Hbd Hbmod].
  assert (Hbi' : b mod BPB = bi) by lia.
  assert (Hbbm : BBLOCK b n = bm) by (unfold bm, BBLOCK; rewrite Hbd; reflexivity).
  assert (Hbm1 : bm <> 1).
  { unfold bm, BBLOCK. assert (0 <= bk) by lia.
    pose proof (Z.div_pos bk BPB ltac:(assumption) Hbpb).
    pose proof (Z.div_pos n IPB Hnin Hipb). lia. }
  assert (Hk : 0 <= bi / 8 < Z.of_nat (length data)).
  { unfold data. rewrite length_block. split; [apply Z.div_pos; lia|].
    apply Z.div_lt_upper_bound; lia. }
  set (data1 := set_byte data (bi / 8)
                  (Z.lor (byte_at data (bi / 8)) (Z.shiftl 1 (bi mod 8)))) in *.
  assert (Hl1 : length data1 = Z.to_nat BSIZE)
    by (unfold data1; rewrite length_set_byte; apply length_block).
  assert (Hblk : forall x, x <> bm -> block s1 dev x = block s dev x).
  { intros x Hx. rewrite Hs1, block_set_disk.
    apply block_of_insert_ne. congruence. }
  assert (Hblkbm : block s1 dev bm = data1).
  { rewrite Hs1, block_set_disk. apply block_of_insert_eq. exact Hl1. }
  assert (Hsb1 : sb_of s1 dev = sb).
  { unfold sb_of. rewrite (Hblk 1) by congruence. reflexivity. }
  split; [fold sb; lia|]. split.
  { unfold bit_in_use. fold sb. fold n. rewrite Hbbm, Hbi'. exact Hclear. }
  split.
  { unfold bit_in_use. rewrite Hsb1. fold n. rewrite Hbbm, Hbi', Hblkbm.
    apply bit_set_in_set; lia. }
  split; [exact Hsb1|]. split.
  { intros x Hx. unfold bit_in_use in *. rewrite Hsb1. fold sb in Hx. fold n in Hx.
    fold n.
    destruct (Z.eq_dec (BBLOCK x n) bm) as [He|Hne].
    - rewrite He in *. rewrite Hblkbm. fold data in Hx.
      apply bit_set_in_mono; [lia|apply Z.mod_pos_bound; lia|exact Hx].
    - rewrite Hblk by exact Hne. exact Hx. }
  split.
  { exists bm. split; [|exact Hblk].
    exists bk. fold sb. fold n. split; [lia|reflexivity]. }
  rewrite Hs1. auto.
Qed.

Lemma balloc_wp (dev : Z) (s : state) :
  params_ok -> 0 <= sb_ninodes (sb_of s dev) ->
  wpx alloc_panic (balloc dev) (balloc_post dev s) s.
Proof.
  intros Hok Hnin.
  pose proof (balloc_frame dev s (BPB_pos Hok)) as Hf.
  pose proof (balloc_strong dev s) as Hs.
  unfold wpx in *. destruct (balloc dev s) as [b s1|msg s1| |];
    try contradiction; [|exact Hf].
  apply Hs; [exact Hok|exact Hnin|reflexivity].
Qed.

Lemma is_bitmap_block_sb (s s1 : state) (dev x : Z) :
  sb_of s1 dev = sb_of s dev ->
  is_bitmap_block s1 dev x <-> is_bitmap_block s dev x.
Proof. intros Hsb. unfold is_bitmap_block. rewrite Hsb. reflexivity. Qed.

Lemma byte_at_zeros (n : nat) (j : Z) : byte_at (replicate n 0) j = 0.
Proof.
  unfold byte_at. destruct (replicate n 0 !! Z.to_nat j) eqn:E; [|reflexivity].
  apply lookup_replicate in E. destruct E as [-> _]. reflexivity.
Qed.

Lemma get_u32_zeros (n : nat) (o : Z) : get_u32 (replicate n 0) o = 0.
Proof. unfold get_u32. rewrite !byte_at_zeros. reflexivity. Qed.

Lemma get_u16_zeros (n : nat) (o : Z) : get_u16 (replicate n 0) o = 0.
Proof. unfold get_u16. rewrite !byte_at_zeros. reflexivity. Qed.

Lemma bit_in_use_set_slot (ip : nat) (x : inode) (s : state) (dev b : Z) :
  bit_in_use (set_slot ip x s) dev b = bit_in_use s dev b.
Proof. reflexivity. Qed.

Lemma sb_of_set_slot (ip : nat) (x : inode) (s : state) (dev : Z) :
  sb_of (set_slot ip x s) dev = sb_of s dev.
Proof. reflexivity. Qed.

(** bmap on a block that the file does not have yet. *)
Lemma bmap_fresh (ip : nat) (k : Z) (s : state) :
  params_ok -> (ip < length (icache s))%nat ->
  0 <= k < MAXFILE ->
  length (i_addrs (iget_slot s ip)) = Z.to_nat (NDIRECT + 1) ->
  alloc_wf s (i_dev (iget_slot s ip)) ->
  (addr_at (i_addrs (iget_slot s ip)) NDIRECT <> 0 ->
   bit_in_use s (i_dev (iget_slot s ip))
     (addr_at (i_addrs (iget_slot s ip)) NDIRECT) = true /\
   ~ is_bitmap_block s (i_dev (iget_slot s ip))
       (addr_at (i_addrs (iget_slot s ip)) NDIRECT)) ->
  block_addr s (iget_slot s ip) k = 0 ->
  wpx alloc_panic (bmap ip k) (bmap_fresh_post ip k s) s.
Proof.
  intros Hok Hlt Hk Hlen (Hnin & H32 & Hb0 & Hbmu & Hfz) Hind Hza.
  set (i := iget_slot s ip) in *. set (dev := i_dev i) in *.
  set (ind := addr_at (i_addrs i) NDIRECT) in *.
  pose proof (NDIRECT_nonneg Hok) as Hnd. pose proof (MAXFILE_sum Hok) as Hms.
  pose proof (indirect_fits Hok) as Hif. pose proof (BSIZE_pos Hok) as Hbs.
  assert (Hni31 : NINDIRECT < 2 ^ 31).
  { pose proof (MAXFILE_bytes Hok). pose proof (NINDIRECT_nonneg Hok). nia. }
  unfold bmap, bmap_fresh_post. fold i. fold dev. fold ind.
  unfold block_addr in Hza. fold ind in Hza. fold dev in Hza.
  destruct (k <? NDIRECT) eqn:E1.
  - (* a direct block *)
    wstep. unfold id. fold i. rewrite Hza. simpl.
    apply wpx_bind. eapply wpx_mono; [apply balloc_wp; assumption|].
    intros b sa (Hbr & Hfree & Hused & Hsb & Hmono & (bm & Hisbm & Hblk) & Hc & Ht & Hw).
    cbv beta. fold dev in Hfree, Hused, Hsb, Hmono, Hisbm, Hblk.
    assert (Hia : iget_slot sa ip = i) by (unfold iget_slot; rewrite Hc; reflexivity).
    wstep. rewrite Hia. wend.
    set (addrs1 := <[Z.to_nat k := b]> (i_addrs i)).
    set (s1 := set_slot ip (with_addrs addrs1 i) sa).
    assert (Hi1 : iget_slot s1 ip = with_addrs addrs1 i)
      by (apply iget_slot_set_slot; rewrite Hc; exact Hlt).
    rewrite Hi1. simpl i_addrs.
    assert (Hind1 : addr_at addrs1 NDIRECT = ind).
    { unfold addrs1. rewrite addr_at_insert by lia.
      replace (k =? NDIRECT) with false by (symmetry; apply Z.eqb_neq; lia).
      reflexivity. }
    rewrite Hind1.
    assert (Hb0' : b <> 0) by (intros ->; congruence).
    split; [exact Hb0'|]. split; [exact Hfree|]. split.
    { destruct (Z.eq_dec ind 0) as [Hi0|Hi0]; [lia|].
      destruct (Hind Hi0) as [Hu _]. intros ->. congruence. }
    split; [exists addrs1; unfold s1; autorewrite with st; rewrite Hc; reflexivity|].
    split; [exact Ht|]. split; [exact Hw|]. split; [left; reflexivity|].
    assert (Hblki : ind <> 0 -> block s1 dev ind = block s dev ind).
    { intros Hi0. unfold s1. rewrite block_set_slot. apply Hblk.
      destruct (Hind Hi0) as [_ Hnb]. intros ->. contradiction. }
    split.
    { unfold block_addr. rewrite E1. simpl i_addrs. unfold addrs1.
      rewrite addr_at_insert by lia. rewrite Z.eqb_refl. simpl.
      replace (k <? Z.of_nat (length (i_addrs i))) with true
        by (symmetry; apply Z.ltb_lt; lia).
      reflexivity. }
    split.
    { intros j Hj Hjk. unfold block_addr. simpl i_addrs. simpl i_dev.
      rewrite Hind1. fold ind. fold dev.
      destruct (j <? NDIRECT) eqn:Ej.
      - unfold addrs1. rewrite addr_at_insert by lia.
        replace (k =? j) with false by (symmetry; apply Z.eqb_neq; lia).
        reflexivity.
      - destruct (ind =? 0) eqn:Ei; [reflexivity|].
        rewrite Hblki by lia. reflexivity. }
    intros x Hx Hnb _. unfold s1. rewrite block_set_slot. apply Hblk.
    intros ->. contradiction.
  - (* a block behind the indirect block *)
    rewrite u32_small by lia.
    destruct (k - NDIRECT <? NINDIRECT) eqn:E2; [|lia].
    set (o := 4 * (k - NDIRECT)) in *.
    assert (Ho : 0 <= o /\ o + 4 <= BSIZE) by (unfold o; lia).
    wstep. unfold id. fold i. fold ind. fold dev.
    destruct (ind =? 0) eqn:Ei.
    + (* no indirect block yet *)
      apply Z.eqb_eq in Ei.
      apply wpx_bind. apply wpx_bind.
      eapply wpx_mono; [apply balloc_wp; assumption|].
      intros ind' sa (Hbr & Hfree & Hused & Hsb & Hmono & (bm & Hisbm & Hblk) & Hc & Ht & Hw).
      cbv beta. fold dev in Hfree, Hused, Hsb, Hmono, Hisbm, Hblk.
      assert (Hia : iget_slot sa ip = i) by (unfold iget_slot; rewrite Hc; reflexivity).
      wstep. rewrite Hia. wend.
      set (addrs1 := <[Z.to_nat NDIRECT := ind']> (i_addrs i)).
      set (sb := set_slot ip (with_addrs addrs1 i) sa).
      assert (Hind'0 : ind' <> 0) by (intros ->; congruence).
      assert (Hind'bm : ind' <> bm).
      { intros ->. rewrite (Hbmu _ Hisbm) in Hfree. discriminate. }
      assert (Hzero : block sb dev ind' = replicate (Z.to_nat BSIZE) 0).
      { unfold sb. rewrite block_set_slot, Hblk by exact Hind'bm.
        apply Hfz. exact Hfree. }
      wstep. rewrite Hzero. rewrite get_u32_zeros. simpl.
      apply wpx_bind. eapply wpx_mono.
      { apply balloc_wp; [exact Hok|].
        unfold sb. rewrite sb_of_set_slot, Hsb. exact Hnin. }
      intros b sc (Hbr2 & Hfree2 & Hused2 & Hsb2 & Hmono2 & (bm2 & Hisbm2 & Hblk2) & Hc2 & Ht2 & Hw2).
      cbv beta. unfold sb in Hfree2, Hsb2, Hisbm2, Hc2, Ht2, Hw2, Hbr2.
      change (bit_in_use sa dev b = false) in Hfree2.
      change (sb_of sc dev = sb_of sa dev) in Hsb2.
      change (0 <= b < sb_size (sb_of sa dev) + BPB) in Hbr2.
      apply is_bitmap_block_sb with (s := s) in Hisbm2; [|exact Hsb].
      change (icache sc = <[ip := with_addrs addrs1 i]> (icache sa)) in Hc2.
      change (trace sc = trace sa) in Ht2. change (cwd sc = cwd sa) in Hw2.
      wsteps. wend.
      set (blk := put_u32 (replicate (Z.to_nat BSIZE) 0) o b).
      set (s1 := set_disk (<[(dev, ind') := blk]> (disk sc)) sc).
      assert (Hi1 : iget_slot s1 ip = with_addrs addrs1 i).
      { unfold iget_slot. change (icache s1) with (icache sc). rewrite Hc2.
        rewrite Hc. rewrite list_lookup_insert_eq by exact Hlt. reflexivity. }
      rewrite Hi1. simpl i_addrs.
      assert (Hind1 : addr_at addrs1 NDIRECT = ind').
      { unfold addrs1. rewrite addr_at_insert by lia. rewrite Z.eqb_refl. simpl.
        replace (NDIRECT <? Z.of_nat (length (i_addrs i))) with true
          by (symmetry; apply Z.ltb_lt; lia).
        reflexivity. }
      rewrite Hind1.
      assert (Hfree_s : bit_in_use s dev b = false).
      { destruct (bit_in_use s dev b) eqn:Eb; [|reflexivity].
        apply Hmono in Eb. congruence. }
      assert (Hbind : ind' <> b) by (intros ->; congruence).
      assert (Hlblk : length blk = Z.to_nat BSIZE)
        by (unfold blk; rewrite length_put_u32; apply length_replicate).
      assert (Hb1 : block s1 dev ind' = blk)
        by (unfold s1; apply block_after_bwrite; exact Hlblk).
      assert (Hb32 : 0 <= b < 2 ^ 32) by (rewrite Hsb in Hbr2; lia).
      split; [intros ->; congruence|]. split; [exact Hfree_s|].
      split; [exact Hbind|].
      split.
      { exists addrs1. change (icache s1) with (icache sc). rewrite Hc2.
        autorewrite with st. rewrite Hc. reflexivity. }
      split; [change (trace s1) with (trace sc); congruence|].
      split; [change (cwd s1) with (cwd sc); congruence|].
      split; [right; fold ind; auto|].
      split.
      { unfold block_addr. rewrite E1. simpl i_addrs. simpl i_dev. fold dev.
        rewrite Hind1.
        replace (ind' =? 0) with false by (symmetry; apply Z.eqb_neq; exact Hind'0).
        rewrite Hb1. fold o. unfold blk.
        rewrite get_u32_put_u32_eq by (rewrite ?length_replicate; lia).
        apply Z.mod_small. exact Hb32. }
      split.
      { intros j Hj Hjk. unfold block_addr. simpl i_addrs. simpl i_dev.
        fold dev. fold ind. rewrite Hind1.
        destruct (j <? NDIRECT) eqn:Ej.
        - unfold addrs1. rewrite addr_at_insert by lia.
          replace (NDIRECT =? j) with false by (symmetry; apply Z.eqb_neq; lia).
          reflexivity.
        - replace (ind' =? 0) with false by (symmetry; apply Z.eqb_neq; exact Hind'0).
          replace (ind =? 0) with true by (symmetry; apply Z.eqb_eq; exact Ei).
          rewrite Hb1. unfold blk.
          rewrite get_u32_put_u32_ne by (unfold o; lia).
          apply get_u32_zeros. }
      intros x Hx Hnb Hxi.
      unfold s1. rewrite block_set_disk, block_of_insert_ne by congruence.
      change (block_of (disk sc) dev x) with (block sc dev x).
      rewrite Hblk2 by (intros ->; contradiction).
      unfold sb. rewrite block_set_slot. apply Hblk. intros ->. contradiction.
    + (* the indirect block is there, the entry is not *)
      apply Z.eqb_neq in Ei.
      apply wpx_bind. wend. cbv beta.
      wstep.
      replace (ind =? 0) with false in Hza by (symmetry; apply Z.eqb_neq; exact Ei).
      fold o in Hza. rewrite Hza. simpl.
      destruct (Hind Ei) as [Hiu Hinb].
      apply wpx_bind. eapply wpx_mono; [apply balloc_wp; assumption|].
      intros b sa (Hbr & Hfree & Hused & Hsb & Hmono & (bm & Hisbm & Hblk) & Hc & Ht & Hw).
      cbv beta. fold dev in Hfree, Hused, Hsb, Hmono, Hisbm, Hblk, Hbr.
      wsteps. wend.
      set (blk := put_u32 (block s dev ind) o b).
      set (s1 := set_disk (<[(dev, ind) := blk]> (disk sa)) sa).
      assert (Hi1 : iget_slot s1 ip = i)
        by (unfold iget_slot; change (icache s1) with (icache sa); rewrite Hc; reflexivity).
      rewrite Hi1. fold ind.
      assert (Hlblk : length blk = Z.to_nat BSIZE)
        by (unfold blk; rewrite length_put_u32; apply length_block).
      assert (Hb1 : block s1 dev ind = blk)
        by (unfold s1; apply block_after_bwrite; exact Hlblk).
      assert (Hb32 : 0 <= b < 2 ^ 32) by lia.
      split; [intros ->; congruence|]. split; [exact Hfree|].
      split; [intros Hx; rewrite Hx in Hiu; congruence|].
      split.
      { exists (i_addrs i). change (icache s1) with (icache sa). rewrite Hc.
        rewrite with_addrs_id. symmetry. apply list_insert_id.
        unfold i, iget_slot. destruct (icache s !! ip) eqn:El; [reflexivity|].
        apply lookup_ge_None in El. lia. }
      split; [exact Ht|]. split; [exact Hw|]. split; [left; reflexivity|].
      split.
      { unfold block_addr. rewrite E1. fold ind. fold dev.
        replace (ind =? 0) with false by (symmetry; apply Z.eqb_neq; exact Ei).
        rewrite Hb1. fold o. unfold blk.
        rewrite get_u32_put_u32_eq by (rewrite ?length_block; lia).
        apply Z.mod_small. exact Hb32. }
      split.
      { intros j Hj Hjk. unfold block_addr. fold ind. fold dev.
        destruct (j <? NDIRECT) eqn:Ej; [reflexivity|].
        replace (ind =? 0) with false by (symmetry; apply Z.eqb_neq; exact Ei).
        rewrite Hb1. unfold blk.
        rewrite get_u32_put_u32_ne by (unfold o; lia). reflexivity. }
      intros x Hx Hnb Hxi.
      unfold s1. rewrite block_set_disk, block_of_insert_ne by congruence.
      apply Hblk. intros ->. contradiction.
Qed.

End Alloc.
(** ** Directories: dirlookup *)

Lemma byte_at_buf_write (X de : list Z) (om p : Z) :
  0 <= om -> om + Z.of_nat (length de) <= Z.of_nat (length X) -> 0 <= p ->
  byte_at (buf_write X om de) p
  = if (om <=? p) && (p <? om + Z.of_nat (length de))
    then byte_at de (p - om) else byte_at X p.
Proof.
  intros Hom Hl Hp. unfold byte_at, buf_write.
  destruct (Z.leb_spec om p) as [H1|H1]; simpl.
  - rewrite lookup_app_r by (rewrite length_take; lia).
    rewrite length_take.
    replace (Z.to_nat p - Z.to_nat om `min` length X)%nat
      with (Z.to_nat (p - om)) by lia.
    destruct (Z.ltb_spec p (om + Z.of_nat (length de))) as [H2|H2].
    + rewrite lookup_app_l by lia. reflexivity.
    + rewrite lookup_app_r by lia. rewrite lookup_drop.
      replace (Z.to_nat om + length de + (Z.to_nat (p - om) - length de))%nat
        with (Z.to_nat p) by lia.
      reflexivity.
  - rewrite lookup_app_l by (rewrite length_take; lia).
    rewrite lookup_take_lt by lia. reflexivity.
Qed.

Lemma length_buf_write (X de : list Z) (om : Z) :
  0 <= om -> om + Z.of_nat (length de) <= Z.of_nat (length X) ->
  length (buf_write X om de) = length X.
Proof.
  intros Hom Hl. unfold buf_write.
  rewrite !length_app, length_take, length_drop. lia.
Qed.

Lemma sub_bytes_ext (D D' : list Z) (o m : Z) :
  0 <= o -> 0 <= m ->
  o + m <= Z.of_nat (length D) -> o + m <= Z.of_nat (length D') ->
  (forall p, o <= p < o + m -> byte_at D p = byte_at D' p) ->
  sub_bytes D o m = sub_bytes D' o m.
Proof.
  intros Ho Hm Hl Hl' Hb. rewrite !sub_bytes_eq by lia.
  change (map ?f ?l) with (f <$> l).
  apply list_fmap_ext. intros k x Hk. apply lookup_seqZ in Hk.
  destruct Hk as [-> Hk]. apply Hb. lia.
Qed.

Lemma sub_bytes_all (D : list Z) (m : Z) :
  m = Z.of_nat (length D) -> sub_bytes D 0 m = D.
Proof.
  intros ->. unfold sub_bytes. simpl. rewrite drop_0.
  rewrite Nat2Z.id. apply resize_all.
Qed.

Lemma strncmp_strncpy (n : nat) (name : list Z) :
  strncmp name (strncpy name n) n = 0.
Proof.
  revert name. induction n as [|n IH]; intros name; [reflexivity|].
  simpl. destruct (deref name =? 0) eqn:E.
  - simpl. apply Z.eqb_eq in E. rewrite E. reflexivity.
  - simpl. rewrite Z.eqb_refl. simpl. apply IH.
Qed.

Lemma length_strncpy (n : nat) (name : list Z) :
  length (strncpy name n) = n.
Proof.
  revert name. induction n as [|n IH]; intros name; [reflexivity|].
  simpl. destruct (deref name =? 0).
  - simpl. rewrite length_replicate. reflexivity.
  - simpl. rewrite IH. reflexivity.
Qed.

Section Dirlookup.
Context `{Params}.

Lemma dirent_offsets_spec (o : Z) :
  params_ok ->
  In o dirent_offsets <->
  0 <= o /\ o mod dirent_size = 0 /\ o + dirent_size <= BSIZE.
Proof.
  intros Hok. pose proof (DIRSIZ_pos Hok) as Hd.
  pose proof (dirent_divides Hok) as Hdiv. pose proof (BSIZE_pos Hok) as Hbs.
  assert (Hds : 0 < dirent_size) by (unfold dirent_size; lia).
  apply Z.mod_divide in Hdiv; [|lia]. destruct Hdiv as [q Hq].
  assert (Eq : (BSIZE + dirent_size - 1) / dirent_size = q).
  { symmetry. apply (Z.div_unique _ _ _ (dirent_size - 1)); lia. }
  unfold dirent_offsets. rewrite Eq. rewrite in_map_iff. split.
  - intros (k & <- & Hk). apply list_elem_of_In, elem_of_seqZ in Hk.
    split; [nia|]. split; [apply Z_mod_mult|nia].
  - intros (Ho & Hm & Hle). exists (o / dirent_size).
    apply Z.mod_divide in Hm; [|lia]. destruct Hm as [k Hk]. subst o.
    rewrite Z.div_mul by lia. split; [reflexivity|].
    apply list_elem_of_In, elem_of_seqZ. nia.
Qed.

Lemma dirent_offsets_split (om : Z) :
  params_ok -> In om dirent_offsets ->
  exists l1 l2, dirent_offsets = l1 ++ om :: l2 /\
                forall o, In o l1 -> In o dirent_offsets /\ o + dirent_size <= om.
Proof.
  intros Hok Hin. pose proof (proj1 (dirent_offsets_spec om Hok) Hin) as Hspec.
  pose proof (DIRSIZ_pos Hok) as Hd.
  assert (Hds : 0 < dirent_size) by (unfold dirent_size; lia).
  pose proof Hin as Hin2. unfold dirent_offsets in Hin2.
  apply in_map_iff in Hin2. destruct Hin2 as (k & <- & Hk).
  apply list_elem_of_In, elem_of_seqZ in Hk.
  exists (map (fun k => k * dirent_size) (seqZ 0 k)).
  exists (map (fun k => k * dirent_size)
            (seqZ (k + 1) ((BSIZE + dirent_size - 1) / dirent_size - k - 1))).
  split.
  - unfold dirent_offsets.
    set (q := (BSIZE + dirent_size - 1) / dirent_size) in *.
    replace (seqZ 0 q) with (seqZ 0 (k + (q - k))) by (f_equal; lia).
    rewrite seqZ_app by lia. rewrite map_app.
    rewrite (seqZ_cons (0 + k)) by lia. simpl.
    replace (Z.succ (0 + k)) with (k + 1) by lia.
    replace (Z.pred (q - k)) with (q - k - 1) by lia.
    replace (0 + k) with k by lia. reflexivity.
  - intros o Ho. apply in_map_iff in Ho. destruct Ho as (j & <- & Hj).
    apply list_elem_of_In, elem_of_seqZ in Hj. split; [|nia].
    apply dirent_offsets_spec; [exact Hok|].
    split; [nia|]. split; [apply Z_mod_mult|nia].
Qed.

Lemma dirlookup_block_app (D name l1 l2 : list Z) :
  dirlookup_block D name (l1 ++ l2)
  = match dirlookup_block D name l1 with
    | Some r => Some r
    | None => dirlookup_block D name l2
    end.
Proof.
  induction l1 as [|o l1 IH]; [reflexivity|]. simpl.
  destruct (get_u16 D o =? 0); [exact IH|].
  destruct (namecmp name (sub_bytes D (o + 2) DIRSIZ) =? 0); [reflexivity|exact IH].
Qed.

Lemma dirlookup_block_ext (D D' name l : list Z) :
  (forall o, In o l -> get_u16 D o = get_u16 D' o /\
       sub_bytes D (o + 2) DIRSIZ = sub_bytes D' (o + 2) DIRSIZ) ->
  dirlookup_block D name l = dirlookup_block D' name l.
Proof.
  induction l as [|o l IH]; intros Hext; [reflexivity|]. simpl.
  destruct (Hext o (or_introl eq_refl)) as [-> ->].
  rewrite IH by (intros o' Ho'; apply Hext; right; exact Ho'). reflexivity.
Qed.

Lemma dirlookup_block_none (D name l : list Z) :
  dirlookup_block D name l = None <->
  forall o, In o l -> get_u16 D o = 0 \/
                      namecmp name (sub_bytes D (o + 2) DIRSIZ) <> 0.
Proof.
  induction l as [|o l IH]; simpl.
  - split; [intros _ o []|reflexivity].
  - destruct (get_u16 D o =? 0) eqn:E1.
    + rewrite IH. split.
      * intros Hall o' [<-|Ho']; [left; lia|apply Hall; exact Ho'].
      * intros Hall o' Ho'. apply Hall. right. exact Ho'.
    + destruct (namecmp name (sub_bytes D (o + 2) DIRSIZ) =? 0) eqn:E2.
      * split; [discriminate|]. intros Hall.
        destruct (Hall o (or_introl eq_refl)); lia.
      * rewrite IH. split.
        -- intros Hall o' [<-|Ho']; [right; lia|apply Hall; exact Ho'].
        -- intros Hall o' Ho'. apply Hall. right. exact Ho'.
Qed.

Lemma dirlookup_block_some (D name l : list Z) (o n : Z) :
  dirlookup_block D name l = Some (o, n) ->
  In o l /\ n = get_u16 D o /\ n <> 0 /\
  namecmp name (sub_bytes D (o + 2) DIRSIZ) = 0.
Proof.
  induction l as [|o' l IH]; simpl; [discriminate|].
  destruct (get_u16 D o' =? 0) eqn:E1.
  - intros Hs. destruct (IH Hs) as (? & ? & ? & ?). auto.
  - destruct (namecmp name (sub_bytes D (o' + 2) DIRSIZ) =? 0) eqn:E2.
    + intros [= <- <-]. repeat split; [left; reflexivity|lia|lia].
    + intros Hs. destruct (IH Hs) as (? & ? & ? & ?). auto.
Qed.

(** The entry dirlink builds, whatever the scan left in [de]. *)
Lemma new_entry_length (X0 name : list Z) (n : Z) :
  params_ok -> length X0 = Z.to_nat dirent_size ->
  length (put_u16 (buf_write X0 2 (strncpy name (Z.to_nat DIRSIZ))) 0 n)
  = Z.to_nat dirent_size.
Proof.
  intros Hok HX. pose proof (DIRSIZ_pos Hok) as Hd.
  rewrite length_put_u16, length_buf_write; [exact HX|lia|].
  rewrite length_strncpy. unfold dirent_size in HX. lia.
Qed.

Lemma new_entry_inum (X0 name : list Z) (n : Z) :
  params_ok -> length X0 = Z.to_nat dirent_size -> 0 <= n < 2 ^ 16 ->
  get_u16 (put_u16 (buf_write X0 2 (strncpy name (Z.to_nat DIRSIZ))) 0 n) 0 = n.
Proof.
  intros Hok HX Hn. pose proof (DIRSIZ_pos Hok) as Hd.
  rewrite get_u16_put_u16_eq; [apply Z.mod_small; exact Hn|lia|].
  rewrite length_buf_write; [|lia|rewrite length_strncpy];
    unfold dirent_size in HX; lia.
Qed.

Lemma new_entry_name (X0 name : list Z) (n : Z) :
  params_ok -> length X0 = Z.to_nat dirent_size ->
  sub_bytes (put_u16 (buf_write X0 2 (strncpy name (Z.to_nat DIRSIZ))) 0 n)
    2 DIRSIZ
  = strncpy name (Z.to_nat DIRSIZ).
Proof.
  intros Hok HX. pose proof (DIRSIZ_pos Hok) as Hd.
  unfold dirent_size in HX.
  set (S := strncpy name (Z.to_nat DIRSIZ)).
  assert (HS : length S = Z.to_nat DIRSIZ) by apply length_strncpy.
  assert (HB : length (buf_write X0 2 S) = length X0)
    by (apply length_buf_write; lia).
  rewrite (sub_bytes_ext _ (buf_write X0 2 S));
    [|lia|lia|rewrite length_put_u16; lia|lia|
     intros p Hp; apply byte_at_put_u16_ne; lia].
  unfold sub_bytes, buf_write.
  rewrite drop_app_length' by (rewrite length_take; lia).
  rewrite drop_ge by lia. rewrite app_nil_r.
  rewrite <- HS. apply resize_all.
Qed.

(** One entry written into a block leaves the other entries of the block as
    they were. *)
Lemma entry_frame (X de : list Z) (om o : Z) :
  params_ok -> length X = Z.to_nat BSIZE -> length de = Z.to_nat dirent_size ->
  0 <= om -> om + dirent_size <= BSIZE -> 0 <= o -> o + dirent_size <= BSIZE ->
  o + dirent_size <= om \/ om + dirent_size <= o ->
  get_u16 (buf_write X om de) o = get_u16 X o /\
  sub_bytes (buf_write X om de) (o + 2) DIRSIZ = sub_bytes X (o + 2) DIRSIZ /\
  sub_bytes (buf_write X om de) o (2 + DIRSIZ) = sub_bytes X o (2 + DIRSIZ).
Proof.
  intros Hok HX Hde Hom Hom2 Ho Ho2 Hdis. pose proof (DIRSIZ_pos Hok) as Hd.
  pose proof (BSIZE_pos Hok) as Hbs. unfold dirent_size in *.
  assert (Hb : forall p, o <= p < o + 2 + DIRSIZ ->
             byte_at (buf_write X om de) p = byte_at X p).
  { intros p Hp. rewrite byte_at_buf_write by lia.
    destruct (Z.leb_spec om p); destruct (Z.ltb_spec p (om + Z.of_nat (length de)));
      simpl; try reflexivity; lia. }
  split; [|split].
  - unfold get_u16. rewrite !Hb by lia. reflexivity.
  - apply sub_bytes_ext; try lia.
    + rewrite length_buf_write; lia.
    + intros p Hp. apply Hb. lia.
  - apply sub_bytes_ext; try lia.
    + rewrite length_buf_write; lia.
    + intros p Hp. apply Hb. lia.
Qed.

Lemma entry_written (X de : list Z) (om : Z) :
  params_ok -> length X = Z.to_nat BSIZE -> length de = Z.to_nat dirent_size ->
  0 <= om -> om + dirent_size <= BSIZE ->
  get_u16 (buf_write X om de) om = get_u16 de 0 /\
  sub_bytes (buf_write X om de) (om + 2) DIRSIZ = sub_bytes de 2 DIRSIZ /\
  sub_bytes (buf_write X om de) om dirent_size = de.
Proof.
  intros Hok HX Hde Hom Hom2. pose proof (DIRSIZ_pos Hok) as Hd.
  pose proof (BSIZE_pos Hok) as Hbs. unfold dirent_size in *.
  assert (Hb : forall p, 0 <= p < 2 + DIRSIZ ->
             byte_at (buf_write X om de) (om + p) = byte_at de p).
  { intros p Hp. rewrite byte_at_buf_write by lia.
    destruct (Z.leb_spec om (om + p));
      destruct (Z.ltb_spec (om + p) (om + Z.of_nat (length de)));
      simpl; try lia. f_equal. lia. }
  assert (HL : length (buf_write X om de) = length X)
    by (apply length_buf_write; lia).
  split; [|split].
  - unfold get_u16. pose proof (Hb 0 ltac:(lia)) as Hb0.
    rewrite Z.add_0_r in Hb0. rewrite Hb0, Hb by lia. reflexivity.
  - rewrite !sub_bytes_eq by lia.
    replace (seqZ (om + 2) DIRSIZ) with (Z.add om <$> seqZ 2 DIRSIZ)
      by (rewrite fmap_add_seqZ; reflexivity).
    change (map ?f (?g <$> ?l)) with (f <$> (g <$> l)).
    rewrite <- list_fmap_compose.
    apply list_fmap_ext. intros k x Hk. apply lookup_seqZ in Hk.
    destruct Hk as [-> Hk]. simpl. apply Hb. lia.
  - rewrite <- (sub_bytes_all de (2 + DIRSIZ)) at 2 by lia.
    rewrite !sub_bytes_eq by lia.
    replace (seqZ om (2 + DIRSIZ)) with (Z.add om <$> seqZ 0 (2 + DIRSIZ))
      by (rewrite fmap_add_seqZ, Z.add_0_r; reflexivity).
    change (map ?f (?g <$> ?l)) with (f <$> (g <$> l)).
    rewrite <- list_fmap_compose.
    apply list_fmap_ext. intros k x Hk. apply lookup_seqZ in Hk.
    destruct Hk as [-> Hk]. simpl. apply Hb. lia.
Qed.

(** The search of one block finds the entry just written when no entry
    before it matches. *)
Lemma dirlookup_block_written (X de name : list Z) (om n : Z) :
  params_ok -> length X = Z.to_nat BSIZE -> length de = Z.to_nat dirent_size ->
  In om dirent_offsets ->
  get_u16 de 0 = n -> n <> 0 -> namecmp name (sub_bytes de 2 DIRSIZ) = 0 ->
  (forall o, In o dirent_offsets -> o + dirent_size <= om ->
     get_u16 X o = 0 \/ namecmp name (sub_bytes X (o + 2) DIRSIZ) <> 0) ->
  dirlookup_block (buf_write X om de) name dirent_offsets = Some (om, n).
Proof.
  intros Hok HX Hde Hin Hn Hn0 Hname Hbefore.
  pose proof (proj1 (dirent_offsets_spec om Hok) Hin) as (Hom & _ & Hfit).
  destruct (dirent_offsets_split om Hok Hin) as (l1 & l2 & Hsplit & Hl1).
  rewrite Hsplit, dirlookup_block_app.
  assert (E1 : dirlookup_block (buf_write X om de) name l1 = None).
  { apply dirlookup_block_none. intros o Ho.
    destruct (Hl1 o Ho) as (Hoin & Hlt).
    pose proof (proj1 (dirent_offsets_spec o Hok) Hoin) as (Ho0 & _ & Hofit).
    destruct (entry_frame X de om o Hok HX Hde Hom Hfit Ho0 Hofit
                (or_introl Hlt)) as (-> & -> & _).
    apply Hbefore; assumption. }
  rewrite E1. simpl.
  destruct (entry_written X de om Hok HX Hde Hom Hfit) as (-> & -> & _).
  rewrite Hn. destruct (n =? 0) eqn:E0; [lia|].
  rewrite Hname. reflexivity.
Qed.

End Dirlookup.

Section DirFind.
Context `{Params}.

(** dirlookup on a directory without holes reads the blocks one after the
    other and leaves the state alone until it calls iget. *)
Lemma dirlookup_loop_eq (dp : nat) (name : list Z) (s : state) (fuel : nat) :
  params_ok ->
  let i := iget_slot s dp in
  no_holes s i -> i_size i <= MAXFILE * BSIZE ->
  forall j, 0 <= j -> (1 <= fuel)%nat ->
    i_size i - j * BSIZE <= (Z.of_nat fuel - 1) * BSIZE ->
    dirlookup_loop fuel dp name (j * BSIZE) s
    = match dir_find fuel s i name j with
      | Some (o, inum) =>
          (ip <- iget (i_dev i) inum ;; ret (Some (ip, o))) s
      | None => Ok None s
      end.
Proof.
  intros Hok i Hnh Hsz. pose proof (BSIZE_pos Hok) as Hbs.
  pose proof (MAXFILE_bytes Hok) as Hmb. pose proof (MAXFILE_sum Hok) as Hms.
  induction fuel as [|fuel IH]; intros j Hj Hf1 Hfuel; [lia|].
  simpl. unfold bind at 1. unfold rd at 1. fold i.
  destruct (j * BSIZE <? i_size i) eqn:E; [|reflexivity].
  assert (Hbn : 0 <= j < NDIRECT + NINDIRECT) by nia.
  assert (Hmapped : block_addr s i j <> 0) by (apply Hnh; lia).
  unfold bind at 1. unfold rd at 1. fold i. unfold bind at 1.
  rewrite Z.div_mul by lia.
  rewrite (bmap_mapped dp j s Hok Hbn Hmapped). fold i.
  unfold bind at 1. unfold bread at 1.
  change (block s (i_dev i) (block_addr s i j)) with (dir_block s i j).
  destruct (dirlookup_block (dir_block s i j) name dirent_offsets)
    as [[o inum]|] eqn:Eb.
  - apply dirlookup_block_some in Eb. destruct Eb as (Hin & _).
    apply dirent_offsets_spec in Hin; [|exact Hok].
    pose proof (DIRSIZ_pos Hok). unfold dirent_size in Hin.
    assert (Hbs31 : BSIZE < 2 ^ 31) by nia.
    rewrite u32_small by lia. reflexivity.
  - unfold bind at 1. unfold brelse, ret at 1.
    rewrite u32_small by nia.
    replace (j * BSIZE + BSIZE) with ((j + 1) * BSIZE) by lia.
    apply IH; [lia|nia|nia].
Qed.

Lemma dirlookup_eq (dp : nat) (name : list Z) (s : state) :
  params_ok ->
  let i := iget_slot s dp in
  i_type i = T_DIR -> no_holes s i -> 0 <= i_size i <= MAXFILE * BSIZE ->
  dirlookup dp name s
  = match dir_find (S (Z.to_nat (i_size i / BSIZE + 1))) s i name 0 with
    | Some (o, inum) =>
        (ip <- iget (i_dev i) inum ;; ret (Some (ip, o))) s
    | None => Ok None s
    end.
Proof.
  intros Hok i Ht Hnh Hsz. pose proof (BSIZE_pos Hok) as Hbs.
  unfold dirlookup. unfold bind at 1. unfold rd at 1. unfold id. fold i.
  rewrite Ht, Z.eqb_refl. simpl negb. cbv iota.
  pose proof (dirlookup_loop_eq dp name s (S (Z.to_nat (i_size i / BSIZE + 1)))
                Hok Hnh (proj2 Hsz) 0) as Heq.
  rewrite Z.mul_0_l in Heq. apply Heq; [lia|lia|].
  assert (Hne : BSIZE <> 0) by lia.
  pose proof (Z.div_mod (i_size i) BSIZE Hne).
  pose proof (Z.mod_pos_bound (i_size i) BSIZE Hbs).
  pose proof (Z.div_pos (i_size i) BSIZE (proj1 Hsz) Hbs).
  fold i.
  replace (Z.of_nat (S (Z.to_nat (i_size i / BSIZE + 1))) - 1)
    with (i_size i / BSIZE + 1) by lia.
  nia.
Qed.

Lemma dir_find_none (s : state) (i : inode) (name : list Z) (fuel : nat) :
  ~ has_entry s i name ->
  forall j, 0 <= j -> dir_find fuel s i name j = None.
Proof.
  intros Hno. induction fuel as [|fuel IH]; intros j Hj; [reflexivity|].
  simpl. destruct (j * BSIZE <? i_size i) eqn:E; [|reflexivity].
  assert (Hb : dirlookup_block (dir_block s i j) name dirent_offsets = None).
  { apply dirlookup_block_none. intros o Ho.
    destruct (Z.eq_dec (get_u16 (dir_block s i j) o) 0) as [E0|E0];
      [left; exact E0|right].
    intros Hc. apply Hno. exists j, o. repeat split; auto; lia. }
  rewrite Hb. apply IH. lia.
Qed.

Lemma block_none_of_no_entry (s : state) (i : inode) (name : list Z) (k : Z) :
  ~ has_entry s i name -> 0 <= k -> k * BSIZE < i_size i ->
  dirlookup_block (dir_block s i k) name dirent_offsets = None.
Proof.
  intros Hno Hk Hlt. apply dirlookup_block_none. intros o Ho.
  destruct (Z.eq_dec (get_u16 (dir_block s i k) o) 0) as [E0|E0];
    [left; exact E0|right].
  intros Hc. apply Hno. exists k, o. repeat split; auto.
Qed.

Lemma dir_find_some (s : state) (i : inode) (name : list Z) (k : Z) :
  0 < BSIZE -> 0 <= k -> k * BSIZE < i_size i ->
  dirlookup_block (dir_block s i k) name dirent_offsets <> None ->
  forall fuel j, 0 <= j <= k -> k - j < Z.of_nat fuel ->
    dir_find fuel s i name j <> None.
Proof.
  intros Hbs Hk Hlt Hb. induction fuel as [|fuel IH]; intros j Hj Hf; [lia|].
  simpl. destruct (j * BSIZE <? i_size i) eqn:E; [|nia].
  destruct (dirlookup_block (dir_block s i j) name dirent_offsets)
    as [[o inum]|] eqn:Eb; [discriminate|].
  assert (j <> k) by (intros ->; contradiction).
  apply IH; lia.
Qed.

Lemma dir_find_of_entry (s : state) (i : inode) (name : list Z) :
  0 < BSIZE -> has_entry s i name ->
  dir_find (S (Z.to_nat (i_size i / BSIZE + 1))) s i name 0 <> None.
Proof.
  intros Hbs (k & o & Hk & Hlt & Ho & Hn & Hc).
  apply (dir_find_some s i name k Hbs Hk Hlt); [| lia |].
  - intros Hb. pose proof (proj1 (dirlookup_block_none _ _ _) Hb o Ho) as [?|?];
      contradiction.
  - assert (k <= i_size i / BSIZE) by (apply Z.div_le_lower_bound; lia). lia.
Qed.

(** The search finds the entry of block [k] at offset [om] when the blocks
    before [k] hold no match. *)
Lemma dir_find_hit (s : state) (i : inode) (name : list Z) (k om n : Z) :
  0 < BSIZE -> 0 <= k -> k * BSIZE < i_size i ->
  (forall j, 0 <= j < k ->
     dirlookup_block (dir_block s i j) name dirent_offsets = None) ->
  dirlookup_block (dir_block s i k) name dirent_offsets = Some (om, n) ->
  forall fuel j, 0 <= j <= k -> k - j < Z.of_nat fuel ->
    dir_find fuel s i name j = Some (k * BSIZE + om, n).
Proof.
  intros Hbs Hk Hlt Hbefore Hb. induction fuel as [|fuel IH]; intros j Hj Hf; [lia|].
  simpl. destruct (j * BSIZE <? i_size i) eqn:E; [|nia].
  destruct (Z.eq_dec j k) as [->|Hne].
  - rewrite Hb. reflexivity.
  - rewrite Hbefore by lia. apply IH; lia.
Qed.

End DirFind.
(** ** Directories: dirlink *)

Section DirlinkScan.
Context `{Params}.

Lemma readi_entry (dp : nat) (de : list Z) (off : Z) (s : state) :
  params_ok ->
  let i := iget_slot s dp in
  i_type i <> T_DEV -> 0 <= i_size i <= MAXFILE * BSIZE -> no_holes s i ->
  0 <= off -> off + dirent_size <= i_size i ->
  length de = Z.to_nat dirent_size ->
  readi dp de off dirent_size s = Ok (dirent_size, dirent_at s i off) s.
Proof.
  intros Hok i Ht Hsz Hnh Hoff Hend Hde.
  pose proof (DIRSIZ_pos Hok) as Hd. pose proof (MAXFILE_bytes Hok) as Hmb.
  assert (Hds : 0 < dirent_size) by (unfold dirent_size; lia).
  assert (H1 : 0 <= off < 2 ^ 32) by lia.
  assert (H2 : 0 <= dirent_size < 2 ^ 32) by lia.
  assert (H3 : dirent_size <= Z.of_nat (length de)) by lia.
  destruct (readi_cases dp de off dirent_size s Hok Ht H1 H2 Hsz Hnh H3)
    as [_ Hr].
  assert (Hno : ~ (off > i_size (iget_slot s dp) \/ 2 ^ 32 <= off + dirent_size))
    by (fold i; lia).
  destruct (Hr Hno) as [_ Heq]. fold i in Heq.
  rewrite Z.min_l in Heq by lia. rewrite Heq.
  rewrite drop_ge by lia. rewrite app_nil_r. reflexivity.
Qed.

Lemma multiple_step (a b d : Z) :
  0 < d -> a mod d = 0 -> b mod d = 0 -> a < b -> a + d <= b.
Proof.
  intros Hd Ha Hb Hlt.
  apply Z.mod_divide in Ha; [|lia]. apply Z.mod_divide in Hb; [|lia].
  destruct Ha as [x ->]. destruct Hb as [y ->].
  assert (x < y) by nia. nia.
Qed.

Lemma link_offset_le (s : state) (i : inode) (o : Z) :
  link_offset s i o -> 0 <= o <= i_size i.
Proof.
  intros (Ho & _ & _ & [(Hr & _)| ->]); lia.
Qed.

(** The scan of dirlink stops at the first free slot, or at the end. *)
Lemma dirlink_scan_eq (dp : nat) (s : state) (o : Z) :
  params_ok ->
  let i := iget_slot s dp in
  i_type i <> T_DEV -> 0 <= i_size i <= MAXFILE * BSIZE -> no_holes s i ->
  i_size i mod dirent_size = 0 -> link_offset s i o ->
  forall fuel de off,
    length de = Z.to_nat dirent_size -> 0 <= off <= o ->
    off mod dirent_size = 0 -> (1 <= fuel)%nat ->
    i_size i - off <= (Z.of_nat fuel - 1) * dirent_size ->
    exists de', dirlink_scan fuel dp de off s = Ok (o, de') s /\
                length de' = Z.to_nat dirent_size.
Proof.
  intros Hok i Ht Hsz Hnh Hsm Hlo.
  pose proof (DIRSIZ_pos Hok) as Hd. pose proof (MAXFILE_bytes Hok) as Hmb.
  assert (Hds : 0 < dirent_size) by (unfold dirent_size; lia).
  pose proof (link_offset_le s i o Hlo) as Hole.
  destruct Hlo as (Ho0 & Hom & Hfirst & Hlast).
  induction fuel as [|fuel IH]; intros de off Hde Hoff Hoffm Hf1 Hfuel; [lia|].
  simpl. unfold bind at 1. unfold rd at 1. fold i.
  rewrite u32_small by lia.
  destruct (off <? i_size i) eqn:E.
  - apply Z.ltb_lt in E.
    pose proof (multiple_step off (i_size i) dirent_size Hds Hoffm Hsm E) as Hfit.
    unfold bind at 1.
    rewrite (readi_entry dp de off s Hok Ht Hsz Hnh (proj1 Hoff) Hfit Hde).
    fold i. cbn [fst snd]. rewrite Z.eqb_refl. simpl negb. cbv iota.
    destruct (get_u16 (dirent_at s i off) 0 =? 0) eqn:E0.
    + apply Z.eqb_eq in E0.
      assert (Hfree : free_slot s i off) by (unfold free_slot, dirent_inum; auto with lia).
      assert (off = o).
      { destruct (Z.eq_dec off o) as [e|ne]; [exact e|].
        exfalso. apply (Hfirst off); [lia|exact Hfree]. }
      subst off. eexists. split; [reflexivity|].
      unfold dirent_at. rewrite length_file_bytes. reflexivity.
    + apply Z.eqb_neq in E0.
      assert (Hlt : off < o).
      { destruct (Z.eq_dec off o) as [e|ne]; [|lia]. exfalso. subst off.
        destruct Hlast as [(_ & _ & Hz)|Hz]; [|lia].
        unfold dirent_inum in Hz. contradiction. }
      pose proof (multiple_step off o dirent_size Hds Hoffm Hom Hlt) as Hnext.
      apply IH.
      * unfold dirent_at. rewrite length_file_bytes. reflexivity.
      * lia.
      * rewrite <- Zplus_mod_idemp_l, Hoffm. simpl. apply Z_mod_same_full.
      * nia.
      * nia.
  - apply Z.ltb_ge in E. assert (off = o) by lia. subst off.
    unfold ret. eexists. split; [reflexivity|exact Hde].
Qed.

End DirlinkScan.

Section DirlinkWrite.
Context `{Params}.

(** bmap on block [k] of a well-formed file, [k] at most its number of
    blocks: the block is there, or it is the next one and gets allocated. *)
Lemma bmap_entry (ip : nat) (k : Z) (s : state) :
  params_ok -> (ip < length (icache s))%nat ->
  let i := iget_slot s ip in
  file_wf s i -> alloc_wf s (i_dev i) ->
  0 <= k < MAXFILE -> k * BSIZE <= i_size i ->
  wpx alloc_panic (bmap ip k) (bmap_entry_post ip k s) s.
Proof.
  intros Hok Hip i Hwf Hal Hk Hle.
  pose proof (BSIZE_pos Hok) as Hbs. pose proof (MAXFILE_sum Hok) as Hms.
  destruct (Z.lt_ge_cases (k * BSIZE) (i_size i)) as [Hlt|Hge].
  - assert (Hm : block_addr s i k <> 0) by (apply (fw_mapped _ _ Hwf); lia).
    eapply wpx_eq; [apply bmap_mapped; [exact Hok|lia|exact Hm]|].
    fold i. unfold bmap_entry_post. fold i.
    destruct (fw_data _ _ Hwf k (proj1 Hk) Hlt) as (Hu & Hb & Hib & Hind).
    split; [exact Hip|]. do 4 (split; [reflexivity|]).
    split; [exact Hm|]. split; [exact Hib|]. split; [exact Hind|].
    split; [intros Hi0; apply (fw_ind _ _ Hwf Hi0)|].
    split; [reflexivity|]. split; [|reflexivity].
    intros j Hj Hjk Hjs.
    destruct (fw_data _ _ Hwf j Hj Hjs) as (Hu' & Hnb' & Hib' & Hni').
    split; [reflexivity|].
    split; [intros Heq; apply Hjk; apply (fw_inj _ _ Hwf j k); auto with lia|].
    split; [exact Hni'|]. split; [exact Hib'|reflexivity].
  - assert (Hz : block_addr s i k = 0).
    { destruct (Z.eq_dec (block_addr s i k) 0) as [e|ne]; [exact e|].
      apply (fw_mapped _ _ Hwf) in ne; lia. }
    eapply wpx_mono.
    { apply bmap_fresh; try assumption.
      - apply (fw_addrs _ _ Hwf).
      - intros Hi0. destruct (fw_ind _ _ Hwf Hi0) as (? & ? & ?). auto. }
    intros a s1. unfold bmap_fresh_post, bmap_entry_post. fold i.
    intros (Ha0 & Hfree & Hia & (addrs1 & Hic) & Htr & Hcwd & Hind & Hbk & Hoth & Hfr).
    assert (Hi1 : iget_slot s1 ip = with_addrs addrs1 i).
    { unfold iget_slot at 1. rewrite Hic.
      rewrite list_lookup_insert_eq by exact Hip. reflexivity. }
    rewrite Hi1 in *. cbn [i_dev i_inum i_type i_size with_addrs] in *.
    destruct (fw_iblock _ _ Hwf) as (Hibu & Hibb).
    assert (Hi1ib : addr_at addrs1 NDIRECT <> 0 ->
                    addr_at addrs1 NDIRECT <> IBLOCK (i_inum i)).
    { intros Hn0. destruct Hind as [Hsame|(_ & Hf & _)].
      - cbn [i_addrs with_addrs] in Hsame. rewrite Hsame.
        apply (fw_ind _ _ Hwf). rewrite <- Hsame. exact Hn0.
      - cbn [i_addrs with_addrs] in Hf. intros Heq. rewrite Heq in Hf.
        congruence. }
    split; [rewrite Hic, length_insert; exact Hip|].
    do 4 (split; [reflexivity|]).
    split; [exact Ha0|].
    split; [intros Heq; rewrite Heq in Hfree; congruence|].
    split; [intros Heq; apply Hia; symmetry; exact Heq|].
    split; [exact Hi1ib|]. split; [exact Hbk|]. split; [|lia].
    intros j Hj Hjk Hjs.
    destruct (fw_data _ _ Hwf j Hj Hjs) as (Hu' & Hnb' & Hib' & Hni').
    assert (Hji : block_addr s i j <> addr_at addrs1 NDIRECT).
    { destruct Hind as [Hsame|(_ & Hf & _)]; cbn [i_addrs with_addrs] in *.
      - rewrite Hsame. exact Hni'.
      - intros Heq. rewrite Heq in Hu'. congruence. }
    split; [apply Hoth; [nia|exact Hjk]|].
    split; [intros Heq; rewrite Heq in Hu'; congruence|].
    split; [exact Hji|]. split; [exact Hib'|].
    apply Hfr; [exact Hu'|exact Hnb'|exact Hji].
Qed.

Lemma entry_post_intro (dp : nat) (o : Z) (de : list Z) (s s1 s' : state)
    (a : Z) :
  params_ok ->
  let i := iget_slot s dp in
  let i1 := iget_slot s1 dp in
  let i' := iget_slot s' dp in
  file_wf s i -> 0 <= o <= i_size i -> o mod BSIZE + dirent_size <= BSIZE ->
  bmap_entry_post dp (o / BSIZE) s a s1 ->
  (dp < length (icache s'))%nat ->
  i_addrs i' = i_addrs i1 -> i_dev i' = i_dev i -> i_type i' = i_type i ->
  i_size i' = Z.max (i_size i) (o + dirent_size) ->
  (forall x, x <> a -> x <> IBLOCK (i_inum i) ->
     block s' (i_dev i) x = block s1 (i_dev i) x) ->
  block s' (i_dev i) a = buf_write (block s1 (i_dev i) a) (o mod BSIZE) de ->
  entry_post dp o de s s'.
Proof.
  intros Hok i i1 i' Hwf Ho Hfit Hpost Hl' Haddrs Hdev' Htype' Hsize' Hblocks Hwrite.
  pose proof (BSIZE_pos Hok) as Hbs. pose proof (DIRSIZ_pos Hok) as Hd.
  assert (Hds : 0 < dirent_size) by (unfold dirent_size; lia).
  unfold bmap_entry_post in Hpost. fold i i1 in Hpost.
  destruct Hpost as (Hl1 & Hdev1 & Hinum1 & Htype1 & Hsize1 & Ha0 & Haib & Haind
                     & Hindib & Hbk & Hoth & Hsame).
  set (k := o / BSIZE) in *.
  assert (Hne : BSIZE <> 0) by lia.
  pose proof (Z.div_mod o BSIZE Hne) as Hdm. fold k in Hdm.
  pose proof (Z.mod_pos_bound o BSIZE Hbs) as Hmod.
  assert (Hk0 : 0 <= k) by (apply Z.div_pos; lia).
  assert (Hba : forall j, block_addr s' i' j = block_addr s1 i1 j).
  { intros j. unfold block_addr. rewrite Haddrs, Hdev', Hdev1.
    destruct (j <? NDIRECT); [reflexivity|].
    destruct (addr_at (i_addrs i1) NDIRECT =? 0) eqn:E0; [reflexivity|].
    apply Z.eqb_neq in E0.
    rewrite Hblocks; [reflexivity| |apply Hindib; exact E0].
    intros Heq. apply Haind. symmetry. exact Heq. }
  assert (Hbelow : forall j, 0 <= j -> j <> k ->
            j * BSIZE < Z.max (i_size i) (o + dirent_size) ->
            j * BSIZE < i_size i).
  { intros j Hj Hjk Hlt.
    destruct (Z.lt_ge_cases (j * BSIZE) (i_size i)) as [|Hge]; [assumption|].
    assert (j < k + 1) by nia. assert (j < k) by lia. nia. }
  unfold entry_post. fold i i'. fold k.
  split; [exact Hl'|]. split; [exact Htype'|]. split; [exact Hdev'|].
  split; [exact Hsize'|]. split; [|split].
  - intros j Hj Hlt. rewrite Hba. rewrite Hsize' in Hlt.
    destruct (Z.eq_dec j k) as [->|Hjk]; [rewrite Hbk; exact Ha0|].
    pose proof (Hbelow j Hj Hjk Hlt) as Hjs.
    destruct (Hoth j Hj Hjk Hjs) as (E & _). rewrite E.
    apply (fw_mapped _ _ Hwf); [|exact Hjs].
    pose proof (fw_size _ _ Hwf). nia.
  - intros j Hj Hjk Hjs. unfold dir_block. rewrite Hdev', Hba.
    destruct (Hoth j Hj Hjk Hjs) as (E & Hna & Hnind & Hnib & Hblk).
    rewrite E. rewrite Hblocks by assumption. exact Hblk.
  - exists (block s1 (i_dev i) a).
    split; [apply length_block|]. split.
    + unfold dir_block. rewrite Hdev', Hba, Hbk. exact Hwrite.
    + intros Hlt. pose proof (Hsame Hlt) as Es. unfold dir_block.
      rewrite <- Hbk. unfold i1. rewrite Es. reflexivity.
Qed.

(** writei of one directory entry at an entry offset at most the size. *)
Lemma writei_entry (dp : nat) (de : list Z) (o : Z) (s : state) :
  params_ok -> (dp < length (icache s))%nat ->
  let i := iget_slot s dp in
  i_type i <> T_DEV -> file_wf s i -> alloc_wf s (i_dev i) ->
  0 <= o <= i_size i -> o mod dirent_size = 0 ->
  o + dirent_size <= MAXFILE * BSIZE ->
  length de = Z.to_nat dirent_size ->
  wpx alloc_panic (writei dp de o dirent_size)
    (fun r s' => r = dirent_size /\ entry_post dp o de s s') s.
Proof.
  intros Hok Hlt i Ht Hwf Hal Ho Hom Hmax Hde.
  pose proof (BSIZE_pos Hok) as Hbs. pose proof (DIRSIZ_pos Hok) as Hd.
  pose proof (MAXFILE_bytes Hok) as Hmb.
  assert (Hds : 0 < dirent_size) by (unfold dirent_size; lia).
  assert (Hne : BSIZE <> 0) by lia.
  pose proof (Z.div_mod o BSIZE Hne) as Hdm.
  pose proof (Z.mod_pos_bound o BSIZE Hbs) as Hmod.
  set (k := o / BSIZE) in *. set (om := o mod BSIZE) in *.
  assert (Hk0 : 0 <= k) by (apply Z.div_pos; lia).
  assert (Hfit : om + dirent_size <= BSIZE).
  { apply multiple_step; [exact Hds| |apply (dirent_divides Hok)|lia].
    pose proof (dirent_divides Hok) as Hdv.
    apply Z.mod_divide in Hdv; [|lia]. destruct Hdv as [q Hq].
    apply Z.mod_divide in Hom; [|lia]. destruct Hom as [x Hx].
    apply Z.mod_divide; [lia|]. exists (x - k * q). nia. }
  assert (Hkm : 0 <= k < MAXFILE) by nia.
  assert (Hkle : k * BSIZE <= i_size i) by lia.
  unfold writei. wstep. unfold id. fold i.
  destruct (i_type i =? T_DEV) eqn:E; [lia|].
  rewrite (u32_small (o + dirent_size)) by lia.
  assert (Hc : (o >? i_size i) || (o + dirent_size <? o) = false)
    by (apply orb_false_iff; lia).
  rewrite Hc. rewrite (u32_small (MAXFILE * BSIZE)) by lia.
  assert (Hc2 : (o + dirent_size >? MAXFILE * BSIZE) = false) by lia.
  rewrite Hc2.
  assert (Hbs31 : BSIZE < 2 ^ 31) by nia.
  assert (Efuel : exists fuel, Z.to_nat dirent_size = S fuel)
    by (exists (Z.to_nat dirent_size - 1)%nat; lia).
  destruct Efuel as [fuel Efuel].
  apply wpx_bind. cbn [writei_loop].
  assert (Hc3 : (0 <? dirent_size) = true) by lia. rewrite Hc3.
  wstep. apply wpx_bind. fold k. eapply wpx_mono.
  { apply (bmap_entry dp k s Hok Hlt Hwf Hal Hkm Hkle). }
  intros a s1 Hpost. cbv beta.
  pose proof Hpost as Hpost'. unfold bmap_entry_post in Hpost'. fold i in Hpost'.
  destruct Hpost' as (Hl1 & Hdev1 & Hinum1 & Htype1 & Hsize1 & _ & Haib & _).
  fold om. fold i.
  rewrite (u32_small (dirent_size - 0)) by lia.
  rewrite (u32_small (BSIZE - om)) by lia.
  rewrite Z.min_l by lia.
  replace (dirent_size - 0) with dirent_size by lia.
  rewrite sub_bytes_all by lia.
  rewrite (u32_small (0 + dirent_size)), (u32_small (o + dirent_size)) by lia.
  rewrite Z.add_0_l. rewrite Efuel. cbn [writei_loop]. rewrite Z.ltb_irrefl.
  wsteps.
  set (D := buf_write (block s1 (i_dev i) a) om de).
  assert (HD : length D = Z.to_nat BSIZE).
  { unfold D. rewrite length_buf_write; [apply length_block|lia|].
    rewrite length_block. lia. }
  set (s2 := set_disk (<[(i_dev i, a) := D]> (disk s1)) s1).
  wend. wstep.
  change (iget_slot s2 dp) with (iget_slot s1 dp). rewrite Hsize1.
  rewrite s32_small by lia.
  assert (Hb2 : forall x, x <> a -> block s2 (i_dev i) x = block s1 (i_dev i) x).
  { intros x Hx. unfold s2. rewrite block_set_disk.
    apply block_of_insert_ne. intros [= Heq]. apply Hx. symmetry. exact Heq. }
  assert (Hb2a : block s2 (i_dev i) a = D)
    by (apply block_after_bwrite; exact HD).
  destruct ((dirent_size >? 0) && (o + dirent_size >? i_size i)) eqn:Ec.
  - apply andb_true_iff in Ec. destruct Ec as [_ Ec].
    wstep. wstep.
    change (iget_slot s2 dp) with (iget_slot s1 dp).
    set (i2 := with_size (o + dirent_size) (iget_slot s1 dp)).
    set (s3 := set_slot dp i2 s2).
    assert (Hi3 : iget_slot s3 dp = i2) by (apply iget_slot_set_slot; exact Hl1).
    apply wpx_bind. eapply wpx_eq; [apply iupdate_eq|].
    unfold iupdate_state. rewrite Hi3. wend.
    split; [reflexivity|].
    set (s4 := set_disk _ _).
    assert (Hi4 : iget_slot s4 dp = i2) by exact Hi3.
    apply (entry_post_intro dp o de s s1 s4 a Hok Hwf Ho Hfit Hpost).
    + unfold s4, s3. autorewrite with st. rewrite length_insert. exact Hl1.
    + rewrite Hi4. reflexivity.
    + rewrite Hi4. exact Hdev1.
    + rewrite Hi4. exact Htype1.
    + rewrite Hi4. unfold i2. simpl i_size. fold i. apply Z.gtb_lt in Ec. lia.
    + intros x Hxa Hxib. unfold s4. rewrite block_set_disk.
      rewrite block_of_insert_ne.
      * change (block_of (disk (add_event _ s3)) (i_dev i) x)
          with (block s2 (i_dev i) x).
        apply Hb2. exact Hxa.
      * unfold i2. cbn [i_dev i_inum with_size]. rewrite Hinum1.
        intros [= _ Heq]. apply Hxib. symmetry. exact Heq.
    + unfold s4. rewrite block_set_disk.
      rewrite block_of_insert_ne.
      * change (block_of (disk (add_event _ s3)) (i_dev i) a)
          with (block s2 (i_dev i) a).
        exact Hb2a.
      * unfold i2. cbn [i_dev i_inum with_size]. rewrite Hinum1.
        intros [= _ Heq]. apply Haib. symmetry. exact Heq.
  - apply andb_false_iff in Ec. destruct Ec as [Ec|Ec]; [lia|].
    wstep. wend. split; [reflexivity|].
    apply (entry_post_intro dp o de s s1 s2 a Hok Hwf Ho Hfit Hpost).
    + exact Hl1.
    + reflexivity.
    + exact Hdev1.
    + exact Htype1.
    + change (iget_slot s2 dp) with (iget_slot s1 dp). fold i. lia.
    + intros x Hxa _. apply Hb2. exact Hxa.
    + exact Hb2a.
Qed.

End DirlinkWrite.

Section Dirlink.
Context `{Params}.

(** An entry offset leaves room for the entry in its block. *)
Lemma entry_in_block (o : Z) :
  params_ok -> 0 <= o -> o mod dirent_size = 0 ->
  In (o mod BSIZE) dirent_offsets.
Proof.
  intros Hok Ho Hom. pose proof (BSIZE_pos Hok) as Hbs.
  pose proof (DIRSIZ_pos Hok) as Hd.
  assert (Hds : 0 < dirent_size) by (unfold dirent_size; lia).
  assert (Hne : BSIZE <> 0) by lia.
  pose proof (Z.div_mod o BSIZE Hne) as Hdm.
  pose proof (Z.mod_pos_bound o BSIZE Hbs) as Hmod.
  assert (Hmm : (o mod BSIZE) mod dirent_size = 0).
  { pose proof (dirent_divides Hok) as Hdv.
    apply Z.mod_divide in Hdv; [|lia]. destruct Hdv as [q Hq].
    apply Z.mod_divide in Hom; [|lia]. destruct Hom as [x Hx].
    apply Z.mod_divide; [lia|]. exists (x - o / BSIZE * q). nia. }
  apply dirent_offsets_spec; [exact Hok|].
  split; [lia|]. split; [exact Hmm|].
  apply multiple_step; [exact Hds|exact Hmm|apply (dirent_divides Hok)|lia].
Qed.

(** iget followed by iput of the same inode leaves the disk alone. *)
Lemma iget_iput (dev inum : Z) (s : state) :
  wpx iget_panic (ip <- iget dev inum ;; iput ip)
    (fun _ s' => disk s' = disk s) s.
Proof.
  apply wpx_bind. eapply wpx_mono; [apply iget_spec|].
  intros ip s1 (Hlt & Hd & _ & _ & _ & _ & Hcase). cbv beta.
  assert (Hnl : ~ last_ref_unlinked (iget_slot s1 ip)).
  { apply not_last_ref.
    destruct Hcase as [(Hr & Hc)|(Hr & Hc)];
      rewrite (iget_slot_insert _ _ _ _ Hc Hlt); simpl.
    - left. lia.
    - right. apply Z.land_0_l. }
  eapply wpx_eq; [apply iput_plain_eq; exact Hnl|].
  autorewrite with st. exact Hd.
Qed.

Lemma dirlink_exists (dp : nat) (name : list Z) (n : Z) (s : state) :
  params_ok ->
  let i := iget_slot s dp in
  i_type i = T_DIR -> file_wf s i -> has_entry s i name ->
  wpx iget_panic (dirlink dp name n)
    (fun r s' => r = -1 /\ disk s' = disk s) s.
Proof.
  intros Hok i Ht Hwf Hhas. pose proof (BSIZE_pos Hok) as Hbs.
  assert (Hnh : no_holes s i).
  { intros j Hj Hlt. apply (fw_mapped _ _ Hwf); [|exact Hlt].
    pose proof (fw_size _ _ Hwf). nia. }
  pose proof (dir_find_of_entry s i name Hbs Hhas) as Hfind.
  unfold dirlink. apply wpx_bind.
  pose proof (dirlookup_eq dp name s Hok Ht Hnh (fw_size _ _ Hwf)) as Heq.
  fold i in Heq.
  destruct (dir_find (S (Z.to_nat (i_size i / BSIZE + 1))) s i name 0)
    as [[o inum]|]; [|contradiction].
  eapply wpx_change; [exact Heq|].
  apply wpx_bind.
  pose proof (iget_iput (i_dev i) inum s) as Hgp.
  unfold wpx in Hgp |- *. unfold bind in Hgp |- *.
  destruct (iget (i_dev i) inum s) as [ip s1|msg s1|ch s1|]; try exact Hgp.
  unfold ret at 1. cbv beta iota.
  destruct (iput ip s1) as [u s2|msg s2|ch s2|]; try exact Hgp.
  unfold ret. split; [reflexivity|exact Hgp].
Qed.

Lemma dirlink_fresh (dp : nat) (name : list Z) (n o : Z) (s : state) :
  params_ok -> (dp < length (icache s))%nat ->
  let i := iget_slot s dp in
  i_type i = T_DIR -> file_wf s i -> alloc_wf s (i_dev i) ->
  i_size i mod dirent_size = 0 -> 1 <= n < 2 ^ 16 ->
  ~ has_entry s i name -> link_offset s i o ->
  o + dirent_size <= MAXFILE * BSIZE ->
  wpx alloc_panic (dirlink dp name n)
    (fun r s' =>
       let i' := iget_slot s' dp in
       r = 0 /\
       dirent_inum (dirent_at s' i' o) = n /\
       dirent_name (dirent_at s' i' o) = strncpy name (Z.to_nat DIRSIZ) /\
       i_size i' = Z.max (i_size i) (o + dirent_size) /\
       (forall o', 0 <= o' < i_size i -> o' mod dirent_size = 0 -> o' <> o ->
          dirent_at s' i' o' = dirent_at s i o') /\
       wpx iget_panic (dirlookup dp name)
         (fun r2 s'' => exists ip, r2 = Some (ip, o) /\
            i_dev (iget_slot s'' ip) = i_dev i /\
            i_inum (iget_slot s'' ip) = n) s') s.
Proof.
  intros Hok Hlt i Ht Hwf Hal Hsm Hn Hno Hlo Hmax.
  pose proof (BSIZE_pos Hok) as Hbs. pose proof (DIRSIZ_pos Hok) as Hd.
  pose proof (MAXFILE_bytes Hok) as Hmb. pose proof (fw_size _ _ Hwf) as Hsz.
  assert (Hds : 0 < dirent_size) by (unfold dirent_size; lia).
  assert (Htd : i_type i <> T_DEV)
    by (rewrite Ht; apply (T_DIR_not_T_DEV Hok)).
  assert (Hnh : no_holes s i).
  { intros j Hj Hjl. apply (fw_mapped _ _ Hwf); [|exact Hjl]. nia. }
  pose proof (link_offset_le s i o Hlo) as Hole.
  assert (Hom : o mod dirent_size = 0) by (destruct Hlo as (_ & Hm & _); exact Hm).
  pose proof (entry_in_block o Hok (proj1 Hole) Hom) as Hin.
  pose proof (proj1 (dirent_offsets_spec _ Hok) Hin) as (Hom0 & _ & Hfit).
  assert (Hne : BSIZE <> 0) by lia.
  pose proof (Z.div_mod o BSIZE Hne) as Hdm.
  pose proof (Z.mod_pos_bound o BSIZE Hbs) as Hmod.
  assert (Hk0 : 0 <= o / BSIZE) by (apply Z.div_pos; lia).
  unfold dirlink. apply wpx_bind.
  eapply wpx_eq.
  { rewrite (dirlookup_eq dp name s Hok Ht Hnh Hsz). fold i.
    rewrite (dir_find_none s i name _ Hno 0) by lia. reflexivity. }
  cbv beta iota. wstep. fold i.
  destruct (dirlink_scan_eq dp s o Hok Htd Hsz Hnh Hsm Hlo
              (S (Z.to_nat (i_size i / dirent_size + 1)))
              (replicate (Z.to_nat dirent_size) 0) 0) as (de0 & Hscan & Hde0).
  { apply length_replicate. }
  { lia. }
  { apply Z.mod_0_l. lia. }
  { lia. }
  { assert (Hne2 : dirent_size <> 0) by lia.
    pose proof (Z.div_mod (i_size i) dirent_size Hne2) as Hdm2.
    pose proof (Z.mod_pos_bound (i_size i) dirent_size Hds).
    assert (0 <= i_size i / dirent_size) by (apply Z.div_pos; lia).
    replace (Z.of_nat (S (Z.to_nat (i_size i / dirent_size + 1))) - 1)
      with (i_size i / dirent_size + 1) by lia.
    fold i. nia. }
  apply wpx_bind. eapply wpx_eq; [exact Hscan|]. cbn [fst snd].
  rewrite u32_small by lia.
  set (de := put_u16 (buf_write de0 2 (strncpy name (Z.to_nat DIRSIZ))) 0 n).
  assert (Hde : length de = Z.to_nat dirent_size)
    by (apply new_entry_length; assumption).
  assert (Hinum : get_u16 de 0 = n)
    by (apply new_entry_inum; [assumption..|lia]).
  assert (Hname : sub_bytes de 2 DIRSIZ = strncpy name (Z.to_nat DIRSIZ))
    by (apply new_entry_name; assumption).
  apply wpx_bind. eapply wpx_mono.
  { apply (writei_entry dp de o s Hok Hlt Htd Hwf Hal Hole Hom Hmax Hde). }
  intros r s' (-> & Hpost). cbv beta. rewrite Z.eqb_refl. simpl negb. cbv iota.
  wend. unfold entry_post in Hpost. fold i in Hpost.
  destruct Hpost as (Hl' & Ht' & Hdev' & Hsz' & Hnh' & Hoth & X & HX & Hblk & Hold).
  set (i' := iget_slot s' dp) in *.
  assert (Hat : dirent_at s' i' o = de).
  { unfold dirent_at. rewrite file_bytes_chunk by lia.
    change (block s' (i_dev i') (block_addr s' i' (o / BSIZE)))
      with (dir_block s' i' (o / BSIZE)).
    rewrite Hblk.
    apply (entry_written X de (o mod BSIZE) Hok HX Hde Hom0 Hfit). }
  split; [reflexivity|].
  split; [rewrite Hat; exact Hinum|].
  split; [unfold dirent_name; rewrite Hat; exact Hname|].
  split; [exact Hsz'|]. split.
  - intros o' Ho' Hom' Hne'.
    pose proof (entry_in_block o' Hok (proj1 Ho') Hom') as Hin'.
    pose proof (proj1 (dirent_offsets_spec _ Hok) Hin') as (Hom0' & Hmm' & Hfit').
    pose proof (Z.div_mod o' BSIZE Hne) as Hdm'.
    pose proof (Z.mod_pos_bound o' BSIZE Hbs) as Hmod'.
    assert (Hk0' : 0 <= o' / BSIZE) by (apply Z.div_pos; lia).
    unfold dirent_at. rewrite !file_bytes_chunk by lia.
    change (block s' (i_dev i') (block_addr s' i' (o' / BSIZE)))
      with (dir_block s' i' (o' / BSIZE)).
    change (block s (i_dev i) (block_addr s i (o' / BSIZE)))
      with (dir_block s i (o' / BSIZE)).
    destruct (Z.eq_dec (o' / BSIZE) (o / BSIZE)) as [Ek|Ek].
    + rewrite Ek in *. rewrite Hblk, Hold by nia.
      pose proof (proj1 (dirent_offsets_spec _ Hok) Hin) as (_ & Hmm & _).
      assert (Hdis : o' mod BSIZE + dirent_size <= o mod BSIZE \/
                     o mod BSIZE + dirent_size <= o' mod BSIZE).
      { destruct (Z.lt_ge_cases (o' mod BSIZE) (o mod BSIZE)) as [Hl|Hg].
        - left. apply multiple_step; assumption.
        - right. apply multiple_step; try assumption. lia. }
      apply (entry_frame (dir_block s i (o / BSIZE)) de (o mod BSIZE)
               (o' mod BSIZE) Hok); try assumption.
      apply length_block.
    + rewrite Hoth; [reflexivity|lia|exact Ek|nia].
  - assert (Hsz2 : 0 <= i_size i' <= MAXFILE * BSIZE) by lia.
    assert (Ht2 : i_type i' = T_DIR) by (rewrite Ht'; exact Ht).
    pose proof (dirlookup_eq dp name s' Hok Ht2 Hnh' Hsz2) as Heq.
    fold i' in Heq.
    assert (Hkl : o / BSIZE * BSIZE < i_size i') by lia.
    assert (Hfind : dir_find (S (Z.to_nat (i_size i' / BSIZE + 1))) s' i' name 0
                    = Some (o, n)).
    { rewrite (dir_find_hit s' i' name (o / BSIZE) (o mod BSIZE) n Hbs Hk0 Hkl).
      - do 2 f_equal. lia.
      - intros j Hj.
        assert (Hjs : j * BSIZE < i_size i) by nia.
        rewrite Hoth by lia.
        apply block_none_of_no_entry; [exact Hno|lia|exact Hjs].
      - rewrite Hblk.
        apply (dirlookup_block_written X de name (o mod BSIZE) n Hok HX Hde Hin
                 Hinum); [lia|rewrite Hname; apply strncmp_strncpy|].
        intros o1 Ho1 Hbefore.
        assert (Hkk : o / BSIZE * BSIZE < i_size i).
        { pose proof (proj1 (dirent_offsets_spec _ Hok) Ho1) as (? & _ & _).
          lia. }
        rewrite (Hold Hkk).
        pose proof (block_none_of_no_entry s i name (o / BSIZE) Hno Hk0 Hkk)
          as Hnone.
        apply (proj1 (dirlookup_block_none _ _ _) Hnone o1 Ho1).
      - lia.
      - assert (o / BSIZE <= i_size i' / BSIZE)
          by (apply Z.div_le_lower_bound; lia).
        lia. }
    rewrite Hfind in Heq. eapply wpx_change; [exact Heq|].
    apply wpx_bind. eapply wpx_mono; [apply iget_spec|].
    intros ip s2 (_ & _ & _ & _ & Hdv & Hin2 & _). cbv beta. wend.
    exists ip. split; [reflexivity|]. split; [rewrite Hdv; exact Hdev'|exact Hin2].
Qed.


End Dirlink.

(** ** Concrete runs on the sample image *)

Ltac concrete :=
  vm_compute; repeat split; try reflexivity; try discriminate; try lia;
  try (intros ?; discriminate).

Lemma sample_root_no_holes :
  no_holes (H := xv6) sample_state (iget_slot sample_state 0).
Proof.
  intros bn H0 Hlt.
  change (i_size (iget_slot sample_state 0)) with 48 in Hlt.
  change (@BSIZE xv6) with 512 in Hlt.
  assert (bn = 0) by lia. subst bn. vm_compute. discriminate.
Qed.

Lemma writei_result_witness :
  exists s',
    writei (H := xv6) 0 (replicate 600 1) 40 600 sample_state = Ok 600 s' /\
    i_size (iget_slot s' 0) = 640 /\
    i_size (disk_inode (H := xv6) s' 1 1) = 640.
Proof.
  destruct (writei_result (H := xv6) 0 (replicate 600 1) 40 600 sample_state
              xv6_ok) as [_ Hw]; [concrete..|].
  destruct Hw as (_ & _ & Hwp); [vm_compute; intros [Hx|Hx]; [discriminate|apply Hx; reflexivity]|].
  set (s' := match writei (H := xv6) 0 (replicate 600 1) 40 600 sample_state with
             | Ok _ s => s
             | _ => sample_state
             end).
  assert (Heq : writei (H := xv6) 0 (replicate 600 1) 40 600 sample_state
                = Ok 600 s') by (vm_compute; reflexivity).
  destruct (wpx_ok _ _ _ _ _ _ Heq Hwp) as (_ & Hpost).
  exists s'. split; [exact Heq|].
  destruct Hpost as (H1 & H2 & _); [concrete..|].
  split; [exact H1|exact H2].
Defined.

Lemma writei_within_size_witness :
  exists s',
    writei (H := xv6) 0 (replicate 16 1) 16 16 sample_state = Ok 16 s' /\
    i_size (iget_slot s' 0) = 48 /\ trace s' = [].
Proof.
  pose proof (writei_within_size (H := xv6) 0 (replicate 16 1) 16 16
                sample_state xv6_ok) as Hwp.
  cbv zeta in Hwp.
  set (s' := match writei (H := xv6) 0 (replicate 16 1) 16 16 sample_state with
             | Ok _ s => s
             | _ => sample_state
             end).
  assert (Heq : writei (H := xv6) 0 (replicate 16 1) 16 16 sample_state
                = Ok 16 s') by (vm_compute; reflexivity).
  destruct (wpx_ok _ _ _ _ _ _ Heq (Hwp ltac:(concrete) ltac:(concrete)
              ltac:(concrete) ltac:(concrete) ltac:(concrete) ltac:(concrete)))
    as (_ & Hin & _).
  exists s'. split; [exact Heq|]. apply Hin. left. concrete.
Defined.

Lemma readi_result_witness :
  readi (H := xv6) 0 (replicate 20 7) 40 20 sample_state
  = Ok (8, file_bytes (H := xv6) sample_state (iget_slot sample_state 0) 40 8
           ++ replicate 12 7) sample_state.
Proof.
  destruct (readi_result (H := xv6) 0 (replicate 20 7) 40 20 sample_state
              xv6_ok) as [_ Hr]; [concrete..|exact sample_root_no_holes|concrete|].
  destruct Hr as (_ & Hr); [vm_compute; intros [Hx|Hx]; [discriminate|apply Hx; reflexivity]|].
  exact Hr.
Defined.

Lemma namex_no_result_witness :
  (exists r s', namex (H := xv6) (bytes_of_string "/f/x") false
                  (replicate 14 0) sample_state = Ok r s' /\ fst r = None) /\
  (exists s', nameiparent (H := xv6) (bytes_of_string "//") (replicate 14 0)
                sample_state = Ok (None, replicate 14 0) s').
Proof.
  set (q := bytes_of_string "/f"). set (rest := bytes_of_string "x").
  set (nm := replicate 14 0).
  set (r1 := namex (H := xv6) q false nm sample_state).
  set (s1 := match r1 with Ok _ s => s | _ => sample_state end).
  set (nm1 := match r1 with Ok (_, n) _ => n | _ => [] end).
  set (s2 := match ilock (H := xv6) 2 s1 with Ok _ s => s | _ => sample_state end).
  destruct (namex_no_result (H := xv6) q rest (bytes_of_string "//") nm false
              sample_state s1 s2 2 nm1 xv6_ok) as [H1 H2].
  split.
  - destruct H1 as (_ & Hwp).
    + unfold nonul. vm_compute. repeat constructor; discriminate.
    + vm_compute. discriminate.
    + vm_compute. discriminate.
    + vm_compute. reflexivity.
    + vm_compute. reflexivity.
    + vm_compute. discriminate.
    + change (q ++ slash :: rest) with (bytes_of_string "/f/x") in Hwp.
      unfold wpx in Hwp.
      destruct (namex (H := xv6) (bytes_of_string "/f/x") false nm sample_state)
        as [r s'| | |] eqn:E.
      * exists r, s'. split; [reflexivity|exact Hwp].
      * vm_compute in E. discriminate.
      * contradiction.
      * contradiction.
  - assert (Hwp := H2 ltac:(vm_compute; intros Hx; apply Hx; reflexivity)
                      ltac:(vm_compute; intros Hx; destruct Hx; reflexivity)).
    unfold wpx in Hwp.
    destruct (nameiparent (H := xv6) (bytes_of_string "//") nm sample_state)
      as [r s'| | |] eqn:E.
    + destruct Hwp as (-> & _). exists s'. reflexivity.
    + vm_compute in E. discriminate.
    + contradiction.
    + contradiction.
Defined.
(** ** The sample image is well formed *)

Lemma sample_alloc_wf : alloc_wf (H := xv6) sample_state 1.
Proof.
  split; [vm_compute; discriminate|]. split; [vm_compute; discriminate|].
  split; [vm_compute; reflexivity|].
  split; [exact (proj2 (proj2 sample_meta_in_use))|].
  intros x Hx.
  destruct (Z.eq_dec x 1) as [->|H1]; [vm_compute in Hx; discriminate|].
  destruct (Z.eq_dec x 2) as [->|H2]; [vm_compute in Hx; discriminate|].
  destruct (Z.eq_dec x 5) as [->|H5]; [vm_compute in Hx; discriminate|].
  destruct (Z.eq_dec x 6) as [->|H6]; [vm_compute in Hx; discriminate|].
  destruct (Z.eq_dec x 7) as [->|H7]; [vm_compute in Hx; discriminate|].
  unfold block, block_of, sample_state, sample_disk. simpl disk.
  simpl list_to_map.
  rewrite !lookup_insert_ne by congruence. rewrite lookup_empty.
  vm_compute. reflexivity.
Qed.

Lemma sample_root_addr (k : Z) :
  0 <= k ->
  block_addr (H := xv6) sample_state (iget_slot sample_state 0) k
  = if k =? 0 then 6 else 0.
Proof.
  intros Hk. unfold block_addr.
  change (@NDIRECT xv6) with 12.
  change (i_addrs (iget_slot sample_state 0)) with (6 :: replicate 12 0).
  destruct (k <? 12) eqn:E.
  - destruct (k =? 0) eqn:E0.
    + apply Z.eqb_eq in E0. subst k. reflexivity.
    + unfold addr_at. destruct (Z.to_nat k) as [|m] eqn:Em; [lia|].
      change (default 0 (replicate 12 0 !! m) = 0).
      destruct (replicate 12 0 !! m) as [z|] eqn:El; [|reflexivity].
      apply lookup_replicate in El. destruct El as [-> _]. reflexivity.
  - destruct (k =? 0) eqn:E0; [lia|]. reflexivity.
Qed.

Lemma sample_not_bitmap (x : Z) :
  x <> 5 -> ~ is_bitmap_block (H := xv6) sample_state 1 x.
Proof.
  intros Hx (b' & Hb' & ->).
  change (sb_size (sb_of (H := xv6) sample_state 1)) with 64 in Hb'.
  change (sb_ninodes (sb_of (H := xv6) sample_state 1)) with 16 in Hx.
  unfold BBLOCK in Hx. change (@BPB xv6) with 4096 in Hx.
  change (@IPB xv6) with 8 in Hx.
  rewrite Z.div_small in Hx by lia. apply Hx. reflexivity.
Qed.

Lemma sample_root_wf :
  file_wf (H := xv6) sample_state (iget_slot sample_state 0).
Proof.
  constructor.
  - reflexivity.
  - vm_compute. split; discriminate.
  - intros k Hk. rewrite sample_root_addr by lia.
    change (i_size (iget_slot sample_state 0)) with 48.
    change (@BSIZE xv6) with 512.
    destruct (k =? 0) eqn:E0; split; intros; lia.
  - intros j k Hj Hk Hjs Hks _.
    change (i_size (iget_slot sample_state 0)) with 48 in *.
    change (@BSIZE xv6) with 512 in *. lia.
  - intros k Hk Hks.
    change (i_size (iget_slot sample_state 0)) with 48 in *.
    change (@BSIZE xv6) with 512 in *.
    assert (k = 0) by lia. subst k. rewrite sample_root_addr by lia. simpl.
    split; [vm_compute; reflexivity|].
    split; [apply sample_not_bitmap; lia|].
    split; vm_compute; discriminate.
  - intros Hne. exfalso. apply Hne. reflexivity.
  - split; [vm_compute; reflexivity|].
    apply sample_not_bitmap. vm_compute. discriminate.
Qed.

Lemma sample_no_entry_g :
  ~ has_entry (H := xv6) sample_state (iget_slot sample_state 0)
      (bytes_of_string "g").
Proof.
  intros (k & o & Hk & Hlt & Ho & Hn & Hc).
  change (i_size (iget_slot sample_state 0)) with 48 in Hlt.
  change (@BSIZE xv6) with 512 in Hlt.
  assert (k = 0) by lia. subst k.
  assert (Hnone : dirlookup_block (H := xv6)
                    (dir_block (H := xv6) sample_state (iget_slot sample_state 0) 0)
                    (bytes_of_string "g") (dirent_offsets (H := xv6)) = None)
    by (vm_compute; reflexivity).
  destruct (proj1 (dirlookup_block_none _ _ _) Hnone o Ho); contradiction.
Qed.

Lemma sample_link_offset :
  link_offset (H := xv6) sample_state (iget_slot sample_state 0) 48.
Proof.
  split; [lia|]. split; [reflexivity|]. split; [|right; reflexivity].
  intros o' Ho' (_ & Hm & Hz).
  unfold dirent_size in Hm. change (2 + @DIRSIZ xv6) with 16 in Hm.
  change (i_size (iget_slot sample_state 0)) with 48 in Ho'.
  apply Z.mod_divide in Hm; [|lia]. destruct Hm as [q Hq].
  assert (Hc : o' = 0 \/ o' = 16 \/ o' = 32) by lia.
  destruct Hc as [->|[->| ->]]; vm_compute in Hz; discriminate.
Qed.

(** ** dirlookup on a well-formed directory *)

Section DirlookupResult.
Context `{Params}.

Lemma dirent_offsets_before (om : Z) :
  params_ok -> In om dirent_offsets ->
  exists l1 l2, dirent_offsets = l1 ++ om :: l2 /\
    forall o, In o dirent_offsets -> o < om -> In o l1.
Proof.
  intros Hok Hin. pose proof (DIRSIZ_pos Hok) as Hd.
  assert (Hds : 0 < dirent_size) by (unfold dirent_size; lia).
  pose proof Hin as Hin2. unfold dirent_offsets in Hin2.
  apply in_map_iff in Hin2. destruct Hin2 as (k & <- & Hk).
  apply list_elem_of_In, elem_of_seqZ in Hk.
  exists (map (fun k => k * dirent_size) (seqZ 0 k)).
  exists (map (fun k => k * dirent_size)
            (seqZ (k + 1) ((BSIZE + dirent_size - 1) / dirent_size - k - 1))).
  split.
  - unfold dirent_offsets.
    set (q := (BSIZE + dirent_size - 1) / dirent_size) in *.
    replace (seqZ 0 q) with (seqZ 0 (k + (q - k))) by (f_equal; lia).
    rewrite seqZ_app by lia. rewrite map_app.
    rewrite (seqZ_cons (0 + k)) by lia. simpl.
    replace (Z.succ (0 + k)) with (k + 1) by lia.
    replace (Z.pred (q - k)) with (q - k - 1) by lia.
    replace (0 + k) with k by lia. reflexivity.
  - intros o Ho Hlt. unfold dirent_offsets in Ho.
    apply in_map_iff in Ho. destruct Ho as (j & <- & Hj).
    apply list_elem_of_In, elem_of_seqZ in Hj.
    apply in_map_iff. exists j. split; [reflexivity|].
    apply list_elem_of_In, elem_of_seqZ. nia.
Qed.

(** The search of one block returns the first match of the block. *)
Lemma dirlookup_block_first (D name : list Z) (o n : Z) :
  params_ok ->
  dirlookup_block D name dirent_offsets = Some (o, n) ->
  forall o', In o' dirent_offsets -> get_u16 D o' <> 0 ->
    namecmp name (sub_bytes D (o' + 2) DIRSIZ) = 0 -> o <= o'.
Proof.
  intros Hok Hs o' Ho' Hn Hc.
  destruct (dirlookup_block_some _ _ _ _ _ Hs) as (Hin & _).
  destruct (dirent_offsets_before o Hok Hin) as (l1 & l2 & Hsplit & Hbefore).
  destruct (Z.le_gt_cases o o') as [|Hlt]; [assumption|exfalso].
  pose proof (Hbefore o' Ho' ltac:(lia)) as Hl1.
  rewrite Hsplit, dirlookup_block_app in Hs.
  destruct (dirlookup_block D name l1) as [[o1 n1]|] eqn:E1.
  - injection Hs as -> ->.
    destruct (dirlookup_block_some _ _ _ _ _ E1) as (Hin1 & _).
    assert (Hnd : NoDup dirent_offsets).
    { unfold dirent_offsets. apply NoDup_fmap_2_strong; [|apply NoDup_seqZ].
      intros x y _ _ Hxy. pose proof (DIRSIZ_pos Hok).
      unfold dirent_size in Hxy. nia. }
    rewrite Hsplit in Hnd. apply NoDup_app in Hnd.
    destruct Hnd as (_ & Hdis & _).
    apply (Hdis o); [apply list_elem_of_In; exact Hin1|left].
  - pose proof (proj1 (dirlookup_block_none _ _ _) E1 o' Hl1) as [?|?];
      contradiction.
Qed.

(** The search over the blocks returns the first match. *)
Lemma dir_find_first (s : state) (i : inode) (name : list Z) :
  params_ok ->
  forall fuel j off inum, 0 <= j ->
    dir_find fuel s i name j = Some (off, inum) ->
    exists k o, off = k * BSIZE + o /\ j <= k /\ entry_match s i name k o /\
      inum = get_u16 (dir_block s i k) o /\
      forall k' o', j <= k' -> entry_match s i name k' o' ->
                    k * BSIZE + o <= k' * BSIZE + o'.
Proof.
  intros Hok. pose proof (BSIZE_pos Hok) as Hbs. pose proof (DIRSIZ_pos Hok) as Hd.
  induction fuel as [|fuel IH]; intros j off inum Hj; [discriminate|].
  simpl. destruct (j * BSIZE <? i_size i) eqn:E; [|discriminate].
  apply Z.ltb_lt in E.
  destruct (dirlookup_block (dir_block s i j) name dirent_offsets)
    as [[o n]|] eqn:Eb.
  - intros [= <- <-].
    destruct (dirlookup_block_some _ _ _ _ _ Eb) as (Hin & Hn & Hn0 & Hc).
    exists j, o. split; [reflexivity|]. split; [lia|].
    split; [unfold entry_match; rewrite <- Hn; auto|].
    split; [exact Hn|].
    intros k' o' Hk' (_ & _ & Ho' & Hn' & Hc').
    pose proof (proj1 (dirent_offsets_spec o Hok) Hin) as (Ho0 & _ & Hofit).
    pose proof (proj1 (dirent_offsets_spec o' Hok) Ho') as (Ho0' & _ & Hofit').
    unfold dirent_size in *.
    destruct (Z.eq_dec k' j) as [->|Hne].
    + pose proof (dirlookup_block_first _ _ _ _ Hok Eb o' Ho' Hn' Hc'). lia.
    + nia.
  - intros Hf. destruct (IH (j + 1) off inum ltac:(lia) Hf)
      as (k & o & -> & Hk & Hm & Hi & Hfirst).
    exists k, o. split; [reflexivity|]. split; [lia|]. split; [exact Hm|].
    split; [exact Hi|].
    intros k' o' Hk' Hm'. destruct (Z.eq_dec k' j) as [->|Hne].
    + exfalso. destruct Hm' as (_ & _ & Ho' & Hn' & Hc').
      pose proof (proj1 (dirlookup_block_none _ _ _) Eb o' Ho') as [?|?];
        contradiction.
    + apply Hfirst; [lia|exact Hm'].
Qed.

(** X2.  dirlookup on a directory without holes (of size at most the largest
    file size): when no entry in use has the name, it returns 0 and leaves
    the state as it is; when one has, it returns, through iget, the inode
    whose number the first such entry holds, on the device of the directory,
    together with the byte offset of that entry, and the disk is untouched.
    The only fatal halt is iget's, when the inode cache is full. *)
Theorem dirlookup_result (dp : nat) (name : list Z) (s : state) :
  params_ok ->
  let i := iget_slot s dp in
  i_type i = T_DIR -> no_holes s i -> 0 <= i_size i <= MAXFILE * BSIZE ->
  (~ has_entry s i name -> dirlookup dp name s = Ok None s) /\
  (has_entry s i name ->
     wpx iget_panic (dirlookup dp name)
       (fun r s' => exists ip k o,
          r = Some (ip, k * BSIZE + o) /\ entry_match s i name k o /\
          (forall k' o', entry_match s i name k' o' ->
                         k * BSIZE + o <= k' * BSIZE + o') /\
          i_dev (iget_slot s' ip) = i_dev i /\
          i_inum (iget_slot s' ip) = get_u16 (dir_block s i k) o /\
          disk s' = disk s) s).
Proof.
  intros Hok i Ht Hnh Hsz. pose proof (BSIZE_pos Hok) as Hbs.
  pose proof (dirlookup_eq dp name s Hok Ht Hnh Hsz) as Heq. fold i in Heq.
  split.
  - intros Hno. rewrite Heq.
    rewrite (dir_find_none s i name _ Hno 0) by lia. reflexivity.
  - intros Hhas. pose proof (dir_find_of_entry s i name Hbs Hhas) as Hfind.
    destruct (dir_find (S (Z.to_nat (i_size i / BSIZE + 1))) s i name 0)
      as [[off inum]|] eqn:Ef; [|contradiction].
    destruct (dir_find_first s i name Hok _ 0 off inum ltac:(lia) Ef)
      as (k & o & -> & Hk & Hm & Hi & Hfirst).
    eapply wpx_change; [exact Heq|].
    apply wpx_bind. eapply wpx_mono; [apply iget_spec|].
    intros ip s1 (_ & Hd & _ & _ & Hdv & Hin & _). cbv beta. wend.
    exists ip, k, o. split; [reflexivity|]. split; [exact Hm|].
    split.
    + intros k' o' Hm'. apply Hfirst; [|exact Hm'].
      destruct Hm' as (Hk' & _). exact Hk'.
    + split; [exact Hdv|]. split; [rewrite Hin; exact Hi|exact Hd].
Qed.

End DirlookupResult.

Lemma dirlookup_result_witness :
  (dirlookup (H := xv6) 0 (bytes_of_string "g") sample_state
   = Ok None sample_state) /\
  (exists ip s', dirlookup (H := xv6) 0 (bytes_of_string "f") sample_state
                 = Ok (Some (ip, 32)) s' /\ i_inum (iget_slot s' ip) = 2).
Proof.
  destruct (dirlookup_result (H := xv6) 0 (bytes_of_string "g") sample_state
              xv6_ok) as [Hnone _];
    [reflexivity|exact sample_root_no_holes|vm_compute; split; discriminate|].
  split; [exact (Hnone sample_no_entry_g)|].
  set (r := dirlookup (H := xv6) 0 (bytes_of_string "f") sample_state).
  assert (Hr : exists ip s', r = Ok (Some (ip, 32)) s' /\
                             i_inum (iget_slot s' ip) = 2).
  { vm_compute. eexists _, _. split; reflexivity. }
  exact Hr.
Defined.
(** ** balloc and bfree *)

Section BallocResult.
Context `{Params}.

Lemma balloc_scan_full (data : list Z) (l : list Z) :
  Forall (fun j => bit_set_in data j = true) l -> balloc_scan data l = None.
Proof.
  induction l as [|j l IH]; intros Hall; [reflexivity|].
  inversion Hall as [|? ? Hj Hl]; subst. simpl.
  unfold bit_set_in in Hj. apply negb_true_iff in Hj. rewrite Hj.
  apply IH. exact Hl.
Qed.

Lemma balloc_loop_full (dev : Z) (sb : superblock) (s : state) :
  0 < BPB ->
  (forall x, 0 <= x -> x / BPB * BPB < sb_size sb ->
     bit_set_in (block s dev (BBLOCK x (sb_ninodes sb))) (x mod BPB) = true) ->
  forall fuel b0, 0 <= b0 -> b0 mod BPB = 0 -> (1 <= fuel)%nat ->
    sb_size sb - b0 <= (Z.of_nat fuel - 1) * BPB ->
    balloc_loop fuel dev sb b0 s = Panic "balloc: out of blocks" s.
Proof.
  intros Hbpb Hfull. induction fuel as [|fuel IH]; intros b0 Hb0 Hmod Hf1 Hfuel;
    [lia|].
  rewrite balloc_loop_S. cbv zeta.
  destruct (b0 <? sb_size sb) eqn:E; [|reflexivity].
  apply Z.ltb_lt in E.
  assert (Hdiv : b0 / BPB * BPB = b0).
  { apply Z.mod_divide in Hmod; [|lia]. destruct Hmod as [q ->].
    rewrite Z.div_mul by lia. reflexivity. }
  rewrite balloc_scan_full.
  - apply IH; [lia| |lia|nia].
    rewrite <- (Z.mul_1_l BPB) at 1. rewrite Z.mod_add by lia. exact Hmod.
  - apply Forall_seqZ. intros j Hj.
    assert (Hxr : b0 <= b0 + j < b0 + BPB) by lia.
    destruct (same_bitmap_block BPB b0 (b0 + j) Hbpb Hmod Hxr) as [Hxd Hxm].
    specialize (Hfull (b0 + j) ltac:(lia)).
    rewrite Hxd, Hdiv in Hfull. specialize (Hfull E).
    unfold BBLOCK in Hfull |- *. rewrite Hxd in Hfull.
    replace ((b0 + j) mod BPB) with j in Hfull; [exact Hfull|].
    rewrite Hxm. lia.
Qed.

(** X3.  balloc (the superblock giving a number of inodes that is not
    negative and a size within the range of the C types: size plus BPB at
    most 2^31, so that the int [b] of the loop does not wrap, and the sector
    numbers of the bitmap within 32 bits): it either halts with "balloc: out of blocks" or returns a block
    whose bit was clear, with that bit now set, every block that was in use
    still in use, nothing changed on the disk but one bitmap block, and the
    inode cache untouched.  When every bit of the bitmap blocks it scans is
    set, it halts with "balloc: out of blocks" and changes nothing. *)
Theorem balloc_result (dev : Z) (s : state) :
  params_ok -> 0 <= sb_ninodes (sb_of s dev) ->
  sb_size (sb_of s dev) + BPB <= 2 ^ 31 ->
  BBLOCK (sb_size (sb_of s dev)) (sb_ninodes (sb_of s dev)) < 2 ^ 32 ->
  wpx alloc_panic (balloc dev) (balloc_post dev s) s /\
  ((forall x, 0 <= x -> x / BPB * BPB < sb_size (sb_of s dev) ->
      bit_in_use s dev x = true) ->
   balloc dev s = Panic "balloc: out of blocks" s).
Proof.
  intros Hok Hnin Hint Hsec. pose proof (BPB_pos Hok) as Hbpb.
  split; [apply balloc_wp; assumption|].
  intros Hfull. rewrite balloc_eq.
  set (sz := sb_size (sb_of s dev)).
  apply balloc_loop_full; [exact Hbpb|exact Hfull|lia| |lia|].
  - apply Z.mod_0_l. lia.
  - destruct (Z.le_gt_cases 0 (sz / BPB + 1)) as [Hq|Hq].
    + replace (Z.of_nat (S (Z.to_nat (sz / BPB + 1))) - 1)
        with (sz / BPB + 1) by lia.
      pose proof (Z.mul_succ_div_gt sz BPB Hbpb). lia.
    + replace (Z.of_nat (S (Z.to_nat (sz / BPB + 1))) - 1) with 0 by lia.
      assert (sz < 0); [|lia].
      destruct (Z.lt_ge_cases sz 0) as [|Hge]; [assumption|].
      pose proof (Z.div_pos sz BPB Hge Hbpb). lia.
Qed.

End BallocResult.

Lemma balloc_result_witness :
  exists s', balloc (H := xv6) 1 sample_state = Ok 9 s' /\
             bit_in_use (H := xv6) sample_state 1 9 = false /\
             bit_in_use (H := xv6) s' 1 9 = true /\
             icache s' = icache sample_state.
Proof.
  destruct (balloc_result (H := xv6) 1 sample_state xv6_ok) as [Hwp _];
    [vm_compute; discriminate|vm_compute; discriminate
    |vm_compute; reflexivity|].
  set (s' := match balloc (H := xv6) 1 sample_state with
             | Ok _ s => s
             | _ => sample_state
             end).
  assert (Heq : balloc (H := xv6) 1 sample_state = Ok 9 s')
    by (vm_compute; reflexivity).
  destruct (wpx_ok _ _ _ _ _ _ Heq Hwp) as (_ & Hf & Hu & _ & _ & _ & Hc & _).
  exists s'. auto.
Defined.
(** ** bfree *)

Lemma land_bit_testbit (x k : Z) :
  0 <= k -> (Z.land x (Z.shiftl 1 k) =? 0) = negb (Z.testbit x k).
Proof.
  intros Hk. rewrite Z.shiftl_1_l.
  destruct (Z.testbit x k) eqn:E; simpl.
  - apply Z.eqb_neq. intros H0.
    assert (Hb : Z.testbit (Z.land x (2 ^ k)) k = false)
      by (rewrite H0; apply Z.bits_0).
    rewrite Z.land_spec, E, Z.pow2_bits_true in Hb by exact Hk. discriminate.
  - apply Z.eqb_eq. apply Z.bits_inj'. intros n Hn.
    rewrite Z.land_spec, Z.bits_0, Z.pow2_bits_eqb by exact Hk.
    destruct (Z.eqb_spec k n) as [->|_]; [rewrite E; reflexivity|].
    apply andb_false_r.
Qed.

Section BfreeResult.
Context `{Params}.

Lemma bit_set_in_testbit (data : list Z) (j : Z) :
  bit_set_in data j = Z.testbit (byte_at data (j / 8)) (j mod 8).
Proof.
  unfold bit_set_in. rewrite land_bit_testbit.
  - apply negb_involutive.
  - apply Z.mod_pos_bound. lia.
Qed.

(** Clearing the bit of [bi] in its byte clears that bit and no other. *)
Lemma bit_set_in_clear (data : list Z) (bi j : Z) :
  0 <= bi -> 0 <= j -> bi / 8 < Z.of_nat (length data) ->
  bit_set_in
    (set_byte data (bi / 8)
       (Z.land (byte_at data (bi / 8)) (Z.lnot (Z.shiftl 1 (bi mod 8))))) j
  = if j =? bi then false else bit_set_in data j.
Proof.
  intros Hbi Hj Hl. rewrite !bit_set_in_testbit.
  assert (Hbi8 : 0 <= bi / 8) by (apply Z.div_pos; lia).
  assert (Hj8 : 0 <= j / 8) by (apply Z.div_pos; lia).
  pose proof (Z.mod_pos_bound bi 8 ltac:(lia)) as Hbm.
  pose proof (Z.mod_pos_bound j 8 ltac:(lia)) as Hjm.
  pose proof (Z.div_mod bi 8 ltac:(lia)) as Hbd.
  pose proof (Z.div_mod j 8 ltac:(lia)) as Hjd.
  destruct (Z.eq_dec (bi / 8) (j / 8)) as [He|Hne].
  - rewrite <- He. rewrite byte_at_set_byte_eq by lia.
    rewrite Z.land_spec, Z.lnot_spec, Z.shiftl_1_l, Z.pow2_bits_eqb by lia.
    destruct (Z.eqb_spec j bi) as [->|Hjb].
    + rewrite Z.eqb_refl. apply andb_false_r.
    + destruct (Z.eqb_spec (bi mod 8) (j mod 8)) as [Hm|_]; [lia|].
      apply andb_true_r.
  - rewrite byte_at_set_byte_ne by lia.
    destruct (Z.eqb_spec j bi) as [->|_]; [contradiction|reflexivity].
Qed.

(** A block in use is freed: bfree returns, with the bit cleared. *)
Lemma bfree_returns (dev b : Z) (s : state) :
  params_ok -> 0 <= sb_ninodes (sb_of s dev) -> 0 <= b -> b <> 1 ->
  b <> BBLOCK b (sb_ninodes (sb_of s dev)) ->
  bit_in_use s dev b = true ->
  exists s', bfree dev b s = Ok tt s' /\
    block s' dev b = replicate (Z.to_nat BSIZE) 0 /\
    bit_in_use s' dev b = false /\
    (forall x, 0 <= x -> x <> b ->
       BBLOCK x (sb_ninodes (sb_of s dev)) <> b ->
       bit_in_use s' dev x = bit_in_use s dev x) /\
    (forall x, x <> b -> x <> BBLOCK b (sb_ninodes (sb_of s dev)) ->
       block s' dev x = block s dev x) /\
    icache s' = icache s /\ trace s' = trace s /\ cwd s' = cwd s.
Proof.
  intros Hok Hnin Hb Hb1 Hbm Huse.
  set (sa := set_disk (<[(dev, b) := replicate (Z.to_nat BSIZE) 0]> (disk s)) s).
  pose proof (BPB_pos Hok) as Hbpb. pose proof (BPB_fits Hok) as Hfit.
  pose proof (BSIZE_pos Hok) as Hbs.
  set (n := sb_ninodes (sb_of s dev)) in *.
  assert (Hba : forall x, x <> b -> block sa dev x = block s dev x).
  { intros x Hx. unfold sa. rewrite block_set_disk.
    apply block_of_insert_ne. congruence. }
  assert (Hsb : sb_of sa dev = sb_of s dev).
  { unfold sb_of. rewrite Hba by congruence. reflexivity. }
  assert (Hbit : bit_in_use s dev b
                 = bit_set_in (block sa dev (BBLOCK b n)) (b mod BPB)).
  { unfold bit_in_use. fold n. rewrite Hba by congruence. reflexivity. }
  pose proof (bfree_eq dev b s) as Heq. cbv zeta in Heq. fold sa in Heq.
  rewrite Hsb in Heq. fold n in Heq.
  set (data := block sa dev (BBLOCK b n)) in *.
  set (bi := b mod BPB) in *.
  assert (Hbi : 0 <= bi < BPB) by (apply Z.mod_pos_bound; lia).
  assert (Hl : bi / 8 < Z.of_nat (length data)).
  { unfold data. rewrite length_block.
    apply Z.div_lt_upper_bound; lia. }
  unfold bit_set_in in Hbit.
  rewrite Huse in Hbit. symmetry in Hbit.
  apply negb_true_iff in Hbit. rewrite Hbit in Heq.
  eexists. split; [exact Heq|].
  set (data' := set_byte data (bi / 8) _).
  assert (Hl' : length data' = Z.to_nat BSIZE).
  { unfold data'. rewrite length_set_byte. apply length_block. }
  assert (Hsb' : forall x, x <> BBLOCK b n ->
            block (set_disk (<[(dev, BBLOCK b n) := data']> (disk sa)) sa) dev x
            = block sa dev x).
  { intros x Hx. rewrite block_set_disk. apply block_of_insert_ne. congruence. }
  split.
  { rewrite Hsb' by exact Hbm. unfold sa. apply block_after_bwrite.
    apply length_replicate. }
  assert (Hbm1 : BBLOCK b n <> 1).
  { unfold BBLOCK. pose proof (Z.div_pos b BPB Hb Hbpb).
    pose proof (Z.div_pos n IPB Hnin (IPB_pos Hok)). lia. }
  set (s' := set_disk (<[(dev, BBLOCK b n) := data']> (disk sa)) sa) in *.
  assert (Hsbf : sb_of s' dev = sb_of s dev).
  { unfold sb_of. rewrite Hsb' by congruence. rewrite Hba by congruence.
    reflexivity. }
  assert (Hbd : block s' dev (BBLOCK b n) = data')
    by (apply block_after_bwrite; exact Hl').
  split.
  { unfold bit_in_use. rewrite Hsbf. fold n. rewrite Hbd. fold bi.
    unfold data'. rewrite bit_set_in_clear by lia.
    rewrite Z.eqb_refl. reflexivity. }
  split.
  { intros x Hx Hxb Hxbm. unfold bit_in_use. rewrite Hsbf. fold n.
    destruct (Z.eq_dec (BBLOCK x n) (BBLOCK b n)) as [Ebb|Ebb].
    - rewrite Ebb, Hbd. unfold data'.
      rewrite bit_set_in_clear;
        [|lia|apply Z.mod_pos_bound; lia|exact Hl].
      assert (Hxm : x mod BPB <> bi).
      { unfold BBLOCK in Ebb. unfold bi.
        assert (Hbne : BPB <> 0) by lia.
        pose proof (Z.div_mod x BPB Hbne). pose proof (Z.div_mod b BPB Hbne).
        assert (x / BPB = b / BPB) by lia. intros Hm. apply Hxb. nia. }
      destruct (Z.eqb_spec (x mod BPB) bi) as [|_]; [contradiction|].
      unfold data. rewrite Hba by congruence. reflexivity.
    - rewrite Hsb' by exact Ebb. rewrite Hba by congruence. reflexivity. }
  split.
  { intros x Hxb Hxbm. rewrite Hsb' by exact Hxbm. apply Hba. exact Hxb. }
  split; [reflexivity|]. split; reflexivity.
Qed.

(** X4.  bfree of a block [b] that is neither the superblock nor its own
    bitmap block (the superblock giving a number of inodes that is not
    negative): the block is zeroed first; then, when its bit is clear, the
    call halts with "freeing free block" (the block stays zeroed); otherwise
    it returns with the bit cleared.  The bits of the other blocks whose
    bitmap block is not [b], the contents of every block other than [b] and
    that bitmap block, and the inode cache are as before. *)
Theorem bfree_result (dev b : Z) (s : state) :
  params_ok -> 0 <= sb_ninodes (sb_of s dev) -> 0 <= b -> b <> 1 ->
  b <> BBLOCK b (sb_ninodes (sb_of s dev)) ->
  let sa := set_disk (<[(dev, b) := replicate (Z.to_nat BSIZE) 0]> (disk s)) s in
  (bit_in_use s dev b = false ->
     bfree dev b s = Panic "freeing free block" sa) /\
  (bit_in_use s dev b = true ->
     exists s', bfree dev b s = Ok tt s' /\
       block s' dev b = replicate (Z.to_nat BSIZE) 0 /\
       bit_in_use s' dev b = false /\
       (forall x, 0 <= x -> x <> b ->
          BBLOCK x (sb_ninodes (sb_of s dev)) <> b ->
          bit_in_use s' dev x = bit_in_use s dev x) /\
       (forall x, x <> b -> x <> BBLOCK b (sb_ninodes (sb_of s dev)) ->
          block s' dev x = block s dev x) /\
       icache s' = icache s /\ trace s' = trace s /\ cwd s' = cwd s).
Proof.
  intros Hok Hnin Hb Hb1 Hbm sa.
  split; [|intros Huse; apply bfree_returns; assumption].
  pose proof (BPB_pos Hok) as Hbpb. pose proof (BPB_fits Hok) as Hfit.
  pose proof (BSIZE_pos Hok) as Hbs.
  set (n := sb_ninodes (sb_of s dev)) in *.
  assert (Hba : forall x, x <> b -> block sa dev x = block s dev x).
  { intros x Hx. unfold sa. rewrite block_set_disk.
    apply block_of_insert_ne. congruence. }
  assert (Hsb : sb_of sa dev = sb_of s dev).
  { unfold sb_of. rewrite Hba by congruence. reflexivity. }
  assert (Hbit : bit_in_use s dev b
                 = bit_set_in (block sa dev (BBLOCK b n)) (b mod BPB)).
  { unfold bit_in_use. fold n. rewrite Hba by congruence. reflexivity. }
  pose proof (bfree_eq dev b s) as Heq. cbv zeta in Heq. fold sa in Heq.
  rewrite Hsb in Heq. fold n in Heq.
  set (data := block sa dev (BBLOCK b n)) in *.
  set (bi := b mod BPB) in *.
  assert (Hbi : 0 <= bi < BPB) by (apply Z.mod_pos_bound; lia).
  assert (Hl : bi / 8 < Z.of_nat (length data)).
  { unfold data. rewrite length_block.
    apply Z.div_lt_upper_bound; lia. }
  unfold bit_set_in in Hbit.
  intros Hfree. rewrite Hfree in Hbit. symmetry in Hbit.
    apply negb_false_iff in Hbit. rewrite Hbit in Heq. exact Heq.
Qed.

End BfreeResult.

Lemma bfree_result_witness :
  bfree (H := xv6) 1 9 sample_state
  = Panic "freeing free block"
      (set_disk (<[(1, 9) := replicate 512 0]> (disk sample_state)) sample_state)
  /\ exists s', bfree (H := xv6) 1 8 sample_state = Ok tt s' /\
                bit_in_use (H := xv6) s' 1 8 = false /\
                bit_in_use (H := xv6) s' 1 7 = true.
Proof.
  split.
  - destruct (bfree_result (H := xv6) 1 9 sample_state xv6_ok) as [Hp _];
      [vm_compute; discriminate|lia|lia|vm_compute; discriminate|].
    apply Hp. vm_compute. reflexivity.
  - destruct (bfree_result (H := xv6) 1 8 sample_state xv6_ok) as [_ Hf];
      [vm_compute; discriminate|lia|lia|vm_compute; discriminate|].
    destruct Hf as (s' & Heq & _ & Hclr & Hoth & _); [vm_compute; reflexivity|].
    exists s'. split; [exact Heq|]. split; [exact Hclr|].
    rewrite Hoth; [vm_compute; reflexivity|lia|lia|vm_compute; discriminate].
Defined.
(** ** bmap *)

Section BmapResult.
Context `{Params}.


End BmapResult.

(** ** iget *)

Lemma iget_scan_first (dev inum : Z) (l : list inode) :
  forall (idx : nat) (e : option nat) (k : nat) (i : inode),
    l !! k = Some i -> caches dev inum i = true ->
    (forall j i', (j < k)%nat -> l !! j = Some i' -> caches dev inum i' = false) ->
    fst (iget_scan l idx dev inum e) = Some (idx + k)%nat.
Proof.
  induction l as [|x l IH]; intros idx e k i Hk Hc Hbefore; [discriminate|].
  simpl. destruct k as [|k].
  - injection Hk as ->. unfold caches in Hc. rewrite Hc. simpl.
    f_equal. lia.
  - pose proof (Hbefore 0%nat x ltac:(lia) eq_refl) as Hx.
    unfold caches in Hx. rewrite Hx.
    rewrite (IH (S idx) _ k i Hk Hc).
    + f_equal. lia.
    + intros j i' Hj Hl. apply (Hbefore (S j) i'); [lia|exact Hl].
Qed.

Lemma iget_scan_char (dev inum : Z) (l : list inode) :
  forall (idx : nat) (e : option nat),
    match iget_scan l idx dev inum e with
    | (Some ip, _) =>
        exists k i, ip = (idx + k)%nat /\ l !! k = Some i /\
          caches dev inum i = true /\
          forall j i', (j < k)%nat -> l !! j = Some i' ->
                       caches dev inum i' = false
    | (None, r) =>
        (forall i, i ∈ l -> caches dev inum i = false) /\
        match e with
        | Some x => r = Some x
        | None =>
            match r with
            | Some ip =>
                exists k i, ip = (idx + k)%nat /\ l !! k = Some i /\
                  i_ref i = 0 /\
                  forall j i', (j < k)%nat -> l !! j = Some i' -> i_ref i' <> 0
            | None => forall i, i ∈ l -> i_ref i <> 0
            end
        end
    end.
Proof.
  induction l as [|x l IH]; intros idx e; simpl.
  - split; [intros i Hi; inversion Hi|].
    destruct e; [reflexivity|]. intros i Hi. inversion Hi.
  - fold (caches dev inum x). destruct (caches dev inum x) eqn:Ec.
    + exists 0%nat, x. split; [lia|]. split; [reflexivity|].
      split; [exact Ec|]. intros j i' Hj. lia.
    + match goal with |- context [iget_scan l (S idx) dev inum ?e'] =>
        specialize (IH (S idx) e'); destruct (iget_scan l (S idx) dev inum e')
          as [[ip|] r] end.
      * destruct IH as (k & i & -> & Hk & Hc & Hb).
        exists (S k), i. split; [lia|]. split; [exact Hk|]. split; [exact Hc|].
        intros [|j] i' Hj Hl; [injection Hl as <-; exact Ec|].
        apply (Hb j i'); [lia|exact Hl].
      * destruct IH as (Hnone & IH). split.
        { intros i Hi. apply elem_of_cons in Hi.
          destruct Hi as [->|Hi]; [exact Ec|apply Hnone; exact Hi]. }
        destruct e as [x0|]; [exact IH|].
        destruct (i_ref x =? 0) eqn:Er.
        -- subst r. exists 0%nat, x. split; [lia|]. split; [reflexivity|].
           split; [lia|]. intros j i' Hj. lia.
        -- destruct r as [ip|].
           ++ destruct IH as (k & i & -> & Hk & Hr & Hb).
              exists (S k), i. split; [lia|]. split; [exact Hk|].
              split; [exact Hr|].
              intros [|j] i' Hj Hl; [injection Hl as <-; lia|].
              apply (Hb j i'); [lia|exact Hl].
           ++ intros i Hi. apply elem_of_cons in Hi.
              destruct Hi as [->|Hi]; [lia|apply IH; exact Hi].
Qed.

Section IgetResult.
Context `{Params}.

(** X6.  iget never touches the disk.  It halts with "iget: no inodes" only;
    it does so when no slot of the cache holds the inode and none has
    reference count 0.  Otherwise it returns a slot that now holds
    (dev, inum): the first slot that already held it with a positive
    reference count, the count incremented; or, when there is none, the
    first slot whose count is 0, with count 1 and the flags cleared.  A
    second iget of the same inode returns the same slot and increments the
    count again.  The reference counts of the cache are C ints that are at
    least two below the largest int, so that neither increment wraps. *)
Theorem iget_result (dev inum : Z) (s : state) :
  (forall jp, - 2 ^ 31 <= i_ref (iget_slot s jp) < 2 ^ 31 - 2) ->
  wpx iget_panic (iget dev inum)
    (fun ip s' =>
       (ip < length (icache s))%nat /\ disk s' = disk s /\
       i_dev (iget_slot s' ip) = dev /\ i_inum (iget_slot s' ip) = inum /\
       ((caches dev inum (iget_slot s ip) = true /\
         (forall jp, (jp < ip)%nat -> caches dev inum (iget_slot s jp) = false) /\
         icache s' = <[ip := with_ref (i_ref (iget_slot s ip) + 1)
                               (iget_slot s ip)]> (icache s)) \/
        ((forall i, i ∈ icache s -> caches dev inum i = false) /\
         i_ref (iget_slot s ip) = 0 /\
         (forall jp, (jp < ip)%nat -> i_ref (iget_slot s jp) <> 0) /\
         icache s' = <[ip := with_flags 0 (with_ref 1 (with_inum inum
                          (with_dev dev (iget_slot s ip))))]> (icache s))) /\
       exists s'', iget dev inum s' = Ok ip s'' /\
                   i_ref (iget_slot s'' ip) = i_ref (iget_slot s' ip) + 1) s /\
  ((forall i, i ∈ icache s -> caches dev inum i = false /\ i_ref i <> 0) ->
   iget dev inum s = Panic "iget: no inodes" (add_event EvAcquire s)).
Proof.
  intros Hint.
  assert (Hslot : forall (st : state) k i, icache st !! k = Some i ->
                    iget_slot st k = i).
  { intros st k i Hk. unfold iget_slot. rewrite Hk. reflexivity. }
  assert (Hbefore : forall (st : state) (P : inode -> Prop) k,
            (k < length (icache st))%nat ->
            (forall j i', (j < k)%nat -> icache st !! j = Some i' -> P i') ->
            forall jp, (jp < k)%nat -> P (iget_slot st jp)).
  { intros st P k Hk Hall jp Hjp.
    destruct (icache st !! jp) as [i'|] eqn:El.
    - rewrite (Hslot _ _ _ El). apply (Hall jp i' Hjp El).
    - apply lookup_ge_None in El. lia. }
  (* a second call finds the slot the first one left *)
  assert (Hagain : forall ip (y : inode) (c : list inode) (s' : state),
            (ip < length c)%nat -> icache s' = <[ip := y]> c ->
            caches dev inum y = true ->
            (forall j i', (j < ip)%nat -> c !! j = Some i' ->
                          caches dev inum i' = false) ->
            exists s'', iget dev inum s' = Ok ip s'' /\
                        i_ref (iget_slot s'' ip) = i_ref (iget_slot s' ip) + 1).
  { intros ip y c s' Hip Hc Hy Hb.
    assert (Hk : icache s' !! ip = Some y)
      by (rewrite Hc; apply list_lookup_insert_eq; exact Hip).
    assert (Hf : fst (iget_scan (icache s') 0 dev inum None) = Some ip).
    { rewrite (iget_scan_first dev inum _ 0 None ip y Hk Hy); [reflexivity|].
      intros j i' Hj Hl. rewrite Hc, list_lookup_insert_ne in Hl by lia.
      apply (Hb j i' Hj Hl). }
    unfold iget, bind, log, get_state, modify_inode, ret.
    change (icache (add_event EvAcquire s')) with (icache s').
    destruct (iget_scan (icache s') 0 dev inum None) as [[ip'|] r];
      simpl in Hf; [|discriminate].
    injection Hf as ->. eexists. split; [reflexivity|].
    autorewrite with st.
    rewrite iget_slot_set_slot
      by (autorewrite with st; rewrite Hc, length_insert; exact Hip).
    reflexivity. }
  split.
  - unfold iget. wstep. wstep.
    change (icache (add_event EvAcquire s)) with (icache s).
    pose proof (iget_scan_char dev inum (icache s) 0 None) as Hch.
    destruct (iget_scan (icache s) 0 dev inum None) as [[ip|] [ip'|]].
    + destruct Hch as (k & i & -> & Hk & Hc & Hb). simpl.
      pose proof (lookup_lt_Some _ _ _ Hk) as Hl.
      wsteps. wend.
      change (iget_slot (add_event EvAcquire s) k) with (iget_slot s k).
      rewrite (Hslot _ _ _ Hk).
      set (y := with_ref (i_ref i + 1) i).
      set (s' := add_event EvRelease (set_slot k y (add_event EvAcquire s))).
      assert (Hs'k : iget_slot s' k = y) by (apply iget_slot_set_slot; exact Hl).
      pose proof Hc as Hci.
      unfold caches in Hc. apply andb_true_iff in Hc. destruct Hc as [Hc Hi].
      apply andb_true_iff in Hc. destruct Hc as [Hr Hd].
      split; [exact Hl|]. split; [reflexivity|].
      rewrite Hs'k.
      split; [simpl; lia|]. split; [simpl; lia|].
      split.
      * left. split; [exact Hci|]. split; [|reflexivity].
        apply (Hbefore s (fun i' => caches dev inum i' = false) k Hl Hb).
      * rewrite <- Hs'k.
        apply (Hagain k y (icache s) s' Hl eq_refl); [|exact Hb].
        unfold caches, y. simpl. rewrite Hd, Hi.
        replace (i_ref i + 1 >? 0) with true by lia. reflexivity.
    + destruct Hch as (k & i & -> & Hk & Hc & Hb). simpl.
      pose proof (lookup_lt_Some _ _ _ Hk) as Hl.
      wsteps. wend.
      change (iget_slot (add_event EvAcquire s) k) with (iget_slot s k).
      rewrite (Hslot _ _ _ Hk).
      set (y := with_ref (i_ref i + 1) i).
      set (s' := add_event EvRelease (set_slot k y (add_event EvAcquire s))).
      assert (Hs'k : iget_slot s' k = y) by (apply iget_slot_set_slot; exact Hl).
      pose proof Hc as Hci.
      unfold caches in Hc. apply andb_true_iff in Hc. destruct Hc as [Hc Hi].
      apply andb_true_iff in Hc. destruct Hc as [Hr Hd].
      split; [exact Hl|]. split; [reflexivity|].
      rewrite Hs'k.
      split; [simpl; lia|]. split; [simpl; lia|].
      split.
      * left. split; [exact Hci|]. split; [|reflexivity].
        apply (Hbefore s (fun i' => caches dev inum i' = false) k Hl Hb).
      * rewrite <- Hs'k.
        apply (Hagain k y (icache s) s' Hl eq_refl); [|exact Hb].
        unfold caches, y. simpl. rewrite Hd, Hi.
        replace (i_ref i + 1 >? 0) with true by lia. reflexivity.
    + destruct Hch as (Hnone & k & i & -> & Hk & Hr & Hb). simpl.
      pose proof (lookup_lt_Some _ _ _ Hk) as Hl.
      wsteps. wend.
      change (iget_slot (add_event EvAcquire s) k) with (iget_slot s k).
      rewrite (Hslot _ _ _ Hk).
      set (y := with_flags 0 (with_ref 1 (with_inum inum (with_dev dev i)))).
      set (s' := add_event EvRelease (set_slot k y (add_event EvAcquire s))).
      assert (Hs'k : iget_slot s' k = y) by (apply iget_slot_set_slot; exact Hl).
      split; [exact Hl|]. split; [reflexivity|].
      rewrite Hs'k.
      split; [reflexivity|]. split; [reflexivity|].
      split.
      * right. split; [exact Hnone|]. split; [exact Hr|]. split; [|reflexivity].
        apply (Hbefore s (fun i' => i_ref i' <> 0) k Hl Hb).
      * rewrite <- Hs'k.
        apply (Hagain k y (icache s) s' Hl eq_refl).
        -- unfold caches, y. simpl. rewrite !Z.eqb_refl. reflexivity.
        -- intros j i' Hj Hl'. apply Hnone.
           eapply list_elem_of_lookup_2. exact Hl'.
    + wend. reflexivity.
  - intros Hall. unfold iget, bind, log, get_state.
    change (icache (add_event EvAcquire s)) with (icache s).
    pose proof (iget_scan_char dev inum (icache s) 0 None) as Hch.
    destruct (iget_scan (icache s) 0 dev inum None) as [[ip|] [ip'|]].
    + destruct Hch as (k & i & _ & Hk & Hc & _).
      destruct (Hall i (list_elem_of_lookup_2 _ _ _ Hk)) as [Hn _]. congruence.
    + destruct Hch as (k & i & _ & Hk & Hc & _).
      destruct (Hall i (list_elem_of_lookup_2 _ _ _ Hk)) as [Hn _]. congruence.
    + destruct Hch as (_ & k & i & _ & Hk & Hr & _).
      destruct (Hall i (list_elem_of_lookup_2 _ _ _ Hk)) as [_ Hn]. contradiction.
    + reflexivity.
Qed.

End IgetResult.

Lemma iget_result_witness :
  exists ip s',
    iget 1 2 sample_state = Ok ip s' /\
    i_dev (iget_slot s' ip) = 1 /\ i_inum (iget_slot s' ip) = 2 /\
    disk s' = disk sample_state.
Proof.
  assert (Hint : forall jp,
            - 2 ^ 31 <= i_ref (iget_slot sample_state jp) < 2 ^ 31 - 2).
  { intros jp. unfold iget_slot.
    assert (Hall : Forall (fun i => - 2 ^ 31 <= i_ref i < 2 ^ 31 - 2)
                     (icache sample_state)).
    { change (icache sample_state)
        with (root_inode :: orphan_inode :: replicate 48 inode0).
      apply Forall_cons_2; [simpl; lia|].
      apply Forall_cons_2; [simpl; lia|].
      apply Forall_replicate. simpl. lia. }
    destruct (icache sample_state !! jp) as [i|] eqn:E.
    - exact (Forall_lookup_1 _ _ _ _ Hall E).
    - simpl. lia. }
  destruct (iget_result 1 2 sample_state Hint) as [Hwp _].
  set (res := iget 1 2 sample_state) in *.
  set (ip := match res with Ok a _ => a | _ => 0%nat end).
  set (s' := match res with Ok _ t => t | _ => sample_state end).
  assert (Heq : res = Ok ip s') by (vm_compute; reflexivity).
  destruct (wpx_ok _ _ _ _ _ _ Heq Hwp) as (_ & Hd & Hdev & Hin & _).
  exists ip, s'. split; [exact Heq|]. split; [exact Hdev|].
  split; [exact Hin|exact Hd].
Defined.
(** ** iget followed by iput *)

Section IgetIput.
Context `{Params}.

(** X7.  iget followed by iput of the inode it returned (as dirlink does
    when the name exists) leaves the disk alone and every reference count
    of the cache as it was: the release never truncates, because the count
    is above 1 or the slot was just recycled and is not valid.  The only
    fatal halt is iget's, when the cache is full. *)
Theorem iget_iput_balanced (dev inum : Z) (s : state) :
  wpx iget_panic (ip <- iget dev inum ;; iput ip)
    (fun _ s' =>
       disk s' = disk s /\
       forall jp, i_ref (iget_slot s' jp) = i_ref (iget_slot s jp)) s.
Proof.
  apply wpx_bind. eapply wpx_mono; [apply iget_spec|].
  intros ip s1 (Hlt & Hd & _ & _ & _ & _ & Hcase). cbv beta.
  assert (Hy : exists y, icache s1 = <[ip := y]> (icache s) /\
                 i_ref y = i_ref (iget_slot s ip) + 1 /\
                 (i_ref y <> 1 \/ Z.land (i_flags y) I_VALID = 0)).
  { destruct Hcase as [(Hr & Hc)|(Hr & Hc)]; eexists; (split; [exact Hc|]);
      simpl; (split; [lia|]).
    - left. lia.
    - right. apply Z.land_0_l. }
  destruct Hy as (y & Hc & Hry & Hnl).
  assert (Hs1 : iget_slot s1 ip = y) by (eapply iget_slot_insert; eauto).
  eapply wpx_eq.
  { apply iput_plain_eq. rewrite Hs1. apply not_last_ref. exact Hnl. }
  autorewrite with st. split; [exact Hd|]. intros jp. rewrite Hs1.
  autorewrite with st.
  destruct (Nat.eq_dec ip jp) as [<-|Hne'].
  - rewrite iget_slot_set_slot
      by (autorewrite with st; rewrite Hc, length_insert; exact Hlt).
    simpl. lia.
  - rewrite iget_slot_set_slot_ne by exact Hne'.
    autorewrite with st. unfold iget_slot. rewrite Hc.
    rewrite list_lookup_insert_ne by exact Hne'. reflexivity.
Qed.

End IgetIput.
(** ** The on-disk inode record: iupdate and what ilock loads *)

Lemma s16_small (x : Z) : - 2 ^ 15 <= x < 2 ^ 15 -> s16 (x mod 2 ^ 16) = x.
Proof.
  intros Hx. unfold s16.
  rewrite Zplus_mod_idemp_l. rewrite Z.mod_small by lia. lia.
Qed.

Section InodeRecord.
Context `{Params}.

Lemma byte_at_put_addrs_out (data addrs : list Z) (off p : Z) :
  0 <= off -> 0 <= p -> p < off \/ off + 4 * (NDIRECT + 1) <= p ->
  byte_at (put_addrs data off addrs) p = byte_at data p.
Proof.
  intros Hoff Hp Hout. unfold put_addrs.
  assert (Hin : Forall (fun k => 0 <= k < NDIRECT + 1) (seqZ 0 (NDIRECT + 1))).
  { apply Forall_seqZ. intros; lia. }
  revert data Hin. induction (seqZ 0 (NDIRECT + 1)) as [|k l IH];
    intros data Hin; simpl; [reflexivity|].
  inversion Hin; subst.
  rewrite IH by assumption.
  apply byte_at_put_u32_ne; lia.
Qed.

Lemma get_u32_fold_notin (addrs l : list Z) (off k : Z) :
  0 <= off -> 0 <= k -> Forall (fun j => 0 <= j) l -> k ∉ l ->
  forall data,
    get_u32 (fold_left (fun d i => put_u32 d (off + 4 * i) (addr_at addrs i))
               l data) (off + 4 * k)
    = get_u32 data (off + 4 * k).
Proof.
  intros Hoff Hk Hpos Hnot. induction l as [|x l IH]; intros data; simpl;
    [reflexivity|].
  inversion Hpos; subst.
  rewrite IH; [|assumption|intros Hin; apply Hnot; right; exact Hin].
  apply get_u32_put_u32_ne; [lia|lia|].
  assert (k <> x) by (intros ->; apply Hnot; left).
  lia.
Qed.

Lemma length_fold_put (addrs l : list Z) (off : Z) (data : list Z) :
  length (fold_left (fun d i => put_u32 d (off + 4 * i) (addr_at addrs i)) l data)
  = length data.
Proof.
  revert data. induction l as [|x l IH]; intros data; simpl; [reflexivity|].
  rewrite IH. apply length_put_u32.
Qed.

Lemma get_u32_fold_in (addrs l : list Z) (off k : Z) :
  0 <= off -> Forall (fun j => 0 <= j) l -> NoDup l -> k ∈ l ->
  forall data, off + 4 * k + 4 <= Z.of_nat (length data) ->
    get_u32 (fold_left (fun d i => put_u32 d (off + 4 * i) (addr_at addrs i))
               l data) (off + 4 * k)
    = addr_at addrs k mod 2 ^ 32.
Proof.
  intros Hoff Hpos Hnd Hin. induction l as [|x l IH]; intros data Hl; simpl;
    [inversion Hin|].
  inversion Hpos; subst. apply NoDup_cons in Hnd. destruct Hnd as [Hx Hnd].
  destruct (Z.eq_dec k x) as [->|Hne].
  - rewrite get_u32_fold_notin by (assumption || lia).
    apply get_u32_put_u32_eq; lia.
  - apply elem_of_cons in Hin. destruct Hin as [|Hin]; [contradiction|].
    apply IH; [assumption..|]. rewrite length_put_u32. exact Hl.
Qed.

Lemma get_addrs_put_addrs (data addrs : list Z) (off : Z) :
  0 <= NDIRECT -> 0 <= off ->
  off + 4 * (NDIRECT + 1) <= Z.of_nat (length data) ->
  length addrs = Z.to_nat (NDIRECT + 1) ->
  Forall (fun a => 0 <= a < 2 ^ 32) addrs ->
  get_addrs (put_addrs data off addrs) off = addrs.
Proof.
  intros Hnd Hoff Hl Hlen Hrange. unfold get_addrs, put_addrs.
  apply list_eq. intros n.
  change (map ?f ?l) with (f <$> l). rewrite list_lookup_fmap.
  destruct (Nat.lt_ge_cases n (Z.to_nat (NDIRECT + 1))) as [Hn|Hn].
  - rewrite lookup_seqZ_lt by lia. simpl.
    rewrite get_u32_fold_in;
      [|lia|apply Forall_seqZ; intros; lia|apply NoDup_seqZ
       |apply elem_of_seqZ; lia|lia].
    unfold addr_at. replace (Z.to_nat (0 + Z.of_nat n)) with n by lia.
    destruct (addrs !! n) as [a|] eqn:Ea.
    + simpl. rewrite Forall_forall in Hrange.
      rewrite Z.mod_small; [reflexivity|].
      apply Hrange. eapply list_elem_of_lookup_2. exact Ea.
    + apply lookup_ge_None in Ea. lia.
  - rewrite lookup_seqZ_ge by lia. simpl. symmetry.
    apply lookup_ge_None. lia.
Qed.

(** The bytes of a block outside the record of the inode stay. *)
Lemma byte_at_store_dinode_out (data : list Z) (i : inode) (p : Z) :
  params_ok -> 0 <= p ->
  p < dinode_off (i_inum i) \/ dinode_off (i_inum i) + dinode_size <= p ->
  byte_at (store_dinode data i) p = byte_at data p.
Proof.
  intros Hok Hp Hout. pose proof (dinode_off_range (i_inum i) Hok) as [Ho Hb].
  pose proof (NDIRECT_nonneg Hok) as Hnd.
  unfold store_dinode. unfold dinode_size in *.
  rewrite byte_at_put_addrs_out by lia.
  rewrite byte_at_put_u32_ne by lia.
  rewrite !byte_at_put_u16_ne by lia. reflexivity.
Qed.

Lemma load_dinode_ext (data data' : list Z) (i0 : inode) :
  params_ok ->
  (forall p, dinode_off (i_inum i0) <= p < dinode_off (i_inum i0) + dinode_size ->
             byte_at data p = byte_at data' p) ->
  load_dinode data i0 = load_dinode data' i0.
Proof.
  intros Hok Hb. pose proof (dinode_off_range (i_inum i0) Hok) as [Ho _].
  pose proof (NDIRECT_nonneg Hok) as Hnd.
  unfold load_dinode, get_addrs, get_u16, get_u32, dinode_size in *.
  f_equal; try (rewrite !Hb by lia; reflexivity).
  change (map ?f ?l) with (f <$> l).
  apply list_fmap_ext. intros n k Hk. apply lookup_seqZ in Hk.
  rewrite !Hb by lia. reflexivity.
Qed.

(** X8.  iupdate writes the record of the inode into its inode block so that
    it reads back: with type, major, minor and nlink in the range of a
    short, the size and the NDIRECT+1 addresses in 32 bits, the record ilock
    would load from the disk afterwards has the type, major, minor, nlink,
    size and addresses of the cached inode.  The records of the other inodes
    and all other blocks are as they were, and the cache is untouched. *)
Theorem iupdate_roundtrip (ip : nat) (s : state) :
  params_ok ->
  let i := iget_slot s ip in
  - 2 ^ 15 <= i_type i < 2 ^ 15 -> - 2 ^ 15 <= i_major i < 2 ^ 15 ->
  - 2 ^ 15 <= i_minor i < 2 ^ 15 -> - 2 ^ 15 <= i_nlink i < 2 ^ 15 ->
  0 <= i_size i < 2 ^ 32 ->
  length (i_addrs i) = Z.to_nat (NDIRECT + 1) ->
  Forall (fun a => 0 <= a < 2 ^ 32) (i_addrs i) ->
  exists s', iupdate ip s = Ok tt s' /\ icache s' = icache s /\
    (let d := disk_inode s' (i_dev i) (i_inum i) in
     i_type d = i_type i /\ i_major d = i_major i /\ i_minor d = i_minor i /\
     i_nlink d = i_nlink i /\ i_size d = i_size i /\ i_addrs d = i_addrs i) /\
    (forall inum', inum' <> i_inum i ->
       disk_inode s' (i_dev i) inum' = disk_inode s (i_dev i) inum') /\
    (forall x, x <> IBLOCK (i_inum i) -> block s' (i_dev i) x = block s (i_dev i) x).
Proof.
  intros Hok i Ht Hma Hmi Hnl Hsz Hlen Hrange.
  pose proof (dinode_off_range (i_inum i) Hok) as [Ho Hb].
  pose proof (NDIRECT_nonneg Hok) as Hnd.
  exists (iupdate_state ip s). split; [apply iupdate_eq|].
  split; [reflexivity|].
  unfold iupdate_state. fold i.
  set (data := block s (i_dev i) (IBLOCK (i_inum i))).
  assert (Hl : length data = Z.to_nat BSIZE) by apply length_block.
  set (s' := set_disk _ _).
  assert (Hblk : block s' (i_dev i) (IBLOCK (i_inum i)) = store_dinode data i).
  { unfold s'. rewrite block_set_disk. apply block_of_insert_eq.
    rewrite length_store_dinode. exact Hl. }
  assert (Hoth : forall x, x <> IBLOCK (i_inum i) ->
             block s' (i_dev i) x = block s (i_dev i) x).
  { intros x Hx. unfold s'. rewrite block_set_disk.
    rewrite block_of_insert_ne by congruence. reflexivity. }
  split; [|split; [|exact Hoth]].
  - cbv zeta. unfold disk_inode. rewrite Hblk.
    unfold load_dinode. cbn [i_type i_major i_minor i_nlink i_size i_addrs i_inum].
    unfold dinode_size in Hb.
    split; [|split; [|split; [|split; [|split]]]].
    + rewrite stored_type by assumption. apply s16_small. exact Ht.
    + unfold store_dinode. rewrite get_u16_put_addrs_below by lia.
      rewrite get_u16_put_u32_ne by lia.
      rewrite !get_u16_put_u16_ne by lia.
      rewrite get_u16_put_u16_eq by (rewrite ?length_put_u16; lia).
      apply s16_small. exact Hma.
    + unfold store_dinode. rewrite get_u16_put_addrs_below by lia.
      rewrite get_u16_put_u32_ne by lia.
      rewrite !get_u16_put_u16_ne by lia.
      rewrite get_u16_put_u16_eq by (rewrite ?length_put_u16; lia).
      apply s16_small. exact Hmi.
    + unfold store_dinode. rewrite get_u16_put_addrs_below by lia.
      rewrite get_u16_put_u32_ne by lia.
      rewrite get_u16_put_u16_eq by (rewrite ?length_put_u16; lia).
      apply s16_small. exact Hnl.
    + rewrite stored_size by assumption. apply Z.mod_small. exact Hsz.
    + unfold store_dinode. apply get_addrs_put_addrs; try assumption; [lia|].
      rewrite length_put_u32, !length_put_u16. lia.
  - intros inum' Hne. unfold disk_inode.
    destruct (Z.eq_dec (IBLOCK inum') (IBLOCK (i_inum i))) as [Eb|Eb].
    + assert (Hc : inum' mod IPB <> i_inum i mod IPB).
      { intros Hm. apply Hne. unfold IBLOCK in Eb.
        assert (Hipb : IPB <> 0) by (pose proof (IPB_pos Hok); lia).
        pose proof (Z.div_mod inum' IPB Hipb).
        pose proof (Z.div_mod (i_inum i) IPB Hipb).
        assert (inum' / IPB = i_inum i / IPB) by lia. nia. }
      rewrite Eb, Hblk. fold data.
      apply load_dinode_ext; [exact Hok|]. cbn [i_inum].
      intros p Hp. apply byte_at_store_dinode_out; [exact Hok| |].
      * pose proof (dinode_off_range inum' Hok). lia.
      * unfold dinode_off in *.
        pose proof (Z.mod_pos_bound inum' IPB (IPB_pos Hok)).
        pose proof (Z.mod_pos_bound (i_inum i) IPB (IPB_pos Hok)).
        assert (0 < dinode_size) by (unfold dinode_size; lia).
        nia.
    + rewrite Hoth by exact Eb. reflexivity.
Qed.

End InodeRecord.

Lemma iupdate_roundtrip_witness :
  exists s', iupdate (H := xv6) 1 sample_state = Ok tt s' /\
    i_nlink (disk_inode (H := xv6) s' 1 3) = 0 /\
    i_size (disk_inode (H := xv6) s' 1 3) = 512 /\
    i_addrs (disk_inode (H := xv6) s' 1 3) = 8 :: replicate 12 0 /\
    disk_inode (H := xv6) s' 1 1 = disk_inode (H := xv6) sample_state 1 1.
Proof.
  assert (Hs : iget_slot sample_state 1 = orphan_inode) by reflexivity.
  pose proof (iupdate_roundtrip (H := xv6) 1 sample_state xv6_ok) as Hthm.
  cbv zeta in Hthm. rewrite Hs in Hthm.
  destruct Hthm as (s' & Heq & _ & Hrec & Hoth & _).
  - vm_compute. split; [discriminate|reflexivity].
  - vm_compute. split; [discriminate|reflexivity].
  - vm_compute. split; [discriminate|reflexivity].
  - vm_compute. split; [discriminate|reflexivity].
  - vm_compute. split; [discriminate|reflexivity].
  - reflexivity.
  - change (i_addrs orphan_inode) with (8 :: replicate 12 0).
    simpl replicate. repeat (apply Forall_cons_2; [lia|]). apply Forall_nil_2.
  - destruct Hrec as (_ & _ & _ & Hnl & Hsz & Had).
    exists s'. split; [exact Heq|]. split; [exact Hnl|]. split; [exact Hsz|].
    split; [exact Had|]. apply (Hoth 1). discriminate.
Defined.
(** ** ilock and iunlock *)

Lemma land_pow2_distinct (a b : Z) :
  0 <= a -> 0 <= b -> a <> b -> Z.land (2 ^ a) (2 ^ b) = 0.
Proof.
  intros Ha Hb Hne. apply Z.bits_inj'. intros n Hn.
  rewrite Z.land_spec, Z.bits_0, !Z.pow2_bits_eqb by lia.
  destruct (Z.eqb_spec a n), (Z.eqb_spec b n); try reflexivity. lia.
Qed.

Lemma with_flags_same (i : inode) : with_flags (i_flags i) i = i.
Proof. destruct i; reflexivity. Qed.

Lemma ref_in_cache (s : state) (ip : nat) :
  1 <= i_ref (iget_slot s ip) -> (ip < length (icache s))%nat.
Proof.
  intros Hr. unfold iget_slot in Hr.
  destruct (icache s !! ip) eqn:El.
  - eapply lookup_lt_Some. exact El.
  - simpl in Hr. lia.
Qed.

Section IlockResult.
Context `{Params}.

(** X9.  ilock halts with "ilock" when the reference count is below 1 and
    sleeps when the inode is busy.  Otherwise it sets I_BUSY.  For an inode
    that is valid nothing else changes, and iunlock then gives the slot back
    exactly as it was.  For an inode that is not valid, the type, major,
    minor, nlink, size and addresses are loaded from its on-disk record and
    I_VALID is set; when the loaded type is 0 the call halts with
    "ilock: no type".  The disk is never written. *)
Theorem ilock_result (ip : nat) (s : state) :
  params_ok ->
  let i := iget_slot s ip in
  (i_ref i < 1 -> ilock ip s = Panic "ilock" s) /\
  (1 <= i_ref i -> Z.land (i_flags i) I_BUSY <> 0 ->
     ilock ip s = Sleeps ip (add_event EvAcquire s)) /\
  (1 <= i_ref i -> Z.land (i_flags i) I_BUSY = 0 ->
   Z.land (i_flags i) I_VALID <> 0 ->
     exists s1, ilock ip s = Ok tt s1 /\ disk s1 = disk s /\
       iget_slot s1 ip = with_flags (Z.lor (i_flags i) I_BUSY) i /\
       exists s2, iunlock ip s1 = Ok tt s2 /\ disk s2 = disk s /\
                  iget_slot s2 ip = i) /\
  (1 <= i_ref i -> Z.land (i_flags i) I_BUSY = 0 ->
   Z.land (i_flags i) I_VALID = 0 ->
     let loaded :=
       with_flags (Z.lor (Z.lor (i_flags i) I_BUSY) I_VALID)
         (load_dinode (block s (i_dev i) (IBLOCK (i_inum i))) i) in
     exists s1, disk s1 = disk s /\ iget_slot s1 ip = loaded /\
       i_type loaded = i_type (disk_inode s (i_dev i) (i_inum i)) /\
       ilock ip s = if i_type loaded =? 0 then Panic "ilock: no type" s1
                    else Ok tt s1).
Proof.
  intros Hok i.
  destruct (I_BUSY_bit Hok) as (kb & Hkb & Eb).
  destruct (I_VALID_bit Hok) as (kv & Hkv & Ev).
  pose proof (flags_differ Hok) as Hdiff.
  assert (Hbv : Z.land I_BUSY I_VALID = 0).
  { rewrite Eb, Ev. apply land_pow2_distinct; [lia|lia|].
    intros ->. apply Hdiff. congruence. }
  assert (Hbpos : I_BUSY <> 0).
  { rewrite Eb. pose proof (Z.pow_pos_nonneg 2 kb ltac:(lia) Hkb). lia. }
  split; [|split; [|split]].
  - intros Hr. unfold ilock, bind, rd. fold i.
    replace (i_ref i <? 1) with true by lia. reflexivity.
  - intros Hr Hbusy. unfold ilock, bind, rd, log. fold i.
    replace (i_ref i <? 1) with false by lia.
    change (iget_slot (add_event EvAcquire s) ip) with i.
    apply Z.eqb_neq in Hbusy. rewrite Hbusy. reflexivity.
  - intros Hr Hnb Hv. pose proof (ref_in_cache s ip Hr) as Hlt.
    set (ib := with_flags (Z.lor (i_flags i) I_BUSY) i).
    set (s1 := add_event EvRelease (set_slot ip ib (add_event EvAcquire s))).
    assert (Hs1 : iget_slot s1 ip = ib)
      by (apply iget_slot_set_slot; exact Hlt).
    assert (Hv1 : Z.land (i_flags ib) I_VALID <> 0).
    { unfold ib. simpl. rewrite Z.land_lor_distr_l, Hbv, Z.lor_0_r. exact Hv. }
    exists s1. split.
    { unfold ilock, bind, rd, log, modify_inode. fold i.
      replace (i_ref i <? 1) with false by lia.
      change (iget_slot (add_event EvAcquire s) ip) with i.
      apply Z.eqb_eq in Hnb. rewrite Hnb. cbv beta iota delta [negb].
      change (iget_slot (add_event EvAcquire s) ip) with i.
      fold ib. fold s1. rewrite Hs1.
      apply Z.eqb_neq in Hv1. rewrite Hv1. reflexivity. }
    split; [reflexivity|]. split; [exact Hs1|].
    eexists. split.
    { unfold iunlock, bind, rd, id, log, modify_inode. rewrite Hs1.
      assert (Hb1 : Z.land (i_flags ib) I_BUSY <> 0).
      { unfold ib. simpl. rewrite (land_lor_same _ _ Hnb). exact Hbpos. }
      apply Z.eqb_neq in Hb1. rewrite Hb1.
      replace (i_ref ib <? 1) with false by (unfold ib; simpl; lia).
      simpl orb. cbv iota. reflexivity. }
    split; [reflexivity|].
    autorewrite with st.
    rewrite iget_slot_set_slot
      by (autorewrite with st; unfold s1; autorewrite with st;
          rewrite length_insert; exact Hlt).
    autorewrite with st. rewrite Hs1. unfold ib. simpl.
    rewrite (land_lor_lnot _ _ Hnb).
    destruct i; reflexivity.
  - intros Hr Hnb Hv loaded. pose proof (ref_in_cache s ip Hr) as Hlt.
    set (ib := with_flags (Z.lor (i_flags i) I_BUSY) i).
    set (s1 := add_event EvRelease (set_slot ip ib (add_event EvAcquire s))).
    assert (Hs1 : iget_slot s1 ip = ib)
      by (apply iget_slot_set_slot; exact Hlt).
    assert (Hl1 : (ip < length (icache s1))%nat)
      by (unfold s1; autorewrite with st; rewrite length_insert; exact Hlt).
    assert (Hv1 : Z.land (i_flags ib) I_VALID = 0).
    { unfold ib. simpl. rewrite Z.land_lor_distr_l, Hbv, Z.lor_0_r. exact Hv. }
    set (il := load_dinode (block s1 (i_dev ib) (IBLOCK (i_inum ib))) ib).
    set (s2 := set_slot ip il s1).
    assert (Hs2 : iget_slot s2 ip = il) by (apply iget_slot_set_slot; exact Hl1).
    set (s3 := set_slot ip (with_flags (Z.lor (i_flags il) I_VALID) il) s2).
    assert (Hs3 : iget_slot s3 ip = with_flags (Z.lor (i_flags il) I_VALID) il).
    { apply iget_slot_set_slot. unfold s2. autorewrite with st.
      rewrite length_insert. exact Hl1. }
    assert (Hloaded : with_flags (Z.lor (i_flags il) I_VALID) il = loaded).
    { unfold loaded, il, ib. destruct i; reflexivity. }
    exists s3. split; [reflexivity|]. split; [rewrite Hs3; exact Hloaded|].
    split; [unfold loaded; destruct i; reflexivity|].
    unfold ilock, bind, rd, log, modify_inode, bread, brelse, ret, panic, id.
    fold i. replace (i_ref i <? 1) with false by lia.
    change (iget_slot (add_event EvAcquire s) ip) with i.
    apply Z.eqb_eq in Hnb. rewrite Hnb. cbv beta iota delta [negb].
      change (iget_slot (add_event EvAcquire s) ip) with i.
    fold ib. fold s1. rewrite Hs1.
    apply Z.eqb_eq in Hv1. rewrite Hv1. cbv beta iota. rewrite !Hs1.
    fold il. fold s2. rewrite !Hs2. fold s3. rewrite !Hs3, Hloaded.
    destruct (i_type loaded =? 0); reflexivity.
Qed.

End IlockResult.

Lemma ilock_result_witness :
  (exists s1 s2, ilock (H := xv6) 1 sample_state = Ok tt s1 /\
     iunlock (H := xv6) 1 s1 = Ok tt s2 /\
     iget_slot s2 1 = iget_slot sample_state 1) /\
  (exists s1, ilock (H := xv6) 0 sample_state = Ok tt s1 /\
     i_size (iget_slot s1 0) = 48 /\ i_flags (iget_slot s1 0) = 3).
Proof.
  split.
  - destruct (ilock_result (H := xv6) 1 sample_state xv6_ok)
      as (_ & _ & Hvalid & _).
    destruct Hvalid as (s1 & Hl & _ & _ & s2 & Hu & _ & Hback);
      [vm_compute; discriminate|reflexivity|vm_compute; discriminate|].
    exists s1, s2. auto.
  - destruct (ilock_result (H := xv6) 0 sample_state xv6_ok)
      as (_ & _ & _ & Hload).
    destruct Hload as (s1 & _ & Hslot & _ & Hl);
      [vm_compute; discriminate|reflexivity|reflexivity|].
    exists s1. split; [exact Hl|]. rewrite Hslot. split; reflexivity.
Defined.
(** ** skipelem: the path it returns *)

Lemma skip_slashes_split (p : list Z) :
  exists a : nat, p = replicate a slash ++ skip_slashes p.
Proof.
  induction p as [|c p IH]; [exists 0%nat; reflexivity|].
  simpl. destruct (c =? slash) eqn:E.
  - destruct IH as [a Ha]. exists (S a). simpl.
    apply Z.eqb_eq in E. subst c. f_equal. exact Ha.
  - exists 0%nat. reflexivity.
Qed.

Section SkipelemPath.
Context `{Params}.

(** X10.  skipelem returns 0 exactly when the path holds nothing but
    slashes before its end.  Otherwise the path is some slashes, a component
    that is not empty and holds neither a slash nor a NUL, some more slashes
    and the returned path, which has no leading slash, starts with a NUL (or
    is empty) when no slash followed the component, and is shorter than the
    path given. *)
Theorem skipelem_path (path name : list Z) :
  (skipelem path name = None <-> deref (skip_slashes path) = 0) /\
  forall rest name', skipelem path name = Some (rest, name') ->
    exists (a b : nat) (comp : list Z),
      path = replicate a slash ++ comp ++ replicate b slash ++ rest /\
      comp <> [] /\ Forall (fun c => c <> slash /\ c <> 0) comp /\
      deref rest <> slash /\ (b = 0%nat -> deref rest = 0) /\
      (length rest < length path)%nat.
Proof.
  unfold skipelem. split.
  - destruct (deref (skip_slashes path) =? 0) eqn:E.
    + split; [intros _; lia|reflexivity].
    + split; [discriminate|lia].
  - intros rest name'.
    destruct (deref (skip_slashes path) =? 0) eqn:E; [discriminate|].
    intros [= <- _]. apply Z.eqb_neq in E.
    set (s := skip_slashes path) in *.
    destruct (skip_slashes_split path) as [a Ha]. fold s in Ha.
    destruct (skip_slashes_split (elem_end s)) as [b Hb].
    pose proof (elem_len_pos s E (skip_slashes_stop path)) as Hpos.
    pose proof (elem_len_range s) as Hrange.
    exists a, b, (take (Z.to_nat (elem_len s)) s).
    split.
    { rewrite <- Hb, <- elem_end_split. exact Ha. }
    split.
    { intros Hnil. apply (f_equal length) in Hnil.
      rewrite length_take in Hnil. simpl in Hnil. lia. }
    split; [apply elem_chars|].
    split; [apply skip_slashes_stop|].
    split.
    { intros ->. simpl in Hb. rewrite <- Hb.
      destruct (elem_end_stop s) as [Hs|Hz]; [|exact Hz].
      exfalso. rewrite Hb in Hs. exact (skip_slashes_stop _ Hs). }
    assert (Hl1 : (length (skip_slashes (elem_end s)) <= length (elem_end s))%nat).
    { apply (f_equal length) in Hb. rewrite length_app in Hb. lia. }
    assert (Hl2 : (length s <= length path)%nat).
    { apply (f_equal length) in Ha. rewrite length_app in Ha. lia. }
    unfold elem_len in Hpos. lia.
Qed.

End SkipelemPath.

Lemma skipelem_path_witness :
  exists (a b : nat) (comp : list Z),
    bytes_of_string "//a/bb"
    = replicate a slash ++ comp ++ replicate b slash ++ bytes_of_string "bb" /\
    comp <> [] /\ (b = 0%nat -> deref (bytes_of_string "bb") = 0).
Proof.
  destruct (skipelem_path (H := xv6) (bytes_of_string "//a/bb")
              (replicate 14 0)) as [_ Hsome].
  destruct (Hsome (bytes_of_string "bb") (97 :: replicate 13 0))
    as (a & b & comp & Hp & Hc & _ & _ & Hb & _); [reflexivity|].
  exists a, b, comp. split; [exact Hp|]. split; [exact Hc|exact Hb].
Defined.
(** ** writei and readi: a write within one block reads back *)

Section Chunk.
Context `{Params}.

Lemma chunk_post_intro (dp : nat) (o n : Z) (de : list Z) (s s1 s' : state)
    (a : Z) :
  params_ok ->
  let i := iget_slot s dp in
  let i1 := iget_slot s1 dp in
  let i' := iget_slot s' dp in
  file_wf s i -> 0 <= o <= i_size i -> 0 < n -> o mod BSIZE + n <= BSIZE ->
  bmap_entry_post dp (o / BSIZE) s a s1 ->
  (dp < length (icache s'))%nat ->
  i_addrs i' = i_addrs i1 -> i_dev i' = i_dev i -> i_type i' = i_type i ->
  i_size i' = Z.max (i_size i) (o + n) ->
  (forall x, x <> a -> x <> IBLOCK (i_inum i) ->
     block s' (i_dev i) x = block s1 (i_dev i) x) ->
  block s' (i_dev i) a = buf_write (block s1 (i_dev i) a) (o mod BSIZE) de ->
  chunk_post dp o n de s s'.
Proof.
  intros Hok i i1 i' Hwf Ho Hds Hfit Hpost Hl' Haddrs Hdev' Htype' Hsize' Hblocks Hwrite.
  pose proof (BSIZE_pos Hok) as Hbs.
  unfold bmap_entry_post in Hpost. fold i i1 in Hpost.
  destruct Hpost as (Hl1 & Hdev1 & Hinum1 & Htype1 & Hsize1 & Ha0 & Haib & Haind
                     & Hindib & Hbk & Hoth & Hsame).
  set (k := o / BSIZE) in *.
  assert (Hne : BSIZE <> 0) by lia.
  pose proof (Z.div_mod o BSIZE Hne) as Hdm. fold k in Hdm.
  pose proof (Z.mod_pos_bound o BSIZE Hbs) as Hmod.
  assert (Hk0 : 0 <= k) by (apply Z.div_pos; lia).
  assert (Hba : forall j, block_addr s' i' j = block_addr s1 i1 j).
  { intros j. unfold block_addr. rewrite Haddrs, Hdev', Hdev1.
    destruct (j <? NDIRECT); [reflexivity|].
    destruct (addr_at (i_addrs i1) NDIRECT =? 0) eqn:E0; [reflexivity|].
    apply Z.eqb_neq in E0.
    rewrite Hblocks; [reflexivity| |apply Hindib; exact E0].
    intros Heq. apply Haind. symmetry. exact Heq. }
  assert (Hbelow : forall j, 0 <= j -> j <> k ->
            j * BSIZE < Z.max (i_size i) (o + n) ->
            j * BSIZE < i_size i).
  { intros j Hj Hjk Hlt.
    destruct (Z.lt_ge_cases (j * BSIZE) (i_size i)) as [|Hge]; [assumption|].
    assert (j < k + 1) by nia. assert (j < k) by lia. nia. }
  unfold chunk_post. fold i i'. fold k.
  split; [exact Hl'|]. split; [exact Htype'|]. split; [exact Hdev'|].
  split; [exact Hsize'|]. split; [|split].
  - intros j Hj Hlt. rewrite Hba. rewrite Hsize' in Hlt.
    destruct (Z.eq_dec j k) as [->|Hjk]; [rewrite Hbk; exact Ha0|].
    pose proof (Hbelow j Hj Hjk Hlt) as Hjs.
    destruct (Hoth j Hj Hjk Hjs) as (E & _). rewrite E.
    apply (fw_mapped _ _ Hwf); [|exact Hjs].
    pose proof (fw_size _ _ Hwf). nia.
  - intros j Hj Hjk Hjs. rewrite Hdev', Hba.
    destruct (Hoth j Hj Hjk Hjs) as (E & Hna & Hnind & Hnib & Hblk).
    rewrite E. rewrite Hblocks by assumption. exact Hblk.
  - exists (block s1 (i_dev i) a).
    split; [apply length_block|]. split.
    + rewrite Hdev', Hba, Hbk. exact Hwrite.
    + intros Hlt. pose proof (Hsame Hlt) as Es.
      rewrite <- Hbk. unfold i1. rewrite Es. reflexivity.
Qed.

(** writei of [n] bytes that stay within one block, at an offset at most the
    size. *)
Lemma writei_chunk (dp : nat) (de : list Z) (o n : Z) (s : state) :
  params_ok -> (dp < length (icache s))%nat ->
  let i := iget_slot s dp in
  i_type i <> T_DEV -> file_wf s i -> alloc_wf s (i_dev i) ->
  0 <= o <= i_size i -> 0 < n -> o mod BSIZE + n <= BSIZE ->
  o + n <= MAXFILE * BSIZE ->
  length de = Z.to_nat n ->
  wpx alloc_panic (writei dp de o n)
    (fun r s' => r = n /\ chunk_post dp o n de s s') s.
Proof.
  intros Hok Hlt i Ht Hwf Hal Ho Hds Hfit0 Hmax Hde.
  pose proof (BSIZE_pos Hok) as Hbs.
  pose proof (MAXFILE_bytes Hok) as Hmb.
  assert (Hne : BSIZE <> 0) by lia.
  pose proof (Z.div_mod o BSIZE Hne) as Hdm.
  pose proof (Z.mod_pos_bound o BSIZE Hbs) as Hmod.
  set (k := o / BSIZE) in *. set (om := o mod BSIZE) in *.
  assert (Hk0 : 0 <= k) by (apply Z.div_pos; lia).
  assert (Hfit : om + n <= BSIZE) by exact Hfit0.
  assert (Hkm : 0 <= k < MAXFILE) by nia.
  assert (Hkle : k * BSIZE <= i_size i) by lia.
  unfold writei. wstep. unfold id. fold i.
  destruct (i_type i =? T_DEV) eqn:E; [lia|].
  rewrite (u32_small (o + n)) by lia.
  assert (Hc : (o >? i_size i) || (o + n <? o) = false)
    by (apply orb_false_iff; lia).
  rewrite Hc. rewrite (u32_small (MAXFILE * BSIZE)) by lia.
  assert (Hc2 : (o + n >? MAXFILE * BSIZE) = false) by lia.
  rewrite Hc2.
  assert (Hbs31 : BSIZE < 2 ^ 31) by nia.
  assert (Efuel : exists fuel, Z.to_nat n = S fuel)
    by (exists (Z.to_nat n - 1)%nat; lia).
  destruct Efuel as [fuel Efuel].
  apply wpx_bind. cbn [writei_loop].
  assert (Hc3 : (0 <? n) = true) by lia. rewrite Hc3.
  wstep. apply wpx_bind. fold k. eapply wpx_mono.
  { apply (bmap_entry dp k s Hok Hlt Hwf Hal Hkm Hkle). }
  intros a s1 Hpost. cbv beta.
  pose proof Hpost as Hpost'. unfold bmap_entry_post in Hpost'. fold i in Hpost'.
  destruct Hpost' as (Hl1 & Hdev1 & Hinum1 & Htype1 & Hsize1 & _ & Haib & _).
  fold om. fold i.
  rewrite (u32_small (n - 0)) by lia.
  rewrite (u32_small (BSIZE - om)) by lia.
  rewrite Z.min_l by lia.
  replace (n - 0) with n by lia.
  rewrite sub_bytes_all by lia.
  rewrite (u32_small (0 + n)), (u32_small (o + n)) by lia.
  rewrite Z.add_0_l. rewrite Efuel. cbn [writei_loop]. rewrite Z.ltb_irrefl.
  wsteps.
  set (D := buf_write (block s1 (i_dev i) a) om de).
  assert (HD : length D = Z.to_nat BSIZE).
  { unfold D. rewrite length_buf_write; [apply length_block|lia|].
    rewrite length_block. lia. }
  set (s2 := set_disk (<[(i_dev i, a) := D]> (disk s1)) s1).
  wend. wstep.
  change (iget_slot s2 dp) with (iget_slot s1 dp). rewrite Hsize1.
  rewrite s32_small by lia.
  assert (Hb2 : forall x, x <> a -> block s2 (i_dev i) x = block s1 (i_dev i) x).
  { intros x Hx. unfold s2. rewrite block_set_disk.
    apply block_of_insert_ne. intros [= Heq]. apply Hx. symmetry. exact Heq. }
  assert (Hb2a : block s2 (i_dev i) a = D)
    by (apply block_after_bwrite; exact HD).
  destruct ((n >? 0) && (o + n >? i_size i)) eqn:Ec.
  - apply andb_true_iff in Ec. destruct Ec as [_ Ec].
    wstep. wstep.
    change (iget_slot s2 dp) with (iget_slot s1 dp).
    set (i2 := with_size (o + n) (iget_slot s1 dp)).
    set (s3 := set_slot dp i2 s2).
    assert (Hi3 : iget_slot s3 dp = i2) by (apply iget_slot_set_slot; exact Hl1).
    apply wpx_bind. eapply wpx_eq; [apply iupdate_eq|].
    unfold iupdate_state. rewrite Hi3. wend.
    split; [reflexivity|].
    set (s4 := set_disk _ _).
    assert (Hi4 : iget_slot s4 dp = i2) by exact Hi3.
    apply (chunk_post_intro dp o n de s s1 s4 a Hok Hwf Ho Hds Hfit Hpost).
    + unfold s4, s3. autorewrite with st. rewrite length_insert. exact Hl1.
    + rewrite Hi4. reflexivity.
    + rewrite Hi4. exact Hdev1.
    + rewrite Hi4. exact Htype1.
    + rewrite Hi4. unfold i2. simpl i_size. fold i. apply Z.gtb_lt in Ec. lia.
    + intros x Hxa Hxib. unfold s4. rewrite block_set_disk.
      rewrite block_of_insert_ne.
      * change (block_of (disk (add_event _ s3)) (i_dev i) x)
          with (block s2 (i_dev i) x).
        apply Hb2. exact Hxa.
      * unfold i2. cbn [i_dev i_inum with_size]. rewrite Hinum1.
        intros [= _ Heq]. apply Hxib. symmetry. exact Heq.
    + unfold s4. rewrite block_set_disk.
      rewrite block_of_insert_ne.
      * change (block_of (disk (add_event _ s3)) (i_dev i) a)
          with (block s2 (i_dev i) a).
        exact Hb2a.
      * unfold i2. cbn [i_dev i_inum with_size]. rewrite Hinum1.
        intros [= _ Heq]. apply Haib. symmetry. exact Heq.
  - apply andb_false_iff in Ec. destruct Ec as [Ec|Ec]; [lia|].
    wstep. wend. split; [reflexivity|].
    apply (chunk_post_intro dp o n de s s1 s2 a Hok Hwf Ho Hds Hfit Hpost).
    + exact Hl1.
    + reflexivity.
    + exact Hdev1.
    + exact Htype1.
    + change (iget_slot s2 dp) with (iget_slot s1 dp). fold i. lia.
    + intros x Hxa _. apply Hb2. exact Hxa.
    + exact Hb2a.
Qed.

Lemma sub_bytes_buf_write_same (X src : list Z) (om : Z) :
  0 <= om -> om + Z.of_nat (length src) <= Z.of_nat (length X) ->
  sub_bytes (buf_write X om src) om (Z.of_nat (length src)) = src.
Proof.
  intros Hom Hl.
  rewrite sub_bytes_eq by (rewrite ?length_buf_write; lia).
  apply list_eq. intros k.
  change (map ?f ?l) with (f <$> l). rewrite list_lookup_fmap.
  destruct (Nat.lt_ge_cases k (length src)) as [Hk|Hk].
  - rewrite lookup_seqZ_lt by lia. simpl.
    rewrite byte_at_buf_write by lia.
    replace ((om <=? om + Z.of_nat k)
             && (om + Z.of_nat k <? om + Z.of_nat (length src))) with true
      by (symmetry; apply andb_true_iff; lia).
    unfold byte_at. replace (Z.to_nat (om + Z.of_nat k - om)) with k by lia.
    destruct (src !! k) eqn:E; [reflexivity|].
    apply lookup_ge_None in E. lia.
  - rewrite lookup_seqZ_ge by lia. simpl. symmetry.
    apply lookup_ge_None. exact Hk.
Qed.


End Chunk.

(** ** fdalloc *)

Lemma fdalloc_loop_spec {F : Type} (ofile : list (option F)) (f : F)
    (fds : list Z) :
  Forall (fun fd => 0 <= fd < Z.of_nat (length ofile)) fds ->
  (fdalloc_loop fds ofile f = (-1, ofile) /\
   forall fd, fd ∈ fds -> exists g, ofile !! Z.to_nat fd = Some (Some g)) \/
  (exists l1 fd l2, fds = l1 ++ fd :: l2 /\
     ofile !! Z.to_nat fd = Some None /\
     (forall fd', fd' ∈ l1 -> exists g, ofile !! Z.to_nat fd' = Some (Some g)) /\
     fdalloc_loop fds ofile f = (fd, <[Z.to_nat fd := Some f]> ofile)).
Proof.
  induction fds as [|fd fds IH]; intros Hr.
  - left. split; [reflexivity|]. intros fd Hfd. inversion Hfd.
  - inversion Hr as [|? ? Hfd Hrest]; subst. simpl.
    destruct (ofile !! Z.to_nat fd) as [[g|]|] eqn:E.
    + destruct (IH Hrest) as [[Heq Hall]|(l1 & fd0 & l2 & -> & Hfree & Hocc & Heq)].
      * left. split; [exact Heq|]. intros fd' Hfd'.
        apply elem_of_cons in Hfd'. destruct Hfd' as [->|Hfd'];
          [exists g; exact E|apply Hall; exact Hfd'].
      * right. exists (fd :: l1), fd0, l2. split; [reflexivity|].
        split; [exact Hfree|]. split; [|exact Heq].
        intros fd' Hfd'. apply elem_of_cons in Hfd'.
        destruct Hfd' as [->|Hfd']; [exists g; exact E|apply Hocc; exact Hfd'].
    + right. exists [], fd, fds. split; [reflexivity|]. split; [exact E|].
      split; [|reflexivity]. intros fd' Hfd'. inversion Hfd'.
    + apply lookup_ge_None in E. lia.
Qed.

(** X12.  fdalloc over a table of NOFILE entries returns the lowest
    descriptor whose entry is 0 and stores the file there, leaving every
    other entry as it was; when every entry is taken it returns -1 and
    leaves the table alone. *)
Theorem fdalloc_result {F : Type} (NOFILE : Z) (ofile : list (option F))
    (f : F) :
  Z.of_nat (length ofile) = NOFILE ->
  (fdalloc NOFILE ofile f = (-1, ofile) /\
   forall fd, 0 <= fd < NOFILE ->
     exists g, ofile !! Z.to_nat fd = Some (Some g)) \/
  (exists fd, 0 <= fd < NOFILE /\
     ofile !! Z.to_nat fd = Some None /\
     (forall fd', 0 <= fd' < fd ->
        exists g, ofile !! Z.to_nat fd' = Some (Some g)) /\
     fdalloc NOFILE ofile f = (fd, <[Z.to_nat fd := Some f]> ofile)).
Proof.
  intros Hlen. unfold fdalloc.
  destruct (fdalloc_loop_spec ofile f (seqZ 0 NOFILE))
    as [[Heq Hall]|(l1 & fd & l2 & Hsplit & Hfree & Hocc & Heq)].
  - apply Forall_seqZ. intros; lia.
  - left. split; [exact Heq|]. intros fd Hfd. apply Hall.
    apply elem_of_seqZ. lia.
  - right. destruct (seqZ_split_at _ _ _ _ Hsplit) as [Hfd Hbefore].
    exists fd. split; [exact Hfd|]. split; [exact Hfree|].
    split; [|exact Heq]. intros fd' Hfd'. apply Hocc. apply Hbefore. exact Hfd'.
Qed.

Lemma fdalloc_result_witness :
  fdalloc 4 [Some 10; Some 11; None; None] 12
  = (2, [Some 10; Some 11; Some 12; None]).
Proof.
  destruct (fdalloc_result 4 [Some 10; Some 11; None; None] 12 eq_refl)
    as [[_ Hall]|(fd & Hfd & Hfree & Hocc & Heq)].
  - destruct (Hall 2 ltac:(lia)) as [g Hg]. discriminate Hg.
  - assert (fd = 2).
    { assert (Hc : fd = 0 \/ fd = 1 \/ fd = 2 \/ fd = 3) by lia.
      destruct Hc as [->|[->|[->| ->]]].
      - discriminate Hfree.
      - discriminate Hfree.
      - reflexivity.
      - destruct (Hocc 2 ltac:(lia)) as [g Hg]. discriminate Hg. }
    subst fd. exact Heq.
Defined.
(** ** The searches of the tag block: searchEnd and searchKey *)

Lemma strlen_spec (key : list Z) :
  0 <= strlen key /\
  (forall j, 0 <= j < strlen key -> byte_at key j <> 0) /\
  byte_at key (strlen key) = 0.
Proof.
  induction key as [|c key IH]; simpl.
  - split; [lia|]. split; [intros j Hj; lia|reflexivity].
  - destruct (c =? 0) eqn:E.
    + split; [lia|]. split; [intros j Hj; lia|].
      apply Z.eqb_eq in E. subst c. reflexivity.
    + destruct IH as (H0 & Hin & Hend). apply Z.eqb_neq in E.
      split; [lia|]. split.
      * intros j Hj. destruct (Z.eq_dec j 0) as [->|Hj0]; [exact E|].
        unfold byte_at. replace (Z.to_nat j) with (S (Z.to_nat (j - 1))) by lia.
        simpl. apply (Hin (j - 1)). lia.
      * unfold byte_at.
        replace (Z.to_nat (1 + strlen key)) with (S (Z.to_nat (strlen key)))
          by lia.
        simpl. exact Hend.
Qed.

Section Tags.
Context `{Params}.

Lemma searchEnd_loop_spec (str : list Z) :
  0 < BSIZE -> BSIZE mod 32 = 0 ->
  forall fuel m,
    0 <= m -> 32 * m <= BSIZE -> BSIZE - 32 * m < 32 * Z.of_nat fuel ->
    (forall k, 0 <= k < m -> byte_at str (32 * k) <> 0) ->
    exists m', searchEnd_loop fuel str (32 * m) = Some (32 * m') /\
      m <= m' /\ 32 * m' <= BSIZE /\
      (32 * m' < BSIZE -> byte_at str (32 * m') = 0) /\
      (forall k, 0 <= k < m' -> byte_at str (32 * k) <> 0).
Proof.
  intros Hbs Hmod. apply Z.mod_divide in Hmod; [|lia].
  destruct Hmod as [q Hq].
  induction fuel as [|fuel IH]; intros m Hm Hle Hfuel Hbefore; [lia|].
  simpl. destruct (32 * m <? BSIZE) eqn:Elt; simpl.
  - destruct (byte_at str (32 * m) =? 0) eqn:Ez; simpl.
    + exists m. split; [reflexivity|]. split; [lia|]. split; [lia|].
      split; [intros _; apply Z.eqb_eq; exact Ez|exact Hbefore].
    + replace (32 * m + 32) with (32 * (m + 1)) by lia.
      destruct (IH (m + 1)) as (m' & Heq & Hm' & Hle' & Hz & Hb);
        [lia|lia|lia| |].
      * intros k Hk. destruct (Z.eq_dec k m) as [->|Hne];
          [apply Z.eqb_neq; exact Ez|apply Hbefore; lia].
      * exists m'. split; [exact Heq|]. split; [lia|]. auto.
  - exists m. split; [reflexivity|]. split; [lia|]. split; [lia|].
    split; [lia|exact Hbefore].
Qed.

(** X13.  searchEnd, for a block size that is a multiple of 32: it returns
    the offset of the first 32-byte record whose first byte is 0, a multiple
    of 32 below BSIZE, every record before it starting with a byte that is
    not 0; and -1 when no record of the block starts with 0. *)
Theorem searchEnd_result (str : list Z) :
  0 < BSIZE -> BSIZE mod 32 = 0 ->
  exists r, searchEnd str = Some r /\
    ((r = -1 /\
      forall k, 0 <= k -> 32 * k < BSIZE -> byte_at str (32 * k) <> 0) \/
     (0 <= r < BSIZE /\ r mod 32 = 0 /\ byte_at str r = 0 /\
      forall k, 0 <= k -> 32 * k < r -> byte_at str (32 * k) <> 0)).
Proof.
  intros Hbs Hmod. unfold searchEnd.
  destruct (searchEnd_loop_spec str Hbs Hmod
              (S (Z.to_nat (BSIZE / 32 + 1))) 0)
    as (m' & Heq & Hm' & Hle & Hz & Hb); [lia|lia| |intros k Hk; lia|].
  { pose proof (Z.div_mod BSIZE 32 ltac:(lia)).
    assert (0 <= BSIZE / 32) by (apply Z.div_pos; lia). lia. }
  change (32 * 0) with 0 in Heq. rewrite Heq.
  eexists. split; [reflexivity|].
  destruct (32 * m' =? BSIZE) eqn:E.
  - left. split; [reflexivity|]. intros k Hk Hlt. apply Hb.
    apply Z.eqb_eq in E. lia.
  - right. apply Z.eqb_neq in E.
    split; [lia|]. split; [rewrite Z.mul_comm; apply Z_mod_mult|].
    split; [apply Hz; lia|]. intros k Hk Hlt. apply Hb. lia.
Qed.


(** The inner loop of searchKey counts the bytes on which the key and the
    record agree, up to 10. *)
Lemma searchKey_match_spec (key str : list Z) (i : Z) :
  let good j := i + j < BSIZE /\ byte_at key j <> 0 /\
                byte_at str (i + j) <> 0 /\
                byte_at key j = byte_at str (i + j) in
  forall fuel j,
    0 <= j -> j + Z.of_nat fuel = 10 ->
    (forall j', 0 <= j' < j -> good j') ->
    let j1 := searchKey_match fuel key str i j in
    j <= j1 <= 10 /\ (forall j', 0 <= j' < j1 -> good j') /\
    (j1 < 10 -> ~ good j1).
Proof.
  intros good. induction fuel as [|fuel IH]; intros j Hj Hf Hbefore; simpl.
  - split; [lia|]. split; [exact Hbefore|lia].
  - destruct ((j <? 10) && (i + j <? BSIZE) && negb (byte_at key j =? 0)
              && negb (byte_at str (i + j) =? 0)
              && (byte_at key j =? byte_at str (i + j))) eqn:E.
    + rewrite !andb_true_iff, !negb_true_iff, !Z.eqb_neq in E.
      destruct E as ((((E1 & E2) & E3) & E4) & E5).
      apply Z.ltb_lt in E1, E2. apply Z.eqb_eq in E5.
      destruct (IH (j + 1)) as (Hr & Hall & Hstop); [lia|lia| |].
      * intros j' Hj'. destruct (Z.eq_dec j' j) as [->|Hne];
          [unfold good; auto|apply Hbefore; lia].
      * split; [lia|]. split; [exact Hall|exact Hstop].
    + split; [lia|]. split; [exact Hbefore|].
      intros _ (G1 & G2 & G3 & G4).
      rewrite !andb_false_iff, !negb_false_iff, !Z.eqb_eq in E.
      rewrite !Z.ltb_ge, Z.eqb_neq in E. lia.
Qed.

Lemma searchKey_test (key str : list Z) (i : Z) :
  0 <= i -> i + 10 < BSIZE ->
  let j := searchKey_match 10 key str i 0 in
  ((j =? strlen key) && (byte_at key j =? 0) && (byte_at str (i + j) =? 0)
   = true <-> record_has_key key str i) /\
  (record_has_key key str i -> j = strlen key).
Proof.
  intros Hi Hfit j.
  destruct (searchKey_match_spec key str i 10 0 ltac:(lia) ltac:(lia)
              ltac:(intros; lia)) as (Hr & Hall & Hstop).
  fold j in Hr, Hall, Hstop.
  destruct (strlen_spec key) as (HL0 & HLin & HLend).
  assert (Hfwd : record_has_key key str i -> j = strlen key).
  { intros (HL & Heq & Hend).
    destruct (Z.lt_trichotomy j (strlen key)) as [Hlt|[He|Hgt]]; [|exact He|].
    - exfalso. apply Hstop; [lia|].
      split; [lia|]. split; [apply HLin; lia|].
      split; [rewrite Heq by lia; apply HLin; lia|].
      symmetry. apply Heq. lia.
    - exfalso. destruct (Hall (strlen key) ltac:(lia)) as (_ & Hk & _).
      contradiction. }
  split; [|exact Hfwd]. split.
  - rewrite !andb_true_iff, !Z.eqb_eq. intros ((Hj & Hk) & Hs).
    split; [lia|]. split; [|rewrite <- Hj; exact Hs].
    intros j' Hj'. destruct (Hall j' ltac:(lia)) as (_ & _ & _ & Heq).
    symmetry. exact Heq.
  - intros Hrec. pose proof (Hfwd Hrec) as Hj. destruct Hrec as (HL & Heq & Hend).
    rewrite !andb_true_iff, !Z.eqb_eq. rewrite Hj. auto.
Qed.

Lemma searchKey_loop_spec (key str : list Z) :
  0 < BSIZE -> BSIZE mod 32 = 0 ->
  forall fuel m,
    0 <= m -> 32 * m <= BSIZE -> BSIZE - 32 * m < 32 * Z.of_nat fuel ->
    (forall k, 0 <= k < m -> ~ record_has_key key str (32 * k)) ->
    exists r, searchKey_loop fuel key str (32 * m) = Some r /\
      ((r = -1 /\
        forall k, 0 <= k -> 32 * k < BSIZE -> ~ record_has_key key str (32 * k)) \/
       (0 <= r < BSIZE /\ r mod 32 = 0 /\ record_has_key key str r /\
        forall k, 0 <= k -> 32 * k < r -> ~ record_has_key key str (32 * k))).
Proof.
  intros Hbs Hmod. apply Z.mod_divide in Hmod; [|lia].
  destruct Hmod as [q Hq].
  induction fuel as [|fuel IH]; intros m Hm Hle Hfuel Hbefore; [lia|].
  cbn [searchKey_loop]. cbv zeta. destruct (32 * m <? BSIZE) eqn:Elt.
  - apply Z.ltb_lt in Elt.
    assert (Hfit : 32 * m + 10 < BSIZE) by lia.
    destruct (searchKey_test key str (32 * m) ltac:(lia) Hfit) as [Htest Hj].
    cbv zeta in Htest, Hj.
    destruct ((searchKey_match 10 key str (32 * m) 0 =? strlen key)
              && (byte_at key (searchKey_match 10 key str (32 * m) 0) =? 0)
              && (byte_at str (32 * m + searchKey_match 10 key str (32 * m) 0) =? 0))
      eqn:E.
    + pose proof (proj1 Htest eq_refl) as Hrec. rewrite (Hj Hrec).
      eexists. split; [reflexivity|]. right.
      replace (32 * m + strlen key - strlen key) with (32 * m) by lia.
      split; [lia|]. split; [rewrite Z.mul_comm; apply Z_mod_mult|].
      split; [exact Hrec|]. intros k Hk Hlt. apply Hbefore. lia.
    + replace (32 * m + 32) with (32 * (m + 1)) by lia.
      apply IH; [lia|lia|lia|].
      intros k Hk. destruct (Z.eq_dec k m) as [->|Hne]; [|apply Hbefore; lia].
      intros Hrec. apply Htest in Hrec. congruence.
  - apply Z.ltb_ge in Elt. eexists. split; [reflexivity|]. left.
    split; [reflexivity|]. intros k Hk Hlt. apply Hbefore. lia.
Qed.

(** X14.  searchKey, for a block size that is a multiple of 32: it returns
    the offset of the first 32-byte record that holds the key (the key has
    at most 10 bytes, the record starts with them and a NUL follows), a
    multiple of 32 below BSIZE; and -1 when no record of the block holds the
    key, as for every key of more than 10 bytes. *)
Theorem searchKey_result (key str : list Z) :
  0 < BSIZE -> BSIZE mod 32 = 0 ->
  exists r, searchKey key str = Some r /\
    ((r = -1 /\
      forall k, 0 <= k -> 32 * k < BSIZE -> ~ record_has_key key str (32 * k)) \/
     (0 <= r < BSIZE /\ r mod 32 = 0 /\ record_has_key key str r /\
      forall k, 0 <= k -> 32 * k < r -> ~ record_has_key key str (32 * k))).
Proof.
  intros Hbs Hmod. unfold searchKey.
  apply (searchKey_loop_spec key str Hbs Hmod
           (S (Z.to_nat (BSIZE / 32 + 1))) 0);
    [lia|lia| |intros k Hk; lia].
  pose proof (Z.div_mod BSIZE 32 ltac:(lia)).
  assert (0 <= BSIZE / 32) by (apply Z.div_pos; lia). lia.
Qed.

End Tags.

Lemma searchEnd_result_witness :
  searchEnd (H := xv6)
    (bytes_of_string "lang" ++ replicate 28 0 ++ bytes_of_string "os") = Some 64.
Proof.
  destruct (searchEnd_result (H := xv6)
              (bytes_of_string "lang" ++ replicate 28 0 ++ bytes_of_string "os"))
    as (r & Heq & _); [reflexivity|reflexivity|].
  rewrite Heq. vm_compute in Heq. symmetry. exact Heq.
Defined.

Lemma searchKey_result_witness :
  searchKey (H := xv6) (bytes_of_string "os")
    (bytes_of_string "lang" ++ replicate 28 0 ++ bytes_of_string "os") = Some 32
  /\ searchKey (H := xv6) (bytes_of_string "la")
       (bytes_of_string "lang" ++ replicate 28 0 ++ bytes_of_string "os")
     = Some (-1).
Proof.
  split.
  - destruct (searchKey_result (H := xv6) (bytes_of_string "os")
                (bytes_of_string "lang" ++ replicate 28 0 ++ bytes_of_string "os"))
      as (r & Heq & _); [reflexivity|reflexivity|].
    rewrite Heq. vm_compute in Heq. symmetry. exact Heq.
  - destruct (searchKey_result (H := xv6) (bytes_of_string "la")
                (bytes_of_string "lang" ++ replicate 28 0 ++ bytes_of_string "os"))
      as (r & Heq & _); [reflexivity|reflexivity|].
    rewrite Heq. vm_compute in Heq. symmetry. exact Heq.
Defined.
(** ** isdirempty *)

Section Isdirempty.
Context `{Params}.

Lemma isdirempty_loop_spec (dp : nat) (s : state) :
  params_ok ->
  let i := iget_slot s dp in
  i_type i <> T_DEV -> 0 <= i_size i <= MAXFILE * BSIZE -> no_holes s i ->
  i_size i mod dirent_size = 0 ->
  forall fuel de off,
    length de = Z.to_nat dirent_size -> 0 <= off ->
    off mod dirent_size = 0 -> (1 <= fuel)%nat ->
    i_size i - off <= (Z.of_nat fuel - 1) * dirent_size ->
    off <= i_size i ->
    (isdirempty_loop fuel dp de off s = Ok 1 s /\
     forall o, off <= o < i_size i -> o mod dirent_size = 0 ->
               dirent_inum (dirent_at s i o) = 0) \/
    (isdirempty_loop fuel dp de off s = Ok 0 s /\
     exists o, off <= o < i_size i /\ o mod dirent_size = 0 /\
               dirent_inum (dirent_at s i o) <> 0).
Proof.
  intros Hok i Ht Hsz Hnh Hsm.
  pose proof (DIRSIZ_pos Hok) as Hd. pose proof (MAXFILE_bytes Hok) as Hmb.
  pose proof (BSIZE_pos Hok) as Hbs.
  assert (Hds : 0 < dirent_size) by (unfold dirent_size; lia).
  induction fuel as [|fuel IH]; intros de off Hde Hoff Hoffm Hf1 Hfuel Hup; [lia|].
  assert (Hstep : isdirempty_loop (S fuel) dp de off s
                  = if off <? i_size i then
                      if get_u16 (dirent_at s i off) 0 =? 0
                      then isdirempty_loop fuel dp (dirent_at s i off)
                             (off + dirent_size) s
                      else Ok 0 s
                    else Ok 1 s).
  { simpl. unfold bind at 1. unfold rd at 1. fold i.
    rewrite u32_small by lia.
    destruct (off <? i_size i) eqn:E; [|reflexivity].
    apply Z.ltb_lt in E.
    pose proof (multiple_step off (i_size i) dirent_size Hds Hoffm Hsm E) as Hfit.
    unfold bind at 1.
    rewrite (readi_entry dp de off s Hok Ht Hsz Hnh Hoff Hfit Hde).
    fold i. cbn [fst snd]. rewrite Z.eqb_refl. cbv beta iota delta [negb].
    destruct (get_u16 (dirent_at s i off) 0 =? 0); reflexivity. }
  rewrite Hstep. clear Hstep.
  destruct (off <? i_size i) eqn:E.
  - apply Z.ltb_lt in E.
    pose proof (multiple_step off (i_size i) dirent_size Hds Hoffm Hsm E) as Hfit.
    destruct (get_u16 (dirent_at s i off) 0 =? 0) eqn:E0.
    + apply Z.eqb_eq in E0.
      assert (Hlen : length (dirent_at s i off) = Z.to_nat dirent_size)
        by (unfold dirent_at; rewrite length_file_bytes; reflexivity).
      assert (Hm' : (off + dirent_size) mod dirent_size = 0).
      { rewrite <- Zplus_mod_idemp_l, Hoffm. simpl. apply Z_mod_same_full. }
      assert (Hf' : (1 <= fuel)%nat) by nia.
      assert (Hfuel' : i_size i - (off + dirent_size)
                       <= (Z.of_nat fuel - 1) * dirent_size) by nia.
      assert (Hoff' : 0 <= off + dirent_size) by lia.
      destruct (IH (dirent_at s i off) (off + dirent_size) Hlen Hoff'
                  Hm' Hf' Hfuel' Hfit) as [[Heq Hall]|[Heq Hex]].
      * left. split; [exact Heq|]. intros o Ho Hom.
        destruct (Z.eq_dec o off) as [->|Hne]; [exact E0|].
        apply Hall; [|exact Hom].
        assert (Hlt : off < o) by lia.
        pose proof (multiple_step off o dirent_size Hds Hoffm Hom Hlt).
        lia.
      * right. split; [exact Heq|]. destruct Hex as (o & Ho & Hom & Hn).
        exists o. split; [lia|]. auto.
    + apply Z.eqb_neq in E0. right. split; [reflexivity|].
      exists off. split; [lia|]. split; [exact Hoffm|exact E0].
  - apply Z.ltb_ge in E. left. split; [reflexivity|]. intros o Ho. lia.
Qed.

(** X15.  isdirempty of sysfile.c, on a directory without holes whose size
    is a multiple of the entry size and covers the entries "." and "..": it
    returns 1 when every entry from the third on has inode number 0, and 0
    when one of them is in use; it changes nothing and does not halt. *)
Theorem isdirempty_result (dp : nat) (s : state) :
  params_ok ->
  let i := iget_slot s dp in
  i_type i <> T_DEV -> 0 <= i_size i <= MAXFILE * BSIZE -> no_holes s i ->
  i_size i mod dirent_size = 0 -> 2 * dirent_size <= i_size i ->
  (isdirempty dp s = Ok 1 s /\
   forall o, 2 * dirent_size <= o < i_size i -> o mod dirent_size = 0 ->
             dirent_inum (dirent_at s i o) = 0) \/
  (isdirempty dp s = Ok 0 s /\
   exists o, 2 * dirent_size <= o < i_size i /\ o mod dirent_size = 0 /\
             dirent_inum (dirent_at s i o) <> 0).
Proof.
  intros Hok i Ht Hsz Hnh Hsm Hdots.
  pose proof (DIRSIZ_pos Hok) as Hd.
  assert (Hds : 0 < dirent_size) by (unfold dirent_size; lia).
  unfold isdirempty. unfold bind at 1. unfold rd at 1. fold i.
  apply (isdirempty_loop_spec dp s Hok Ht Hsz Hnh Hsm);
    [apply length_replicate|lia| |lia| |exact Hdots].
  - apply Z_mod_mult.
  - assert (Hne2 : dirent_size <> 0) by lia.
    pose proof (Z.div_mod (i_size i) dirent_size Hne2) as Hdm2.
    pose proof (Z.mod_pos_bound (i_size i) dirent_size Hds).
    assert (0 <= i_size i / dirent_size) by (apply Z.div_pos; lia).
    replace (Z.of_nat (S (Z.to_nat (i_size i / dirent_size + 1))) - 1)
      with (i_size i / dirent_size + 1) by lia.
    fold i. nia.
Qed.

End Isdirempty.

Lemma isdirempty_result_witness :
  isdirempty (H := xv6) 0 sample_state = Ok 0 sample_state.
Proof.
  destruct (isdirempty_result (H := xv6) 0 sample_state xv6_ok)
    as [[_ Hall]|[Heq _]];
    [vm_compute; discriminate|vm_compute; split; discriminate
    |exact sample_root_no_holes|reflexivity|vm_compute; discriminate| |exact Heq].
  exfalso. specialize (Hall 32).
  assert (Hz : dirent_inum (dirent_at (H := xv6) sample_state
                              (iget_slot sample_state 0) 32) = 2)
    by (vm_compute; reflexivity).
  rewrite Hall in Hz; [discriminate|vm_compute; split; [discriminate|reflexivity]
                      |reflexivity].
Defined.
(** ** ialloc: the first free inode record *)

Section Ialloc.
Context `{Params}.

Lemma byte_at_replicate_0 (n : nat) (p : Z) : byte_at (replicate n 0) p = 0.
Proof.
  unfold byte_at.
  destruct (replicate n 0 !! Z.to_nat p) as [x|] eqn:E; [|reflexivity].
  apply lookup_replicate in E. destruct E as [-> _]. reflexivity.
Qed.

Lemma length_fresh_dinode (data : list Z) (inum type : Z) :
  params_ok -> length data = Z.to_nat BSIZE ->
  length (fresh_dinode data inum type) = length data.
Proof.
  intros Hok Hl. pose proof (dinode_off_range inum Hok) as [Ho Hb].
  pose proof (NDIRECT_nonneg Hok) as Hnd.
  unfold fresh_dinode. rewrite length_put_u16.
  apply length_buf_write; [exact Ho|].
  rewrite length_replicate. unfold dinode_size in *. lia.
Qed.

(** The bytes of the block outside the record stay. *)
Lemma byte_at_fresh_dinode_out (data : list Z) (inum type p : Z) :
  params_ok -> length data = Z.to_nat BSIZE -> 0 <= p ->
  p < dinode_off inum \/ dinode_off inum + dinode_size <= p ->
  byte_at (fresh_dinode data inum type) p = byte_at data p.
Proof.
  intros Hok Hl Hp Hout. pose proof (dinode_off_range inum Hok) as [Ho Hb].
  pose proof (NDIRECT_nonneg Hok) as Hnd.
  assert (Hds : 2 <= dinode_size) by (unfold dinode_size; lia).
  unfold fresh_dinode.
  rewrite byte_at_put_u16_ne by lia.
  rewrite byte_at_buf_write;
    [|exact Ho|rewrite length_replicate; lia|exact Hp].
  rewrite length_replicate.
  replace (Z.of_nat (Z.to_nat dinode_size)) with dinode_size by lia.
  destruct (Z.leb_spec (dinode_off inum) p);
    destruct (Z.ltb_spec p (dinode_off inum + dinode_size));
    simpl; try reflexivity; lia.
Qed.

(** The record behind its type field is zero. *)
Lemma byte_at_fresh_dinode_in (data : list Z) (inum type p : Z) :
  params_ok -> length data = Z.to_nat BSIZE ->
  dinode_off inum + 2 <= p < dinode_off inum + dinode_size ->
  byte_at (fresh_dinode data inum type) p = 0.
Proof.
  intros Hok Hl Hp. pose proof (dinode_off_range inum Hok) as [Ho Hb].
  pose proof (NDIRECT_nonneg Hok) as Hnd.
  assert (Hds : 2 <= dinode_size) by (unfold dinode_size; lia).
  unfold fresh_dinode.
  rewrite byte_at_put_u16_ne by lia.
  rewrite byte_at_buf_write;
    [|exact Ho|rewrite length_replicate; lia|lia].
  rewrite length_replicate.
  replace (Z.of_nat (Z.to_nat dinode_size)) with dinode_size by lia.
  destruct (Z.leb_spec (dinode_off inum) p);
    destruct (Z.ltb_spec p (dinode_off inum + dinode_size));
    simpl; try lia.
  apply byte_at_replicate_0.
Qed.

Lemma get_u16_fresh_dinode (data : list Z) (inum type : Z) :
  params_ok -> length data = Z.to_nat BSIZE ->
  get_u16 (fresh_dinode data inum type) (dinode_off inum) = type mod 2 ^ 16.
Proof.
  intros Hok Hl. pose proof (dinode_off_range inum Hok) as [Ho Hb].
  pose proof (NDIRECT_nonneg Hok) as Hnd.
  assert (Hds : 2 <= dinode_size) by (unfold dinode_size; lia).
  unfold fresh_dinode. apply get_u16_put_u16_eq; [exact Ho|].
  rewrite length_buf_write; [|exact Ho|rewrite length_replicate; lia].
  unfold dinode_size in *. lia.
Qed.

(** The record ialloc leaves on the disk, as ilock would load it. *)
Lemma load_fresh_dinode (data : list Z) (inum type : Z) (i0 : inode) :
  params_ok -> length data = Z.to_nat BSIZE -> - 2 ^ 15 <= type < 2 ^ 15 ->
  i_inum i0 = inum ->
  let d := load_dinode (fresh_dinode data inum type) i0 in
  i_type d = type /\ i_major d = 0 /\ i_minor d = 0 /\ i_nlink d = 0 /\
  i_size d = 0 /\ i_addrs d = replicate (Z.to_nat (NDIRECT + 1)) 0.
Proof.
  intros Hok Hl Ht Hi. pose proof (dinode_off_range inum Hok) as [Ho Hb].
  pose proof (NDIRECT_nonneg Hok) as Hnd.
  cbv zeta. unfold load_dinode.
  cbn [i_type i_major i_minor i_nlink i_size i_addrs]. rewrite Hi.
  assert (Hz : forall p, dinode_off inum + 2 <= p < dinode_off inum + dinode_size ->
                 byte_at (fresh_dinode data inum type) p = 0).
  { intros p Hp. apply byte_at_fresh_dinode_in; assumption. }
  unfold dinode_size in Hz.
  split; [rewrite get_u16_fresh_dinode by assumption; apply s16_small; exact Ht|].
  split; [unfold get_u16; rewrite !Hz by lia; reflexivity|].
  split; [unfold get_u16; rewrite !Hz by lia; reflexivity|].
  split; [unfold get_u16; rewrite !Hz by lia; reflexivity|].
  split; [unfold get_u32; rewrite !Hz by lia; reflexivity|].
  unfold get_addrs. change (map ?f ?l) with (f <$> l).
  apply list_eq. intros k.
  rewrite list_lookup_fmap.
  destruct (decide (k < Z.to_nat (NDIRECT + 1))%nat) as [Hk|Hk].
  - rewrite lookup_seqZ_lt by lia. simpl.
    rewrite lookup_replicate_2 by exact Hk.
    unfold get_u32. rewrite !Hz by lia. reflexivity.
  - rewrite lookup_seqZ_ge by lia. simpl.
    symmetry. apply lookup_replicate_None. lia.
Qed.

(** The scan of ialloc from [k]: with every record from [k] on in use it
    runs to the panic, leaving the state alone. *)
Lemma ialloc_loop_full (fuel : nat) (dev type : Z) (sb : superblock) (k : Z)
    (s : state) :
  0 <= k < 2 ^ 32 -> sb_ninodes sb < 2 ^ 32 ->
  Z.max 0 (sb_ninodes sb - k) < Z.of_nat fuel ->
  (forall j, k <= j < sb_ninodes sb -> i_type (disk_inode s dev j) <> 0) ->
  ialloc_loop fuel dev type sb k s = Panic "ialloc: no inodes" s.
Proof.
  revert k. induction fuel as [|fuel IH]; intros k Hk Hn Hf Hall; [lia|].
  cbn [ialloc_loop].
  destruct (Z.ltb_spec (u32 k) (sb_ninodes sb)) as [Hlt|Hge].
  - rewrite u32_small in Hlt by exact Hk.
    unfold bind at 1. unfold bread at 1.
    pose proof (Hall k ltac:(lia)) as Hty.
    unfold disk_inode, load_dinode in Hty. cbn [i_type i_inum] in Hty.
    apply Z.eqb_neq in Hty. rewrite Hty.
    unfold bind at 1. unfold brelse, ret.
    apply IH; [lia|exact Hn|lia|]. intros j Hj. apply Hall. lia.
  - reflexivity.
Qed.

(** With the first free record at [inum], the scan from [k] ends in the
    write of that record and the iget. *)
Lemma ialloc_loop_first (fuel : nat) (dev type : Z) (sb : superblock)
    (k inum : Z) (s : state) :
  0 <= k -> sb_ninodes sb < 2 ^ 32 ->
  k <= inum < sb_ninodes sb -> inum - k < Z.of_nat fuel ->
  i_type (disk_inode s dev inum) = 0 ->
  (forall j, k <= j < inum -> i_type (disk_inode s dev j) <> 0) ->
  ialloc_loop fuel dev type sb k s
  = (bwrite dev (IBLOCK inum)
       (fresh_dinode (block s dev (IBLOCK inum)) inum type) ;;;
     brelse ;;; iget dev inum) s.
Proof.
  revert k. induction fuel as [|fuel IH]; intros k Hk Hn Hin Hf Hfree Hused;
    [lia|].
  cbn [ialloc_loop].
  assert (Hu : u32 k = k) by (apply u32_small; lia).
  rewrite Hu.
  destruct (Z.ltb_spec k (sb_ninodes sb)) as [Hlt|Hge]; [|lia].
  unfold bind at 1. unfold bread at 1.
  destruct (Z.eq_dec k inum) as [->|Hne].
  - unfold disk_inode, load_dinode in Hfree. cbn [i_type i_inum] in Hfree.
    apply Z.eqb_eq in Hfree. rewrite Hfree. reflexivity.
  - pose proof (Hused k ltac:(lia)) as Hty.
    unfold disk_inode, load_dinode in Hty. cbn [i_type i_inum] in Hty.
    apply Z.eqb_neq in Hty. rewrite Hty.
    unfold bind at 1. unfold brelse, ret.
    apply IH; [lia|exact Hn|lia|lia|exact Hfree|].
    intros j Hj. apply Hused. lia.
Qed.


End Ialloc.

(** ** itrunc: the blocks of the file are freed *)

Lemma wpx_conj {A} P P' (c : M A) (Q Q' : A -> state -> Prop) s :
  wpx P c Q s -> wpx P' c Q' s ->
  wpx P' c (fun a s' => Q a s' /\ Q' a s') s.
Proof. unfold wpx. destruct (c s); tauto. Qed.

Section Frees.
Context `{Params}.

Lemma frees_refl (dev : Z) (s : state) : frees dev s (fun _ => False) s.
Proof.
  split; [reflexivity|]. split; [intros x []|].
  split; [intros x _ _; reflexivity|intros y _ _; reflexivity].
Qed.

Lemma frees_ext (dev : Z) (s : state) (F F' : Z -> Prop) (s' : state) :
  (forall x, F x <-> F' x) -> frees dev s F s' -> frees dev s F' s'.
Proof.
  intros He (Hsb & Hf & Hb & Hblk).
  split; [exact Hsb|]. split; [intros x Hx; apply Hf, He, Hx|].
  split.
  - intros x Hr Hx. apply Hb; [exact Hr|]. intros HF. apply Hx, He, HF.
  - intros y Hy Hnb. apply Hblk; [|exact Hnb]. intros HF. apply Hy, He, HF.
Qed.

(** Only the disk counts. *)
Lemma frees_disk (dev : Z) (s : state) (F : Z -> Prop) (s1 s2 : state) :
  disk s2 = disk s1 -> frees dev s F s1 -> frees dev s F s2.
Proof.
  intros Hd (Hsb & Hf & Hb & Hblk).
  assert (Hbl : forall y, block s2 dev y = block s1 dev y)
    by (intros y; unfold block; rewrite Hd; reflexivity).
  assert (Hs : sb_of s2 dev = sb_of s1 dev)
    by (unfold sb_of; rewrite Hbl; reflexivity).
  assert (Hbi : forall x, bit_in_use s2 dev x = bit_in_use s1 dev x)
    by (intros x; unfold bit_in_use; rewrite Hs, Hbl; reflexivity).
  split; [rewrite Hs; exact Hsb|].
  split; [intros x Hx; rewrite Hbi, Hbl; apply Hf, Hx|].
  split.
  - intros x Hr Hx. rewrite Hbi. apply Hb; assumption.
  - intros y Hy Hnb. rewrite Hbl. apply Hblk; assumption.
Qed.

(** One more block is freed: a block of the device that is in use, is not
    the superblock and is no bitmap block. *)
Lemma frees_step (dev : Z) (s : state) (F : Z -> Prop) (s0 : state) (b : Z) :
  params_ok -> 0 <= sb_ninodes (sb_of s dev) ->
  (forall x, F x ->
     0 <= x < sb_size (sb_of s dev) /\ ~ is_bitmap_block s dev x) ->
  frees dev s F s0 ->
  1 < b < sb_size (sb_of s dev) -> ~ F b -> ~ is_bitmap_block s dev b ->
  bit_in_use s dev b = true ->
  wpx no_panic (bfree dev b)
    (fun _ s1 => frees dev s (fun x => F x \/ x = b) s1 /\
                 icache s1 = icache s0 /\ trace s1 = trace s0 /\
                 cwd s1 = cwd s0) s0.
Proof.
  intros Hok Hnin Hgood (Hsb & Hf & Hbits & Hblk) Hb HnF Hnb Huse.
  set (n := sb_ninodes (sb_of s dev)) in *.
  assert (Hbb : forall x, 0 <= x < sb_size (sb_of s dev) ->
                  is_bitmap_block s dev (BBLOCK x n)).
  { intros x Hx. exists x. split; [exact Hx|reflexivity]. }
  assert (H3 : forall x, 0 <= x -> 3 <= BBLOCK x n).
  { intros x Hx. unfold BBLOCK.
    pose proof (Z.div_pos x BPB Hx (BPB_pos Hok)).
    pose proof (Z.div_pos n IPB Hnin (IPB_pos Hok)). lia. }
  assert (Hn0 : sb_ninodes (sb_of s0 dev) = n) by (rewrite Hsb; reflexivity).
  assert (Hb0 : 0 <= b) by lia.
  assert (Hb1 : b <> 1) by lia.
  assert (Hbr : 0 <= b < sb_size (sb_of s dev)) by lia.
  assert (Huse0 : bit_in_use s0 dev b = true)
    by (rewrite Hbits; [exact Huse|exact Hbr|exact HnF]).
  assert (Hbm : b <> BBLOCK b (sb_ninodes (sb_of s0 dev))).
  { rewrite Hn0. intros E. apply Hnb. rewrite E. apply Hbb. exact Hbr. }
  assert (Hnin0 : 0 <= sb_ninodes (sb_of s0 dev)) by (rewrite Hn0; exact Hnin).
  destruct (bfree_returns dev b s0 Hok Hnin0 Hb0 Hb1 Hbm Huse0)
    as (s1 & Heq & Hz & Hclr & Hbits1 & Hblk1 & Hc & Ht & Hw).
  rewrite Hn0 in Hbits1, Hblk1.
  eapply wpx_eq; [exact Heq|].
  split; [|split; [exact Hc|split; [exact Ht|exact Hw]]].
  split.
  { unfold sb_of. rewrite Hblk1; [exact Hsb|lia|].
    pose proof (H3 b Hb0). lia. }
  split.
  { intros x [HF|Hx].
    - destruct (Hgood x HF) as [Hr Hxb]. destruct (Hf x HF) as [Hf1 Hf2].
      assert (Hne : x <> b) by (intros E; apply HnF; rewrite <- E; exact HF).
      split.
      + rewrite Hbits1; [exact Hf1|lia|exact Hne|].
        intros E. apply Hnb. rewrite <- E. apply Hbb. exact Hr.
      + rewrite Hblk1; [exact Hf2|exact Hne|].
        intros E. apply Hxb. rewrite E. apply Hbb. exact Hbr.
    - subst x. split; [exact Hclr|exact Hz]. }
  split.
  { intros x Hr Hx.
    assert (Hne : x <> b) by (intros E; apply Hx; right; exact E).
    rewrite Hbits1; [|lia|exact Hne|].
    - apply Hbits; [exact Hr|]. intros HF. apply Hx. left. exact HF.
    - intros E. apply Hnb. rewrite <- E. apply Hbb. exact Hr. }
  intros y Hy Hyb.
  assert (Hne : y <> b) by (intros E; apply Hy; right; exact E).
  rewrite Hblk1; [|exact Hne|].
  - apply Hblk; [|exact Hyb]. intros HF. apply Hy. left. exact HF.
  - intros E. apply Hyb. rewrite E. apply Hbb. exact Hbr.
Qed.

End Frees.

Section FileBlocks.
Context `{Params}.
Variables (s : state) (i : inode).
Hypothesis Hok : params_ok.
Hypothesis Hwf : file_wf s i.
Hypothesis Hnin : 0 <= sb_ninodes (sb_of s (i_dev i)).
Hypothesis Hrange :
  forall x, file_block s i x -> 1 < x < sb_size (sb_of s (i_dev i)).

Lemma block_addr_direct (k : Z) :
  k < NDIRECT -> block_addr s i k = addr_at (i_addrs i) k.
Proof.
  intros Hk. unfold block_addr.
  destruct (Z.ltb_spec k NDIRECT); [reflexivity|lia].
Qed.

Lemma block_addr_indirect (j : Z) :
  0 <= j -> addr_at (i_addrs i) NDIRECT <> 0 ->
  block_addr s i (NDIRECT + j)
  = get_u32 (block s (i_dev i) (addr_at (i_addrs i) NDIRECT)) (4 * j).
Proof.
  intros Hj Hne. unfold block_addr.
  destruct (Z.ltb_spec (NDIRECT + j) NDIRECT); [lia|].
  destruct (Z.eqb_spec (addr_at (i_addrs i) NDIRECT) 0); [contradiction|].
  f_equal. lia.
Qed.

Lemma block_addr_mapped (k : Z) :
  0 <= k < MAXFILE -> block_addr s i k <> 0 -> k * BSIZE < i_size i.
Proof. intros Hk Hne. apply (fw_mapped _ _ Hwf k Hk). exact Hne. Qed.

Lemma block_below_size (k : Z) :
  0 <= k -> k * BSIZE < i_size i ->
  0 <= k < MAXFILE /\ block_addr s i k <> 0.
Proof.
  intros Hk Hs. pose proof (fw_size _ _ Hwf) as Hsz.
  pose proof (BSIZE_pos Hok) as Hbs.
  assert (Hkm : 0 <= k < MAXFILE) by nia.
  split; [exact Hkm|]. apply (fw_mapped _ _ Hwf k Hkm). exact Hs.
Qed.

Lemma blocks_below_good (m x : Z) :
  m <= MAXFILE -> blocks_below s i m x ->
  0 <= x < sb_size (sb_of s (i_dev i)) /\ ~ is_bitmap_block s (i_dev i) x.
Proof.
  intros Hm (k & Hk & Hx & Hne). subst x.
  assert (Hk0 : 0 <= k) by lia.
  assert (Hs : k * BSIZE < i_size i) by (apply block_addr_mapped; [lia|exact Hne]).
  destruct (fw_data _ _ Hwf k Hk0 Hs) as (_ & Hnb & _).
  split; [|exact Hnb].
  assert (Hr : 1 < block_addr s i k < sb_size (sb_of s (i_dev i))).
  { apply Hrange. left. exists k. split; [exact Hk0|]. split; [exact Hs|reflexivity]. }
  lia.
Qed.

Lemma blocks_below_fresh (k : Z) :
  0 <= k < MAXFILE -> block_addr s i k <> 0 ->
  ~ blocks_below s i k (block_addr s i k).
Proof.
  intros Hk Hne (j & Hj & E & _).
  pose proof (BSIZE_pos Hok) as Hbs.
  assert (Hs : k * BSIZE < i_size i) by (apply block_addr_mapped; assumption).
  assert (Hsj : j * BSIZE < i_size i) by nia.
  assert (Hjk : j = k).
  { apply (fw_inj _ _ Hwf j k); [lia|lia|exact Hsj|exact Hs|]. symmetry. exact E. }
  lia.
Qed.

Lemma blocks_below_succ_zero (k : Z) :
  block_addr s i k = 0 ->
  forall x, blocks_below s i k x <-> blocks_below s i (k + 1) x.
Proof.
  intros Hz x. split.
  - intros (j & Hj & E & Hne). exists j. split; [lia|]. split; assumption.
  - intros (j & Hj & E & Hne).
    destruct (Z.eq_dec j k) as [Hjk|Hjk].
    + subst j. exfalso. apply Hne. rewrite E. exact Hz.
    + exists j. split; [lia|]. split; assumption.
Qed.

Lemma blocks_below_succ (k : Z) :
  0 <= k -> block_addr s i k <> 0 ->
  forall x, (blocks_below s i k x \/ x = block_addr s i k)
            <-> blocks_below s i (k + 1) x.
Proof.
  intros Hk Hne x. split.
  - intros [(j & Hj & E & Hn)|E].
    + exists j. split; [lia|]. split; assumption.
    + exists k. split; [lia|]. split; [exact E|]. rewrite E. exact Hne.
  - intros (j & Hj & E & Hn).
    destruct (Z.eq_dec j k) as [Hjk|Hjk].
    + right. subst j. exact E.
    + left. exists j. split; [lia|]. split; assumption.
Qed.

(** The step of both loops of itrunc: block [k] of the file is freed. *)
Lemma free_block_step (k : Z) (s0 : state) :
  0 <= k < MAXFILE -> block_addr s i k <> 0 ->
  frees (i_dev i) s (blocks_below s i k) s0 ->
  wpx no_panic (bfree (i_dev i) (block_addr s i k))
    (fun _ s1 => frees (i_dev i) s (blocks_below s i (k + 1)) s1 /\
                 icache s1 = icache s0 /\ trace s1 = trace s0 /\
                 cwd s1 = cwd s0) s0.
Proof.
  intros Hk Hne Hfr.
  assert (Hk0 : 0 <= k) by lia.
  assert (Hs : k * BSIZE < i_size i) by (apply block_addr_mapped; assumption).
  destruct (fw_data _ _ Hwf k Hk0 Hs) as (Huse & Hnb & _).
  eapply wpx_mono.
  - apply (frees_step (i_dev i) s (blocks_below s i k) s0 (block_addr s i k)
             Hok Hnin).
    + intros x Hx. apply (blocks_below_good k); [lia|exact Hx].
    + exact Hfr.
    + apply Hrange. left. exists k.
      split; [exact Hk0|]. split; [exact Hs|reflexivity].
    + apply blocks_below_fresh; assumption.
    + exact Hnb.
    + exact Huse.
  - intros u s1 (Hfr1 & Hrest). split; [|exact Hrest].
    eapply frees_ext; [|exact Hfr1]. apply blocks_below_succ; assumption.
Qed.

Lemma file_block_no_indirect :
  addr_at (i_addrs i) NDIRECT = 0 ->
  forall x, blocks_below s i NDIRECT x <-> file_block s i x.
Proof.
  intros Hz x. pose proof (MAXFILE_sum Hok) as Hmax.
  pose proof (NINDIRECT_nonneg Hok) as Hni. split.
  - intros (k & Hk & Hx & Hne). subst x. left. exists k.
    split; [lia|]. split; [|reflexivity].
    apply block_addr_mapped; [lia|exact Hne].
  - intros [(k & Hk & Hs & Hx)|[Hne E]]; [|congruence]. subst x.
    destruct (block_below_size k Hk Hs) as [Hkm Hne].
    exists k. split; [|split; [reflexivity|exact Hne]].
    split; [lia|]. destruct (Z_lt_le_dec k NDIRECT) as [Hlt|Hge]; [exact Hlt|].
    exfalso. apply Hne. unfold block_addr.
    destruct (Z.ltb_spec k NDIRECT); [lia|].
    rewrite Hz. reflexivity.
Qed.

Lemma file_block_indirect :
  addr_at (i_addrs i) NDIRECT <> 0 ->
  forall x, (blocks_below s i MAXFILE x \/ x = addr_at (i_addrs i) NDIRECT)
            <-> file_block s i x.
Proof.
  intros Hnz x. split.
  - intros [(k & Hk & Hx & Hne)|E].
    + subst x. left. exists k. split; [lia|]. split; [|reflexivity].
      apply block_addr_mapped; [lia|exact Hne].
    + right. split; [rewrite E; exact Hnz|exact E].
  - intros [(k & Hk & Hs & Hx)|[Hne E]]; [|right; exact E]. subst x.
    destruct (block_below_size k Hk Hs) as [Hkm Hne].
    left. exists k. split; [exact Hkm|]. split; [reflexivity|exact Hne].
Qed.

(** The indirect block is freed after the blocks it lists. *)
Lemma free_indirect (s0 : state) :
  addr_at (i_addrs i) NDIRECT <> 0 ->
  frees (i_dev i) s (blocks_below s i MAXFILE) s0 ->
  wpx no_panic (bfree (i_dev i) (addr_at (i_addrs i) NDIRECT))
    (fun _ s1 => frees (i_dev i) s (file_block s i) s1 /\
                 icache s1 = icache s0 /\ trace s1 = trace s0 /\
                 cwd s1 = cwd s0) s0.
Proof.
  intros Hnz Hfr.
  destruct (fw_ind _ _ Hwf Hnz) as (Huse & Hnb & _).
  eapply wpx_mono.
  - apply (frees_step (i_dev i) s (blocks_below s i MAXFILE) s0
             (addr_at (i_addrs i) NDIRECT) Hok Hnin).
    + intros x Hx. apply (blocks_below_good MAXFILE); [lia|exact Hx].
    + exact Hfr.
    + apply Hrange. right. split; [exact Hnz|reflexivity].
    + intros (k & Hk & E & Hne).
      assert (Hk0 : 0 <= k) by lia.
      assert (Hs : k * BSIZE < i_size i).
      { apply block_addr_mapped; [exact Hk|]. rewrite <- E. exact Hnz. }
      destruct (fw_data _ _ Hwf k Hk0 Hs) as (_ & _ & _ & Hni).
      apply Hni. symmetry. exact E.
    + exact Hnb.
    + exact Huse.
  - intros u s1 (Hfr1 & Hrest). split; [|exact Hrest].
    eapply frees_ext; [|exact Hfr1]. apply file_block_indirect. exact Hnz.
Qed.

(** A write of the inode record leaves the superblock, the bitmap and the
    freed blocks alone. *)
Lemma freed_write (s2 s' : state) :
  0 <= i_inum i ->
  sb_of s2 (i_dev i) = sb_of s (i_dev i) ->
  (forall x, file_block s i x ->
     bit_in_use s2 (i_dev i) x = false /\
     block s2 (i_dev i) x = replicate (Z.to_nat BSIZE) 0) ->
  (forall x, 0 <= x < sb_size (sb_of s (i_dev i)) -> ~ file_block s i x ->
     bit_in_use s2 (i_dev i) x = bit_in_use s (i_dev i) x) ->
  (forall y, y <> IBLOCK (i_inum i) ->
     block s' (i_dev i) y = block s2 (i_dev i) y) ->
  sb_of s' (i_dev i) = sb_of s (i_dev i) /\
  (forall x, file_block s i x ->
     bit_in_use s' (i_dev i) x = false /\
     block s' (i_dev i) x = replicate (Z.to_nat BSIZE) 0) /\
  (forall x, 0 <= x < sb_size (sb_of s (i_dev i)) -> ~ file_block s i x ->
     bit_in_use s' (i_dev i) x = bit_in_use s (i_dev i) x).
Proof.
  intros Hinum Hsb Hf Hbits Hw.
  destruct (fw_iblock _ _ Hwf) as [_ Hinb].
  assert (Hib : 2 <= IBLOCK (i_inum i)).
  { unfold IBLOCK. pose proof (Z.div_pos (i_inum i) IPB Hinum (IPB_pos Hok)). lia. }
  assert (Hsb' : sb_of s' (i_dev i) = sb_of s (i_dev i)).
  { unfold sb_of. rewrite Hw by lia. exact Hsb. }
  assert (Hbit' : forall x, 0 <= x < sb_size (sb_of s (i_dev i)) ->
            bit_in_use s' (i_dev i) x = bit_in_use s2 (i_dev i) x).
  { intros x Hx. unfold bit_in_use. rewrite Hsb', Hsb. rewrite Hw; [reflexivity|].
    intros E. apply Hinb. exists x. split; [exact Hx|]. symmetry. exact E. }
  split; [exact Hsb'|]. split.
  - intros x Hx. destruct (Hf x Hx) as [Hf1 Hf2].
    pose proof (Hrange x Hx) as Hr.
    split; [rewrite Hbit' by lia; exact Hf1|].
    rewrite Hw; [exact Hf2|].
    destruct Hx as [(k & Hk & Hs & Hx)|[Hne E]].
    + subst x. destruct (fw_data _ _ Hwf k Hk Hs) as (_ & _ & Hni & _). exact Hni.
    + subst x. destruct (fw_ind _ _ Hwf Hne) as (_ & _ & Hni). exact Hni.
  - intros x Hr Hx. rewrite Hbit' by exact Hr. apply Hbits; assumption.
Qed.

End FileBlocks.

Section ItruncFrees.
Context `{Params}.

(** What itrunc does to the disk: the blocks of the file are freed. *)
Lemma itrunc_freed (ip : nat) (s : state) :
  params_ok -> (ip < length (icache s))%nat ->
  let i := iget_slot s ip in
  file_wf s i -> 0 <= sb_ninodes (sb_of s (i_dev i)) -> 0 <= i_inum i ->
  (forall x, file_block s i x -> 1 < x < sb_size (sb_of s (i_dev i))) ->
  wpx no_panic (itrunc ip)
    (fun _ s' =>
       sb_of s' (i_dev i) = sb_of s (i_dev i) /\
       (forall x, file_block s i x ->
          bit_in_use s' (i_dev i) x = false /\
          block s' (i_dev i) x = replicate (Z.to_nat BSIZE) 0) /\
       (forall x, 0 <= x < sb_size (sb_of s (i_dev i)) -> ~ file_block s i x ->
          bit_in_use s' (i_dev i) x = bit_in_use s (i_dev i) x)) s.
Proof.
  intros Hok Hlt i Hwf Hnin Hinum Hrange.
  pose proof (NDIRECT_nonneg Hok) as Hnd.
  pose proof (NINDIRECT_nonneg Hok) as Hnind.
  pose proof (MAXFILE_sum Hok) as Hmax.
  set (dev := i_dev i) in *.
  unfold itrunc. wstep.
  (* the loop over the direct addresses *)
  apply wpx_bind. eapply wpx_mono.
  { apply (wpx_forM_idx no_panic
      (fun m s0 =>
         (exists Am,
            icache s0 = <[ip := with_addrs Am i]> (icache s) /\
            forall k, Z.of_nat m <= k ->
              addr_at Am k = addr_at (i_addrs i) k) /\
         frees dev s (blocks_below s i (Z.of_nat m)) s0)).
    - split.
      + exists (i_addrs i). split; [|intros k _; reflexivity].
        rewrite icache_add_event, with_addrs_id. symmetry.
        apply list_insert_id.
        unfold i, iget_slot. destruct (icache s !! ip) eqn:E; [reflexivity|].
        apply lookup_ge_None in E. lia.
      + apply (frees_disk dev s _ s); [reflexivity|].
        eapply frees_ext; [|apply frees_refl].
        intros x. split; [intros []|intros (k & Hk & _); lia].
    - intros m k s0 Hk ((Am & Hc & Hrest) & Hfr).
      apply lookup_seqZ in Hk. destruct Hk as [Hk Hm].
      rewrite Z.add_0_l in Hk. subst k.
      assert (Hi0 : iget_slot s0 ip = with_addrs Am i)
        by (eapply iget_slot_insert; eauto).
      assert (Hba : block_addr s i (Z.of_nat m)
                    = addr_at (i_addrs i) (Z.of_nat m))
        by (apply block_addr_direct; lia).
      assert (Ham : addr_at Am (Z.of_nat m) = block_addr s i (Z.of_nat m))
        by (rewrite Hba; apply Hrest; lia).
      wstep. rewrite Hi0.
      change (i_addrs (id (with_addrs Am i))) with Am.
      change (i_dev (id (with_addrs Am i))) with dev.
      rewrite Ham.
      rewrite Nat2Z.inj_succ. unfold Z.succ.
      destruct (Z.eqb_spec (block_addr s i (Z.of_nat m)) 0) as [Ez|Enz].
      + apply wpx_ret. split.
        * exists Am. split; [exact Hc|]. intros k Hk. apply Hrest. lia.
        * eapply frees_ext; [|exact Hfr].
          apply blocks_below_succ_zero. exact Ez.
      + apply wpx_bind. eapply wpx_mono.
        { apply (free_block_step s i); try assumption; lia. }
        intros u s1 (Hfr1 & Hc1 & _). cbv beta. apply wpx_modify_end.
        assert (Hi1 : iget_slot s1 ip = with_addrs Am i)
          by (unfold iget_slot; rewrite Hc1; exact Hi0).
        rewrite Hi1. split.
        * exists (<[Z.to_nat (Z.of_nat m) := 0]> Am). split.
          -- rewrite icache_set_slot, Hc1, Hc, list_insert_insert_eq.
             reflexivity.
          -- intros k Hk. rewrite addr_at_insert_zero by lia.
             destruct (Z.eqb_spec (Z.of_nat m) k); [lia|]. apply Hrest. lia.
        * apply (frees_disk dev s _ s1); [reflexivity|exact Hfr1]. }
  intros u s1 ((A1 & Hc1 & Hrest1) & Hfr1). cbv beta.
  rewrite length_seqZ in Hrest1, Hfr1.
  rewrite Z2Nat.id in Hrest1, Hfr1 by exact Hnd.
  assert (Hi1 : iget_slot s1 ip = with_addrs A1 i)
    by (eapply iget_slot_insert; eauto).
  wstep. rewrite Hi1.
  change (i_addrs (id (with_addrs A1 i))) with A1.
  change (i_dev (id (with_addrs A1 i))) with dev.
  rewrite (Hrest1 NDIRECT) by lia.
  (* the indirect block *)
  apply wpx_bind.
  apply (wpx_mono _ _
    (fun _ s2 =>
       (exists A2, icache s2 = <[ip := with_addrs A2 i]> (icache s)) /\
       frees dev s (file_block s i) s2)).
  { destruct (Z.eqb_spec (addr_at (i_addrs i) NDIRECT) 0) as [Ez|Enz].
    - apply wpx_ret. split; [exists A1; exact Hc1|].
      eapply frees_ext; [|exact Hfr1].
      apply file_block_no_indirect; assumption.
    - wstep.
      assert (Hdata : block s1 dev (addr_at (i_addrs i) NDIRECT)
                      = block s dev (addr_at (i_addrs i) NDIRECT)).
      { destruct Hfr1 as (_ & _ & _ & Hblk). apply Hblk.
        - intros (k & Hk & E & Hne).
          assert (Hk0 : 0 <= k) by lia.
          assert (Hs : k * BSIZE < i_size i).
          { apply (block_addr_mapped s i Hwf); [lia|]. rewrite <- E. exact Enz. }
          destruct (fw_data _ _ Hwf k Hk0 Hs) as (_ & _ & _ & Hni).
          apply Hni. symmetry. exact E.
        - apply (fw_ind _ _ Hwf Enz). }
      rewrite Hdata.
      apply wpx_bind. eapply wpx_mono.
      { apply (wpx_forM_idx no_panic
          (fun m s0 =>
             icache s0 = icache s1 /\
             frees dev s (blocks_below s i (NDIRECT + Z.of_nat m)) s0)).
        - split; [reflexivity|]. rewrite Z.add_0_r. exact Hfr1.
        - intros m j s0 Hj (Hc0 & Hfr0).
          apply lookup_seqZ in Hj. destruct Hj as [Hj Hm].
          rewrite Z.add_0_l in Hj. subst j. cbv zeta.
          rewrite <- (block_addr_indirect s i (Z.of_nat m)) by (lia || exact Enz).
          rewrite Nat2Z.inj_succ. unfold Z.succ. rewrite Z.add_assoc.
          destruct (Z.eqb_spec (block_addr s i (NDIRECT + Z.of_nat m)) 0)
            as [Ez|Enz'].
          + apply wpx_ret. split; [exact Hc0|].
            eapply frees_ext; [|exact Hfr0].
            apply blocks_below_succ_zero. exact Ez.
          + eapply wpx_mono.
            { apply (free_block_step s i); try assumption; lia. }
            intros u' s' (Hfr' & Hc' & _). cbv beta.
            split; [congruence|exact Hfr']. }
      intros u' s2 (Hc2 & Hfr2). cbv beta.
      rewrite length_seqZ in Hfr2. rewrite Z2Nat.id in Hfr2 by exact Hnind.
      rewrite <- Hmax in Hfr2.
      wstep.
      apply wpx_bind. eapply wpx_mono.
      { apply (free_indirect s i); assumption. }
      intros u'' s3 (Hfr3 & Hc3 & _). cbv beta. apply wpx_modify_end.
      assert (Hi3 : iget_slot s3 ip = with_addrs A1 i)
        by (unfold iget_slot; rewrite Hc3, Hc2; exact Hi1).
      rewrite Hi3. split.
      + exists (<[Z.to_nat NDIRECT := 0]> A1).
        rewrite icache_set_slot, Hc3, Hc2, Hc1, list_insert_insert_eq.
        reflexivity.
      + apply (frees_disk dev s _ s3); [reflexivity|exact Hfr3]. }
  intros u2 s2 ((A2 & Hc2) & Hfr2). cbv beta.
  assert (Hi2 : iget_slot s2 ip = with_addrs A2 i)
    by (eapply iget_slot_insert; eauto).
  wstep. rewrite Hi2.
  unfold iupdate. wstep.
  rewrite iget_slot_set_slot by (rewrite Hc2, length_insert; exact Hlt).
  wsteps. apply wpx_ret.
  destruct Hfr2 as (Hsb2 & Hf2 & Hb2 & _).
  apply (freed_write s i Hok Hwf Hrange s2);
    [exact Hinum|exact Hsb2|exact Hf2|exact Hb2|].
  intros y Hy. rewrite block_set_disk.
  rewrite block_of_insert_ne; [reflexivity|].
  intros E. apply Hy. inversion E. reflexivity.
Qed.

(** X17.  itrunc gives the blocks of a file back: for a well-formed file
    whose blocks (those of its content and its indirect block) are blocks of
    the device behind the superblock (the superblock giving a number of
    inodes that is not negative, the inode number not being negative
    either), itrunc returns, without the
    "freeing free block" halt of bfree; the cached inode then has size 0 and
    no addresses; every block the file had is zeroed and marked free in the
    bitmap, and the bits of all other blocks of the device are as they
    were. *)
Theorem itrunc_frees (ip : nat) (s : state) :
  params_ok -> (ip < length (icache s))%nat ->
  let i := iget_slot s ip in
  file_wf s i -> 0 <= sb_ninodes (sb_of s (i_dev i)) -> 0 <= i_inum i ->
  (forall x, file_block s i x -> 1 < x < sb_size (sb_of s (i_dev i))) ->
  wpx no_panic (itrunc ip)
    (fun _ s' =>
       i_size (iget_slot s' ip) = 0 /\
       (forall k, 0 <= k <= NDIRECT ->
          addr_at (i_addrs (iget_slot s' ip)) k = 0) /\
       (forall x, file_block s i x ->
          bit_in_use s' (i_dev i) x = false /\
          block s' (i_dev i) x = replicate (Z.to_nat BSIZE) 0) /\
       (forall x, 0 <= x < sb_size (sb_of s (i_dev i)) -> ~ file_block s i x ->
          bit_in_use s' (i_dev i) x = bit_in_use s (i_dev i) x)) s.
Proof.
  intros Hok Hlt i Hwf Hnin Hinum Hrange.
  pose proof (NDIRECT_nonneg Hok) as Hnd.
  pose proof (itrunc_freed ip s Hok Hlt Hwf Hnin Hinum Hrange) as Hdisk.
  eapply wpx_mono; [exact (wpx_conj _ _ _ _ _ _ (itrunc_spec ip s Hnd Hlt) Hdisk)|].
  intros u s' ((addrs' & Hc & Hz & _) & _ & Hb1 & Hb2). cbv beta.
  assert (Hs' : iget_slot s' ip = with_size 0 (with_addrs addrs' i))
    by (eapply iget_slot_insert; [exact Hc|exact Hlt]).
  rewrite Hs'.
  split; [reflexivity|]. split; [exact Hz|]. split; assumption.
Qed.

End ItruncFrees.

Lemma itrunc_frees_witness :
  exists s', itrunc (H := xv6) 0 sample_state = Ok tt s' /\
    i_size (iget_slot s' 0) = 0 /\
    bit_in_use (H := xv6) s' 1 6 = false /\
    bit_in_use (H := xv6) s' 1 7 = true.
Proof.
  assert (Hrange : forall x,
            file_block (H := xv6) sample_state (iget_slot sample_state 0) x ->
            1 < x < 64).
  { intros x [(k & Hk & Hs & Hx)|[Hne E]].
    - change (k * 512 < 48) in Hs.
      rewrite sample_root_addr in Hx by exact Hk.
      destruct (Z.eqb_spec k 0); lia.
    - vm_compute in E. contradiction. }
  assert (Hn7 : ~ file_block (H := xv6) sample_state (iget_slot sample_state 0) 7).
  { intros [(k & Hk & Hs & Hx)|[Hne E]].
    - change (k * 512 < 48) in Hs.
      rewrite sample_root_addr in Hx by exact Hk.
      destruct (Z.eqb_spec k 0); lia.
    - vm_compute in E. discriminate E. }
  assert (H6 : file_block (H := xv6) sample_state (iget_slot sample_state 0) 6).
  { left. exists 0. split; [lia|]. split; [reflexivity|reflexivity]. }
  assert (Hlt : (0 < length (icache sample_state))%nat) by (vm_compute; lia).
  assert (Hnin : 0 <= sb_ninodes (sb_of (H := xv6) sample_state
                                    (i_dev (iget_slot sample_state 0))))
    by (vm_compute; discriminate).
  assert (Hinum : 0 <= i_inum (iget_slot sample_state 0))
    by (vm_compute; discriminate).
  pose proof (itrunc_frees (H := xv6) 0 sample_state xv6_ok Hlt sample_root_wf
                Hnin Hinum Hrange) as Hwp.
  apply wpx_no_panic_ok in Hwp.
  destruct Hwp as ([] & s' & Heq & Hsz & _ & Hfree & Hkeep).
  exists s'. split; [exact Heq|]. split; [exact Hsz|].
  split; [exact (proj1 (Hfree 6 H6))|].
  change (i_dev (iget_slot sample_state 0)) with 1 in Hkeep.
  rewrite Hkeep; [vm_compute; reflexivity| |exact Hn7].
  change (sb_size (sb_of (H := xv6) sample_state 1)) with 64. lia.
Defined.
(** ** namei: a path of one component *)

Section SameFile.
Context `{Params}.
Variables (s s' : state) (i i' : inode).
Hypothesis Hd : disk s' = disk s.
Hypothesis Hdev : i_dev i' = i_dev i.
Hypothesis Hsz : i_size i' = i_size i.
Hypothesis Hadd : i_addrs i' = i_addrs i.

Lemma block_same (dev x : Z) : block s' dev x = block s dev x.
Proof. unfold block. rewrite Hd. reflexivity. Qed.

Lemma block_addr_same (k : Z) : block_addr s' i' k = block_addr s i k.
Proof. unfold block_addr. rewrite Hadd, Hdev, block_same. reflexivity. Qed.

Lemma dir_block_same (k : Z) : dir_block s' i' k = dir_block s i k.
Proof.
  unfold dir_block. rewrite block_addr_same, Hdev, block_same. reflexivity.
Qed.

Lemma dir_find_same (fuel : nat) (name : list Z) :
  forall j, dir_find fuel s' i' name j = dir_find fuel s i name j.
Proof.
  induction fuel as [|fuel IH]; intros j; [reflexivity|].
  simpl. rewrite Hsz, dir_block_same.
  destruct (j * BSIZE <? i_size i); [|reflexivity].
  destruct (dirlookup_block _ _ _) as [[o n]|]; [reflexivity|apply IH].
Qed.

Lemma no_holes_same : no_holes s i -> no_holes s' i'.
Proof.
  intros Hn bn Hb Hs. rewrite block_addr_same.
  apply Hn; [exact Hb|]. rewrite <- Hsz. exact Hs.
Qed.

End SameFile.

Lemma wpx_change_state {A} P (c c' : M A) Q s s' :
  c s = c' s' -> wpx P c' Q s' -> wpx P c Q s.
Proof. unfold wpx. intros ->. exact (fun h => h). Qed.

Lemma iget_slot_other (s : state) (c : list inode) (ip jp : nat) (x : inode) :
  icache s = <[ip := x]> c -> ip <> jp ->
  iget_slot s jp = default inode0 (c !! jp).
Proof.
  intros Hc Hne. unfold iget_slot. rewrite Hc.
  rewrite list_lookup_insert_ne by exact Hne. reflexivity.
Qed.

Lemma unlocked_again (i : inode) (m : Z) :
  Z.land (i_flags i) m = 0 ->
  with_ref (i_ref i + 1 - 1)
    (with_flags (Z.land (Z.lor (i_flags i) m) (Z.lnot m))
       (with_flags (Z.lor (i_flags i) m) (with_ref (i_ref i + 1) i))) = i.
Proof.
  intros Hm. rewrite (land_lor_lnot _ _ Hm).
  destruct i; unfold with_ref, with_flags; simpl. f_equal; lia.
Qed.

Section Namei.
Context `{Params}.

Lemma iunlock_eq (ip : nat) (s : state) :
  let i := iget_slot s ip in
  Z.land (i_flags i) I_BUSY <> 0 -> 1 <= i_ref i ->
  iunlock ip s
  = Ok tt (add_event EvRelease (add_event (EvWakeup ip)
      (set_slot ip (with_flags (Z.land (i_flags i) (Z.lnot I_BUSY)) i)
         (add_event EvAcquire s)))).
Proof.
  intros i Hb Hr. unfold iunlock, bind, rd, id, log, modify_inode. fold i.
  apply Z.eqb_neq in Hb. rewrite Hb.
  replace (i_ref i <? 1) with false by lia. reflexivity.
Qed.

(** ilock of a loaded inode that is not busy only sets I_BUSY. *)
Lemma ilock_valid_eq (ip : nat) (s : state) :
  params_ok ->
  let i := iget_slot s ip in
  1 <= i_ref i -> Z.land (i_flags i) I_BUSY = 0 ->
  Z.land (i_flags i) I_VALID <> 0 ->
  ilock ip s
  = Ok tt (add_event EvRelease
      (set_slot ip (with_flags (Z.lor (i_flags i) I_BUSY) i)
         (add_event EvAcquire s))).
Proof.
  intros Hok i Hr Hnb Hv. pose proof (ref_in_cache s ip Hr) as Hlt.
  destruct (I_BUSY_bit Hok) as (kb & Hkb & Eb).
  destruct (I_VALID_bit Hok) as (kv & Hkv & Ev).
  pose proof (flags_differ Hok) as Hdiff.
  assert (Hbv : Z.land I_BUSY I_VALID = 0).
  { rewrite Eb, Ev. apply land_pow2_distinct; [lia|lia|].
    intros ->. apply Hdiff. congruence. }
  set (ib := with_flags (Z.lor (i_flags i) I_BUSY) i).
  set (s1 := add_event EvRelease (set_slot ip ib (add_event EvAcquire s))).
  assert (Hs1 : iget_slot s1 ip = ib)
    by (apply iget_slot_set_slot; exact Hlt).
  assert (Hv1 : Z.land (i_flags ib) I_VALID <> 0).
  { unfold ib. simpl. rewrite Z.land_lor_distr_l, Hbv, Z.lor_0_r. exact Hv. }
  unfold ilock, bind, rd, log, modify_inode. fold i.
  replace (i_ref i <? 1) with false by lia.
  change (iget_slot (add_event EvAcquire s) ip) with i.
  apply Z.eqb_eq in Hnb. rewrite Hnb. cbv beta iota delta [negb].
  change (iget_slot (add_event EvAcquire s) ip) with i.
  fold ib. fold s1. rewrite Hs1.
  apply Z.eqb_neq in Hv1. rewrite Hv1. reflexivity.
Qed.

(** iunlockput of a locked inode that has a further reference: the lock is
    given back and the count goes down by one. *)
Lemma iunlockput_plain (dp : nat) (s : state) :
  let j := iget_slot s dp in
  (dp < length (icache s))%nat ->
  Z.land (i_flags j) I_BUSY <> 0 -> 2 <= i_ref j ->
  exists s', iunlockput dp s = Ok tt s' /\ disk s' = disk s /\
    cwd s' = cwd s /\
    icache s'
    = <[dp := with_ref (i_ref j - 1)
                (with_flags (Z.land (i_flags j) (Z.lnot I_BUSY)) j)]> (icache s).
Proof.
  intros j Hlt Hb Hr.
  set (ju := with_flags (Z.land (i_flags j) (Z.lnot I_BUSY)) j).
  set (su := add_event EvRelease (add_event (EvWakeup dp)
               (set_slot dp ju (add_event EvAcquire s)))).
  assert (Hu : iunlock dp s = Ok tt su) by (apply iunlock_eq; [exact Hb|fold j; lia]).
  assert (Hsu : iget_slot su dp = ju) by (apply iget_slot_set_slot; exact Hlt).
  assert (Hnl : ~ last_ref_unlinked (iget_slot su dp)).
  { rewrite Hsu. apply not_last_ref. left. unfold ju. simpl. lia. }
  eexists. split.
  { unfold iunlockput, bind. rewrite Hu. apply iput_plain_eq. exact Hnl. }
  split; [reflexivity|]. split; [reflexivity|].
  rewrite Hsu. autorewrite with st. unfold su. autorewrite with st.
  rewrite list_insert_insert_eq. reflexivity.
Qed.

(** The first step of namex. *)
Lemma walk_start_eq (path : list Z) (dp : nat) (s : state) :
  walk_start path s dp ->
  (if deref path =? slash then iget ROOTDEV ROOTINO
   else s0 <- get_state ;; idup (cwd s0)) s
  = Ok dp (add_event EvRelease
      (set_slot dp (with_ref (i_ref (iget_slot s dp) + 1) (iget_slot s dp))
         (add_event EvAcquire s))).
Proof.
  unfold walk_start. destruct (deref path =? slash).
  - intros [Hc Hfirst].
    assert (Hl : icache s !! dp = Some (iget_slot s dp)).
    { unfold iget_slot in *. destruct (icache s !! dp) eqn:E; [reflexivity|].
      simpl in Hc. discriminate Hc. }
    assert (Hscan : fst (iget_scan (icache s) 0 ROOTDEV ROOTINO None) = Some dp).
    { apply (iget_scan_first ROOTDEV ROOTINO (icache s) 0 None dp _ Hl Hc).
      intros jp i' Hj Hl'. rewrite <- (Hfirst jp Hj).
      unfold iget_slot. rewrite Hl'. reflexivity. }
    unfold iget, bind, log, get_state.
    change (icache (add_event EvAcquire s)) with (icache s).
    destruct (iget_scan (icache s) 0 ROOTDEV ROOTINO None) as [a b].
    simpl in Hscan. subst a. reflexivity.
  - intros Hcwd. unfold bind, get_state, idup, log, modify_inode, ret.
    rewrite Hcwd. reflexivity.
Qed.


End Namei.

(** ** iput: the release of the last reference gives the blocks back *)

Lemma sample_orphan_addr (k : Z) :
  0 <= k ->
  block_addr (H := xv6) sample_state (iget_slot sample_state 1) k
  = if k =? 0 then 8 else 0.
Proof.
  intros Hk. unfold block_addr.
  change (@NDIRECT xv6) with 12.
  change (i_addrs (iget_slot sample_state 1)) with (8 :: replicate 12 0).
  destruct (k <? 12) eqn:E.
  - destruct (k =? 0) eqn:E0.
    + apply Z.eqb_eq in E0. subst k. reflexivity.
    + unfold addr_at. destruct (Z.to_nat k) as [|m] eqn:Em; [lia|].
      change (default 0 (replicate 12 0 !! m) = 0).
      destruct (replicate 12 0 !! m) as [z|] eqn:El; [|reflexivity].
      apply lookup_replicate in El. destruct El as [-> _]. reflexivity.
  - destruct (k =? 0) eqn:E0; [lia|]. reflexivity.
Qed.

Lemma sample_orphan_wf :
  file_wf (H := xv6) sample_state (iget_slot sample_state 1).
Proof.
  constructor.
  - reflexivity.
  - vm_compute. split; discriminate.
  - intros k Hk. rewrite sample_orphan_addr by lia.
    change (i_size (iget_slot sample_state 1)) with 512.
    change (@BSIZE xv6) with 512.
    destruct (k =? 0) eqn:E0; split; intros; lia.
  - intros j k Hj Hk Hjs Hks _.
    change (i_size (iget_slot sample_state 1)) with 512 in *.
    change (@BSIZE xv6) with 512 in *. lia.
  - intros k Hk Hks.
    change (i_size (iget_slot sample_state 1)) with 512 in *.
    change (@BSIZE xv6) with 512 in *.
    assert (k = 0) by lia. subst k. rewrite sample_orphan_addr by lia. simpl.
    split; [vm_compute; reflexivity|].
    split; [apply sample_not_bitmap; lia|].
    split; vm_compute; discriminate.
  - intros Hne. exfalso. apply Hne. reflexivity.
  - split; [vm_compute; reflexivity|].
    apply sample_not_bitmap. vm_compute. discriminate.
Qed.

Section IputRelease.
Context `{Params}.

(** The release that reclaims the inode of a well-formed file frees the
    blocks of the file. *)
Lemma iput_reclaim_freed (ip : nat) (s : state) :
  params_ok -> (ip < length (icache s))%nat ->
  let i := iget_slot s ip in
  last_ref_unlinked i ->
  file_wf s i -> 0 <= sb_ninodes (sb_of s (i_dev i)) -> 0 <= i_inum i ->
  (forall x, file_block s i x -> 1 < x < sb_size (sb_of s (i_dev i))) ->
  wpx any_panic (iput ip)
    (fun _ s' =>
       (forall x, file_block s i x ->
          bit_in_use s' (i_dev i) x = false /\
          block s' (i_dev i) x = replicate (Z.to_nat BSIZE) 0) /\
       (forall x, 0 <= x < sb_size (sb_of s (i_dev i)) -> ~ file_block s i x ->
          bit_in_use s' (i_dev i) x = bit_in_use s (i_dev i) x)) s.
Proof.
  intros Hok Hlt i Hlast Hwf Hnin Hinum Hrange.
  pose proof (NDIRECT_nonneg Hok) as Hnd.
  unfold iput. wstep. wstep.
  change (iget_slot (add_event EvAcquire s) ip) with i. cbv beta. unfold id.
  rewrite (proj2 (last_ref_unlinked_test i) Hlast).
  apply wpx_bind.
  destruct (Z.land (i_flags i) I_BUSY =? 0) eqn:Eb; simpl;
    [|apply wpx_panic; exact I].
  wstep. change (iget_slot (add_event EvAcquire s) ip) with i.
  wstep.
  set (ib := with_flags (Z.lor (i_flags i) I_BUSY) i).
  set (s0 := add_event EvRelease (set_slot ip ib (add_event EvAcquire s))).
  assert (Hi0 : iget_slot s0 ip = ib) by (apply (iget_slot_set_slot s); exact Hlt).
  assert (Hlt0 : (ip < length (icache s0))%nat)
    by (unfold s0; autorewrite with st; rewrite length_insert; exact Hlt).
  (* the file is the same after the flag is set *)
  assert (Hwf0 : file_wf s0 ib).
  { destruct Hwf as [a b c d e f g].
    constructor; [exact a|exact b|exact c|exact d|exact e|exact f|exact g]. }
  pose proof (itrunc_freed ip s0 Hok Hlt0) as Hfr. cbv zeta in Hfr.
  rewrite Hi0 in Hfr. specialize (Hfr Hwf0 Hnin Hinum Hrange).
  pose proof (itrunc_spec ip s0 Hnd Hlt0) as Hsp.
  apply wpx_bind.
  eapply wpx_mono;
    [eapply wpx_weaken;
       [exact (wpx_conj _ _ _ _ _ _ Hsp Hfr)|intros msg sx Hx; exact I]|].
  intros u s1 ((addrs1 & Hc1 & _) & Hsb1 & Hf1 & Hb1). cbv beta.
  rewrite Hi0 in Hc1.
  change (sb_of s1 (i_dev i) = sb_of s (i_dev i)) in Hsb1.
  change (forall x, file_block s i x ->
            bit_in_use s1 (i_dev i) x = false /\
            block s1 (i_dev i) x = replicate (Z.to_nat BSIZE) 0) in Hf1.
  change (forall x, 0 <= x < sb_size (sb_of s (i_dev i)) -> ~ file_block s i x ->
            bit_in_use s1 (i_dev i) x = bit_in_use s (i_dev i) x) in Hb1.
  assert (Hi1 : iget_slot s1 ip = with_size 0 (with_addrs addrs1 ib))
    by (eapply iget_slot_insert; [exact Hc1|exact Hlt0]).
  assert (Hlen1 : (ip < length (icache s1))%nat)
    by (rewrite Hc1, length_insert; exact Hlt0).
  wstep. rewrite Hi1.
  set (i2 := with_type 0 (with_size 0 (with_addrs addrs1 ib))).
  set (s2 := set_slot ip i2 s1).
  assert (Hi2 : iget_slot s2 ip = i2) by (apply iget_slot_set_slot; exact Hlen1).
  apply wpx_bind. eapply wpx_eq; [apply iupdate_eq|].
  unfold iupdate_state. rewrite Hi2.
  set (s3 := set_disk _ _).
  assert (H3 : sb_of s3 (i_dev i) = sb_of s (i_dev i) /\
    (forall x, file_block s i x ->
       bit_in_use s3 (i_dev i) x = false /\
       block s3 (i_dev i) x = replicate (Z.to_nat BSIZE) 0) /\
    (forall x, 0 <= x < sb_size (sb_of s (i_dev i)) -> ~ file_block s i x ->
       bit_in_use s3 (i_dev i) x = bit_in_use s (i_dev i) x)).
  { apply (freed_write s i Hok Hwf Hrange s1 s3 Hinum Hsb1 Hf1 Hb1).
    intros y Hy. unfold s3. rewrite block_set_disk.
    rewrite block_of_insert_ne; [reflexivity|].
    intros E. apply Hy. inversion E. reflexivity. }
  destruct H3 as (_ & Hf3 & Hb3).
  clearbody s3. wsteps. wend.
  split; [exact Hf3|exact Hb3].
Qed.

(** C1.  For every slot of the cache, a call of iput that does not halt the
    kernel returns with the reference count decremented.  When the call
    releases the last reference (ref = 1) to a loaded inode (I_VALID set)
    whose link count is 0, the inode was not busy, and the events are, in
    this order: the critical section is left, itrunc runs (once; it persists
    the truncated inode under its old type), iupdate stores type 0 (the one
    reset of the on-disk type when the old type was not 0 already), the
    critical section is entered again, the flags are cleared and the waiters
    woken, and only then the reference count is decremented.  Afterwards the
    on-disk record has type 0 and size 0, and the cached copy has size 0, no
    flags and no block addresses.  The truncation gives the content back:
    when the file is well formed and its blocks (those of its content and
    its indirect block) are blocks of the device behind the superblock, every
    block the file had is zeroed and marked free in the bitmap afterwards,
    and the bits of all other blocks of the device are as they were.  In
    every other case the call only decrements the reference count inside the
    critical section: no truncation, no write to the disk. *)
Theorem iput_release (ip : nat) (s : state) :
  params_ok -> (ip < length (icache s))%nat ->
  (forall msg s', iput ip s <> Panic msg s') ->
  let i := iget_slot s ip in
  exists s',
    iput ip s = Ok tt s' /\
    i_ref (iget_slot s' ip) = i_ref i - 1 /\
    (last_ref_unlinked i ->
       Z.land (i_flags i) I_BUSY = 0 /\
       trace s' = trace s ++
         [EvAcquire; EvRelease; EvItrunc ip; EvIupdate ip (i_type i);
          EvIupdate ip 0; EvAcquire; EvWakeup ip; EvRefDec ip; EvRelease] /\
       count_events is_itrunc (trace s') = S (count_events is_itrunc (trace s)) /\
       (i_type i <> 0 ->
          count_events is_type_reset (trace s')
          = S (count_events is_type_reset (trace s))) /\
       i_type (disk_inode s' (i_dev i) (i_inum i)) = 0 /\
       i_size (disk_inode s' (i_dev i) (i_inum i)) = 0 /\
       i_flags (iget_slot s' ip) = 0 /\
       i_size (iget_slot s' ip) = 0 /\
       (forall k, 0 <= k <= NDIRECT -> addr_at (i_addrs (iget_slot s' ip)) k = 0) /\
       (file_wf s i -> 0 <= sb_ninodes (sb_of s (i_dev i)) -> 0 <= i_inum i ->
        (forall x, file_block s i x -> 1 < x < sb_size (sb_of s (i_dev i))) ->
        (forall x, file_block s i x ->
           bit_in_use s' (i_dev i) x = false /\
           block s' (i_dev i) x = replicate (Z.to_nat BSIZE) 0) /\
        (forall x, 0 <= x < sb_size (sb_of s (i_dev i)) ->
           ~ file_block s i x ->
           bit_in_use s' (i_dev i) x = bit_in_use s (i_dev i) x))) /\
    (~ last_ref_unlinked i ->
       trace s' = trace s ++ [EvAcquire; EvRefDec ip; EvRelease] /\
       disk s' = disk s /\
       icache s' = <[ip := with_ref (i_ref i - 1) i]> (icache s)).
Proof.
  intros Hok Hlt Hnp i.
  destruct ((i_ref i =? 1) && negb (Z.land (i_flags i) I_VALID =? 0)
            && (i_nlink i =? 0)) eqn:E.
  - apply last_ref_unlinked_test in E.
    destruct (wpx_returns _ _ _ _ (iput_reclaim_spec ip s Hok Hlt E) Hnp)
      as ([] & s' & Heq & Hb & (addrs' & Hc & Hz) & Ht & Hty & Hsz).
    fold i in Hb, Hc, Ht, Hty, Hsz.
    assert (Hi' : iget_slot s' ip
                  = with_ref 0 (with_flags 0 (with_type 0
                      (with_size 0 (with_addrs addrs' i)))))
      by (eapply iget_slot_insert; eauto).
    exists s'. split; [exact Heq|]. split.
    { rewrite Hi'. simpl. destruct E as (-> & _). reflexivity. }
    split; [|intros Hn; contradiction].
    intros _. split; [exact Hb|]. split; [exact Ht|].
    split; [rewrite Ht, count_events_app; unfold count_events at 2; simpl; lia|].
    split.
    { intros Hty0. rewrite Ht, count_events_app.
      unfold count_events at 2. simpl.
      destruct (i_type i) eqn:Et; [contradiction| |]; simpl; lia. }
    split; [exact Hty|]. split; [exact Hsz|].
    split; [rewrite Hi'; reflexivity|]. split; [rewrite Hi'; reflexivity|].
    split; [rewrite Hi'; exact Hz|].
    intros Hwf Hnin Hinum Hrange.
    exact (wpx_ok _ _ _ _ _ _ Heq
             (iput_reclaim_freed ip s Hok Hlt E Hwf Hnin Hinum Hrange)).
  - assert (Hn : ~ last_ref_unlinked i).
    { intros Hl. apply last_ref_unlinked_test in Hl. fold i in Hl. congruence. }
    rewrite (iput_plain_eq ip s Hn). fold i.
    eexists. split; [reflexivity|]. split.
    { autorewrite with st. rewrite iget_slot_set_slot by exact Hlt. reflexivity. }
    split; [intros Hl; contradiction|].
    intros _. autorewrite with st. rewrite <- !app_assoc. auto.
Qed.

End IputRelease.

Lemma iput_release_witness :
  exists s',
    iput (H := xv6) 1 sample_state = Ok tt s' /\
    i_ref (iget_slot s' 1) = 0 /\
    trace s' =
      [EvAcquire; EvRelease; EvItrunc 1; EvIupdate 1 2; EvIupdate 1 0;
       EvAcquire; EvWakeup 1; EvRefDec 1; EvRelease] /\
    bit_in_use (H := xv6) s' 1 8 = false /\
    block (H := xv6) s' 1 8 = replicate 512 0 /\
    bit_in_use (H := xv6) s' 1 7 = true.
Proof.
  assert (Hrange : forall x,
            file_block (H := xv6) sample_state (iget_slot sample_state 1) x ->
            1 < x < 64).
  { intros x [(k & Hk & Hs & Hx)|[Hne E]].
    - change (k * 512 < 512) in Hs.
      rewrite sample_orphan_addr in Hx by exact Hk.
      destruct (Z.eqb_spec k 0); lia.
    - vm_compute in E. contradiction. }
  assert (Hn7 : ~ file_block (H := xv6) sample_state (iget_slot sample_state 1) 7).
  { intros [(k & Hk & Hs & Hx)|[Hne E]].
    - change (k * 512 < 512) in Hs.
      rewrite sample_orphan_addr in Hx by exact Hk.
      destruct (Z.eqb_spec k 0); lia.
    - vm_compute in E. discriminate E. }
  assert (H8 : file_block (H := xv6) sample_state (iget_slot sample_state 1) 8).
  { left. exists 0. split; [lia|]. split; [reflexivity|reflexivity]. }
  assert (Hnin : 0 <= sb_ninodes (sb_of (H := xv6) sample_state
                                    (i_dev (iget_slot sample_state 1))))
    by (vm_compute; discriminate).
  assert (Hinum : 0 <= i_inum (iget_slot sample_state 1))
    by (vm_compute; discriminate).
  destruct (iput_release (H := xv6) 1 sample_state xv6_ok)
    as (s' & He & Hr & Hlast & _).
  - vm_compute. lia.
  - intros msg s' Heq. vm_compute in Heq. discriminate.
  - exists s'. split; [exact He|]. split; [exact Hr|].
    destruct Hlast as (_ & Ht & _ & _ & _ & _ & _ & _ & _ & Hfree).
    + vm_compute. intuition discriminate.
    + split; [exact Ht|].
      destruct (Hfree sample_orphan_wf Hnin Hinum Hrange) as [Hf Hkeep].
      split; [exact (proj1 (Hf 8 H8))|]. split; [exact (proj2 (Hf 8 H8))|].
      change (i_dev (iget_slot sample_state 1)) with 1 in Hkeep.
      rewrite Hkeep; [vm_compute; reflexivity| |exact Hn7].
      change (sb_size (sb_of (H := xv6) sample_state 1)) with 64. lia.
Defined.
